(* ===== verification/_CoqProject ===== *)
-Q . S2P
Prelude.v
Status.v
Effect.v
Slice.v
Coding.v
Format.v
Crc32.v
Posix.v
Filename.v
Wal.v
SkipList.v
Entry.v
Kept.v
Iterator.v
Memtable.v
MergingIterator.v
DBIterator.v
Block.v
BlockCache.v
BloomFilter.v
Env.v
Options.v
SSTableBuilder.v
SSTableReader.v
TwoLevelIterator.v
VersionEdit.v
Version.v
Storage.v
VersionSet.v
Manifest.v
NewManifest.v
Compaction.v
DBImpl.v
Directory.v
Flush.v
Outputs.v
MergeLoop.v
Replacement.v
Compacting.v
CompactionEdit.v
Compacted.v
Database.v
CompactDatabase.v
FullScan.v
Recovery.v
Reopen.v
OpenDB.v
Refinement.v
Background.v
