(* ===== verification/Prelude.v ===== *)
(** * Strata: a verification library for the LSM storage engine

    Strata is an embedded key-value store.  A write is appended to a write-ahead log and
    added to a memtable (a skip list); a full memtable is switched for a new one and
    flushed by a background thread into a sorted table file of level 0; the background
    thread also merges tables into deeper levels.  A manifest, a log of version edits,
    says which tables make up the database; CURRENT names the manifest.  A read asks the
    memtable, the immutable memtable and the tables, newest first; an iterator merges
    them.  [DB::Open] replays the manifest and the logs.

    ** Files and the code they model

    - [Prelude] shared notation, bytes, machine integers, tactics, lists, hints.
    - [Status], [Slice], [Coding], [Format], [Options]: include/strata/status.h, slice.h,
      options.h; src/coding.h, src/format.h.
    - [Effect] the state and error monad: a computation takes a state and returns a value
      and a state, or nothing when the C++ code has no defined behaviour (an access out of
      an object, an uncaught exception) or the model's fuel ends.
    - [Crc32] src/crc32.cc; [Filename] src/filename.h; [BloomFilter] src/bloom_filter.cc.
    - [Posix] the system calls over a world of directory entries, inodes and descriptors;
      every call takes its outcome (full, short, failed) from a schedule in the world.
    - [Env] src/env.h; [Wal] src/wal.cc ([WalWriter], [WalReader]).
    - [SkipList] src/skiplist.h, with [Insert] store by store; [Entry] and [Memtable]
      src/memtable.cc.
    - [Iterator] include/strata/iterator.h and src/iterator_internal.h as type classes of
      operations, and the contracts [ForwardIterator] and [BackwardIterator] against which
      clients are verified and which the memtable, block and table iterators discharge;
      [MergingIterator] and [DBIterator] src/merging_iterator.cc, src/db_iterator.cc, over
      any implementation of the interface.
    - [Block] src/block.cc; [BlockCache] src/block_cache.cc; [SSTableBuilder]
      src/sstable_builder.cc; [SSTableReader] and [TwoLevelIterator] src/sstable_reader.cc.
    - [VersionEdit], [Version], [VersionSet] src/version_set.cc; [Compaction]
      src/compaction.cc; [DBImpl] src/db_impl.cc.

    The modules keep the names of the classes and the definitions those of the methods; a
    method's object is an argument and a result, an out-parameter is a result.  A loop
    that is not structural has fuel.

    ** What is proved

    - Bytes: the checksum is the CRC-32 and detects bursts, the encodings round-trip, the
      filter has no false negatives, decoders do not read out of bounds on any input.
    - Log: appending under any failures of the calls leaves a log that replays to the old
      records, with the new one if it was acknowledged.
    - Memory: the skip list keeps its invariant, at every store of [Insert], so that a
      concurrent reader always sees a list; a memtable answers as the log of its writes.
    - Tables: entries built into blocks and tables read back by [Get] and by iterators; the
      cache is the reference LRU map; [Version::Get] finds the newest version.
    - Iterators: the merging iterator is a cursor over the sorted merge, the database
      iterator a cursor over the visible rows.
    - Versions ([Storage], [VersionSet], [Manifest], [NewManifest]): [LogAndApply] is atomic
      under failures; [Storage] has the invariant of the table files, the registry that
      says which file holds which table, and what calls of other components leave alone.
    - Compactions: [Kept] is the reference definition of what the merge loop keeps, and
      shows that replacing entries by it changes no answer; [Outputs] and [MergeLoop] show
      that the builders write exactly that while the iterators read; [Replacement],
      [Compacting], [CompactionEdit] that the choice, the edit and the sorting of the levels
      put the outputs where a search expects them; [Compacted] puts [DoCompaction] together
      and [CompactDatabase] shows that it keeps the invariant and the map of the database.
    - The database ([Directory], [Flush], [Database], [FullScan], [Recovery], [Reopen],
      [OpenDB], [Refinement]): the invariant [db_at] ties memtables, logs, manifest and
      tables together; every operation keeps it; [Refinement] shows that the runs of the
      database, with flushes, compactions, crashes and reopenings, are runs of a finite map,
      that iterating gives the map, that a waiting write returns after a flush, that a
      compaction cannot be seen, and that only obsolete tables are removed; [Background]
      that the background thread comes to rest.
    - Defects: theorems that say when the code does what it does not mean to: which payloads
      make [ReadRecord] read out of bounds and which restart points [Seek], which log
      records are acknowledged and cannot be read, when [Finish] loses an error,
      [FlushMemTable] loses writes, [Get] misses an older version, [Prev] goes forward, and
      a block on which [SeekToLast] does not end.

    ** Bounds and fuel

    Integers have their width: [u32] and [u64] wrap.  Fuel is computed from the data (the
    length of a file, the number of entries or blocks), and the theorems state that the
    code returns.  Theorems on tables take up to 16 MiB of encoded entries, far from the
    reader's block limit of 64 MiB; [options_ok] bounds the write buffer and the table size
    by 8 MiB, blocks by 2 MiB and the filter by 256 bits per key, and [write_ok] a key and
    its value by 4 MiB together, so that every memtable and every output of a compaction
    fits; [room] says that sequence numbers stay below 2^56, file numbers below 2^64, and
    that the list of tables fits in a manifest record; [compaction_room] bounds the inputs
    of a compaction by 30 MiB, so that its edit fits in a record.

    The theorems of [Refinement] and [Background] are on the states that are [reached]: the
    run starts in an empty directory, no system call fails (but the process may die between
    any two steps and in the middle of an append or of writing a table), every step is
    [within] the bounds on writes and compactions above, and [FlushMemTable] is not called
    while an immutable memtable is pending, since the code then drops it
    ([flush_memtable_loses_writes]).  Failing calls are in the theorems of [Wal], [Env],
    [Manifest], [SSTableBuilder] and [SSTableReader].

    ** What is not modelled

    - Threads: each critical section of [DBImpl] is one step and a wait on a condition
      variable gives the lock back; the interleaving is the order of the steps.  The
      memory model of the skip list's atomics is sequential consistency.
    - Lifetimes: a [shared_ptr] is a value; a descriptor held by a reader stays open.
    - [ToString] beyond message fragments, the benchmark and the test programs.
    - Loss of data that was written but not synced: a crash is that of the process, as in
      tests/crash_writer.cc; the results of the sync calls are modelled. *)

From Corelib Require Export ssreflect.
From Stdlib Require Export ZArith Lia.
From Stdlib Require Export Strings.Byte.
From Stdlib Require Import Strings.String.
From stdpp Require Export prelude list sorting strings.


Declare Scope strata_scope.
Delimit Scope strata_scope with strata.
#[global] Open Scope general_if_scope.
#[export] Set Warnings "-clear-no-such-hyp".
Open Scope Z_scope.

(** ** Bytes *)

(** A C++ [char] / [uint8_t] is a [byte]; a [std::string], a [Slice] and a file
    are lists of bytes. *)
Abbreviation bytes := (list Byte.byte).

(** [static_cast<uint8_t>(c)] seen as an integer. *)
Definition Z_of_byte (b : byte) : Z := Z.of_N (Byte.to_N b).

(** Truncating conversion of an integer to one byte. *)
Definition byte_of_Z (z : Z) : byte :=
  match Byte.of_N (Z.to_N (z mod 256)) with Some b => b | None => Byte.x00 end.

(** A string literal of the source. *)
Definition str (s : string) : bytes := String.list_byte_of_string s.

(** [size()] of a string, as an integer. *)
Definition size_of (s : bytes) : Z := Z.of_nat (List.length s).

(** [std::string(data + off, len)]: the [len] bytes from offset [off] (clamped to
    the string, which keeps evaluation proportional to it). *)
Definition sub_bytes (s : bytes) (off len : Z) : bytes :=
  take (Z.to_nat (Z.min len (size_of s))) (drop (Z.to_nat (Z.min off (size_of s))) s).

(** ** Machine integers *)

Definition u8 (z : Z) : Z := z mod 2 ^ 8.
Definition u32 (z : Z) : Z := z mod 2 ^ 32.
Definition u64 (z : Z) : Z := z mod 2 ^ 64.

(** A value of type [uint32_t] converted to [int]. *)
Definition to_int (z : Z) : Z := if z <? 2 ^ 31 then z else z - 2 ^ 32.

Notation "a +₃₂ b" := (u32 (a + b)) (at level 50, left associativity) : strata_scope.
Notation "a +₆₄ b" := (u64 (a + b)) (at level 50, left associativity) : strata_scope.
Notation "a -₆₄ b" := (u64 (a - b)) (at level 50, left associativity) : strata_scope.

#[global] Instance byte_eq_dec : EqDecision byte.
Proof. intros a b. destruct (Byte.eqb a b) eqn:E; [left|right].
  - by apply Byte.byte_dec_bl.
  - intros ->. by rw Byte.byte_dec_lb in E.
Defined.

(** Split on the boolean tests of the source, turning them into propositions. *)
Ltac case_bool :=
  match goal with
  | |- context [?a <? ?b] => destruct (Z.ltb_spec a b)
  | |- context [?a <=? ?b] => destruct (Z.leb_spec a b)
  | |- context [?a =? ?b] => destruct (Z.eqb_spec a b)
  | |- context [?a >? ?b] => rw (Z.gtb_ltb a b)
  | |- context [?a >=? ?b] => rw (Z.geb_leb a b)
  end.

(** ** Lemmas on bytes *)

Lemma Z_of_byte_range b : 0 <= Z_of_byte b < 256.
Proof. rw /Z_of_byte. pose proof (Byte.to_N_bounded b). lia. Qed.

Lemma Z_of_byte_of_Z z : Z_of_byte (byte_of_Z z) = z mod 256.
Proof.
  rw /byte_of_Z /Z_of_byte.
  pose proof (Z.mod_pos_bound z 256 ltac:(lia)).
  destruct (Byte.of_N (Z.to_N (z mod 256))) as [b|] eqn:E.
  - apply Byte.to_of_N in E. rw E. lia.
  - apply Byte.of_N_None_iff in E. lia.
Qed.

Lemma Z_of_byte_inj a b : Z_of_byte a = Z_of_byte b -> a = b.
Proof.
  rw /Z_of_byte => H. apply N2Z.inj in H.
  pose proof (Byte.of_to_N a) as Ha. pose proof (Byte.of_to_N b) as Hb.
  rw H Hb in Ha. congruence.
Qed.

Lemma byte_of_Z_of_byte b : byte_of_Z (Z_of_byte b) = b.
Proof.
  apply Z_of_byte_inj. rw Z_of_byte_of_Z.
  pose proof (Z_of_byte_range b). by rw Z.mod_small.
Qed.

(** ** Lemmas on lengths, slices and machine integers *)

Lemma size_of_nonneg s : 0 <= size_of s.
Proof. rw /size_of. lia. Qed.

Lemma size_of_app a b : size_of (a ++ b) = size_of a + size_of b.
Proof. rw /size_of length_app. lia. Qed.

Lemma size_of_cons x a : size_of (x :: a) = 1 + size_of a.
Proof. rw /size_of /=. lia. Qed.

Lemma size_of_nil : size_of [] = 0.
Proof. done. Qed.

Lemma size_of_take_drop n (s : bytes) : size_of (take n s) + size_of (drop n s) = size_of s.
Proof. by rw -size_of_app take_drop. Qed.

Lemma sub_bytes_eq s off len : sub_bytes s off len = take (Z.to_nat len) (drop (Z.to_nat off) s).
Proof.
  rw /sub_bytes /size_of. destruct (Z.le_gt_cases off (Z.of_nat (length s))).
  - rw (Z.min_l off) //. destruct (Z.le_gt_cases len (Z.of_nat (length s))).
    + by rw Z.min_l.
    + rewrite -> !take_ge; [done|rw length_drop; lia..].
  - rewrite -> !drop_ge by lia. by rw !take_nil.
Qed.

(** The slice of a concatenation that starts in its right part. *)
Lemma sub_bytes_app_r a b off len :
  size_of a <= off -> sub_bytes (a ++ b) off len = sub_bytes b (off - size_of a) len.
Proof.
  rw !sub_bytes_eq /size_of => H.
  rw drop_app_ge; [lia|]. do 2 f_equal. lia.
Qed.

(** The slice that covers exactly the left part of a concatenation. *)
Lemma sub_bytes_app_exact a b len :
  len = size_of a -> sub_bytes (a ++ b) 0 len = a.
Proof. rw sub_bytes_eq /size_of => -> /=. by rw Nat2Z.id drop_0 take_app_length. Qed.

(** The slice that covers exactly a middle part. *)
Lemma sub_bytes_mid a b c off len :
  off = size_of a -> len = size_of b -> sub_bytes (a ++ b ++ c) off len = b.
Proof.
  move=> -> ->. rw sub_bytes_app_r; [lia|].
  rw Z.sub_diag. by apply sub_bytes_app_exact.
Qed.

(** The slice that covers exactly the right part. *)
Lemma sub_bytes_end a b off len :
  off = size_of a -> len = size_of b -> sub_bytes (a ++ b) off len = b.
Proof.
  intros H1 H2. rw -{1}(app_nil_r b). by apply sub_bytes_mid.
Qed.

Lemma sub_bytes_app_l a b off len :
  0 <= off -> 0 <= len -> off + len <= size_of a -> sub_bytes (a ++ b) off len = sub_bytes a off len.
Proof.
  rw !sub_bytes_eq /size_of => H1 H2 H3.
  rw drop_app_le; [lia|]. rw take_app_le //. rw length_drop. lia.
Qed.

Lemma size_of_sub_bytes s off len :
  0 <= off -> 0 <= len -> off + len <= size_of s -> size_of (sub_bytes s off len) = len.
Proof. rw sub_bytes_eq /size_of => H1 H2 H3. rw length_take length_drop. lia. Qed.

Lemma u8_range z : 0 <= u8 z < 2 ^ 8.
Proof. by apply Z.mod_pos_bound. Qed.

Lemma u32_range z : 0 <= u32 z < 2 ^ 32.
Proof. by apply Z.mod_pos_bound. Qed.

Lemma u64_range z : 0 <= u64 z < 2 ^ 64.
Proof. by apply Z.mod_pos_bound. Qed.

Lemma u32_small z : 0 <= z < 2 ^ 32 -> u32 z = z.
Proof. apply Z.mod_small. Qed.

Lemma u64_small z : 0 <= z < 2 ^ 64 -> u64 z = z.
Proof. apply Z.mod_small. Qed.

(** An [int] survives the conversion to [uint32_t] and back. *)
Lemma to_int_u32 z : - 2 ^ 31 <= z < 2 ^ 31 -> to_int (u32 z) = z.
Proof.
  intros Hz. rw /to_int /u32. destruct (Z.lt_ge_cases z 0).
  - rw -(Z.mod_add z 1) // Z.mod_small; [lia|]. case_bool; lia.
  - rw Z.mod_small; [lia|]. case_bool; lia.
Qed.

Lemma u32_le z : 0 <= z -> u32 z <= z.
Proof. intros. apply Z.mod_le; lia. Qed.

(** ** Lemmas on lists *)

(** An element of a duplicate-free list splits it in one way. *)
Lemma NoDup_split_unique {A} (a b c d : list A) x :
  NoDup (a ++ x :: b) -> a ++ x :: b = c ++ x :: d -> a = c /\ b = d.
Proof.
  revert c; induction a as [|y a IH]; intros [|z c] Hnd E; simplify_eq/=; auto.
  - apply NoDup_cons in Hnd as [Hn _]. destruct Hn. set_solver.
  - apply NoDup_cons in Hnd as [Hn _]. destruct Hn. set_solver.
  - apply NoDup_cons in Hnd as [_ Hnd]. destruct (IH c Hnd) as [-> ->]; auto.
Qed.

Lemma filter_all {A} (P : A -> Prop) `{!forall x, Decision (P x)} (l : list A) :
  Forall P l -> filter P l = l.
Proof. induction 1; [done|]. rw filter_cons_True //. by f_equal. Qed.

Lemma List_filter_id {A} (f : A -> bool) (l : list A) : Forall (fun x => f x = true) l -> List.filter f l = l.
Proof. induction 1 as [|x l Hx Hl IH]; simpl; [done|]. by rw Hx IH. Qed.

Lemma elem_of_List_filter {A} (f : A -> bool) (l : list A) x : x ∈ List.filter f l <-> x ∈ l /\ f x = true.
Proof. by rw !list_elem_of_In filter_In. Qed.

Lemma omap_length_le {A B} (f : A -> option B) (l : list A) : (length (omap f l) <= length l)%nat.
Proof. induction l as [|x l IH]; [done|]. rw /=. destruct (f x); [by apply le_n_S | by apply Nat.le_le_succ_r]. Qed.

Lemma existsb_false_Forall {A} (f : A -> bool) (l : list A) :
  existsb f l = false <-> Forall (fun x => f x = false) l.
Proof.
  induction l as [|x l IH]; simpl; [by rw Forall_nil|].
  by rw orb_false_iff IH Forall_cons.
Qed.

Lemma StronglySorted_lookup_lt {A} (R : A -> A -> Prop) (l : list A) (i j : nat) (x y : A) :
  StronglySorted R l -> l !! i = Some x -> l !! j = Some y -> (i < j)%nat -> R x y.
Proof.
  intros Hs Hi Hj Hlt. apply list_elem_of_split_length in Hi as (a & b & -> & ->).
  apply StronglySorted_app_1_r in Hs. apply StronglySorted_inv in Hs as [_ Hs].
  rewrite -> Forall_forall in Hs. apply Hs. rw lookup_app_r in Hj; [lia|].
  destruct (j - length a)%nat as [|m] eqn:E; [lia|]. by eapply list_elem_of_lookup_2.
Qed.

(** ** Automation *)

Create HintDb strata.
Create Rewrite HintDb strata_size.
#[export] Hint Resolve size_of_nonneg u8_range u32_range u64_range Z_of_byte_range : strata.
#[export] Hint Rewrite size_of_app size_of_cons size_of_nil : strata_size.

(** Normalise sizes and close linear goals about them. *)
Ltac size_tac :=
  autorewrite with strata_size in *;
  repeat match goal with
  | |- context [size_of ?s] => lazymatch goal with H : 0 <= size_of s |- _ => fail | _ => pose proof (size_of_nonneg s) end
  | _ : context [size_of ?s] |- _ => lazymatch goal with H : 0 <= size_of s |- _ => fail | _ => pose proof (size_of_nonneg s) end
  end; lia.

(** ** Three-way comparators *)

(** The contract of a C++ three-way comparator ([cmp_(a, b)] negative, zero or
    positive): a total preorder.  [SkipList] is a template over one. *)
Class Comparator {K : Type} (cmp : K -> K -> Z) : Prop := {
  cmp_refl a : cmp a a = 0;
  cmp_lt_gt a b : cmp a b < 0 <-> 0 < cmp b a;
  cmp_trans a b c : cmp a b < 0 -> cmp b c < 0 -> cmp a c < 0;
  cmp_eq_lt a b c : cmp a b = 0 -> cmp b c < 0 -> cmp a c < 0;
}.

Section comparator.
Context {K : Type} (cmp : K -> K -> Z) `{!Comparator cmp}.

Lemma cmp_eq_sym a b : cmp a b = 0 -> cmp b a = 0.
Proof.
  intros H. pose proof (cmp_lt_gt a b). pose proof (cmp_lt_gt b a). lia.
Qed.

Lemma cmp_lt_eq a b c : cmp a b < 0 -> cmp b c = 0 -> cmp a c < 0.
Proof.
  intros H1 H2. apply cmp_eq_sym in H2.
  destruct (Z.lt_trichotomy (cmp a c) 0) as [?|[E|E]]; [done| |].
  - apply cmp_eq_sym in E. pose proof (cmp_eq_lt _ _ _ E H1). lia.
  - apply cmp_lt_gt in E. pose proof (cmp_trans _ _ _ E H1). lia.
Qed.

Lemma cmp_eq_trans a b c : cmp a b = 0 -> cmp b c = 0 -> cmp a c = 0.
Proof.
  intros H1 H2. destruct (Z.lt_trichotomy (cmp a c) 0) as [E|[?|E]]; [|done|].
  - pose proof (cmp_eq_lt _ _ _ (cmp_eq_sym _ _ H1) E). lia.
  - apply cmp_lt_gt in E. pose proof (cmp_lt_eq _ _ _ E H1).
    apply cmp_eq_sym in H2. lia.
Qed.

Lemma cmp_le_lt_trans a b c : cmp a b <= 0 -> cmp b c < 0 -> cmp a c < 0.
Proof.
  intros H1 H2. destruct (Z.eq_dec (cmp a b) 0).
  - by eapply cmp_eq_lt.
  - eapply cmp_trans; [|done]. lia.
Qed.

Lemma cmp_lt_le_trans a b c : cmp a b < 0 -> cmp b c <= 0 -> cmp a c < 0.
Proof.
  intros H1 H2. destruct (Z.eq_dec (cmp b c) 0).
  - by eapply cmp_lt_eq.
  - eapply cmp_trans; [done|]. lia.
Qed.

Lemma cmp_le_trans a b c : cmp a b <= 0 -> cmp b c <= 0 -> cmp a c <= 0.
Proof.
  intros H1 H2. destruct (Z.eq_dec (cmp a b) 0) as [E|].
  - destruct (Z.eq_dec (cmp b c) 0) as [E'|].
    + by rw (cmp_eq_trans _ _ _ E E').
    + pose proof (cmp_eq_lt a b c E). lia.
  - pose proof (cmp_lt_le_trans a b c). lia.
Qed.

Lemma cmp_ge_le a b : 0 <= cmp a b <-> cmp b a <= 0.
Proof.
  pose proof (cmp_lt_gt a b). pose proof (cmp_lt_gt b a). lia.
Qed.

(** The strict order a comparator defines, for sortedness statements. *)
Definition cmp_lt (a b : K) : Prop := cmp a b < 0.

#[global] Instance cmp_lt_dec : RelDecision cmp_lt.
Proof. intros a b. apply Z_lt_dec. Defined.

#[global] Instance cmp_lt_transitive : Transitive cmp_lt.
Proof. intros a b c. apply cmp_trans. Qed.

#[global] Instance cmp_lt_irreflexive : Irreflexive cmp_lt.
Proof. intros a H. rw /complement /cmp_lt cmp_refl in H. lia. Qed.
End comparator.
