(* ===== verification/Status.v ===== *)
(** * Status: result values of every fallible operation

    Models [include/strata/status.h].  The message of a [Status] is kept as the
    list of fragments the source concatenates, so that the texts the C library
    supplies ([strerror]) need no definition of their own. *)

From S2P Require Import Prelude.

Module Status.

Inductive Code :=
| kOk | kNotFound | kCorruption | kNotSupported | kInvalidArgument | kIOError.

(** One operand of the [+] / [append] that builds a message. *)
Inductive fragment :=
| Lit (s : string)   (* a string literal *)
| Str (s : bytes)    (* a [std::string] variable, e.g. a file name *)
| Num (n : Z)        (* [std::to_string(n)] *)
| Errno (e : Z).     (* [strerror(errno)] *)

Record t := mk { code : Code; msg : list fragment }.

#[global] Instance Code_eq_dec : EqDecision Code.
Proof. solve_decision. Defined.

#[global] Instance fragment_eq_dec : EqDecision fragment.
Proof. solve_decision. Defined.

#[global] Instance t_eq_dec : EqDecision t.
Proof. solve_decision. Defined.

Definition OK : t := mk kOk [].
Definition NotFound (m : list fragment) : t := mk kNotFound m.
Definition Corruption (m : list fragment) : t := mk kCorruption m.
Definition NotSupported (m : list fragment) : t := mk kNotSupported m.
Definition InvalidArgument (m : list fragment) : t := mk kInvalidArgument m.
Definition IOError (m : list fragment) : t := mk kIOError m.

Definition ok (s : t) : bool := bool_decide (code s = kOk).
Definition IsNotFound (s : t) : bool := bool_decide (code s = kNotFound).
Definition IsCorruption (s : t) : bool := bool_decide (code s = kCorruption).
Definition IsIOError (s : t) : bool := bool_decide (code s = kIOError).

Definition ToString (s : t) : list fragment :=
  match code s with
  | kOk => [Lit "OK"]
  | kNotFound => Lit "NotFound: " :: msg s
  | kCorruption => Lit "Corruption: " :: msg s
  | kNotSupported => Lit "NotSupported: " :: msg s
  | kInvalidArgument => Lit "InvalidArgument: " :: msg s
  | kIOError => Lit "IOError: " :: msg s
  end.

End Status.
