(* ===== verification/Effect.v ===== *)
(** * Effect: computations on shared state

    [SM St A] maps a state to a result and the next state, or to [None] where the
    program has no defined behaviour (an access out of bounds, a failed [assert], a
    loop whose fuel ran out).  The system calls are computations on the operating
    system's state; the iterators of tables are computations on the files and the
    block cache they share.

    [runs inv m P] is total correctness of [m]: from every state with the invariant
    [inv], [m] returns, keeps the invariant and its result satisfies [P]. *)

From S2P Require Import Prelude.

Definition SM (St A : Type) : Type := St -> option (A * St).

#[global] Instance SM_ret {St} : MRet (SM St) := fun A x s => Some (x, s).
#[global] Instance SM_bind {St} : MBind (SM St) := fun A B f m s =>
  match m s with Some (x, s') => f x s' | None => None end.

(** A step that does not touch the state. *)
Definition lift {St A} (o : option A) : SM St A := fun s => match o with Some x => Some (x, s) | None => None end.

(** A fuelled loop, whose result is [None] when the fuel ran out. *)
Definition with_fuel {St A} (m : SM St (option A)) : SM St A := m ≫= lift.

(** Running a bind whose first computation is known. *)
Lemma bind_run {St A B} (m : SM St A) (f : A -> SM St B) s x s' :
  m s = Some (x, s') -> (m ≫= f) s = f x s'.
Proof. intros E. by rw /mbind /SM_bind E. Qed.

(** A bind that returned. *)
Lemma bind_inv {St A B} (m : SM St A) (f : A -> SM St B) s r :
  (m ≫= f) s = Some r -> exists x s', m s = Some (x, s') /\ f x s' = Some r.
Proof. rw /mbind /SM_bind. destruct (m s) as [[x s']|]; [eauto|done]. Qed.

Lemma lift_run {St A} (o : option A) (s : St) x : o = Some x -> lift o s = Some (x, s).
Proof. by intros ->. Qed.

Lemma bind_lift {St A B} (o : option A) (f : A -> SM St B) s x : o = Some x -> (lift o ≫= f) s = f x s.
Proof. by intros ->. Qed.

Section runs.
Context {St : Type} (inv : St -> Prop).

Definition runs {A} (m : SM St A) (P : A -> Prop) : Prop :=
  forall s, inv s -> exists x s', m s = Some (x, s') /\ inv s' /\ P x.

Lemma runs_ret {A} (x : A) (P : A -> Prop) : P x -> runs (mret x) P.
Proof. intros H s Hs. by exists x, s. Qed.

Lemma runs_lift {A} (o : option A) (P : A -> Prop) x : o = Some x -> P x -> runs (lift o) P.
Proof. intros -> H s Hs. by exists x, s. Qed.

Lemma runs_bind {A B} (m : SM St A) (f : A -> SM St B) (P : A -> Prop) (Q : B -> Prop) :
  runs m P -> (forall x, P x -> runs (f x) Q) -> runs (m ≫= f) Q.
Proof.
  intros Hm Hf s Hs. destruct (Hm s Hs) as (x & s' & E & Hs' & Hx). rw (bind_run _ _ _ _ _ E). by apply Hf.
Qed.

Lemma runs_mono {A} (m : SM St A) (P Q : A -> Prop) : runs m P -> (forall x, P x -> Q x) -> runs m Q.
Proof. intros Hm H s Hs. destruct (Hm s Hs) as (x & s' & E & Hs' & Hx). exists x, s'. auto. Qed.

(** A bind of a step that does not touch the state. *)
Lemma runs_bind_lift {A B} (o : option A) (f : A -> SM St B) (Q : B -> Prop) x :
  o = Some x -> runs (f x) Q -> runs (lift o ≫= f) Q.
Proof. intros E Hf. eapply runs_bind; [by eapply (runs_lift o (fun y => y = x))|]. by intros ? ->. Qed.

(** A computation applied to every element of a list. *)
Lemma runs_mapM {A B C} (f : A -> SM St B) (P : A -> C -> Prop) (Q : B -> C -> Prop) l k :
  (forall x y, P x y -> runs (f x) (fun z => Q z y)) -> Forall2 P l k ->
  runs (mapM f l) (fun l' => Forall2 Q l' k).
Proof.
  intros Hf. induction 1 as [|x y l k Hx Hl IH]; [by apply runs_ret|].
  simpl. eapply runs_bind; [by apply Hf|]. intros z Hz. eapply runs_bind; [exact IH|].
  intros l' Hl'. apply runs_ret. by constructor.
Qed.
End runs.

(** The state of computations that share none. *)
Abbreviation pure := (fun _ : unit => True).

(** A computation without state returns. *)
Lemma runs_pure {A} (m : SM unit A) (P : A -> Prop) : runs pure m P -> exists x, m tt = Some (x, tt) /\ P x.
Proof. intros H. destruct (H tt I) as (x & [] & E & _ & Hx). eauto. Qed.
