(* ===== verification/Slice.v ===== *)
(** * Slice: byte strings and their order

    Models [include/strata/slice.h].  A [Slice] is the list of bytes it points
    to.  [std::string] and [std::string_view] compare with the same algorithm
    ([char_traits<char>::compare], i.e. [memcmp], then the lengths), so the order
    below is also the one of the [<], [>], [==] the source writes on strings. *)

From S2P Require Import Prelude.

Module Slice.

(** [memcmp(a, b, n)]: the sign of the first difference, bytes unsigned. *)
Fixpoint memcmp (a b : bytes) (n : nat) : Z :=
  match n, a, b with
  | S n', x :: a', y :: b' =>
      if Z_of_byte x <? Z_of_byte y then -1
      else if Z_of_byte y <? Z_of_byte x then 1
      else memcmp a' b' n'
  | _, _, _ => 0
  end.

Definition compare (a b : bytes) : Z :=
  let min_len := if size_of a <? size_of b then size_of a else size_of b in
  let r := memcmp a b (Z.to_nat min_len) in
  if r =? 0 then
    if size_of a <? size_of b then -1
    else if size_of a >? size_of b then 1
    else r
  else r.

Definition starts_with (a x : bytes) : bool :=
  (size_of a >=? size_of x) && (memcmp a x (List.length x) =? 0).

Definition eqb (x y : bytes) : bool :=
  (size_of x =? size_of y) && (memcmp x y (List.length x) =? 0).

Definition ltb (x y : bytes) : bool := compare x y <? 0.
Definition leb (x y : bytes) : bool := compare x y <=? 0.
Definition gtb (x y : bytes) : bool := compare x y >? 0.
Definition geb (x y : bytes) : bool := compare x y >=? 0.

(** [operator[]]: asserts the index, so it is partial. *)
Definition at_index (a : bytes) (n : Z) : option byte :=
  if (0 <=? n) && (n <? size_of a) then a !! Z.to_nat n else None.

(** [remove_prefix(n)]: asserts [n <= size()]. *)
Definition remove_prefix (a : bytes) (n : Z) : option bytes :=
  if n <=? size_of a then Some (drop (Z.to_nat n) a) else None.

(** ** The order is the lexicographic one *)

(** Reference definition: lexicographic comparison of unsigned bytes. *)
Fixpoint lex (a b : bytes) : Z :=
  match a, b with
  | [], [] => 0
  | [], _ => -1
  | _, [] => 1
  | x :: a', y :: b' =>
      if Z_of_byte x <? Z_of_byte y then -1
      else if Z_of_byte y <? Z_of_byte x then 1
      else lex a' b'
  end.

Lemma compare_lex a b : compare a b = lex a b.
Proof.
  rw /compare.
  replace (Z.to_nat _) with (Nat.min (List.length a) (List.length b))
    by (case_bool; unfold size_of in *; lia).
  revert b; induction a as [|x a IH]; intros [|y b]; simpl; try done.
  destruct (Z.ltb_spec (Z_of_byte x) (Z_of_byte y)); [done|].
  destruct (Z.ltb_spec (Z_of_byte y) (Z_of_byte x)); [done|].
  rw -IH !size_of_cons !Z.gtb_ltb. repeat case_bool; lia.
Qed.

Lemma lex_refl a : lex a a = 0.
Proof. induction a; simpl; repeat case_bool; auto; lia. Qed.

Lemma lex_eq a b : lex a b = 0 -> a = b.
Proof.
  revert b; induction a as [|x a IH]; intros [|y b]; simpl; try done.
  repeat case_bool; try done. intros. f_equal; [apply Z_of_byte_inj; lia | auto].
Qed.

Lemma lex_antisym a b : lex a b = - lex b a.
Proof.
  revert b; induction a as [|x a IH]; intros [|y b]; simpl; try done.
  repeat case_bool; try done; try lia.
Qed.

Lemma lex_trans a b c : lex a b < 0 -> lex b c < 0 -> lex a c < 0.
Proof.
  revert b c; induction a as [|x a IH]; intros [|y b] [|z c]; simpl; try lia.
  repeat case_bool; try lia. apply IH.
Qed.

#[global] Instance compare_comparator : Comparator compare.
Proof.
  split; intros *; rw ?compare_lex.
  - apply lex_refl.
  - rw (lex_antisym b a). lia.
  - apply lex_trans.
  - by move=> /lex_eq ->.
Qed.

Lemma compare_eq a b : compare a b = 0 <-> a = b.
Proof. rw compare_lex. split; [apply lex_eq | intros ->; apply lex_refl]. Qed.

Lemma compare_antisym a b : compare a b = - compare b a.
Proof. rw !compare_lex. apply lex_antisym. Qed.

Lemma memcmp_same_length a b :
  List.length a = List.length b -> memcmp a b (List.length a) = lex a b.
Proof.
  revert b; induction a as [|x a IH]; intros [|y b]; simpl; try done.
  intros [=]. repeat case_bool; auto.
Qed.

(** [operator==] decides equality of the two byte strings. *)
Lemma eqb_eq a b : eqb a b = true <-> a = b.
Proof.
  rw /eqb andb_true_iff !Z.eqb_eq. split.
  - intros [H1 H2]. apply lex_eq. rw -memcmp_same_length //. unfold size_of in H1. lia.
  - intros ->. rw memcmp_same_length // lex_refl //.
Qed.

Lemma eqb_refl a : eqb a a = true.
Proof. by apply eqb_eq. Qed.

Lemma eqb_neq a b : eqb a b = false <-> a <> b.
Proof. rw -eqb_eq. destruct (eqb a b); naive_solver. Qed.

Lemma eqb_spec a b : reflect (a = b) (eqb a b).
Proof. apply iff_reflect. by rw eqb_eq. Qed.

End Slice.
