(* ===== verification/Coding.v ===== *)
(** * Coding: little-endian fixed-width integers

    Models [src/coding.h].  An encoder returns the bytes it stores; a decoder
    reads a buffer at an offset and is [None] when it would read outside the
    buffer, so that every bounds check of the callers is an obligation here. *)

From S2P Require Import Prelude.
From Stdlib Require Import Zbitwise.

Definition EncodeFixed32 (value : Z) : bytes :=
  [ byte_of_Z value;
    byte_of_Z (Z.shiftr value 8);
    byte_of_Z (Z.shiftr value 16);
    byte_of_Z (Z.shiftr value 24) ].

Definition PutFixed32 (dst : bytes) (value : Z) : bytes := dst ++ EncodeFixed32 value.

(** The byte a pointer [data + off] refers to. *)
Definition byte_at (s : bytes) (off : Z) : option byte :=
  if (off <? 0) || (size_of s <=? off) then None else s !! Z.to_nat off.

Definition DecodeFixed32 (s : bytes) (off : Z) : option Z :=
  b0 ← byte_at s off;
  b1 ← byte_at s (off + 1);
  b2 ← byte_at s (off + 2);
  b3 ← byte_at s (off + 3);
  Some (Z.lor (Z.lor (Z.lor (Z_of_byte b0)
                            (Z.shiftl (Z_of_byte b1) 8))
                     (Z.shiftl (Z_of_byte b2) 16))
              (Z.shiftl (Z_of_byte b3) 24)).

Definition EncodeFixed64 (value : Z) : bytes :=
  map (fun i => byte_of_Z (Z.shiftr value (Z.of_nat i * 8))) (seq 0 8).

Definition PutFixed64 (dst : bytes) (value : Z) : bytes := dst ++ EncodeFixed64 value.

(** The loop [for (i = 0; i < 8; ++i) result |= buffer[i] << (i * 8)], from index
    [i] with [n] iterations left. *)
Fixpoint DecodeFixed64_loop (s : bytes) (off : Z) (n : nat) (i : Z) (result : Z) : option Z :=
  match n with
  | O => Some result
  | S n' =>
      b ← byte_at s (off + i);
      DecodeFixed64_loop s off n' (i + 1)
        (Z.lor result (Z.shiftl (Z_of_byte b) (i * 8)))
  end.

Definition DecodeFixed64 (s : bytes) (off : Z) : option Z :=
  DecodeFixed64_loop s off 8 0 0.

(** ** Lemmas *)

Lemma size_EncodeFixed32 v : size_of (EncodeFixed32 v) = 4.
Proof. done. Qed.

Lemma size_EncodeFixed64 v : size_of (EncodeFixed64 v) = 8.
Proof. done. Qed.

#[export] Hint Rewrite size_EncodeFixed32 size_EncodeFixed64 : strata_size.

Lemma byte_at_eq s off : byte_at s off = if off <? 0 then None else s !! Z.to_nat off.
Proof.
  rw /byte_at /size_of. destruct (Z.ltb_spec off 0); [done|]. case_bool; [|done].
  symmetry. apply lookup_ge_None. lia.
Qed.

Lemma byte_at_app_r a b off :
  size_of a <= off -> byte_at (a ++ b) off = byte_at b (off - size_of a).
Proof.
  rw !byte_at_eq /size_of => H.
  destruct (Z.ltb_spec off 0); [lia|]. destruct (Z.ltb_spec (off - Z.of_nat (length a)) 0); [lia|].
  rw lookup_app_r; [lia|]. f_equal. lia.
Qed.

Lemma byte_at_app_add a b i : 0 <= i -> byte_at (a ++ b) (size_of a + i) = byte_at b i.
Proof. intros. rewrite -> byte_at_app_r by lia. f_equal. lia. Qed.

Lemma byte_at_app_0 a b : byte_at (a ++ b) (size_of a) = byte_at b 0.
Proof. rewrite -> byte_at_app_r by lia. f_equal. lia. Qed.

Lemma byte_at_app_l a b off : off < size_of a -> byte_at (a ++ b) off = byte_at a off.
Proof.
  rw !byte_at_eq /size_of => H. case_bool; [done|]. apply lookup_app_l. lia.
Qed.

Lemma byte_at_Some s off : 0 <= off < size_of s -> is_Some (byte_at s off).
Proof. rw byte_at_eq /size_of => H. case_bool; [lia|]. apply lookup_lt_is_Some. lia. Qed.

Lemma byte_at_drop s n off : 0 <= n -> 0 <= off -> byte_at (drop (Z.to_nat n) s) off = byte_at s (n + off).
Proof.
  rw !byte_at_eq => ??. repeat case_bool; try lia. rw lookup_drop. f_equal. lia.
Qed.

(** One step of reassembling an integer from its bytes. *)
Lemma lor_byte_step v k :
  0 <= k ->
  Z.lor (v mod 2 ^ k) (Z.shiftl (Z.shiftr v k mod 256) k) = v mod 2 ^ (k + 8).
Proof.
  intros Hk. change 256 with (2 ^ 8). apply Z.bits_inj'; intros n Hn.
  rw Z.lor_spec Z.shiftl_spec //.
  rewrite -> !Z.testbit_mod_pow2 by lia.
  destruct (Z.ltb_spec n k); destruct (Z.ltb_spec n (k + 8));
    destruct (Z.ltb_spec (n - k) 8); try lia; simpl; try done.
  - rw (Z.testbit_neg_r _ (n - k)); [lia|]. by rw orb_false_r.
  - rw Z.shiftr_spec; [lia|]. f_equal. lia.
Qed.

(** Decoding a buffer that holds an encoded 32-bit integer at [off] gives it back. *)
Lemma DecodeFixed32_Encode a v b off :
  off = size_of a -> DecodeFixed32 (a ++ EncodeFixed32 v ++ b) off = Some (u32 v).
Proof.
  intros ->. rw /DecodeFixed32 byte_at_app_0 !byte_at_app_add //.
  rw !byte_at_eq.
  simpl. rw !Z_of_byte_of_Z. f_equal. rw /u32.
  pose proof (lor_byte_step v 8 ltac:(lia)) as H8. pose proof (lor_byte_step v 16 ltac:(lia)) as H16.
  pose proof (lor_byte_step v 24 ltac:(lia)) as H24. change (2 ^ 8) with 256 in H8.
  change (8 + 8) with 16 in H8. change (16 + 8) with 24 in H16. by rw H8 H16 H24.
Qed.

Lemma byte_at_EncodeFixed64 v b i :
  0 <= i < 8 -> byte_at (EncodeFixed64 v ++ b) i = Some (byte_of_Z (Z.shiftr v (i * 8))).
Proof.
  intros Hi. assert (i = 0 \/ i = 1 \/ i = 2 \/ i = 3 \/ i = 4 \/ i = 5 \/ i = 6 \/ i = 7) as H by lia.
  rw byte_at_eq. by destruct_or! H; subst i.
Qed.

Lemma DecodeFixed64_loop_Encode a v b n i :
  0 <= i -> i + Z.of_nat n <= 8 ->
  DecodeFixed64_loop (a ++ EncodeFixed64 v ++ b) (size_of a) n i (v mod 2 ^ (i * 8))
  = Some (v mod 2 ^ ((i + Z.of_nat n) * 8)).
Proof.
  revert i; induction n as [|n IH]; intros i Hi Hn.
  - rw /= Z.add_0_r //.
  - cbn [DecodeFixed64_loop]. rewrite -> byte_at_app_add, byte_at_EncodeFixed64 by lia.
    cbn [mbind option_bind]. rewrite -> Z_of_byte_of_Z, lor_byte_step by lia.
    replace (i * 8 + 8) with ((i + 1) * 8) by lia.
    rewrite -> IH by lia. do 4 f_equal. lia.
Qed.

(** The same for 64 bits. *)
Lemma DecodeFixed64_Encode a v b off :
  off = size_of a -> DecodeFixed64 (a ++ EncodeFixed64 v ++ b) off = Some (u64 v).
Proof.
  intros ->. rw /DecodeFixed64.
  pose proof (DecodeFixed64_loop_Encode a v b 8 0 ltac:(lia) ltac:(lia)) as H.
  by rw Z.mod_1_r in H.
Qed.

Lemma DecodeFixed32_Some s off :
  0 <= off -> off + 4 <= size_of s -> is_Some (DecodeFixed32 s off).
Proof.
  intros H1 H2. rw /DecodeFixed32.
  destruct (byte_at_Some s off) as [? ->]; [lia|].
  destruct (byte_at_Some s (off + 1)) as [? ->]; [lia|].
  destruct (byte_at_Some s (off + 2)) as [? ->]; [lia|].
  destruct (byte_at_Some s (off + 3)) as [? ->]; [lia|]. eauto.
Qed.

Lemma DecodeFixed64_loop_Some s off n i r :
  0 <= off + i -> off + i + Z.of_nat n <= size_of s -> is_Some (DecodeFixed64_loop s off n i r).
Proof.
  revert i r; induction n as [|n IH]; intros i r H1 H2; simpl; [eauto|].
  destruct (byte_at_Some s (off + i)) as [? ->]; [lia|]. apply IH; lia.
Qed.

Lemma DecodeFixed64_Some s off :
  0 <= off -> off + 8 <= size_of s -> is_Some (DecodeFixed64 s off).
Proof. intros. apply DecodeFixed64_loop_Some; lia. Qed.

Lemma lor_range a b k : 0 <= k -> 0 <= a < 2 ^ k -> 0 <= b < 2 ^ k -> 0 <= Z.lor a b < 2 ^ k.
Proof.
  intros Hk Ha Hb. assert (Z.lor a b = Z.lor a b mod 2 ^ k) as ->; [|by apply Z.mod_pos_bound; lia].
  rewrite <- (Z.land_ones (Z.lor a b)) by lia. rewrite -> Z.land_lor_distr_l, !Z.land_ones by lia.
  by rewrite -> !Z.mod_small by lia.
Qed.

(** A value that can be read lies within the string. *)
Lemma DecodeFixed32_inside s off v : DecodeFixed32 s off = Some v -> 0 <= off /\ off + 4 <= size_of s.
Proof.
  rw /DecodeFixed32. destruct (byte_at s off) as [b0|] eqn:E0; [|done]. destruct (byte_at s (off + 1)); [|done].
  destruct (byte_at s (off + 2)); [|done]. destruct (byte_at s (off + 3)) as [b3|] eqn:E3; [|done]. intros _.
  rw /byte_at in E0 E3. repeat case_match; try done. lia.
Qed.

Lemma DecodeFixed32_range s off v : DecodeFixed32 s off = Some v -> 0 <= v < 2 ^ 32.
Proof.
  rw /DecodeFixed32.
  destruct (byte_at s off) as [b0|]; [|done]; destruct (byte_at s (off + 1)) as [b1|]; [|done];
  destruct (byte_at s (off + 2)) as [b2|]; [|done]; destruct (byte_at s (off + 3)) as [b3|]; [|done].
  intros [= <-]. pose proof (Z_of_byte_range b0); pose proof (Z_of_byte_range b1);
  pose proof (Z_of_byte_range b2); pose proof (Z_of_byte_range b3).
  rewrite -> !Z.shiftl_mul_pow2 by lia. repeat apply lor_range; lia.
Qed.

Lemma DecodeFixed64_loop_nonneg s off n i r v :
  0 <= r -> 0 <= i -> DecodeFixed64_loop s off n i r = Some v -> 0 <= v.
Proof.
  revert i r; induction n as [|n IH]; intros i r Hr Hi; simpl; [by intros [= <-]|].
  destruct (byte_at s (off + i)) as [b|]; [|done]. simpl. apply IH; [|lia].
  apply Z.lor_nonneg. split; [done|]. apply Z.shiftl_nonneg. apply Z_of_byte_range.
Qed.

Lemma DecodeFixed64_nonneg s off v : DecodeFixed64 s off = Some v -> 0 <= v.
Proof. by apply DecodeFixed64_loop_nonneg. Qed.

(** From here on the encodings are used through the lemmas above. *)
#[global] Opaque EncodeFixed32 EncodeFixed64 DecodeFixed32 DecodeFixed64.
