(* ===== verification/Format.v ===== *)
(** * Format: sequence numbers, value types and internal keys

    Models [src/format.h] and the entry records built on it. *)

From S2P Require Import Prelude Slice.

(** [using SequenceNumber = uint64_t]. *)
Abbreviation SequenceNumber := Z (only parsing).

Definition kMaxSequenceNumber : SequenceNumber := Z.shiftl 1 56 - 1.

(** [enum ValueType : uint8_t]: the underlying type is fixed, so a value read
    from a file may be any byte; the two named ones are below. *)
Abbreviation ValueType := Z (only parsing).
Definition kTypeDeletion : ValueType := 0.
Definition kTypeValue : ValueType := 1.

Definition CompareInternalKey (a_user_key : bytes) (a_seq : SequenceNumber)
    (b_user_key : bytes) (b_seq : SequenceNumber) : Z :=
  let r := Slice.compare a_user_key b_user_key in
  if negb (r =? 0) then r
  else if a_seq >? b_seq then -1
  else if a_seq <? b_seq then 1
  else 0.

Lemma CompareInternalKey_lt k1 s1 k2 s2 :
  CompareInternalKey k1 s1 k2 s2 < 0 <->
  Slice.compare k1 k2 < 0 \/ k1 = k2 /\ s2 < s1.
Proof.
  rw /CompareInternalKey -Slice.compare_eq Z.gtb_ltb.
  repeat case_bool; simpl; repeat case_bool; lia.
Qed.

Lemma CompareInternalKey_eq k1 s1 k2 s2 :
  CompareInternalKey k1 s1 k2 s2 = 0 <-> k1 = k2 /\ s1 = s2.
Proof.
  rw /CompareInternalKey -Slice.compare_eq Z.gtb_ltb.
  repeat case_bool; simpl; repeat case_bool; lia.
Qed.

Lemma CompareInternalKey_antisym k1 s1 k2 s2 :
  CompareInternalKey k1 s1 k2 s2 = - CompareInternalKey k2 s2 k1 s1.
Proof.
  rw /CompareInternalKey (Slice.compare_antisym k2 k1) !Z.gtb_ltb.
  repeat case_bool; simpl; repeat case_bool; lia.
Qed.

Lemma CompareInternalKey_trans k1 s1 k2 s2 k3 s3 :
  CompareInternalKey k1 s1 k2 s2 < 0 -> CompareInternalKey k2 s2 k3 s3 < 0 ->
  CompareInternalKey k1 s1 k3 s3 < 0.
Proof.
  rw !CompareInternalKey_lt. intros [H1|[-> H1]] [H2|[-> H2]]; auto.
  - left. by eapply cmp_trans.
  - right. split; [done|lia].
Qed.
