(* ===== verification/Crc32.v ===== *)
(** * Crc32: the table-driven CRC-32 checksum

    Models [src/crc32.cc] and proves the table-driven loop equal to the
    bit-at-a-time definition of the reflected polynomial. *)

From S2P Require Import Prelude.

(** One step of the inner loop of [GetCrcTable]. *)
Definition crc_bit_step (c : Z) : Z :=
  if negb (Z.land c 1 =? 0) then Z.lxor 0xEDB88320 (Z.shiftr c 1) else Z.shiftr c 1.

Definition crc_table_entry (i : Z) : Z := Nat.iter 8 crc_bit_step i.

(** The static [table[256]] that [GetCrcTable] fills in. *)
Definition GetCrcTable : list Z := (fun i => crc_table_entry (Z.of_nat i)) <$> seq 0 256.

Definition crc_table_lookup (i : Z) : Z := default 0 (GetCrcTable !! Z.to_nat i).

(** Body of the loop over the input bytes. *)
Definition crc_byte_step (c : Z) (b : byte) : Z :=
  Z.lxor (crc_table_lookup (Z.land (Z.lxor c (Z_of_byte b)) 0xFF)) (Z.shiftr c 8).

Definition Crc32 (data : bytes) (seed : Z) : Z :=
  Z.lxor (foldl crc_byte_step (Z.lxor seed 0xFFFFFFFF) data) 0xFFFFFFFF.

(** ** The checksum as a linear map *)

Lemma crc_bit_step_odd c :
  crc_bit_step c = if Z.odd c then Z.lxor 0xEDB88320 (Z.shiftr c 1) else Z.shiftr c 1.
Proof.
  rw /crc_bit_step. change 1 with (Z.ones 1) at 1. rewrite -> Z.land_ones by lia.
  rw Z.pow_1_r Zmod_odd. by destruct (Z.odd c).
Qed.

Lemma Z_odd_lxor x y : Z.odd (Z.lxor x y) = xorb (Z.odd x) (Z.odd y).
Proof. by rw -!Z.bit0_odd Z.lxor_spec. Qed.

Lemma crc_bit_step_lxor x y :
  crc_bit_step (Z.lxor x y) = Z.lxor (crc_bit_step x) (crc_bit_step y).
Proof.
  rw !crc_bit_step_odd Z_odd_lxor Z.shiftr_lxor.
  apply Z.bits_inj; intros n.
  by destruct (Z.odd x), (Z.odd y); simpl; rw ?Z.lxor_spec;
    repeat match goal with |- context [Z.testbit ?a n] => destruct (Z.testbit a n) end.
Qed.

Lemma crc_iter_lxor n x y :
  Nat.iter n crc_bit_step (Z.lxor x y)
  = Z.lxor (Nat.iter n crc_bit_step x) (Nat.iter n crc_bit_step y).
Proof. induction n as [|n IH]; simpl; [done|]. by rw IH crc_bit_step_lxor. Qed.

Lemma crc_iter_shiftl n h : Nat.iter n crc_bit_step (Z.shiftl h (Z.of_nat n)) = h.
Proof.
  revert h; induction n as [|n IH]; intros h; simpl Nat.iter.
  - apply Z.shiftl_0_r.
  - replace (Z.shiftl h (Z.of_nat (S n))) with (Z.shiftl (Z.shiftl h 1) (Z.of_nat n))
      by (rewrite -> Z.shiftl_shiftl by lia; f_equal; lia).
    rw IH crc_bit_step_odd Z.shiftl_mul_pow2 // Z.odd_mul andb_false_r.
    by rewrite -> Z.shiftr_div_pow2, Z.div_mul by lia.
Qed.

Lemma crc_table_lookup_entry i : 0 <= i < 256 -> crc_table_lookup i = crc_table_entry i.
Proof.
  intros Hi. rw /crc_table_lookup /GetCrcTable list_lookup_fmap.
  rewrite -> lookup_seq_lt by lia. simpl. f_equal. lia.
Qed.

(** The table lookup performs eight bit steps at once. *)
Lemma crc_byte_step_bits c b :
  crc_byte_step c b = Nat.iter 8 crc_bit_step (Z.lxor c (Z_of_byte b)).
Proof.
  set (x := Z.lxor c (Z_of_byte b)).
  assert (Hx : x = Z.lxor (Z.land x 0xFF) (Z.shiftl (Z.shiftr c 8) 8)).
  { subst x. apply Z.bits_inj'; intros n Hn.
    change 0xFF with (Z.ones 8). rw !Z.lxor_spec Z.land_spec Z.lxor_spec Z.shiftl_spec //.
    rewrite -> Z.testbit_ones_nonneg by lia.
    destruct (Z.ltb_spec n 8).
    - rw (Z.testbit_neg_r _ (n - 8)); [lia|]. by rw xorb_false_r andb_true_r.
    - rewrite -> Z.shiftr_spec by lia. rw andb_false_r xorb_false_l.
      replace (n - 8 + 8) with n by lia.
      rw -(Z.mod_small (Z_of_byte b) (2 ^ 8)); [apply Z_of_byte_range|].
      rewrite -> Z.mod_pow2_bits_high by lia. by rw xorb_false_r. }
  rw {1}Hx crc_iter_lxor (crc_iter_shiftl 8) /crc_byte_step -/x crc_table_lookup_entry //.
  change 0xFF with (Z.ones 8). rewrite -> Z.land_ones by lia. by apply Z.mod_pos_bound.
Qed.

Definition is_u32 (c : Z) : Prop := 0 <= c < 2 ^ 32.

Lemma is_u32_lxor x y : is_u32 x -> is_u32 y -> is_u32 (Z.lxor x y).
Proof.
  intros Hx Hy. rw /is_u32.
  assert (Z.lxor x y = Z.lxor x y mod 2 ^ 32) as ->; [|by apply Z.mod_pos_bound].
  apply Z.bits_inj'; intros n Hn. rewrite -> Z.testbit_mod_pow2 by lia.
  destruct (Z.ltb_spec n 32); [done|]. rw Z.lxor_spec.
  rw -(Z.mod_small x (2 ^ 32)) // -(Z.mod_small y (2 ^ 32)) //.
  by rewrite -> !Z.mod_pow2_bits_high by lia.
Qed.

Lemma is_u32_crc_bit_step c : is_u32 c -> is_u32 (crc_bit_step c).
Proof.
  intros Hc. assert (is_u32 (Z.shiftr c 1)).
  { rw /is_u32 Z.shiftr_div_pow2 //. split; [apply Z.div_pos; rw /is_u32 in Hc; lia|].
    apply Z.div_lt_upper_bound; rw /is_u32 in Hc; lia. }
  rw crc_bit_step_odd. destruct (Z.odd c); [|done]. apply is_u32_lxor; [|done]. by rw /is_u32.
Qed.

Lemma is_u32_crc_iter n c : is_u32 c -> is_u32 (Nat.iter n crc_bit_step c).
Proof. induction n; simpl; auto using is_u32_crc_bit_step. Qed.

(** Bit 31 of the result tells which branch was taken, so a step is injective. *)
Lemma crc_bit_step_bit31 c : is_u32 c -> Z.testbit (crc_bit_step c) 31 = Z.odd c.
Proof.
  intros Hc. assert (Z.testbit (Z.shiftr c 1) 31 = false) as H31.
  { rewrite -> Z.shiftr_spec by lia. rw -(Z.mod_small c (2 ^ 32)) //.
    by rewrite -> Z.mod_pow2_bits_high by lia. }
  rw crc_bit_step_odd. destruct (Z.odd c); rw ?Z.lxor_spec H31 //.
Qed.

Lemma crc_bit_step_inj x y :
  is_u32 x -> is_u32 y -> crc_bit_step x = crc_bit_step y -> x = y.
Proof.
  intros Hx Hy E. assert (Z.odd x = Z.odd y) as Ho
    by (rw -!crc_bit_step_bit31 // E //).
  rw !crc_bit_step_odd Ho in E.
  assert (Z.shiftr x 1 = Z.shiftr y 1) as E'.
  { destruct (Z.odd y); [|done]. apply (f_equal (Z.lxor 0xEDB88320)) in E.
    by rw -!Z.lxor_assoc !Z.lxor_nilpotent !Z.lxor_0_l in E. }
  rw !Z.shiftr_div_pow2 // in E'. rw (Z.div_mod x 2) // (Z.div_mod y 2) //.
  rw !Zmod_odd Ho. change (2 ^ 1) with 2 in E'. by rw E'.
Qed.

Lemma crc_iter_inj n x y :
  is_u32 x -> is_u32 y ->
  Nat.iter n crc_bit_step x = Nat.iter n crc_bit_step y -> x = y.
Proof.
  intros Hx Hy. induction n as [|n IH]; simpl; [done|]. intros E. apply IH.
  apply crc_bit_step_inj; auto using is_u32_crc_iter.
Qed.

(** The little-endian integer of a byte string, as a bitwise sum. *)
Fixpoint le_xor (w : bytes) : Z :=
  match w with [] => 0 | b :: w' => Z.lxor (Z_of_byte b) (Z.shiftl (le_xor w') 8) end.

Lemma crc_fold_bits w c :
  foldl crc_byte_step c w = Nat.iter (8 * length w) crc_bit_step (Z.lxor c (le_xor w)).
Proof.
  revert c; induction w as [|b w IH]; intros c; simpl le_xor.
  - by rw /= Z.lxor_0_r.
  - cbn [foldl]. rw IH crc_byte_step_bits.
    replace (8 * length (b :: w))%nat with (8 * length w + 8)%nat by (simpl; lia).
    rw Nat.iter_add -Z.lxor_assoc (crc_iter_lxor 8 (Z.lxor c _)).
    by rw (crc_iter_shiftl 8).
Qed.

Lemma lxor_byte_shiftl b u : Z.lxor (Z_of_byte b) (Z.shiftl u 8) = Z_of_byte b + u * 256.
Proof.
  rewrite -> (Z.shiftl_mul_pow2 _ 8) by lia. change (2 ^ 8) with 256.
  symmetry. apply Z.add_nocarry_lxor. apply Z.bits_inj'; intros n Hn.
  rw Z.land_spec Z.bits_0. change 256 with (2 ^ 8).
  destruct (Z.lt_ge_cases n 8).
  - rewrite -> Z.mul_pow2_bits_low by lia. by rw andb_false_r.
  - rw -(Z.mod_small (Z_of_byte b) (2 ^ 8)); [apply Z_of_byte_range|].
    by rewrite -> Z.mod_pow2_bits_high by lia.
Qed.

Lemma le_xor_bound w : 0 <= le_xor w < 2 ^ (8 * Z.of_nat (length w)).
Proof.
  induction w as [|b w IH]; [done|]. simpl le_xor. rw lxor_byte_shiftl.
  pose proof (Z_of_byte_range b). simpl length.
  replace (8 * Z.of_nat (S (length w))) with (8 * Z.of_nat (length w) + 8) by lia.
  rewrite -> Z.pow_add_r by lia. lia.
Qed.

Lemma le_xor_inj v w : length v = length w -> le_xor v = le_xor w -> v = w.
Proof.
  revert w; induction v as [|a v IH]; intros [|b w]; simpl; try done. intros [= Hl].
  rw !lxor_byte_shiftl. pose proof (Z_of_byte_range a). pose proof (Z_of_byte_range b).
  intros E. f_equal; [apply Z_of_byte_inj; lia | apply IH; [done|lia]].
Qed.

Lemma is_u32_crc_fold w c : is_u32 c -> is_u32 (foldl crc_byte_step c w).
Proof.
  revert c; induction w as [|b w IH]; intros c Hc; simpl; [done|]. apply IH.
  rw crc_byte_step_bits. apply is_u32_crc_iter, is_u32_lxor; [done|].
  pose proof (Z_of_byte_range b). rw /is_u32. lia.
Qed.

Lemma crc_fold_inj w x y :
  is_u32 x -> is_u32 y -> foldl crc_byte_step x w = foldl crc_byte_step y w -> x = y.
Proof.
  revert x y; induction w as [|b w IH]; intros x y Hx Hy; simpl; [done|]. intros E.
  apply IH in E; [|by apply (is_u32_crc_fold [b])..].
  rw !crc_byte_step_bits in E. pose proof (Z_of_byte_range b).
  apply crc_iter_inj in E; [|apply is_u32_lxor; rw /is_u32 in Hx Hy *; lia..].
  apply (f_equal (fun z => Z.lxor z (Z_of_byte b))) in E.
  by rw !Z.lxor_assoc !Z.lxor_nilpotent !Z.lxor_0_r in E.
Qed.

Lemma Crc32_range data seed : is_u32 seed -> is_u32 (Crc32 data seed).
Proof. intros. apply is_u32_lxor; [|by rw /is_u32]. apply is_u32_crc_fold, is_u32_lxor; [done|by rw /is_u32]. Qed.

(** ** The reference *)

(** The low [n] bits of [z] in the opposite order. *)
Fixpoint reflect (n : nat) (z : Z) : Z :=
  match n with O => 0 | S n' => Z.lor (Z.shiftl (Z.b2z (Z.odd z)) (Z.of_nat n')) (reflect n' (Z.shiftr z 1)) end.

(** The generator polynomial of CRC-32, x^32 + x^26 + x^23 + x^22 + x^16 + x^12 + x^11 + x^10 +
    x^8 + x^7 + x^5 + x^4 + x^2 + x + 1, without its leading term. *)
Definition crc32_polynomial : Z :=
  foldr (fun k z => Z.lor (Z.shiftl 1 k) z) 0 [26; 23; 22; 16; 12; 11; 10; 8; 7; 5; 4; 2; 1; 0].

(** One step of the division, least significant bit first. *)
Definition crc32_division_step (c : Z) : Z :=
  Z.lxor (Z.shiftr c 1) (if Z.odd c then reflect 32 crc32_polynomial else 0).

(** The bit-at-a-time CRC-32. *)
Definition crc32_bitwise (data : bytes) (seed : Z) : Z :=
  Z.lxor (foldl (fun c b => Nat.iter 8 crc32_division_step (Z.lxor c (Z_of_byte b)))
                (Z.lxor seed 0xFFFFFFFF) data) 0xFFFFFFFF.

Lemma crc_bit_step_division c : crc_bit_step c = crc32_division_step c.
Proof.
  rw crc_bit_step_odd /crc32_division_step. destruct (Z.odd c); [|by rw Z.lxor_0_r].
  rw Z.lxor_comm. f_equal; by vm_compute.
Qed.

Lemma crc_iter_division n c : Nat.iter n crc_bit_step c = Nat.iter n crc32_division_step c.
Proof. induction n as [|n IH]; simpl; [done|]. by rw IH crc_bit_step_division. Qed.

(** C31: the table-driven [Crc32] computes the bit-at-a-time division by the generator
    polynomial of CRC-32, on every input and from every seed. *)
Theorem crc32_table_correct data seed : Crc32 data seed = crc32_bitwise data seed.
Proof.
  rw /Crc32 /crc32_bitwise. f_equal. generalize (Z.lxor seed 0xFFFFFFFF) as c.
  induction data as [|b data IH]; intros c; [done|]. cbn [foldl]. by rw crc_byte_step_bits crc_iter_division IH.
Qed.

(** The check value of the standard. *)
Example crc32_check_value : Crc32 (str "123456789") 0 = 0xCBF43926.
Proof. vm_compute. reflexivity. Qed.

(** A corruption confined to at most four consecutive bytes changes the checksum. *)
Lemma Crc32_burst_neq pre v w post :
  length v = length w -> (length v <= 4)%nat -> v <> w ->
  Crc32 (pre ++ v ++ post) 0 <> Crc32 (pre ++ w ++ post) 0.
Proof.
  intros Hl H4 Hne E. apply Hne, le_xor_inj; [done|].
  apply (f_equal (fun z => Z.lxor z 0xFFFFFFFF)) in E.
  rw /Crc32 !Z.lxor_assoc !Z.lxor_nilpotent !Z.lxor_0_r !foldl_app in E.
  set (c := foldl _ _ pre) in E.
  assert (Hc : is_u32 c) by (apply is_u32_crc_fold; by rw /is_u32).
  assert (Hsmall : forall u, (length u <= 4)%nat -> is_u32 (Z.lxor c (le_xor u))).
  { intros u Hu. apply is_u32_lxor; [done|]. pose proof (le_xor_bound u).
    assert (2 ^ (8 * Z.of_nat (length u)) <= 2 ^ 32) by (apply Z.pow_le_mono_r; lia).
    rw /is_u32. lia. }
  apply crc_fold_inj in E; [|by apply is_u32_crc_fold..].
  rw !crc_fold_bits Hl in E. apply crc_iter_inj in E; [|apply Hsmall; lia..].
  apply (f_equal (Z.lxor c)) in E. by rw -!Z.lxor_assoc !Z.lxor_nilpotent !Z.lxor_0_l in E.
Qed.

(** C32: a corruption confined to at most four consecutive bytes always changes
    [Crc32]. *)
Theorem crc32_detects_burst pre v w post :
  length v = length w -> (length v <= 4)%nat -> v <> w ->
  Crc32 (pre ++ v ++ post) 0 <> Crc32 (pre ++ w ++ post) 0.
Proof. apply Crc32_burst_neq. Qed.

Lemma crc32_detects_burst_witness :
  Crc32 (str "ab" ++ str "cd" ++ str "e") 0 <> Crc32 (str "ab" ++ str "xy" ++ str "e") 0.
Proof. apply crc32_detects_burst; [reflexivity | simpl; lia | discriminate]. Defined.
