(* ===== verification/Posix.v ===== *)
(** * Posix: the system calls the engine makes

    The operating system is a [World]: a directory that maps paths to inodes,
    the inodes' contents, the open file descriptors, [errno], and two schedules
    that decide how calls misbehave.  [w_io] lists the outcomes of the next data
    transfers ([read], [write], [pread]): a failure with its errno, or a transfer
    of at most [n] bytes; [w_ctl] lists the outcomes of the other calls ([open],
    [fstat], [fdatasync], [rename], ...).  A call takes the head of its schedule;
    once a schedule is exhausted its calls transfer everything they are asked to
    and succeed.  Every finite execution of a loop over system calls is obtained
    this way, and the loops terminate because a schedule is a finite list.

    A computation on it is [M A]. *)

From S2P Require Import Prelude Status.
From S2P Require Export Effect.
From stdpp Require Export gmap.

#[local] Open Scope Z_scope.

#[global] Instance byte_countable : Countable byte :=
  inj_countable Byte.to_N Byte.of_N Byte.of_to_N.

(** ** The world *)

Inductive io_result :=
| IoFail (errno : Z)      (* the call returns -1 and sets errno *)
| IoPartial (n : Z).      (* the call transfers at most [n] bytes *)

Inductive ctl_result := CtlOk | CtlFail (errno : Z).

Record OpenFile := mkOpenFile { f_ino : nat; f_pos : Z; f_append : bool }.

Record World := mkWorld {
  w_dir : gmap bytes nat;
  w_data : gmap nat bytes;
  w_fds : gmap Z OpenFile;
  w_fresh_ino : nat;
  w_fresh_fd : Z;
  w_errno : Z;
  w_io : list io_result;
  w_ctl : list ctl_result;
}.

Definition EINTR : Z := 4.
Definition ENOENT : Z := 2.
Definition EBADF : Z := 9.

Definition set_dir d w := mkWorld d (w_data w) (w_fds w) (w_fresh_ino w) (w_fresh_fd w) (w_errno w) (w_io w) (w_ctl w).
Definition set_data d w := mkWorld (w_dir w) d (w_fds w) (w_fresh_ino w) (w_fresh_fd w) (w_errno w) (w_io w) (w_ctl w).
Definition set_fds d w := mkWorld (w_dir w) (w_data w) d (w_fresh_ino w) (w_fresh_fd w) (w_errno w) (w_io w) (w_ctl w).
Definition set_errno e w := mkWorld (w_dir w) (w_data w) (w_fds w) (w_fresh_ino w) (w_fresh_fd w) e (w_io w) (w_ctl w).
Definition set_io l w := mkWorld (w_dir w) (w_data w) (w_fds w) (w_fresh_ino w) (w_fresh_fd w) (w_errno w) l (w_ctl w).
Definition set_ctl l w := mkWorld (w_dir w) (w_data w) (w_fds w) (w_fresh_ino w) (w_fresh_fd w) (w_errno w) (w_io w) l.
Definition bump_ino w := mkWorld (w_dir w) (w_data w) (w_fds w) (S (w_fresh_ino w)) (w_fresh_fd w) (w_errno w) (w_io w) (w_ctl w).
Definition bump_fd w := mkWorld (w_dir w) (w_data w) (w_fds w) (w_fresh_ino w) (w_fresh_fd w + 1) (w_errno w) (w_io w) (w_ctl w).

(** ** The monad *)

Abbreviation M := (SM World).

(** A system call: always defined. *)
Definition sys {A} (f : World -> A * World) : M A := fun w => Some (f w).

(** A memory access: undefined when out of bounds. *)
Abbreviation mem := (lift (St := World)).

(** [errno]. *)
Definition get_errno : M Z := fun w => Some (w_errno w, w).

(** ** Inode contents and descriptors *)

Definition file_content (w : World) (ino : nat) : bytes := default [] (w_data w !! ino).

(** Overwrite [old] at [pos] with [d]; a gap is filled with zeros. *)
Definition splice (old : bytes) (pos : Z) (d : bytes) : bytes :=
  take (Z.to_nat pos) old ++ replicate (Z.to_nat pos - length old) x00 ++ d
  ++ drop (Z.to_nat pos + length d) old.

Definition pop_io (w : World) : option io_result * World :=
  match w_io w with [] => (None, w) | r :: l => (Some r, set_io l w) end.

Definition pop_ctl (w : World) : ctl_result * World :=
  match w_ctl w with [] => (CtlOk, w) | r :: l => (r, set_ctl l w) end.

(** ** System calls *)

Record open_flags := mkFlags { o_creat : bool; o_trunc : bool; o_append : bool }.

Definition alloc_fd (ino : nat) (app : bool) (w : World) : Z * World :=
  (w_fresh_fd w, bump_fd (set_fds (<[w_fresh_fd w := mkOpenFile ino 0 app]> (w_fds w)) w)).

(** [open(path, flags)]. *)
Definition sys_open (path : bytes) (fl : open_flags) (w : World) : Z * World :=
  match pop_ctl w with
  | (CtlFail e, w) => (-1, set_errno e w)
  | (CtlOk, w) =>
      match w_dir w !! path with
      | Some ino =>
          alloc_fd ino (o_append fl) (if o_trunc fl then set_data (<[ino := []]> (w_data w)) w else w)
      | None =>
          if o_creat fl then
            let ino := w_fresh_ino w in
            alloc_fd ino (o_append fl)
              (bump_ino (set_data (<[ino := []]> (w_data w)) (set_dir (<[path := ino]> (w_dir w)) w)))
          else (-1, set_errno ENOENT w)
      end
  end.

(** The effect of a write that delivers the bytes [d]. *)
Definition do_write (fd : Z) (f : OpenFile) (d : bytes) (w : World) : World :=
  let old := file_content w (f_ino f) in
  let pos := if f_append f then size_of old else f_pos f in
  set_data (<[f_ino f := splice old pos d]> (w_data w))
    (set_fds (<[fd := mkOpenFile (f_ino f) (pos + size_of d) (f_append f)]> (w_fds w)) w).

(** [write(fd, p, |p|)]. *)
Definition sys_write (fd : Z) (p : bytes) (w : World) : Z * World :=
  match pop_io w with
  | (Some (IoFail e), w) => (-1, set_errno e w)
  | (r, w) =>
      match w_fds w !! fd with
      | None => (-1, set_errno EBADF w)
      | Some f =>
          let n := match r with Some (IoPartial n) => Z.max 0 (Z.min n (size_of p)) | _ => size_of p end in
          (n, do_write fd f (take (Z.to_nat n) p) w)
      end
  end.

(** How many of the [avail] bytes left a read of [want] bytes delivers: at least
    one unless the end of the file is reached. *)
Definition read_count (r : option io_result) (want avail : Z) : Z :=
  match r with
  | Some (IoPartial n) => Z.min (Z.max 1 n) (Z.min want avail)
  | _ => Z.min want avail
  end.

(** [pread(fd, buf, want, off)]: the count and the bytes delivered. *)
Definition sys_pread (fd want off : Z) (w : World) : Z * bytes * World :=
  match pop_io w with
  | (Some (IoFail e), w) => (-1, [], set_errno e w)
  | (r, w) =>
      match w_fds w !! fd with
      | None => (-1, [], set_errno EBADF w)
      | Some f =>
          let data := file_content w (f_ino f) in
          let n := read_count r want (Z.max 0 (size_of data - off)) in
          (n, sub_bytes data off n, w)
      end
  end.

(** Advance the position of [fd] by [n]. *)
Definition do_read (fd : Z) (f : OpenFile) (n : Z) (w : World) : World :=
  set_fds (<[fd := mkOpenFile (f_ino f) (f_pos f + n) (f_append f)]> (w_fds w)) w.

(** [read(fd, buf, want)]: a [pread] at the descriptor's position, which moves. *)
Definition sys_read (fd want : Z) (w : World) : Z * bytes * World :=
  match w_fds w !! fd with
  | None => sys_pread fd want 0 w
  | Some f =>
      match sys_pread fd want (f_pos f) w with
      | (n, d, w') => if n <? 0 then (n, d, w') else (n, d, do_read fd f n w')
      end
  end.

(** [fstat(fd, &st)]: the result code and [st.st_size]. *)
Definition sys_fstat (fd : Z) (w : World) : Z * Z * World :=
  match pop_ctl w with
  | (CtlFail e, w) => (-1, 0, set_errno e w)
  | (CtlOk, w) =>
      match w_fds w !! fd with
      | None => (-1, 0, set_errno EBADF w)
      | Some f => (0, size_of (file_content w (f_ino f)), w)
      end
  end.

(** [lseek(fd, 0, SEEK_CUR)]. *)
Definition sys_lseek_cur (fd : Z) (w : World) : Z * World :=
  match pop_ctl w with
  | (CtlFail e, w) => (-1, set_errno e w)
  | (CtlOk, w) =>
      match w_fds w !! fd with
      | None => (-1, set_errno EBADF w)
      | Some f => (f_pos f, w)
      end
  end.

(** [fdatasync(fd)]. *)
Definition sys_fdatasync (fd : Z) (w : World) : Z * World :=
  match pop_ctl w with
  | (CtlFail e, w) => (-1, set_errno e w)
  | (CtlOk, w) =>
      match w_fds w !! fd with None => (-1, set_errno EBADF w) | Some _ => (0, w) end
  end.

(** [close(fd)]. *)
Definition sys_close (fd : Z) (w : World) : Z * World :=
  (0, set_fds (delete fd (w_fds w)) w).

(** [rename(from, to)]. *)
Definition sys_rename (from to : bytes) (w : World) : Z * World :=
  match pop_ctl w with
  | (CtlFail e, w) => (-1, set_errno e w)
  | (CtlOk, w) =>
      match w_dir w !! from with
      | None => (-1, set_errno ENOENT w)
      | Some ino => (0, set_dir (<[to := ino]> (delete from (w_dir w))) w)
      end
  end.

(** [unlink(path)]: removes the name; open descriptors keep the inode. *)
Definition sys_unlink (path : bytes) (w : World) : Z * World :=
  match pop_ctl w with
  | (CtlFail e, w) => (-1, set_errno e w)
  | (CtlOk, w) =>
      match w_dir w !! path with
      | None => (-1, set_errno ENOENT w)
      | Some _ => (0, set_dir (delete path (w_dir w)) w)
      end
  end.

(** ** Write loops *)

(** The loop every writer uses to push a buffer out:
    [while (left > 0) { n = write(fd, p, left); if (n <= 0) { if (errno == EINTR)
    continue; return IOError(what + strerror(errno)); } p += n; left -= n;
    counter += n; }].  It returns the status and the updated counter; [None] in
    the result means the fuel ran out. *)
Fixpoint write_loop (fuel : nat) (fd : Z) (what : string) (p : bytes) (counter : Z)
    : M (option (Status.t * Z)) :=
  match p with
  | [] => mret (Some (Status.OK, counter))
  | _ :: _ =>
    match fuel with
    | O => mret None
    | S fuel' =>
        n ← sys (sys_write fd p);
        if n <=? 0 then
          e ← get_errno;
          if e =? EINTR then write_loop fuel' fd what p counter
          else mret (Some (Status.IOError [Status.Lit what; Status.Errno e], counter))
        else write_loop fuel' fd what (drop (Z.to_nat n) p) (u64 (counter + n))
    end
  end.

(** Each turn consumes a scheduled outcome or transfers everything, so one more
    turn than there are outcomes is enough ([write_all_run] below). *)
Definition write_all (fd : Z) (what : string) (p : bytes) (counter : Z) : M (option (Status.t * Z)) :=
  fun w => write_loop (S (length (w_io w))) fd what p counter w.

(** ** Reasoning about the world *)

(** Transfers only suffer interruptions and short counts. *)
Definition io_benign (r : io_result) : Prop :=
  match r with IoFail e => e = EINTR | IoPartial n => 0 < n end.

Definition benign (w : World) : Prop := Forall io_benign (w_io w) /\ w_ctl w = [].

(** [fd] is open on [ino] and its next write lands at the end of the file. *)
Definition at_end (w : World) (fd : Z) (ino : nat) : Prop :=
  exists f, w_fds w !! fd = Some f /\ f_ino f = ino /\
            (f_append f = true \/ f_pos f = size_of (file_content w ino)).

(** What a transfer on [fd] and [ino] leaves alone. *)
Record io_frame (fd : Z) (ino : nat) (w w' : World) : Prop := {
  fr_dir : w_dir w' = w_dir w;
  fr_ctl : exists l, w_ctl w = l ++ w_ctl w';
  fr_fds : forall fd', fd' <> fd -> w_fds w' !! fd' = w_fds w !! fd';
  fr_data : forall i, i <> ino -> file_content w' i = file_content w i;
  fr_fresh : w_fresh_ino w' = w_fresh_ino w /\ w_fresh_fd w' = w_fresh_fd w;
  fr_io : exists l, w_io w = l ++ w_io w';
}.

Lemma io_frame_refl fd ino w : io_frame fd ino w w.
Proof. split; try done; by exists []. Qed.

Lemma io_frame_trans fd ino w1 w2 w3 :
  io_frame fd ino w1 w2 -> io_frame fd ino w2 w3 -> io_frame fd ino w1 w3.
Proof.
  intros [H1 [m1 H2] H3 H4 [H5 H5'] [l1 H6]] [G1 [m2 G2] G3 G4 [G5 G5'] [l2 G6]].
  split; try congruence.
  - exists (m1 ++ m2). by rw H2 G2 app_assoc.
  - intros. by rw G3 // H3.
  - intros. by rw G4 // H4.
  - split; congruence.
  - exists (l1 ++ l2). by rw H6 G6 app_assoc.
Qed.

Lemma io_frame_ctl fd ino w w' : io_frame fd ino w w' -> w_ctl w = [] -> w_ctl w' = [].
Proof.
  intros F E. destruct (fr_ctl _ _ _ _ F) as [l El]. rw E in El. symmetry in El.
  by apply app_nil in El as [_ ?].
Qed.

Lemma io_frame_benign fd ino w w' : io_frame fd ino w w' -> benign w -> benign w'.
Proof.
  intros F [H1 H2]. destruct (fr_io _ _ _ _ F) as [l E]. split.
  - rw E in H1. by apply Forall_app in H1 as [_ ?].
  - eapply io_frame_ctl; eauto.
Qed.

Lemma splice_end old d : splice old (size_of old) d = old ++ d.
Proof.
  rw /splice /size_of Nat2Z.id take_ge // Nat.sub_diag /= drop_ge; [lia|]. by rw app_nil_r.
Qed.

Lemma do_write_at_end w fd f d :
  w_fds w !! fd = Some f -> at_end w fd (f_ino f) ->
  let w' := do_write fd f d w in
  file_content w' (f_ino f) = file_content w (f_ino f) ++ d /\
  io_frame fd (f_ino f) w w' /\ at_end w' fd (f_ino f).
Proof.
  intros Hf (f' & Hf' & _ & Hpos) w'. rw Hf in Hf'. injection Hf' as <-.
  assert (Hp : (if f_append f then size_of (file_content w (f_ino f)) else f_pos f)
               = size_of (file_content w (f_ino f))).
  { destruct (f_append f); [done|]. by destruct Hpos. }
  assert (Hc : file_content w' (f_ino f) = file_content w (f_ino f) ++ d).
  { rw /w' /do_write Hp {1}/file_content /= lookup_insert_eq /= splice_end //. }
  split; [done|]. split.
  - split; try done.
    + by exists [].
    + intros. rw /w' /do_write /= lookup_insert_ne //.
    + intros i Hi. rw /w' /do_write /file_content /= lookup_insert_ne //.
    + by exists [].
  - eexists. split; [rw /w' /do_write /= lookup_insert_eq //|]. split; [done|]. right.
    by rw /= Hc Hp size_of_app.
Qed.

(** The three ways a [write] on an open descriptor goes. *)
Lemma sys_write_eq w fd f p :
  w_fds w !! fd = Some f ->
  sys_write fd p w =
    match w_io w with
    | [] => (size_of p, do_write fd f p w)
    | IoFail e :: l => (-1, set_errno e (set_io l w))
    | IoPartial n :: l =>
        let m := Z.max 0 (Z.min n (size_of p)) in
        (m, do_write fd f (take (Z.to_nat m) p) (set_io l w))
    end.
Proof.
  intros Hf. rw /sys_write /pop_io. destruct (w_io w) as [|[e|n] l]; simpl; rw ?Hf //.
  rw /size_of Nat2Z.id take_ge //.
Qed.

(** Dropping a scheduled outcome changes no file. *)
Lemma io_frame_pop fd ino w r l e :
  w_io w = r :: l ->
  io_frame fd ino w (set_io l w) /\ io_frame fd ino w (set_errno e (set_io l w)).
Proof. intros E. split; split; try done; first [by exists [] | exists [r]; by rw E]. Qed.

(** The same for the other calls. *)
Lemma pop_ctl_frame fd ino w r l e :
  w_ctl w = r :: l ->
  io_frame fd ino w (set_ctl l w) /\ io_frame fd ino w (set_errno e (set_ctl l w)).
Proof. intros E. split; split; try done; first [by exists [] | exists [r]; by rw E]. Qed.

Lemma at_end_fd w fd ino : at_end w fd ino -> exists f, w_fds w !! fd = Some f /\ f_ino f = ino.
Proof. intros (f & ? & ? & ?). eauto. Qed.

Lemma drop_add_take (p : bytes) n k : take n p ++ take k (drop n p) = take (n + k) p.
Proof. apply take_take_drop. Qed.

(** What a completed write loop did: a prefix of the buffer was appended. *)
Record write_result (fd : Z) (ino : nat) (p : bytes) (counter : Z) (w w' : World)
    (st : Status.t) (counter' : Z) (k : nat) : Prop := {
  wr_prefix : (k <= length p)%nat;
  wr_content : file_content w' ino = file_content w ino ++ take k p;
  wr_frame : io_frame fd ino w w';
  wr_end : at_end w' fd ino;
  wr_counter : counter' = u64 (counter + Z.of_nat k);
  wr_status : Status.code st = Status.kOk \/ Status.code st = Status.kIOError;
  wr_ok : Status.ok st = true -> k = length p;
  wr_benign : benign w -> Status.ok st = true;
}.

(** A loop that first appended [take n p] and then ran on the rest. *)
Lemma write_result_step fd ino p counter w w1 w' st counter' k n :
  (n <= length p)%nat -> 0 <= counter < 2 ^ 64 ->
  file_content w1 ino = file_content w ino ++ take n p -> io_frame fd ino w w1 ->
  write_result fd ino (drop n p) (u64 (counter + Z.of_nat n)) w1 w' st counter' k ->
  write_result fd ino p counter w w' st counter' (n + k).
Proof.
  intros Hn Hr Hc F [R1 R2 R3 R4 R5 R6 R7 R8]. rw length_drop in R1 R7. split; try done.
  - lia.
  - by rw R2 Hc -app_assoc drop_add_take.
  - by eapply io_frame_trans.
  - rw R5 /u64 Zplus_mod_idemp_l. f_equal. lia.
  - intros Hok. specialize (R7 Hok). lia.
  - intros Hb. apply R8. by eapply io_frame_benign.
Qed.

(** One turn of a write loop: nothing was written (and [EINTR] or an error is
    pending), or a non-empty prefix was. *)
Lemma sys_write_cases w fd ino p :
  at_end w fd ino -> p <> [] ->
  exists n w1, sys_write fd p w = (n, w1) /\ io_frame fd ino w w1 /\ at_end w1 fd ino /\
    file_content w1 ino = file_content w ino ++ take (Z.to_nat n) p /\ n <= size_of p /\
    ((w_io w = [] /\ n = size_of p) \/ (length (w_io w1) < length (w_io w))%nat) /\
    (benign w -> n <= 0 -> w_errno w1 = EINTR).
Proof.
  intros He Hne. destruct (at_end_fd _ _ _ He) as (f & Hf & <-). rw (sys_write_eq _ _ _ _ Hf).
  assert (Hs : 0 < size_of p).
  { destruct p as [|x p']; [done|]. rw size_of_cons. pose proof (size_of_nonneg p'). lia. }
  destruct (w_io w) as [|[e|n] l] eqn:Eio.
  - destruct (do_write_at_end w fd f p Hf He) as (Hc & F & He').
    do 2 eexists. split_and!; eauto; try lia. by rw Hc /size_of Nat2Z.id firstn_all.
  - destruct (io_frame_pop fd (f_ino f) w _ l e Eio) as [_ F].
    do 2 eexists. split_and!; eauto; [by rw app_nil_r | lia |].
    intros [Hb _]. rw Eio in Hb. by apply Forall_cons in Hb as [? _].
  - destruct (io_frame_pop fd (f_ino f) w _ l 0 Eio) as [F1 _].
    destruct (do_write_at_end (set_io l w) fd f (take (Z.to_nat (Z.max 0 (Z.min n (size_of p)))) p))
      as (Hc & F2 & He'); [done | by destruct He as (f' & ?); exists f' |].
    do 2 eexists. split_and!; eauto using io_frame_trans; [lia|].
    intros [Hb _]. rw Eio in Hb. apply Forall_cons in Hb as [Hb _]. simpl in Hb. lia.
Qed.

Lemma write_loop_unfold fuel fd what p counter w :
  p <> [] ->
  write_loop (S fuel) fd what p counter w =
    let '(n, w1) := sys_write fd p w in
    if n <=? 0 then
      if w_errno w1 =? EINTR then write_loop fuel fd what p counter w1
      else Some (Some (Status.IOError [Status.Lit what; Status.Errno (w_errno w1)], counter), w1)
    else write_loop fuel fd what (drop (Z.to_nat n) p) (u64 (counter + n)) w1.
Proof.
  destruct p as [|x p]; [done|]. intros _. cbn [write_loop]. rw /mbind /SM_bind /sys /get_errno.
  destruct (sys_write fd _ w) as [n w1]. destruct (n <=? 0); [|done]. by destruct (w_errno w1 =? EINTR).
Qed.

(** A loop that stops at once. *)
Lemma write_result_stop fd ino p counter w st :
  at_end w fd ino -> 0 <= counter < 2 ^ 64 ->
  (Status.ok st = true /\ p = [] \/ Status.code st = Status.kIOError /\ ~ benign w) ->
  forall w1, io_frame fd ino w w1 -> at_end w1 fd ino -> file_content w1 ino = file_content w ino ->
  write_result fd ino p counter w w1 st counter 0.
Proof.
  intros He Hr Hst w1 F He1 Hc. split; try done.
  - lia.
  - by rw Hc app_nil_r.
  - by rw Z.add_0_r u64_small.
  - rw /Status.ok in Hst. destruct Hst as [[?%bool_decide_eq_true ?]|[? ?]]; auto.
  - destruct Hst as [[? ->]|[E ?]]; [done|]. by rw /Status.ok E.
  - destruct Hst as [[? ->]|[E ?]]; [done|]. tauto.
Qed.

Lemma write_loop_run fuel fd ino what p counter w :
  at_end w fd ino -> (length (w_io w) < fuel)%nat -> 0 <= counter < 2 ^ 64 ->
  exists st counter' k w',
    write_loop fuel fd what p counter w = Some (Some (st, counter'), w') /\
    write_result fd ino p counter w w' st counter' k.
Proof.
  revert p counter w; induction fuel as [|fuel IH]; intros p counter w He Hfuel Hcnt; [lia|].
  destruct (decide (p = [])) as [->|Hne].
  { exists Status.OK, counter, 0%nat, w. split; [done|].
    apply write_result_stop; auto using io_frame_refl. }
  rw write_loop_unfold //.
  destruct (sys_write_cases w fd ino p He Hne) as (n & w1 & -> & F & He1 & Hc & Hn & Hio & Hb).
  destruct (Z.leb_spec n 0).
  - replace (Z.to_nat n) with 0%nat in Hc by lia. rw app_nil_r in Hc.
    assert (length (w_io w1) < fuel)%nat.
    { destruct Hio as [[_ ->]|?]; [|lia]. destruct p; [done|]. rw size_of_cons in H. size_tac. }
    destruct (Z.eqb_spec (w_errno w1) EINTR) as [_|Hno].
    + destruct (IH p counter w1) as (st & c' & k & w' & E & R); try done.
      exists st, c', (0 + k)%nat, w'. split; [done|].
      eapply write_result_step; eauto; [lia | by rw app_nil_r |]. by rw Z.add_0_r u64_small.
    + do 4 eexists. split; [done|]. apply write_result_stop; auto. right. split; [done|]. auto.
  - assert (length (w_io w1) < S fuel)%nat as Hl.
    { destruct (fr_io _ _ _ _ F) as [l E]. rw E length_app in Hfuel. lia. }
    destruct (decide (w_io w = [] /\ n = size_of p)) as [[Hz ->]|Hnz].
    + exists Status.OK, (u64 (counter + size_of p)), (length p + 0)%nat, w1.
      rw /size_of Nat2Z.id firstn_all in Hc *. rw drop_all. split; [by destruct fuel|].
      eapply write_result_step; eauto; [by rw firstn_all|]. rw drop_all.
      apply write_result_stop; auto using io_frame_refl. apply u64_range.
    + destruct (IH (drop (Z.to_nat n) p) (u64 (counter + n)) w1) as (st & c' & k & w' & E & R);
        [done | destruct Hio; [tauto|lia] | apply u64_range |].
      exists st, c', (Z.to_nat n + k)%nat, w'. split; [done|].
      eapply write_result_step; eauto; [rw /size_of in Hn; lia|]. by rewrite -> Z2Nat.id by lia.
Qed.

Lemma write_all_run fd ino what p counter w :
  at_end w fd ino -> 0 <= counter < 2 ^ 64 ->
  exists st counter' k w',
    write_all fd what p counter w = Some (Some (st, counter'), w') /\
    write_result fd ino p counter w w' st counter' k.
Proof. intros. apply write_loop_run; [done|lia|done]. Qed.

(** A write that was not refused: the bytes are at the end of the file. *)
Record appended (fd : Z) (ino : nat) (d : bytes) (w w' : World) : Prop := {
  ap_content : file_content w' ino = file_content w ino ++ d;
  ap_frame : io_frame fd ino w w';
  ap_end : at_end w' fd ino;
  ap_benign : benign w';
}.

Lemma appended_trans fd ino d1 d2 w1 w2 w3 :
  appended fd ino d1 w1 w2 -> appended fd ino d2 w2 w3 -> appended fd ino (d1 ++ d2) w1 w3.
Proof.
  intros [H1 H2 H3 H4] [G1 G2 G3 G4]. split; auto; [by rw G1 H1 app_assoc|]. by eapply io_frame_trans.
Qed.

(** Interrupted and short writes only delay the loop. *)
Lemma write_all_benign fd ino what p counter w :
  at_end w fd ino -> benign w -> 0 <= counter -> counter + size_of p < 2 ^ 64 ->
  exists st w', with_fuel (write_all fd what p counter) w = Some ((st, counter + size_of p), w') /\
    Status.ok st = true /\ appended fd ino p w w'.
Proof.
  intros He Hb H0 H1. pose proof (size_of_nonneg p).
  destruct (write_all_run fd ino what p counter w He ltac:(lia)) as (st & c & k & w' & E & R).
  pose proof (wr_benign _ _ _ _ _ _ _ _ _ R Hb) as Hok. pose proof (wr_ok _ _ _ _ _ _ _ _ _ R Hok) as ->.
  exists st, w'. rw /with_fuel (bind_run _ _ _ _ _ E) /=. split_and!; auto.
  - do 3 f_equal. rw (wr_counter _ _ _ _ _ _ _ _ _ R) u64_small //. rw /size_of in H1. lia.
  - destruct R as [R1 R2 R3 R4 R5 R6 R7 R8]. rw firstn_all in R2. split; auto. by eapply io_frame_benign.
Qed.

(** ** Read loops *)

(** How a loop that wants a fixed number of bytes ends. *)
Inductive read_end :=
| RdFull (d : bytes)     (* all the bytes were delivered *)
| RdEof (d : bytes)      (* [read] returned 0 after the bytes [d] *)
| RdErr (e : Z).         (* [read] failed with an errno other than [EINTR] *)

(** [while (bytes_read < want) { n = read(fd, buf + bytes_read, want - bytes_read);
    if (n == 0) ...; if (n < 0) { if (errno == EINTR) continue; ... }
    bytes_read += n; }] *)
Fixpoint read_loop (fuel : nat) (fd want : Z) (acc : bytes) : M (option read_end) :=
  if size_of acc <? want then
    match fuel with
    | O => mret None
    | S fuel' =>
        '(n, d) ← sys (sys_read fd (want - size_of acc));
        if n =? 0 then mret (Some (RdEof acc))
        else if n <? 0 then
          e ← get_errno;
          if e =? EINTR then read_loop fuel' fd want acc else mret (Some (RdErr e))
        else read_loop fuel' fd want (acc ++ d)
    end
  else mret (Some (RdFull acc)).

(** Once the schedule is exhausted, one turn reads what is left and one more meets
    the end of the file. *)
Definition read_all (fd want : Z) : M (option read_end) :=
  fun w => read_loop (2 + length (w_io w)) fd want [] w.

Definition fd_at (w : World) (fd : Z) (ino : nat) (pos : Z) : Prop :=
  exists f, w_fds w !! fd = Some f /\ f_ino f = ino /\ f_pos f = pos.

(** The rest of the file from a position. *)
Definition rest_of (w : World) (ino : nat) (pos : Z) : bytes :=
  drop (Z.to_nat pos) (file_content w ino).

(** A read leaves the files alone. *)
Definition read_frame (fd : Z) (ino : nat) (w w' : World) : Prop :=
  io_frame fd ino w w' /\ file_content w' ino = file_content w ino /\
  (forall f, w_fds w !! fd = Some f -> exists f', w_fds w' !! fd = Some f' /\ f_ino f' = f_ino f).

Lemma read_frame_refl fd ino w : read_frame fd ino w w.
Proof. split; [apply io_frame_refl|]. eauto. Qed.

Lemma read_frame_trans fd ino w1 w2 w3 :
  read_frame fd ino w1 w2 -> read_frame fd ino w2 w3 -> read_frame fd ino w1 w3.
Proof.
  intros (F1 & E1 & K1) (F2 & E2 & K2). split; [by eapply io_frame_trans|]. split; [congruence|].
  intros f Hf. destruct (K1 f Hf) as (f1 & Hf1 & Ef1). destruct (K2 f1 Hf1) as (f2 & Hf2 & Ef2). exists f2. split; [done|congruence].
Qed.

Lemma size_rest_of w ino pos :
  0 <= pos <= size_of (file_content w ino) ->
  size_of (rest_of w ino pos) = size_of (file_content w ino) - pos.
Proof. rw /rest_of /size_of length_drop. lia. Qed.

Lemma read_count_bounds r want avail :
  0 < want -> 0 <= avail ->
  0 <= read_count r want avail <= Z.min want avail /\
  (read_count r want avail = 0 -> avail = 0) /\
  (r = None -> read_count r want avail = Z.min want avail).
Proof. intros. rw /read_count. destruct r as [[e|n]|]; split_and!; try done; lia. Qed.

Lemma do_read_run fd f n w :
  w_fds w !! fd = Some f ->
  read_frame fd (f_ino f) w (do_read fd f n w) /\ fd_at (do_read fd f n w) fd (f_ino f) (f_pos f + n).
Proof.
  intros Hf. split.
  - split; [|split; [done|]].
    + split; try done; try by exists []. intros. rw /= lookup_insert_ne //.
    + intros g Hg. eexists. split; [rw /= lookup_insert_eq //|]. simpl. congruence.
  - eexists. split; [rw /= lookup_insert_eq //|done].
Qed.

(** The three ways a [read] on an open descriptor goes. *)
Lemma sys_read_eq w fd f want :
  w_fds w !! fd = Some f -> 0 < want ->
  let avail := Z.max 0 (size_of (file_content w (f_ino f)) - f_pos f) in
  let deliver r w0 := let n := read_count r want avail in
    (n, sub_bytes (file_content w (f_ino f)) (f_pos f) n, do_read fd f n w0) in
  sys_read fd want w =
    match w_io w with
    | [] => deliver None w
    | IoFail e :: l => (-1, [], set_errno e (set_io l w))
    | IoPartial m :: l => deliver (Some (IoPartial m)) (set_io l w)
    end.
Proof.
  intros Hf Hw avail deliver. rw /sys_read Hf /sys_pread /pop_io.
  destruct (w_io w) as [|[e|m] l]; [rw Hf|done|simpl; rw Hf];
    rw /deliver /file_content /= -/(file_content w (f_ino f)) -/avail.
  - destruct (read_count_bounds None want avail) as [? _]; [lia..|]. case_bool; [lia|done].
  - destruct (read_count_bounds (Some (IoPartial m)) want avail) as [? _]; [lia..|]. case_bool; [lia|done].
Qed.

(** One [read]: an error, the end of the file, or a non-empty prefix of the rest. *)
Lemma sys_read_cases w fd ino pos want :
  fd_at w fd ino pos -> 0 <= pos <= size_of (file_content w ino) -> 0 < want ->
  exists n d w1, sys_read fd want w = (n, d, w1) /\ read_frame fd ino w w1 /\
    (n < 0 /\ fd_at w1 fd ino pos /\ (length (w_io w1) < length (w_io w))%nat /\ (benign w -> w_errno w1 = EINTR)
     \/ 0 <= n <= want /\ n <= size_of (rest_of w ino pos) /\ d = take (Z.to_nat n) (rest_of w ino pos) /\
        fd_at w1 fd ino (pos + n) /\ (n = 0 -> rest_of w ino pos = []) /\
        (n = Z.min want (size_of (rest_of w ino pos)) \/ (length (w_io w1) < length (w_io w))%nat)).
Proof.
  intros (f & Hf & <- & <-) Hp Hw. pose proof (size_rest_of _ _ _ Hp) as Hrest.
  assert (Hnil : size_of (rest_of w (f_ino f) (f_pos f)) = 0 -> rest_of w (f_ino f) (f_pos f) = []).
  { rw /size_of. by destruct (rest_of w _ _). }
  rw (sys_read_eq _ _ _ _ Hf Hw). rw Z.max_r; [lia|]. rw -Hrest.
  pose proof (size_of_nonneg (rest_of w (f_ino f) (f_pos f))).
  destruct (w_io w) as [|[e|m] l] eqn:Eio.
  - destruct (read_count_bounds None want (size_of (rest_of w (f_ino f) (f_pos f)))) as (? & ? & Hm); [lia..|].
    specialize (Hm eq_refl). destruct (do_read_run fd f (read_count None want (size_of (rest_of w (f_ino f) (f_pos f)))) w Hf).
    do 3 eexists. split; [done|]. split; [done|]. right. split_and!; auto using sub_bytes_eq; lia.
  - destruct (io_frame_pop fd (f_ino f) w _ l e Eio) as [_ F].
    do 3 eexists. split; [done|]. split; [split; [done|split; [done|by eauto]]|]. left.
    split_and!; [lia | by exists f | simpl; lia |].
    intros [Hb _]. rw Eio in Hb. by apply Forall_cons in Hb as [? _].
  - destruct (io_frame_pop fd (f_ino f) w _ l 0 Eio) as [F _].
    set (r := Some (IoPartial m)).
    destruct (read_count_bounds r want (size_of (rest_of w (f_ino f) (f_pos f)))) as (? & ? & _); [lia..|].
    destruct (do_read_run fd f (read_count r want (size_of (rest_of w (f_ino f) (f_pos f)))) (set_io l w) Hf) as [F2 ?].
    do 3 eexists. split; [done|].
    split; [eapply read_frame_trans; [|exact F2]; split; [done|split; [done|by eauto]]|]. right. split_and!; auto using sub_bytes_eq; try lia.
Qed.

(** How a read loop ends, in terms of the rest of the file. *)
Definition read_result (fd : Z) (ino : nat) (pos want : Z) (w w' : World) (r : read_end) : Prop :=
  read_frame fd ino w w' /\
  match r with
  | RdFull d => want <= size_of (rest_of w ino pos) /\ d = take (Z.to_nat want) (rest_of w ino pos) /\
                fd_at w' fd ino (pos + want)
  | RdEof d => size_of (rest_of w ino pos) < want /\ d = rest_of w ino pos /\
               fd_at w' fd ino (size_of (file_content w ino))
  | RdErr e => ~ benign w
  end.

Lemma rest_of_add w ino pos n :
  0 <= pos -> 0 <= n -> rest_of w ino (pos + n) = drop (Z.to_nat n) (rest_of w ino pos).
Proof. intros. rw /rest_of drop_drop. f_equal. lia. Qed.

Lemma read_loop_run fuel fd ino pos want k acc w :
  fd_at w fd ino (pos + k) -> 0 <= pos -> pos + k <= size_of (file_content w ino) ->
  0 <= k -> k = size_of acc -> acc = take (Z.to_nat k) (rest_of w ino pos) -> k <= want ->
  (1 + length (w_io w) < fuel \/ k = Z.min want (size_of (rest_of w ino pos)) /\ length (w_io w) < fuel)%nat ->
  exists r w', read_loop fuel fd want acc w = Some (Some r, w') /\ read_result fd ino pos want w w' r.
Proof.
  revert k acc w; induction fuel as [|fuel IH]; intros k acc w Hat Hp Hpk Hk Hacc Hpre Hkw Hfuel;
    [lia|].
  pose proof (size_rest_of w ino pos ltac:(lia)) as Hrest.
  cbn [read_loop]. destruct (Z.ltb_spec (size_of acc) want).
  2:{ exists (RdFull acc), w. split; [done|]. split; [apply read_frame_refl|].
      assert (k = want) as <- by lia. split_and!; auto. lia. }
  rw /mbind /SM_bind /sys /get_errno.
  destruct (sys_read_cases w fd ino (pos + k) (want - size_of acc) Hat) as (n & d & w1 & -> & F & Hcase);
    [lia..|].
  pose proof (rest_of_add w ino pos k ltac:(lia) ltac:(lia)) as Hra.
  assert (Hrest1 : forall q, rest_of w1 ino q = rest_of w ino q) by (intros; rw /rest_of; by destruct F as (_ & -> & _)).
  assert (Hsz1 : file_content w1 ino = file_content w ino) by apply F.
  destruct Hcase as [(Hn & Hat1 & Hlen & Hb)|(Hn & Hns & -> & Hat1 & H0 & Hlen)].
  - destruct (Z.eqb_spec n 0); [lia|]. destruct (Z.ltb_spec n 0); [|lia].
    destruct (Z.eqb_spec (w_errno w1) EINTR) as [_|Hne].
    + destruct (IH k acc w1) as (r & w' & E & F' & R); rw ?Hsz1 ?Hrest1; auto; [lia|].
      exists r, w'. split; [done|]. split; [by eapply read_frame_trans|].
      rw Hrest1 Hsz1 in R. destruct r; auto. intros ?. apply R. destruct F. by eapply io_frame_benign.
    + exists (RdErr (w_errno w1)), w1. split; [done|]. split; [done|]. auto.
  - pose proof (size_rest_of w ino (pos + k) ltac:(lia)) as Hrk.
    destruct (Z.eqb_spec n 0) as [->|Hnz].
    + exists (RdEof acc), w1. specialize (H0 eq_refl). rw H0 size_of_nil in Hrk.
      split; [done|]. split; [done|].
      assert (pos + k = size_of (file_content w ino)) as Hpe by lia. rw Z.add_0_r Hpe in Hat1.
      split_and!; [lia | | done]. rw Hpre. apply take_ge. rw /size_of in Hrest Hpe. lia.
    + destruct (Z.ltb_spec n 0); [lia|].
      assert (Hacc' : acc ++ take (Z.to_nat n) (rest_of w ino (pos + k)) = take (Z.to_nat (k + n)) (rest_of w ino pos)).
      { rw Hra {1}Hpre take_take_drop. f_equal. lia. }
      destruct (IH (k + n) (acc ++ take (Z.to_nat n) (rest_of w ino (pos + k))) w1)
        as (r & w' & E & F' & R); rw ?Hsz1 ?Hrest1; auto; try lia.
      { by rw Z.add_assoc. }
      { rw size_of_app -Hacc. f_equal. rw /size_of length_take. rw /size_of in Hns. lia. }
      { destruct Hlen as [Hl|Hl]; [|lia]. right. split; [lia|].
        destruct F as [F _]. destruct (fr_io _ _ _ _ F) as [l El]. rw El length_app in Hfuel. lia. }
      exists r, w'. split; [done|]. split; [by eapply read_frame_trans|].
      rw Hrest1 Hsz1 in R. destruct r; auto. intros ?. apply R. destruct F. by eapply io_frame_benign.
Qed.

Lemma read_all_run fd ino pos want w :
  fd_at w fd ino pos -> 0 <= pos <= size_of (file_content w ino) -> 0 <= want ->
  exists r w', read_all fd want w = Some (Some r, w') /\ read_result fd ino pos want w w' r.
Proof.
  intros Hat Hp Hw. apply (read_loop_run _ _ _ _ _ 0); try done; try lia.
  by rw Z.add_0_r.
Qed.
