(* ===== verification/Filename.v ===== *)
(** * Filename: names of the files of a database

    Models [src/filename.h] ([snprintf] with [%06llu] included) and the way the
    directory scans of [db_impl.cc] read a number back with [std::stoull]. *)

From S2P Require Import Prelude Slice.

(** ** Decimal numbers of the C library *)

Definition digit (d : Z) : byte := byte_of_Z (48 + d).

(** Decimal digits of [n], most significant first, in front of [acc]. *)
Fixpoint dec_digits (fuel : nat) (n : Z) (acc : bytes) : bytes :=
  match fuel with
  | O => acc
  | S fuel' =>
      if n <? 10 then digit n :: acc
      else dec_digits fuel' (n / 10) (digit (n mod 10) :: acc)
  end.

(** [%06llu]: an [unsigned long long] has at most 20 digits. *)
Definition format_06llu (n : Z) : bytes :=
  let ds := dec_digits 20 n [] in replicate (6 - length ds) (digit 0) ++ ds.

#[global] Arguments format_06llu : simpl never.

(** [char buf[64]; snprintf(buf, sizeof(buf), ...)]: at most 63 characters. *)
Definition snprintf64 (s : bytes) : bytes := take 63 s.

Definition is_digit (b : byte) : bool := (48 <=? Z_of_byte b) && (Z_of_byte b <=? 57).
Definition is_space (b : byte) : bool :=
  (Z_of_byte b =? 32) || ((9 <=? Z_of_byte b) && (Z_of_byte b <=? 13)).

(** The digits at the front of [s], accumulated onto [acc]. *)
Fixpoint strtoull_digits (s : bytes) (acc : Z) : Z :=
  match s with
  | b :: s' => if is_digit b then strtoull_digits s' (acc * 10 + (Z_of_byte b - 48)) else acc
  | [] => acc
  end.

Fixpoint skip_space (s : bytes) : bytes :=
  match s with b :: s' => if is_space b then skip_space s' else s | [] => [] end.

(** [std::stoull(s)]: [None] when it throws [invalid_argument] or [out_of_range]. *)
Definition stoull (s : bytes) : option Z :=
  let s := skip_space s in
  let '(neg, s) :=
    match s with
    | b :: s' => if Z_of_byte b =? 45 then (true, s') else if Z_of_byte b =? 43 then (false, s') else (false, s)
    | [] => (false, s)
    end in
  match s with
  | b :: _ =>
      if is_digit b then
        let v := strtoull_digits s 0 in
        if v <? 2 ^ 64 then Some (if (neg : bool) then u64 (- v) else v) else None
      else None
  | [] => None
  end.

(** ** File names *)

Definition MakeFileName (dbname : bytes) (number : Z) (prefix suffix : bytes) : bytes :=
  dbname ++ snprintf64 (str "/" ++ prefix ++ format_06llu number ++ str "." ++ suffix).

Definition LogFileName (dbname : bytes) (number : Z) : bytes :=
  MakeFileName dbname number (str "") (str "log").

Definition TableFileName (dbname : bytes) (number : Z) : bytes :=
  MakeFileName dbname number (str "") (str "sst").

Definition ManifestFileName (dbname : bytes) (number : Z) : bytes :=
  dbname ++ snprintf64 (str "/MANIFEST-" ++ format_06llu number).

Definition CurrentFileName (dbname : bytes) : bytes := dbname ++ str "/CURRENT".
Definition LockFileName (dbname : bytes) : bytes := dbname ++ str "/LOCK".

(** ** Directory scans *)

(** [fname.size() > 4 && fname.substr(fname.size() - 4) == suffix]. *)
Definition has_suffix4 (fname suffix : bytes) : bool :=
  (size_of fname >? 4) && Slice.eqb (sub_bytes fname (size_of fname - 4) 4) suffix.

(** The number of a [.log] entry: [None] for other files, [Some None] when
    [stoull] throws. *)
Definition log_entry_number (fname : bytes) : option (option Z) :=
  if has_suffix4 fname (str ".log") then Some (stoull (sub_bytes fname 0 (size_of fname - 4))) else None.

Definition sst_entry_number (fname : bytes) : option (option Z) :=
  if has_suffix4 fname (str ".sst") then Some (stoull (sub_bytes fname 0 (size_of fname - 4))) else None.

(** ** Formatting and parsing *)

Lemma Z_of_digit d : 0 <= d < 10 -> Z_of_byte (digit d) = 48 + d.
Proof. intros. rw /digit Z_of_byte_of_Z Z.mod_small; lia. Qed.

Definition all_digits (s : bytes) : Prop := Forall (fun b => is_digit b = true) s.

Lemma is_digit_digit d : 0 <= d < 10 -> is_digit (digit d) = true.
Proof. intros. rw /is_digit Z_of_digit //. apply andb_true_iff; split; apply Z.leb_le; lia. Qed.

Lemma dec_digits_spec fuel n acc :
  0 <= n < 10 ^ Z.of_nat fuel -> all_digits acc ->
  exists ds, dec_digits fuel n acc = ds ++ acc /\ all_digits ds /\ (length ds <= fuel)%nat /\
    (fuel <> O -> ds <> []) /\
    forall a, strtoull_digits (ds ++ acc) a = strtoull_digits acc (a * 10 ^ Z.of_nat (length ds) + n).
Proof.
  revert n acc; induction fuel as [|fuel IH]; intros n acc Hn Hacc.
  { exists []. split_and!; [done | constructor | simpl; lia | congruence |].
    intros a. simpl in *. f_equal. lia. }
  cbn [dec_digits]. destruct (Z.ltb_spec n 10).
  - exists [digit n]. split_and!; [done | by repeat constructor; apply is_digit_digit; lia | simpl; lia | done |].
    intros a. cbn [app strtoull_digits]. rewrite -> is_digit_digit, Z_of_digit by lia. f_equal. simpl. lia.
  - pose proof (Z.mod_pos_bound n 10 ltac:(lia)).
    destruct (IH (n / 10) (digit (n mod 10) :: acc)) as (ds & -> & Hds & Hl & _ & Hp).
    { rw Nat2Z.inj_succ Z.pow_succ_r in Hn; [lia|]. split; [apply Z.div_pos; lia|]. apply Z.div_lt_upper_bound; lia. }
    { constructor; [apply is_digit_digit; lia | done]. }
    exists (ds ++ [digit (n mod 10)]). split_and!.
    + by rw -app_assoc.
    + apply Forall_app; split; [done|]. by repeat constructor; apply is_digit_digit; lia.
    + rw length_app /=. lia.
    + by destruct ds.
    + intros a. rw -app_assoc Hp. cbn [app strtoull_digits]. rewrite -> is_digit_digit, Z_of_digit by lia.
      f_equal. rw length_app Nat2Z.inj_add /= Z.pow_add_r; [lia..|].
      pose proof (Z.div_mod n 10 ltac:(lia)). lia.
Qed.

Lemma strtoull_zeros k s a : strtoull_digits (replicate k (digit 0) ++ s) a = strtoull_digits s (a * 10 ^ Z.of_nat k).
Proof.
  revert a; induction k as [|k IH]; intros a; simpl replicate.
  - simpl. f_equal. lia.
  - cbn [app strtoull_digits]. rw is_digit_digit // Z_of_digit // IH. f_equal.
    rw Nat2Z.inj_succ Z.pow_succ_r; lia.
Qed.

Lemma format_06llu_spec n :
  0 <= n < 2 ^ 64 ->
  all_digits (format_06llu n) /\ format_06llu n <> [] /\ (length (format_06llu n) <= 20)%nat /\
  strtoull_digits (format_06llu n) 0 = n.
Proof.
  intros Hn. destruct (dec_digits_spec 20 n []) as (ds & E & Hds & Hl & Hne & Hp); [lia|constructor|].
  rw /format_06llu E app_nil_r. specialize (Hp 0). rw app_nil_r in Hp. split_and!.
  - apply Forall_app; split; [|done]. apply Forall_replicate. by apply is_digit_digit.
  - destruct ds; [by destruct Hne|]. by destruct (replicate _ _).
  - rw length_app length_replicate. lia.
  - by rw strtoull_zeros Hp.
Qed.

Lemma stoull_digits s :
  all_digits s -> s <> [] -> strtoull_digits s 0 < 2 ^ 64 -> stoull s = Some (strtoull_digits s 0).
Proof.
  intros Hs Hne Hlt. destruct s as [|b s]; [done|]. apply Forall_cons in Hs as [Hb Hs].
  pose proof Hb as Hb'. rw /is_digit in Hb'. apply andb_true_iff in Hb' as [H1%Z.leb_le H2%Z.leb_le].
  rw /stoull /skip_space.
  assert (is_space b = false) as ->.
  { rw /is_space. apply orb_false_iff; split; [apply Z.eqb_neq; lia|].
    apply andb_false_iff; right. apply Z.leb_gt. lia. }
  destruct (Z.eqb_spec (Z_of_byte b) 45); [lia|]. destruct (Z.eqb_spec (Z_of_byte b) 43); [lia|].
  rw Hb. case_bool; [done|lia].
Qed.

(** The entry name of a numbered file: its digits, then the suffix. *)
Lemma MakeFileName_entry dbname n suffix :
  0 <= n < 2 ^ 64 -> (length suffix <= 4)%nat ->
  MakeFileName dbname n (str "") suffix = dbname ++ str "/" ++ format_06llu n ++ str "." ++ suffix.
Proof.
  intros Hn Hs. destruct (format_06llu_spec n Hn) as (_ & _ & Hl & _).
  rw /MakeFileName /snprintf64. move: Hl. generalize (format_06llu n) as ds. intros ds Hl.
  rw take_ge //. simpl. rw !length_app /=. lia.
Qed.

(** Reading the number back from [<digits><4 byte suffix>]. *)
Lemma entry_number_roundtrip n suf :
  0 <= n < 2 ^ 64 -> length suf = 4%nat ->
  has_suffix4 (format_06llu n ++ suf) suf = true /\
  stoull (sub_bytes (format_06llu n ++ suf) 0 (size_of (format_06llu n ++ suf) - 4)) = Some n.
Proof.
  intros Hn Hs. destruct (format_06llu_spec n Hn) as (Hd & Hne & Hl & Hv).
  assert (Hss : size_of suf = 4) by (rw /size_of Hs //).
  assert (0 < size_of (format_06llu n)).
  { destruct (format_06llu n); [done|]. rw size_of_cons. size_tac. }
  rw /has_suffix4 size_of_app Hss Z.add_simpl_r. split.
  - rw Z.gtb_ltb. case_bool; [|lia]. rw sub_bytes_app_r; [lia|]. rw Z.sub_diag.
    rw -(app_nil_r suf) {1}sub_bytes_app_exact //. by rw app_nil_r Slice.eqb_refl.
  - rw sub_bytes_app_exact // stoull_digits ?Hv //. lia.
Qed.

(** C33: the directory scan recovers the number of every log and table file: for
    a 64-bit [n] the entry name in [LogFileName]/[TableFileName] is recognised by
    its suffix and [stoull] returns [n]; so distinct numbers have distinct names. *)
Theorem file_number_roundtrip dbname n :
  0 <= n < 2 ^ 64 ->
  (exists e, LogFileName dbname n = dbname ++ str "/" ++ e /\ log_entry_number e = Some (Some n)) /\
  (exists e, TableFileName dbname n = dbname ++ str "/" ++ e /\ sst_entry_number e = Some (Some n)).
Proof.
  intros Hn. split.
  - exists (format_06llu n ++ str ".log"). split.
    { rw /LogFileName MakeFileName_entry //. simpl. lia. }
    destruct (entry_number_roundtrip n (str ".log") Hn eq_refl) as [H1 H2]. by rw /log_entry_number H1 H2.
  - exists (format_06llu n ++ str ".sst"). split.
    { rw /TableFileName MakeFileName_entry //. simpl. lia. }
    destruct (entry_number_roundtrip n (str ".sst") Hn eq_refl) as [H1 H2]. by rw /sst_entry_number H1 H2.
Qed.

Lemma file_number_roundtrip_witness :
  exists e, LogFileName (str "/tmp/db") 42 = str "/tmp/db" ++ str "/" ++ e /\ log_entry_number e = Some (Some 42).
Proof. apply (file_number_roundtrip (str "/tmp/db") 42). lia. Defined.
