(* ===== verification/Wal.v ===== *)
(** * Wal: the write-ahead log

    Models [src/wal.h] and [src/wal.cc]: [WalWriter] appends CRC-framed records to
    a file, [WalReader] reads them back one at a time.  Both run over the
    [Posix.World], so short transfers, interruptions, write errors and torn
    records are part of the model. *)

From S2P Require Import Prelude Status Slice Coding Format Crc32 Posix.

#[local] Open Scope Z_scope.

(** ** Record format *)

(** [type: 1B] [seq: 8B] [klen: 4B] [key] [vlen: 4B] [val]; the [static_cast]s to
    [uint32_t] truncate the lengths. *)
Definition wal_payload (seq : SequenceNumber) (type : ValueType) (key value : bytes) : bytes :=
  let payload := [byte_of_Z type] in
  let payload := PutFixed64 payload seq in
  let payload := PutFixed32 payload (u32 (size_of key)) in
  let payload := payload ++ key in
  let payload := PutFixed32 payload (u32 (size_of value)) in
  payload ++ value.

(** The 8 byte header: the CRC of the payload, then its length. *)
Definition wal_header (payload : bytes) : bytes :=
  EncodeFixed32 (Crc32 payload 0) ++ EncodeFixed32 (u32 (size_of payload)).

#[global] Arguments wal_payload : simpl never.
#[global] Arguments wal_header : simpl never.

Definition kMaxRecordSize : Z := 64 * 1024 * 1024.

Module WalWriter.

Record t := mk { filename_ : bytes; fd_ : Z; file_size_ : Z }.

(** The constructor: [open] for appending, then [fstat] for the size. *)
Definition Open (filename : bytes) : M t :=
  fd ← sys (sys_open filename (mkFlags true false true));
  if fd >=? 0 then
    '(r, st_size) ← sys (sys_fstat fd);
    if r =? 0 then mret (mk filename fd st_size) else mret (mk filename fd 0)
  else mret (mk filename fd 0).

Definition Sync (this : t) : M Status.t :=
  if fd_ this <? 0 then
    mret (Status.IOError [Status.Lit "WAL file is not open: "; Status.Str (filename_ this)])
  else
    r ← sys (sys_fdatasync (fd_ this));
    if r <? 0 then
      e ← get_errno;
      mret (Status.IOError [Status.Lit "fdatasync failed: "; Status.Errno e])
    else mret Status.OK.

(** Lines 47-80: frame the payload and push header and payload out.  [None] in
    the result: a write loop ran out of fuel (excluded by [WriteFrame_run]). *)
Definition WriteFrame (this : t) (payload : bytes) : M (option (Status.t * t)) :=
  (* Write header *)
  r ← write_all (fd_ this) "WAL write failed: " (wal_header payload) (file_size_ this);
  match r with
  | None => mret None
  | Some (s, size1) =>
      let this := mk (filename_ this) (fd_ this) size1 in
      if negb (Status.ok s) then mret (Some (s, this))
      else
        (* Write payload *)
        r ← write_all (fd_ this) "WAL write failed: " payload (file_size_ this);
        match r with
        | None => mret None
        | Some (s, size2) => mret (Some (s, mk (filename_ this) (fd_ this) size2))
        end
  end.

Definition AppendRecord (this : t) (seq : SequenceNumber) (type : ValueType)
    (key value : bytes) (sync : bool) : M (option (Status.t * t)) :=
  if fd_ this <? 0 then
    mret (Some (Status.IOError [Status.Lit "WAL file is not open: "; Status.Str (filename_ this)], this))
  else
    r ← WriteFrame this (wal_payload seq type key value);
    match r with
    | None => mret None
    | Some (s, this) =>
        if negb (Status.ok s) then mret (Some (s, this))
        else if sync then s ← Sync this; mret (Some (s, this))
        else mret (Some (Status.OK, this))
    end.

Definition Close (this : t) : M (Status.t * t) :=
  if fd_ this >=? 0 then
    _ ← sys (sys_close (fd_ this));
    mret (Status.OK, mk (filename_ this) (-1) (file_size_ this))
  else mret (Status.OK, this).

End WalWriter.

Module WalReader.

Record t := mk { filename_ : bytes; fd_ : Z }.

Definition Open (filename : bytes) : M t :=
  fd ← sys (sys_open filename (mkFlags false false false));
  mret (mk filename fd).

Definition Destroy (this : t) : M unit :=
  if fd_ this >=? 0 then _ ← sys (sys_close (fd_ this)); mret tt else mret tt.

(** The four out-parameters of [ReadRecord]. *)
Record out := mkOut { o_seq : SequenceNumber; o_type : ValueType; o_key : bytes; o_value : bytes }.

(** The lambda [IsAtEof]. *)
Definition IsAtEof (this : t) : M bool :=
  '(r, st_size) ← sys (sys_fstat (fd_ this));
  if negb (r =? 0) then mret false
  else
    cur ← sys (sys_lseek_cur (fd_ this));
    if cur <? 0 then mret false else mret (cur >=? st_size).

(** Lines 212-234: the fields of a payload whose checksum matched.  The sums with
    [klen] and [vlen] are [uint32_t] arithmetic. *)
Definition ParsePayload (payload : bytes) (o : out) : M (Status.t * out) :=
  if size_of payload <? 1 + 8 + 4 + 4 then
    mret (Status.Corruption [Status.Lit "WAL payload too small for fields"], o)
  else
    b0 ← mem (byte_at payload 0);
    seq ← mem (DecodeFixed64 payload 1);
    klen ← mem (DecodeFixed32 payload 9);
    let o := mkOut seq (Z_of_byte b0) (o_key o) (o_value o) in
    if size_of payload <? u32 (u32 (1 + 8 + 4 + klen) + 4) then
      mret (Status.Corruption [Status.Lit "WAL payload truncated before key/val_len"], o)
    else
      let o := mkOut (o_seq o) (o_type o) (sub_bytes payload 13 klen) (o_value o) in
      vlen ← mem (DecodeFixed32 payload (13 + klen));
      if size_of payload <? u32 (u32 (u32 (1 + 8 + 4 + klen) + 4) + vlen) then
        mret (Status.Corruption [Status.Lit "WAL payload truncated before value"], o)
      else
        mret (Status.OK, mkOut (o_seq o) (o_type o) (o_key o) (sub_bytes payload (u32 (17 + klen)) vlen)).

(** [None] in the result: a read loop ran out of fuel (excluded by
    [read_all_run]). *)
Definition ReadRecord (this : t) (allow_partial_eof : bool) (o : out) : M (option (Status.t * out)) :=
  if fd_ this <? 0 then
    mret (Some (Status.IOError [Status.Lit "WAL file is not open: "; Status.Str (filename_ this)], o))
  else
    r ← read_all (fd_ this) 8;
    match r with
    | None => mret None
    | Some (RdEof got) =>
        if size_of got =? 0 then mret (Some (Status.NotFound [Status.Lit "EOF"], o))
        else if allow_partial_eof then mret (Some (Status.NotFound [Status.Lit "Partial record at EOF"], o))
        else mret (Some (Status.Corruption [Status.Lit "Truncated WAL header at EOF"], o))
    | Some (RdErr e) =>
        mret (Some (Status.IOError [Status.Lit "WAL read failed: "; Status.Errno e], o))
    | Some (RdFull header) =>
        expected_crc ← mem (DecodeFixed32 header 0);
        length ← mem (DecodeFixed32 header 4);
        if length >? kMaxRecordSize then
          '(r, st_size) ← sys (sys_fstat (fd_ this));
          at_or_past_eof ←
            (if r =? 0 then
               cur ← sys (sys_lseek_cur (fd_ this));
               mret (u64 (u64 cur + length) >? u64 st_size)
             else mret false);
          if allow_partial_eof && at_or_past_eof then
            mret (Some (Status.NotFound [Status.Lit "Corrupt trailing record at EOF"], o))
          else
            mret (Some (Status.Corruption
              [Status.Lit "WAL record length exceeds maximum allowed size: "; Status.Num length], o))
        else
          r ← read_all (fd_ this) length;
          match r with
          | None => mret None
          | Some (RdEof _) =>
              if allow_partial_eof then mret (Some (Status.NotFound [Status.Lit "Partial payload at EOF"], o))
              else mret (Some (Status.Corruption [Status.Lit "Truncated WAL payload at EOF"], o))
          | Some (RdErr e) =>
              mret (Some (Status.IOError [Status.Lit "WAL read failed: "; Status.Errno e], o))
          | Some (RdFull payload) =>
              let actual_crc := Crc32 payload 0 in
              if negb (actual_crc =? expected_crc) then
                at_eof ← IsAtEof this;
                if allow_partial_eof && at_eof then
                  mret (Some (Status.NotFound [Status.Lit "Corrupt trailing record at EOF"], o))
                else if negb at_eof then
                  mret (Some (Status.Corruption
                    [Status.Lit "WAL CRC mismatch in middle of log file: "; Status.Str (filename_ this)], o))
                else
                  mret (Some (Status.Corruption [Status.Lit "WAL CRC mismatch: "; Status.Str (filename_ this)], o))
              else
                so ← ParsePayload payload o;
                mret (Some so)
          end
    end.

End WalReader.

(** ** The record as a byte string *)

Definition wal_record (seq : SequenceNumber) (type : ValueType) (key value : bytes) : bytes :=
  let p := wal_payload seq type key value in wal_header p ++ p.

Lemma wal_payload_eq seq type key value :
  wal_payload seq type key value =
  [byte_of_Z type] ++ EncodeFixed64 seq ++ EncodeFixed32 (u32 (size_of key)) ++ key ++
  EncodeFixed32 (u32 (size_of value)) ++ value.
Proof. rw /wal_payload /PutFixed64 /PutFixed32 -!app_assoc //. Qed.

Lemma size_wal_payload seq type key value :
  size_of (wal_payload seq type key value) = 17 + size_of key + size_of value.
Proof. rw wal_payload_eq. size_tac. Qed.

Lemma size_wal_header p : size_of (wal_header p) = 8.
Proof. rw /wal_header. size_tac. Qed.

Lemma size_wal_record seq type key value :
  size_of (wal_record seq type key value) = 25 + size_of key + size_of value.
Proof. rw /wal_record size_of_app size_wal_header size_wal_payload. lia. Qed.

(** The values a record can carry. *)
Definition wal_ok (seq : SequenceNumber) (type : ValueType) (key value : bytes) : Prop :=
  0 <= seq < 2 ^ 64 /\ 0 <= type < 256 /\ 17 + size_of key + size_of value <= kMaxRecordSize.

(** ** Writing *)

(** What an append did to the log: a prefix of [data] was appended, all of it
    unless a write failed. *)
Record append_result (this : WalWriter.t) (ino : nat) (data : bytes) (w w' : World)
    (st : Status.t) (this' : WalWriter.t) (k : nat) : Prop := {
  ar_prefix : (k <= length data)%nat;
  ar_content : file_content w' ino = file_content w ino ++ take k data;
  ar_fd : WalWriter.fd_ this' = WalWriter.fd_ this;
  ar_size : WalWriter.file_size_ this' = u64 (WalWriter.file_size_ this + Z.of_nat k);
  ar_end : at_end w' (WalWriter.fd_ this) ino;
  ar_frame : io_frame (WalWriter.fd_ this) ino w w';
  ar_status : Status.code st = Status.kOk \/ Status.code st = Status.kIOError;
  ar_ok : Status.ok st = true -> k = length data;
  ar_benign : benign w -> Status.ok st = true;
}.

Lemma WriteFrame_run this p w ino :
  at_end w (WalWriter.fd_ this) ino -> 0 <= WalWriter.file_size_ this < 2 ^ 64 ->
  exists st this' k w',
    WalWriter.WriteFrame this p w = Some (Some (st, this'), w') /\
    append_result this ino (wal_header p ++ p) w w' st this' k.
Proof.
  destruct this as [fname fd fsize]; simpl. intros He Hsz.
  rw /WalWriter.WriteFrame /= {1}/mbind /SM_bind.
  destruct (write_all_run fd ino "WAL write failed: " (wal_header p) fsize w He Hsz)
    as (s1 & c1 & k1 & w1 & -> & [R1 R2 R3 R4 R5 R6 R7 R8]).
  destruct (Status.ok s1) eqn:E1.
  2:{ exists s1, (WalWriter.mk fname fd c1), k1, w1. split; [done|].
      split; auto; [rw length_app; lia | by rw take_app_le | congruence | by rw E1]. }
  specialize (R7 eq_refl). simpl. rw {1}/mbind /SM_bind.
  destruct (write_all_run fd ino "WAL write failed: " p c1 w1 R4)
    as (s2 & c2 & k2 & w2 & -> & [T1 T2 T3 T4 T5 T6 T7 T8]); [rw R5; apply u64_range|].
  exists s2, (WalWriter.mk fname fd c2), (k1 + k2)%nat, w2. split; [done|].
  assert (Hb : benign w -> benign w1) by by eapply io_frame_benign.
  split; auto; [rw length_app; lia | | | by eapply io_frame_trans |].
  - rw T2 R2 -app_assoc R7 firstn_all take_app_ge; [lia|]. do 3 f_equal. lia.
  - simpl. rw T5 R5 /u64 Zplus_mod_idemp_l. f_equal. lia.
  - intros Hok. specialize (T7 Hok). rw length_app. lia.
Qed.

(** [fdatasync] changes no file. *)
Lemma Sync_run this w ino :
  0 <= WalWriter.fd_ this -> at_end w (WalWriter.fd_ this) ino ->
  exists st w', WalWriter.Sync this w = Some (st, w') /\ at_end w' (WalWriter.fd_ this) ino /\
    w_data w' = w_data w /\ io_frame (WalWriter.fd_ this) ino w w' /\
    (Status.code st = Status.kOk \/ Status.code st = Status.kIOError) /\
    (benign w -> st = Status.OK /\ w' = w).
Proof.
  intros Hfd (f & Hf & Hi & Hpos). rw /WalWriter.Sync. case_bool; [lia|].
  rw /mbind /SM_bind /sys /sys_fdatasync /pop_ctl /get_errno.
  destruct (w_ctl w) as [|[|e] l] eqn:Ec; simpl; rw ?Hf /=.
  - do 2 eexists. split_and!; eauto using io_frame_refl. by exists f.
  - do 2 eexists. split_and!; eauto; [by exists f | eapply pop_ctl_frame; eauto | intros [_ ?]; congruence].
  - do 2 eexists. split_and!; eauto; [by exists f | eapply pop_ctl_frame; eauto | intros [_ ?]; congruence].
Qed.

(** [AppendRecord] on an open log always returns, and leaves the log with a prefix
    of the encoded record appended. *)
Lemma AppendRecord_run this seq type key value sync w ino :
  0 <= WalWriter.fd_ this -> at_end w (WalWriter.fd_ this) ino ->
  0 <= WalWriter.file_size_ this < 2 ^ 64 ->
  exists st this' k w',
    WalWriter.AppendRecord this seq type key value sync w = Some (Some (st, this'), w') /\
    append_result this ino (wal_record seq type key value) w w' st this' k.
Proof.
  intros Hfd He Hsz. rw /WalWriter.AppendRecord. case_bool; [lia|].
  rw {1}/mbind /SM_bind.
  destruct (WriteFrame_run this (wal_payload seq type key value) w ino He Hsz)
    as (s1 & this1 & k & w1 & -> & R).
  destruct (Status.ok s1) eqn:E1; simpl.
  2:{ by exists s1, this1, k, w1. }
  destruct R as [R1 R2 R3 R4 R5 R6 R7 R8 R9]. specialize (R8 E1).
  destruct sync.
  2:{ exists Status.OK, this1, k, w1. split; [done|]. split; auto. }
  rw -R3 in Hfd R5. destruct (Sync_run this1 w1 ino Hfd R5)
    as (s2 & w2 & E2 & He2 & Hd & F2 & Hst & Hben).
  rw /mbind /SM_bind E2. exists s2, this1, k, w2. split; [done|].
  assert (Hc2 : forall i, file_content w2 i = file_content w1 i) by (intros; rw /file_content Hd //).
  split; auto.
  - by rw Hc2.
  - by rw -R3.
  - rw -R3. eapply io_frame_trans; [by rw R3|]. done.
  - intros Hb. destruct (Hben (io_frame_benign _ _ _ _ R6 Hb)) as [-> _]. done.
Qed.

(** ** Reading *)

(** Parsing the payload of a record gives its fields back, without reading
    outside the payload. *)
Lemma ParsePayload_payload seq type key value o w :
  wal_ok seq type key value ->
  WalReader.ParsePayload (wal_payload seq type key value) o w
  = Some (Status.OK, WalReader.mkOut seq type key value, w).
Proof.
  intros (Hs & Ht & Hz). rw /kMaxRecordSize in Hz.
  pose proof (size_of_nonneg key). pose proof (size_of_nonneg value).
  pose proof (size_wal_payload seq type key value) as Hsz.
  assert (Hk : u32 (size_of key) = size_of key) by (apply u32_small; lia).
  assert (Hv : u32 (size_of value) = size_of value) by (apply u32_small; lia).
  pose proof (wal_payload_eq seq type key value) as Hp. rw Hk Hv in Hp.
  set (p := wal_payload seq type key value) in *.
  assert (D0 : byte_at p 0 = Some (byte_of_Z type)) by (rw Hp byte_at_eq //).
  assert (D1 : DecodeFixed64 p 1 = Some seq).
  { rw Hp. rewrite -> DecodeFixed64_Encode by (size_tac). by rw u64_small. }
  assert (D2 : DecodeFixed32 p 9 = Some (size_of key)).
  { rw Hp app_assoc. rewrite -> DecodeFixed32_Encode by (size_tac). by rw Hk. }
  assert (D3 : DecodeFixed32 p (13 + size_of key) = Some (size_of value)).
  { rw Hp 3!app_assoc. rewrite -> DecodeFixed32_Encode by (size_tac). by rw Hv. }
  rw /WalReader.ParsePayload Hsz. case_bool; [lia|].
  rw /mbind /SM_bind /lift D0 D1 D2 D3 Z_of_byte_of_Z Z.mod_small //=.
  rewrite -> (u32_small (1 + 8 + 4 + size_of key)), (u32_small (1 + 8 + 4 + size_of key + 4)),
    (u32_small (17 + size_of key)), u32_small by lia.
  destruct (Z.ltb_spec (17 + size_of key + size_of value) (1 + 8 + 4 + size_of key + 4)); [lia|].
  destruct (Z.ltb_spec (17 + size_of key + size_of value) (1 + 8 + 4 + size_of key + 4 + size_of value)); [lia|].
  assert (K : sub_bytes p 13 (size_of key) = key).
  { rw Hp 2!app_assoc. apply sub_bytes_mid; size_tac. }
  assert (V : sub_bytes p (17 + size_of key) (size_of value) = value).
  { rw Hp 4!app_assoc. apply sub_bytes_end; size_tac. }
  by rw K V.
Qed.

(** Reading the 8 byte header that starts the rest of the file. *)
Lemma read_header fd ino pos w crc len tail :
  fd_at w fd ino pos -> 0 <= pos <= size_of (file_content w ino) -> benign w ->
  rest_of w ino pos = (EncodeFixed32 crc ++ EncodeFixed32 len) ++ tail ->
  exists w', read_all fd 8 w = Some (Some (RdFull (EncodeFixed32 crc ++ EncodeFixed32 len)), w') /\
    read_frame fd ino w w' /\ fd_at w' fd ino (pos + 8) /\ rest_of w' ino (pos + 8) = tail /\ benign w' /\
    DecodeFixed32 (EncodeFixed32 crc ++ EncodeFixed32 len) 0 = Some (u32 crc) /\
    DecodeFixed32 (EncodeFixed32 crc ++ EncodeFixed32 len) 4 = Some (u32 len).
Proof.
  intros Hat Hp Hb Hr. destruct (read_all_run fd ino pos 8 w Hat Hp) as (r & w' & E & F & R); [lia|].
  assert (Hs8 : size_of (EncodeFixed32 crc ++ EncodeFixed32 len) = 8) by size_tac.
  pose proof (size_rest_of _ _ _ Hp) as Hsz. rw Hr size_of_app Hs8 in Hsz.
  destruct r as [d|d|e]; [|rw Hr size_of_app Hs8 in R; size_tac|tauto].
  destruct R as (_ & -> & Hat').
  assert (H8 : Z.to_nat 8 = length (EncodeFixed32 crc ++ EncodeFixed32 len)) by (rw /size_of in Hs8; lia).
  rw Hr H8 take_app_length in E. exists w'. split_and!; try done.
  - rewrite -> rest_of_add by lia. rw {1}/rest_of. destruct F as (_ & -> & _).
    rw -/(rest_of w ino pos) Hr H8. apply drop_app_length.
  - destruct F as [F _]. by eapply io_frame_benign.
  - rw -{1}(app_nil_l (EncodeFixed32 crc ++ _)). by apply DecodeFixed32_Encode.
  - rw -{1}(app_nil_r (EncodeFixed32 len)). apply DecodeFixed32_Encode. size_tac.
Qed.

(** Reading exactly the bytes in front of [tail]. *)
Lemma read_exact fd ino pos w d tail :
  fd_at w fd ino pos -> 0 <= pos <= size_of (file_content w ino) -> benign w ->
  rest_of w ino pos = d ++ tail ->
  exists w', read_all fd (size_of d) w = Some (Some (RdFull d), w') /\ read_frame fd ino w w' /\
    fd_at w' fd ino (pos + size_of d) /\ rest_of w' ino (pos + size_of d) = tail /\ benign w'.
Proof.
  intros Hat Hp Hb Hr.
  destruct (read_all_run fd ino pos (size_of d) w Hat Hp (size_of_nonneg d)) as (r & w' & E & F & R).
  destruct r as [d'|d'|e]; [|rw Hr in R; size_tac|tauto].
  destruct R as (_ & -> & Hat'). rw Hr /size_of Nat2Z.id take_app_length in E. exists w'.
  split_and!; auto.
  - rewrite -> rest_of_add by (pose proof (size_of_nonneg d); lia). rw {1}/rest_of. destruct F as (_ & -> & _).
    rw -/(rest_of w ino pos) Hr /size_of Nat2Z.id drop_app_length //.
  - destruct F as [F _]. by eapply io_frame_benign.
Qed.

(** The reader is positioned at [pos] of the log stored in [ino]. *)
Definition reader_at (w : World) (r : WalReader.t) (ino : nat) (pos : Z) : Prop :=
  0 <= WalReader.fd_ r /\ fd_at w (WalReader.fd_ r) ino pos /\ 0 <= pos <= size_of (file_content w ino).

Lemma IsAtEof_run w r ino pos :
  reader_at w r ino pos -> benign w ->
  WalReader.IsAtEof r w = Some (bool_decide (rest_of w ino pos = []), w).
Proof.
  intros (Hfd & (f & Hf & <- & <-) & Hp) [_ Hc].
  rw /WalReader.IsAtEof /mbind /SM_bind /sys /sys_fstat /sys_lseek_cur /pop_ctl Hc /= Hf /= Hc Hf.
  destruct (Z.ltb_spec (f_pos f) 0); [lia|]. rw Z.geb_leb /mret /SM_ret.
  pose proof (size_rest_of _ _ _ Hp) as Hsz. case_bool.
  - rw bool_decide_true //. destruct (rest_of w _ _); [done|]. size_tac.
  - rw bool_decide_false //. intros E. rw E size_of_nil in Hsz. lia.
Qed.

(** What [ReadRecord] does on a complete frame (header, payload of the announced
    length), whatever the checksum says. *)
Lemma ReadRecord_frame r ino pos w allow o crc p tail :
  reader_at w r ino pos -> benign w -> size_of p <= kMaxRecordSize ->
  rest_of w ino pos = (EncodeFixed32 crc ++ EncodeFixed32 (u32 (size_of p))) ++ p ++ tail ->
  exists w', read_frame (WalReader.fd_ r) ino w w' /\ benign w' /\
    reader_at w' r ino (pos + (8 + size_of p)) /\ rest_of w' ino (pos + (8 + size_of p)) = tail /\
    WalReader.ReadRecord r allow o w =
      if Crc32 p 0 =? u32 crc then (so ← WalReader.ParsePayload p o; mret (Some so)) w'
      else Some (Some (if allow && bool_decide (tail = [])
                       then Status.NotFound [Status.Lit "Corrupt trailing record at EOF"]
                       else if negb (bool_decide (tail = [])) then Status.Corruption
                         [Status.Lit "WAL CRC mismatch in middle of log file: "; Status.Str (WalReader.filename_ r)]
                       else Status.Corruption [Status.Lit "WAL CRC mismatch: "; Status.Str (WalReader.filename_ r)], o), w').
Proof.
  intros (Hfd & Hat & Hp) Hb Hmax Hr. rw /kMaxRecordSize in Hmax.
  pose proof (size_of_nonneg p) as Hp0.
  destruct (read_header _ _ _ _ _ _ _ Hat Hp Hb Hr) as (w1 & E1 & F1 & Hat1 & Hr1 & Hb1 & D1 & D2).
  assert (Hp1 : 0 <= pos + 8 <= size_of (file_content w1 ino)).
  { destruct F1 as (_ & -> & _). pose proof (size_rest_of _ _ _ Hp) as Hs. rw Hr in Hs. size_tac. }
  destruct (read_exact _ _ _ _ _ _ Hat1 Hp1 Hb1 Hr1) as (w2 & E2 & F2 & Hat2 & Hr2 & Hb2).
  assert (Hp2 : 0 <= pos + 8 + size_of p <= size_of (file_content w2 ino)).
  { destruct F2 as (_ & -> & _). pose proof (size_rest_of _ _ _ Hp1) as Hs. rw Hr1 in Hs. size_tac. }
  replace (pos + (8 + size_of p)) with (pos + 8 + size_of p) by lia.
  assert (HR2 : reader_at w2 r ino (pos + 8 + size_of p)) by done.
  exists w2. split; [by eapply read_frame_trans|]. split_and!; auto; try apply HR2.
  rw /WalReader.ReadRecord. destruct (Z.ltb_spec (WalReader.fd_ r) 0); [lia|].
  rw (bind_run _ _ _ _ _ E1) /lift D1 D2.
    do 2 (erewrite bind_run; [|done]).
  rewrite -> (u32_small (u32 (size_of p))) by apply u32_range. rewrite -> u32_small by lia.
  rw Z.gtb_ltb /kMaxRecordSize. destruct (Z.ltb_spec (64 * 1024 * 1024) (size_of p)); [lia|].
  rw (bind_run _ _ _ _ _ E2). destruct (Z.eqb_spec (Crc32 p 0) (u32 crc)); simpl negb; cbv iota; [done|].
  change (negb false) with true. cbv iota.  rw (bind_run _ _ _ _ _ (IsAtEof_run _ _ _ _ HR2 Hb2)) Hr2.
  by destruct allow, (bool_decide (tail = [])).
Qed.

(** A log record in front of anything is read back and passed over. *)
Lemma ReadRecord_record r ino pos w allow o seq type key value tail :
  reader_at w r ino pos -> benign w -> wal_ok seq type key value ->
  rest_of w ino pos = wal_record seq type key value ++ tail ->
  exists w' pos', WalReader.ReadRecord r allow o w = Some (Some (Status.OK, WalReader.mkOut seq type key value), w') /\
    read_frame (WalReader.fd_ r) ino w w' /\ benign w' /\
    reader_at w' r ino pos' /\ rest_of w' ino pos' = tail.
Proof.
  intros HR Hb Hok Hr. pose proof Hok as (_ & _ & Hz).
  rw /wal_record /wal_header -app_assoc in Hr.
  rw -(size_wal_payload seq type key value) in Hz.
  destruct (ReadRecord_frame r ino pos w allow o _ _ tail HR Hb Hz Hr)
    as (w' & F & Hb' & HR' & Hr' & ->).
  eexists _, _. split_and!; eauto.
  pose proof (Crc32_range (wal_payload seq type key value) 0 ltac:(by rw /is_u32)) as Hc.
  rw u32_small // Z.eqb_refl /mbind /SM_bind (ParsePayload_payload _ _ _ _ _ _ Hok) //.
Qed.

(** A torn record (a strict prefix of one) is reported as a clean end of log, or
    as corruption when the caller does not allow partial records. *)
Lemma ReadRecord_torn r ino pos w allow o seq type key value k :
  reader_at w r ino pos -> benign w -> wal_ok seq type key value ->
  (k < length (wal_record seq type key value))%nat ->
  rest_of w ino pos = take k (wal_record seq type key value) ->
  exists st w', WalReader.ReadRecord r allow o w = Some (Some (st, o), w') /\
    read_frame (WalReader.fd_ r) ino w w' /\
    Status.code st = (if allow || bool_decide (k = 0%nat) then Status.kNotFound else Status.kCorruption).
Proof.
  intros (Hfd & Hat & Hp) Hb (Hs & Ht & Hz) Hk Hr.
  set (p := wal_payload seq type key value).
  assert (Hsp : size_of p = 17 + size_of key + size_of value) by apply size_wal_payload.
  pose proof (size_wal_header p) as H8. pose proof (size_of_nonneg p).
  rw /WalReader.ReadRecord. destruct (Z.ltb_spec (WalReader.fd_ r) 0); [lia|].
  rw /wal_record -/p length_app in Hk. rw /wal_record -/p in Hr.
  destruct (decide (k < 8)%nat) as [Hlt|Hge].
  - destruct (read_all_run (WalReader.fd_ r) ino pos 8 w Hat Hp) as (x & w1 & E1 & F1 & R1); [lia|].
    assert (Hsr : size_of (rest_of w ino pos) = Z.of_nat k).
    { rw Hr /size_of length_take length_app. lia. }
    destruct x as [d|d|e]; [lia| |tauto]. destruct R1 as (_ & -> & _).
    rw (bind_run _ _ _ _ _ E1) Hsr. destruct (Z.eqb_spec (Z.of_nat k) 0).
    + rw bool_decide_true; [lia|]. rw orb_true_r. eauto.
    + rw bool_decide_false; [lia|]. rw orb_false_r. destruct allow; eauto.
  - rw bool_decide_false; [lia|]. rw orb_false_r.
    rw take_app_ge in Hr; [rw /size_of in H8; lia|].
    destruct (read_header _ _ _ _ _ _ _ Hat Hp Hb Hr) as (w1 & E1 & F1 & Hat1 & Hr1 & Hb1 & D1 & D2).
    assert (Hp1 : 0 <= pos + 8 <= size_of (file_content w1 ino)).
    { destruct F1 as (_ & -> & _). pose proof (size_rest_of _ _ _ Hp) as Hsz. rw Hr in Hsz. size_tac. }
    rw (bind_run _ _ _ _ _ E1) /lift D1 D2.
    do 2 (erewrite bind_run; [|done]).
    rewrite -> (u32_small (u32 (size_of p))) by apply u32_range.
    rw /kMaxRecordSize in Hz *. rewrite -> u32_small by lia.
    rw Z.gtb_ltb. destruct (Z.ltb_spec (64 * 1024 * 1024) (size_of p)); [lia|].
    destruct (read_all_run (WalReader.fd_ r) ino (pos + 8) (size_of p) w1 Hat1 Hp1) as (x & w2 & E2 & F2 & R2); [lia|].
    assert (Hsr : size_of (rest_of w1 ino (pos + 8)) < size_of p).
    { rw Hr1 /size_of length_take. rw /size_of in H8. lia. }
    destruct x as [d|d|e]; [lia| |tauto]. rw (bind_run _ _ _ _ _ E2).
    destruct allow; do 2 eexists; (split_and!; [done | by eapply read_frame_trans | done]).
Qed.

(** ** Replaying a log *)

(** The loop [while (reader.ReadRecord(&seq, &type, &key, &val, true).ok()) ...]
    of the recovery code: the records read, in order, and the status that ended the
    loop.  [None]: out of fuel. *)
Fixpoint ReplayLog (fuel : nat) (r : WalReader.t) (allow : bool) (o : WalReader.out)
    (acc : list WalReader.out) : M (option (list WalReader.out * Status.t)) :=
  match fuel with
  | O => mret None
  | S fuel' =>
      res ← WalReader.ReadRecord r allow o;
      match res with
      | None => mret None
      | Some (s, o) => if Status.ok s then ReplayLog fuel' r allow o (acc ++ [o]) else mret (Some (acc, s))
      end
  end.

Definition encode_out (e : WalReader.out) : bytes :=
  wal_record (WalReader.o_seq e) (WalReader.o_type e) (WalReader.o_key e) (WalReader.o_value e).

Definition out_ok (e : WalReader.out) : Prop :=
  wal_ok (WalReader.o_seq e) (WalReader.o_type e) (WalReader.o_key e) (WalReader.o_value e).

(** The bytes of a log. *)
Definition encode_log (es : list WalReader.out) : bytes := concat (encode_out <$> es).

Lemma ReplayLog_records es fuel r allow o acc ino pos w tail :
  Forall out_ok es -> reader_at w r ino pos -> benign w ->
  rest_of w ino pos = encode_log es ++ tail ->
  exists w' pos' o', reader_at w' r ino pos' /\ benign w' /\ rest_of w' ino pos' = tail /\
    file_content w' ino = file_content w ino /\
    ReplayLog (length es + fuel) r allow o acc w = ReplayLog fuel r allow o' (acc ++ es) w'.
Proof.
  revert o acc pos w; induction es as [|e es IH]; intros o acc pos w Hok HR Hb Hr.
  { exists w, pos, o. rw app_nil_r. done. }
  apply Forall_cons in Hok as [He Hes]. rw /encode_log /= -app_assoc in Hr.
  destruct (ReadRecord_record _ _ _ _ allow o _ _ _ _ _ HR Hb He Hr) as (w1 & pos1 & E & F & Hb1 & HR1 & Hr1).
  destruct (IH (WalReader.mkOut (WalReader.o_seq e) (WalReader.o_type e) (WalReader.o_key e) (WalReader.o_value e))
              (acc ++ [e]) pos1 w1 Hes HR1 Hb1 Hr1) as (w2 & pos2 & o2 & HR2 & Hb2 & Hr2 & Hc2 & E2).
  exists w2, pos2, o2. split_and!; auto; [destruct F as (_ & ? & _); congruence|].
  cbn [length Nat.add ReplayLog]. rw (bind_run _ _ _ _ _ E) /= -(app_assoc acc [e] es) in E2 *.
  by destruct e.
Qed.

Lemma ReplayLog_torn es seq type key value k n r o ino pos w :
  Forall out_ok es -> wal_ok seq type key value ->
  (k < length (wal_record seq type key value))%nat ->
  reader_at w r ino pos -> benign w ->
  rest_of w ino pos = encode_log es ++ take k (wal_record seq type key value) ->
  exists st w', ReplayLog (length es + S n) r true o [] w = Some (Some (es, st), w') /\
    Status.IsNotFound st = true /\ file_content w' ino = file_content w ino.
Proof.
  intros Hes Hok Hk HR Hb Hr.
  destruct (ReplayLog_records es (S n) r true o [] _ _ _ _ Hes HR Hb Hr)
    as (w1 & pos1 & o1 & HR1 & Hb1 & Hr1 & Hc1 & ->). cbn [ReplayLog app].
  destruct (ReadRecord_torn _ _ _ _ true o1 _ _ _ _ _ HR1 Hb1 Hok Hk Hr1) as (st & w2 & E2 & F2 & Hst).
  rw (bind_run _ _ _ _ _ E2) /Status.ok Hst /=. do 2 eexists. split; [done|].
  split; [by rw /Status.IsNotFound Hst|]. destruct F2 as (_ & ? & _); congruence.
Qed.

(** C6: the log survives a crash at any point of an append.  If the log holds the
    records [es] and [AppendRecord] of [e] runs under arbitrary write failures (a
    crash being a failure from which nothing more is written), it returns, and
    replaying the file from its start, under short reads and interruptions, yields
    [es] or [es] with [e] and ends with [NotFound]; if the append was acknowledged
    with OK, [e] is there. *)
Theorem wal_append_crash_recover this e es sync ino w :
  0 <= WalWriter.fd_ this -> at_end w (WalWriter.fd_ this) ino -> 0 <= WalWriter.file_size_ this < 2 ^ 64 ->
  Forall out_ok es -> out_ok e -> file_content w ino = encode_log es ->
  exists st this' w1,
    WalWriter.AppendRecord this (WalReader.o_seq e) (WalReader.o_type e) (WalReader.o_key e) (WalReader.o_value e)
      sync w = Some (Some (st, this'), w1) /\
    (Status.ok st = true -> file_content w1 ino = encode_log (es ++ [e])) /\
    forall r o w2, reader_at w2 r ino 0 -> benign w2 -> file_content w2 ino = file_content w1 ino ->
      exists es' st' w3, ReplayLog (2 + length es) r true o [] w2 = Some (Some (es', st'), w3) /\
        Status.IsNotFound st' = true /\ (es' = es \/ es' = es ++ [e]) /\
        (Status.ok st = true -> es' = es ++ [e]).
Proof.
  intros Hfd He Hsz Hes Hok Hc.
  destruct (AppendRecord_run this (WalReader.o_seq e) (WalReader.o_type e) (WalReader.o_key e)
    (WalReader.o_value e) sync w ino Hfd He Hsz) as (st & this' & k & w1 & E & R).
  exists st, this', w1. split; [done|]. rw -/(encode_out e) in R.
  assert (Hfull : k = length (encode_out e) -> file_content w1 ino = encode_log (es ++ [e])).
  { intros ->. rw (ar_content _ _ _ _ _ _ _ _ R) firstn_all Hc /encode_log fmap_app concat_app /= app_nil_r //. }
  split; [intros Hst; apply Hfull, R, Hst|]. intros r o w2 HR Hb H2.
  assert (Hrest : rest_of w2 ino 0 = file_content w1 ino) by (rw /rest_of H2 //).
  destruct (decide (k = length (encode_out e))) as [Hk|Hk].
  - rw (Hfull Hk) -(app_nil_r (encode_log _)) in Hrest.
    assert (Hes' : Forall out_ok (es ++ [e])) by (apply Forall_app; auto).
    assert (Hlt : (0 < length (wal_record 0 0 [] []))%nat) by (rw /wal_record length_app /wal_payload; simpl; lia).
    destruct (ReplayLog_torn (es ++ [e]) 0 0 [] [] 0 0 r o ino 0 w2 Hes') as (st' & w3 & E' & Hst' & _); try done.
    replace (2 + length es)%nat with (length (es ++ [e]) + 1)%nat by (rw length_app /=; lia).
    exists (es ++ [e]), st', w3. rw E'. auto.
  - rw (ar_content _ _ _ _ _ _ _ _ R) Hc in Hrest. pose proof (ar_prefix _ _ _ _ _ _ _ _ R).
    destruct (ReplayLog_torn es _ _ _ _ k 1 r o ino 0 w2 Hes Hok) as (st' & w3 & E' & Hst' & _);
      [rw -/(encode_out e); lia | done | done | done |].
    replace (2 + length es)%nat with (length es + 2)%nat by lia.
    exists es, st', w3. rw E'. split_and!; auto. intros Hst. exfalso. apply Hk, R, Hst.
Qed.

(** What [ReadRecord] answers on a complete frame whose checksum does not match and that is
    not the last thing in the log. *)
Lemma ReadRecord_damaged r ino pos w allow o p p' tail :
  reader_at w r ino pos -> benign w -> tail <> [] -> size_of p = size_of p' -> size_of p' <= kMaxRecordSize ->
  Crc32 p' 0 <> Crc32 p 0 -> rest_of w ino pos = wal_header p ++ p' ++ tail ->
  exists st w', WalReader.ReadRecord r allow o w = Some (Some (st, o), w') /\ Status.IsCorruption st = true.
Proof.
  intros HR Hb Ht Hsz Hz Hne Hr. rw /wal_header Hsz in Hr.
  destruct (ReadRecord_frame _ _ _ _ allow o _ _ _ HR Hb Hz Hr) as (w' & _ & _ & _ & _ & ->).
  rewrite -> u32_small by (apply Crc32_range; by rw /is_u32).
  destruct (Z.eqb_spec (Crc32 p' 0) (Crc32 p 0)) as [E|_]; [done|].
  rw (bool_decide_false (tail = [])) // andb_false_r /=. by do 2 eexists.
Qed.

(** A replay ends with the first record that cannot be read. *)
Lemma ReplayLog_stops es r allow o ino pos w tail :
  Forall out_ok es -> reader_at w r ino pos -> benign w -> rest_of w ino pos = encode_log es ++ tail ->
  (forall w' pos' o', reader_at w' r ino pos' -> benign w' -> rest_of w' ino pos' = tail -> file_content w' ino = file_content w ino ->
     exists st w'', WalReader.ReadRecord r allow o' w' = Some (Some (st, o'), w'') /\ Status.IsCorruption st = true) ->
  exists st w', ReplayLog (S (length es)) r allow o [] w = Some (Some (es, st), w') /\ Status.IsCorruption st = true.
Proof.
  intros Hes HR Hb Hr Hstop.
  destruct (ReplayLog_records es 1 r allow o [] _ _ _ _ Hes HR Hb Hr) as (w1 & pos1 & o1 & HR1 & Hb1 & Hr1 & Hc1 & E1).
  destruct (Hstop w1 pos1 o1 HR1 Hb1 Hr1 Hc1) as (st & w2 & E2 & Hst). rw Nat.add_1_r in E1. rw E1. cbn [ReplayLog app].
  rw (bind_run _ _ _ _ _ E2). exists st, w2. split; [|done].
  rw /Status.IsCorruption in Hst. rw /Status.ok. by destruct (Status.code st).
Qed.

(** C26: a payload of the log that was damaged within four consecutive bytes, without
    changing its length, with more of the log behind it, ends the replay with
    [Corruption]: the records in front of it are returned, the damaged one is not, and
    it is not taken for the end of the log. *)
Theorem wal_mid_log_corruption es pre v v' post tail r allow o ino w :
  Forall out_ok es -> length v = length v' -> (length v <= 4)%nat -> v <> v' ->
  size_of (pre ++ v ++ post) <= kMaxRecordSize -> tail <> [] ->
  reader_at w r ino 0 -> benign w ->
  file_content w ino = encode_log es ++ wal_header (pre ++ v ++ post) ++ (pre ++ v' ++ post) ++ tail ->
  exists st w', ReplayLog (S (length es)) r allow o [] w = Some (Some (es, st), w') /\ Status.IsCorruption st = true.
Proof.
  intros Hes Hl H4 Hne Hz Ht HR Hb Hc.
  assert (Hsz : size_of (pre ++ v ++ post) = size_of (pre ++ v' ++ post)).
  { autorewrite with strata_size. rw /size_of Hl //. }
  eapply ReplayLog_stops; [done|done|done|by rw /rest_of Hc|]. intros w1 pos1 o1 HR1 Hb1 Hr1 _.
  eapply ReadRecord_damaged; [done|done|exact Ht|exact Hsz|by rw -Hsz| |exact Hr1].
  intros E. by eapply Crc32_burst_neq; eauto.
Qed.

(** A record longer than [kMaxRecordSize] is refused. *)
Lemma ReadRecord_oversize seq type key value tail r allow o ino pos w :
  kMaxRecordSize < 17 + size_of key + size_of value < 2 ^ 32 ->
  reader_at w r ino pos -> benign w -> size_of (file_content w ino) < 2 ^ 63 ->
  rest_of w ino pos = wal_record seq type key value ++ tail ->
  exists st w', WalReader.ReadRecord r allow o w = Some (Some (st, o), w') /\ Status.IsCorruption st = true.
Proof.
  intros Hz HR Hb Hf Hr. pose proof HR as (Hfd & Hat & Hp).
  pose proof (size_wal_payload seq type key value) as Hsp.
  rw /wal_record -app_assoc /wal_header in Hr.
  destruct (read_header _ _ _ _ _ _ _ Hat Hp Hb Hr) as (w1 & E1 & F1 & Hat1 & Hr1 & Hb1 & D1 & D2).
  assert (Hp1 : pos + 8 + size_of (wal_payload seq type key value) <= size_of (file_content w ino)).
  { pose proof (size_rest_of _ _ _ Hp) as Hs. rw Hr in Hs. size_tac. }
  rw /WalReader.ReadRecord. destruct (Z.ltb_spec (WalReader.fd_ r) 0); [lia|].
  rw (bind_run _ _ _ _ _ E1) /lift D1 D2. do 2 (erewrite bind_run; [|done]).
  rw /kMaxRecordSize in Hz *. rewrite -> (u32_small (u32 (size_of _))) by apply u32_range.
  rewrite -> (u32_small (size_of _)) by (rw Hsp; lia). rw Z.gtb_ltb.
  destruct (Z.ltb_spec (64 * 1024 * 1024) (size_of (wal_payload seq type key value))); [|lia].
  destruct Hat1 as (f & Hff & Hi & Hpos). destruct Hb1 as [_ Hc].
  rw /mbind /SM_bind /sys /sys_fstat /sys_lseek_cur /pop_ctl Hc Hff /= Hc Hff Hi Hpos.
  destruct F1 as (_ & -> & _). rewrite -> (u64_small (pos + 8)), (u64_small (size_of (file_content w ino))), u64_small by lia.
  rw Z.gtb_ltb. destruct (Z.ltb_spec (size_of (file_content w ino)) (pos + 8 + size_of (wal_payload seq type key value)));
    [lia|]. rw /mret /SM_ret /= andb_false_r. by do 2 eexists.
Qed.

(** C36: writer and reader disagree on the size of a legal record.  A record of more than
    64 MiB (and less than 4 GiB) is appended and acknowledged with OK when no call fails,
    and the log then holds it in full; but replaying the log ends with [Corruption] in
    front of it, so that neither this record nor any later one is recovered. *)
Theorem wal_oversize_unreadable this seq type key value sync es later ino w :
  kMaxRecordSize < 17 + size_of key + size_of value < 2 ^ 32 ->
  0 <= WalWriter.fd_ this -> at_end w (WalWriter.fd_ this) ino -> 0 <= WalWriter.file_size_ this < 2 ^ 64 -> benign w ->
  Forall out_ok es -> file_content w ino = encode_log es ->
  exists st this' w1, WalWriter.AppendRecord this seq type key value sync w = Some (Some (st, this'), w1) /\
    Status.ok st = true /\ file_content w1 ino = encode_log es ++ wal_record seq type key value /\
    forall r allow o w2, reader_at w2 r ino 0 -> benign w2 -> file_content w2 ino = file_content w1 ino ++ later ->
      size_of (file_content w2 ino) < 2 ^ 63 ->
      exists st' w3, ReplayLog (S (length es)) r allow o [] w2 = Some (Some (es, st'), w3) /\ Status.IsCorruption st' = true.
Proof.
  intros Hz Hfd He Hs Hb Hes Hc.
  destruct (AppendRecord_run this seq type key value sync w ino Hfd He Hs) as (st & this' & k & w1 & E & R).
  pose proof (ar_benign _ _ _ _ _ _ _ _ R Hb) as Hok. exists st, this', w1. split; [done|]. split; [done|].
  assert (Hc1 : file_content w1 ino = encode_log es ++ wal_record seq type key value).
  { rw (ar_content _ _ _ _ _ _ _ _ R) (ar_ok _ _ _ _ _ _ _ _ R Hok) firstn_all Hc //. }
  split; [done|]. intros r allow o w2 HR2 Hb2 Hc2 Hs2. rw Hc1 -app_assoc in Hc2.
  eapply ReplayLog_stops; [done|done|done|by rw /rest_of Hc2|]. intros w3 pos3 o3 HR3 Hb3 Hr3 Hc3.
  eapply ReadRecord_oversize; [exact Hz|done|done|by rw Hc3|exact Hr3].
Qed.

(** A world whose only file is a log with the given content, open for reading on
    descriptor 3. *)
Definition log_world (content : bytes) (io : list io_result) : World :=
  mkWorld {[str "/db/000003.log" := 0%nat]} {[0%nat := content]} {[3 := mkOpenFile 0 0 false]}
    1 4 0 io [].

Definition log_reader : WalReader.t := WalReader.mk (str "/db/000003.log") 3.

(** [ParsePayload] reads outside the payload exactly if the first bounds check wraps. *)
Lemma ParsePayload_None p o w :
  size_of p <= kMaxRecordSize ->
  (WalReader.ParsePayload p o w = None <-> 17 <= size_of p /\ exists klen, DecodeFixed32 p 9 = Some klen /\ 2 ^ 32 - 17 <= klen).
Proof.
  rw /kMaxRecordSize => Hz. rw /WalReader.ParsePayload. destruct (Z.ltb_spec (size_of p) (1 + 8 + 4 + 4)).
  { split; [done|]. intros [? _]. lia. }
  destruct (byte_at_Some p 0) as [b0 Hb0]; [lia|]. destruct (DecodeFixed64_Some p 1) as [q Hq]; [lia..|].
  destruct (DecodeFixed32_Some p 9) as [klen Hk]; [lia..|]. pose proof (DecodeFixed32_range _ _ _ Hk) as Hkr.
  rw (bind_lift _ _ _ _ Hb0) (bind_lift _ _ _ _ Hq) (bind_lift _ _ _ _ Hk). cbv zeta.
  assert (Hsum : u32 (u32 (1 + 8 + 4 + klen) + 4) = u32 (17 + klen)) by (rw /u32 Zplus_mod_idemp_l; f_equal; lia).
  rw Hsum. destruct (Z.lt_ge_cases klen (2 ^ 32 - 17)) as [Hlt|Hge].
  - rewrite -> (u32_small (17 + klen)) by lia. split; [|intros (_ & k' & Hk' & ?); simplify_eq; lia].
    destruct (Z.ltb_spec (size_of p) (17 + klen)); [done|].
    destruct (DecodeFixed32_Some p (13 + klen)) as [vlen Hv]; [lia..|]. rw (bind_lift _ _ _ _ Hv). by case_match.
  - assert (u32 (17 + klen) = 17 + klen - 2 ^ 32) as Hw.
    { symmetry. apply (Z.mod_unique_pos _ _ 1); lia. }
    rw Hw. destruct (Z.ltb_spec (size_of p) (17 + klen - 2 ^ 32)); [lia|]. split; [by eauto|intros _].
    destruct (DecodeFixed32 p (13 + klen)) as [v|] eqn:Hv; [|by rw /mbind /SM_bind /lift].
    apply DecodeFixed32_inside in Hv. lia.
Qed.

(** C37: [ReadRecord] can read outside its buffer.  On a complete record with a matching
    checksum it accesses memory outside the payload exactly if the payload has the 17
    bytes of the fixed fields and its key length is at least [2^32 - 17]: then the 32-bit
    sum of the bounds check wraps around and the check passes.  (The model has no value
    for such an access; running out of fuel would be [Some None].) *)
Theorem wal_klen_wraps_out_of_bounds p tail r allow o ino pos w :
  size_of p <= kMaxRecordSize -> reader_at w r ino pos -> benign w -> rest_of w ino pos = wal_header p ++ p ++ tail ->
  (WalReader.ReadRecord r allow o w = None <-> 17 <= size_of p /\ exists klen, DecodeFixed32 p 9 = Some klen /\ 2 ^ 32 - 17 <= klen).
Proof.
  intros Hz HR Hb Hr. destruct (ReadRecord_frame _ _ _ _ allow o _ _ _ HR Hb Hz Hr) as (w' & _ & _ & _ & _ & ->).
  rewrite -> u32_small by (apply Crc32_range; by rw /is_u32). rw Z.eqb_refl -(ParsePayload_None p o w' Hz).
  rw /mbind /SM_bind. by destruct (WalReader.ParsePayload p o w') as [[? ?]|].
Qed.

(** ** Witnesses *)

Lemma log_world_reader content io : reader_at (log_world content io) log_reader 0 0.
Proof.
  split; [done|]. split; [by exists (mkOpenFile 0 0 false)|].
  pose proof (size_of_nonneg (file_content (log_world content io) 0)). lia.
Qed.

Lemma log_world_content content io : file_content (log_world content io) 0 = content.
Proof. rw /file_content /= lookup_singleton_eq //. Qed.

Lemma log_world_rest content io : rest_of (log_world content io) 0 0 = content.
Proof. rw /rest_of log_world_content //. Qed.

Lemma out_ok_small seq type key value :
  0 <= seq < 2 ^ 64 -> 0 <= type < 256 -> (length key + length value < 1000)%nat ->
  out_ok (WalReader.mkOut seq type key value).
Proof. intros. split_and!; simpl; rw /kMaxRecordSize /size_of; lia. Qed.

(** A log with one record, and a second append cut short after 11 bytes. *)
Lemma wal_append_crash_recover_witness :
  let e1 := WalReader.mkOut 1 1 (str "alpha") (str "1") in
  let e2 := WalReader.mkOut 2 0 (str "alpha") [] in
  let w := mkWorld {[str "/db/000003.log" := 0%nat]} {[0%nat := encode_log [e1]]}
             {[3 := mkOpenFile 0 0 true]} 1 4 0 [IoPartial 11; IoFail EINTR; IoFail 5] [] in
  exists st this' w1,
    WalWriter.AppendRecord (WalWriter.mk (str "/db/000003.log") 3 0) 2 0 (str "alpha") [] false w
      = Some (Some (st, this'), w1) /\
    (Status.ok st = true -> file_content w1 0 = encode_log ([e1] ++ [e2])) /\
    forall r o w2, reader_at w2 r 0 0 -> benign w2 -> file_content w2 0 = file_content w1 0 ->
      exists es' st' w3, ReplayLog (2 + length [e1]) r true o [] w2 = Some (Some (es', st'), w3) /\
        Status.IsNotFound st' = true /\ (es' = [e1] \/ es' = [e1] ++ [e2]) /\
        (Status.ok st = true -> es' = [e1] ++ [e2]).
Proof.
  intros e1 e2 w.
  apply (wal_append_crash_recover (WalWriter.mk (str "/db/000003.log") 3 0) e2 [e1] false 0 w).
  - done.
  - exists (mkOpenFile 0 0 true). split; [done|]. split; [done|]. by left.
  - simpl. lia.
  - constructor; [|constructor]. apply out_ok_small; simpl; lia.
  - apply out_ok_small; simpl; lia.
  - rw /file_content /w /= lookup_singleton_eq //.
Defined.

Lemma wal_mid_log_corruption_witness :
  let e1 := WalReader.mkOut 1 1 (str "alpha") (str "1") in
  exists st w', ReplayLog 2 log_reader true (WalReader.mkOut 0 0 [] []) []
    (log_world (encode_log [e1] ++ wal_header (str "ab" ++ str "c" ++ str "de") ++ (str "ab" ++ str "X" ++ str "de") ++ str "tail")
       [IoPartial 3; IoFail EINTR])
    = Some (Some ([e1], st), w') /\ Status.IsCorruption st = true.
Proof.
  intros e1. apply (wal_mid_log_corruption [e1] (str "ab") (str "c") (str "X") (str "de") (str "tail") log_reader true _ 0).
  - constructor; [|constructor]. apply out_ok_small; simpl; lia.
  - done.
  - simpl; lia.
  - done.
  - done.
  - done.
  - apply log_world_reader.
  - split; [|done]. by repeat constructor.
  - apply log_world_content.
Defined.

Lemma wal_oversize_unreadable_witness :
  let key := replicate (Z.to_nat (64 * 1024 * 1024)) x00 in
  let w := mkWorld {[str "/db/000003.log" := 0%nat]} {[0%nat := []]} {[3 := mkOpenFile 0 0 true]} 1 4 0 [] [] in
  exists st this' w1, WalWriter.AppendRecord (WalWriter.mk (str "/db/000003.log") 3 0) 1 1 key [] true w = Some (Some (st, this'), w1) /\
    Status.ok st = true /\
    exists st' w3, ReplayLog 1 log_reader true (WalReader.mkOut 0 0 [] []) [] (log_world (file_content w1 0) []) = Some (Some ([], st'), w3) /\
      Status.IsCorruption st' = true.
Proof.
  intros key w.
  assert (Hk : size_of key = 64 * 1024 * 1024) by (rw /size_of /key length_replicate; apply Z2Nat.id; lia).
  clearbody key. destruct (wal_oversize_unreadable (WalWriter.mk (str "/db/000003.log") 3 0) 1 1 key [] true [] [] 0 w)
    as (st & this' & w1 & E & Hok & Hc & Hread).
  - rw Hk /kMaxRecordSize size_of_nil. lia.
  - done.
  - exists (mkOpenFile 0 0 true). split; [done|]. split; [done|]. by left.
  - simpl. lia.
  - split; [constructor|reflexivity].
  - constructor.
  - rw /file_content /w /= lookup_singleton_eq //.
  - exists st, this', w1. split; [done|]. split; [done|]. apply Hread.
    + apply log_world_reader.
    + split; [constructor|reflexivity].
    + by rw log_world_content app_nil_r.
    + rw log_world_content Hc /= size_wal_record Hk size_of_nil. lia.
Defined.

(** A payload with a matching checksum whose key length makes the bounds check wrap around. *)
Definition wrapping_payload : bytes :=
  [byte_of_Z kTypeValue] ++ EncodeFixed64 1 ++ EncodeFixed32 (2 ^ 32 - 1) ++ EncodeFixed32 0.

Lemma wal_klen_wraps_out_of_bounds_witness :
  WalReader.ReadRecord log_reader true (WalReader.mkOut 0 0 [] [])
    (log_world (wal_header wrapping_payload ++ wrapping_payload ++ []) []) = None.
Proof.
  apply (wal_klen_wraps_out_of_bounds wrapping_payload [] log_reader true _ 0 0).
  - by vm_compute.
  - apply log_world_reader.
  - split; [constructor|reflexivity].
  - apply log_world_rest.
  - split; [by vm_compute|]. exists (2 ^ 32 - 1). split; [by vm_compute|lia].
Defined.
