(* ===== verification/SkipList.v ===== *)
(** * SkipList: the ordered set behind the memtable

    Models the template [SkipList<Key, Comparator>] of [src/skiplist.h].  Nodes are
    numbered, node 0 being [head_]; a node's key is [keys !! x] and its link at
    level [i], [x->next_[i]], is the cell [(x, i)] of the store [nexts]: [None] in a
    cell is [nullptr], and a cell that is absent is out of the bounds of the node's
    array.  Every function that follows links is partial: [None] means such an
    access, or that the fuel of a search ran out; the theorems exclude both. *)

From S2P Require Import Prelude.
From stdpp Require Import gmap.

#[local] Open Scope nat_scope.

Section skiplist.
Context {Key : Type} (cmp : Key -> Key -> Z) (key0 : Key).

(** [draw n] is the [n]-th value of [dist_(rng_)]. *)
Context (draw : nat -> Z).

Definition kMaxHeight : nat := 16.

Record SkipList := mkSkipList {
  keys : list Key;
  nexts : gmap (nat * nat) (option nat);
  max_height_ : nat;
  rng_ : nat;
}.

Definition head_ : nat := 0.

Definition set_nexts (m : gmap (nat * nat) (option nat)) (l : SkipList) : SkipList :=
  mkSkipList (keys l) m (max_height_ l) (rng_ l).

(** [NoBarrier_SetNext(i, nullptr)] for the [height] links of node [x]. *)
Fixpoint null_links (x height : nat) (m : gmap (nat * nat) (option nat)) : gmap (nat * nat) (option nat) :=
  match height with
  | O => m
  | S h => <[(x, h) := None]> (null_links x h m)
  end.

(** [NewNode(key, height)]: the new node's number and the list. *)
Definition NewNode (l : SkipList) (k : Key) (height : nat) : nat * SkipList :=
  let x := length (keys l) in
  (x, mkSkipList (keys l ++ [k]) (null_links x height (nexts l)) (max_height_ l) (rng_ l)).

(** The constructor. *)
Definition New : SkipList :=
  (NewNode (mkSkipList [] ∅ 1 0) key0 kMaxHeight).2.

(** [x->Next(n)]. *)
Definition Next (l : SkipList) (x n : nat) : option (option nat) := nexts l !! (x, n).

(** [x->SetNext(n, y)]. *)
Definition SetNext (l : SkipList) (x n : nat) (y : option nat) : option SkipList :=
  _ ← nexts l !! (x, n);
  Some (set_nexts (<[(x, n) := y]> (nexts l)) l).

Definition GetMaxHeight (l : SkipList) : nat := max_height_ l.

(** [while (height < kMaxHeight && dist_(rng_) == 0) height++]: at most
    [kMaxHeight - 1] turns. *)
Fixpoint RandomHeight_loop (turns height rng : nat) : nat * nat :=
  match turns with
  | O => (height, rng)
  | S t => if (draw rng =? 0)%Z then RandomHeight_loop t (S height) (S rng) else (height, S rng)
  end.

Definition RandomHeight (l : SkipList) : nat * SkipList :=
  let '(h, r) := RandomHeight_loop (kMaxHeight - 1) 1 (rng_ l) in
  (h, mkSkipList (keys l) (nexts l) (max_height_ l) r).

Definition KeyIsAfterNode (l : SkipList) (k : Key) (n : nat) : bool :=
  negb (n =? head_) && match keys l !! n with Some kn => (cmp kn k <? 0)%Z | None => false end.

(** The search loop the three [Find] functions share: follow the links of the
    current level while [adv] holds of the next node, else go down a level.  It
    returns the last node visited, its successor at level 0 and the array [prev]
    (the last node visited at each level). *)
Fixpoint descend (fuel : nat) (l : SkipList) (adv : nat -> bool) (x level : nat)
    (prev : list (option nat)) : option (nat * option nat * list (option nat)) :=
  match fuel with
  | O => None
  | S fuel' =>
      next ← Next l x level;
      if match next with Some n => adv n | None => false end then
        match next with Some n => descend fuel' l adv n level prev | None => None end
      else
        let prev := <[level := Some x]> prev in
        match level with
        | O => Some (x, next, prev)
        | S level' => descend fuel' l adv x level' prev
        end
  end.

(** A search visits each node and each level at most once. *)
Definition search (l : SkipList) (adv : nat -> bool) : option (nat * option nat * list (option nat)) :=
  descend (length (keys l) + kMaxHeight) l adv head_ (GetMaxHeight l - 1) (replicate kMaxHeight None).

(** [FindGreaterOrEqual(key, prev)]: the node and [prev]. *)
Definition FindGreaterOrEqual (l : SkipList) (k : Key) : option (option nat * list (option nat)) :=
  '(_, next, prev) ← search l (KeyIsAfterNode l k);
  Some (next, prev).

Definition FindLessThan (l : SkipList) (k : Key) : option nat :=
  '(x, _, _) ← search l (fun n => match keys l !! n with Some kn => (cmp kn k <? 0)%Z | None => false end);
  Some x.

Definition FindLast (l : SkipList) : option nat :=
  '(x, _, _) ← search l (fun _ => true);
  Some x.

(** Lines 49-51: [prev[i] = head_] for the levels above the old maximum. *)
Fixpoint raise_prev (n i : nat) (prev : list (option nat)) : list (option nat) :=
  match n with O => prev | S n' => raise_prev n' (S i) (<[i := Some head_]> prev) end.

(** [x->NoBarrier_SetNext(i, prev[i]->NoBarrier_Next(i))]. *)
Definition LinkNode (l : SkipList) (x : nat) (prev : list (option nat)) (i : nat) : option SkipList :=
  p ← mjoin (prev !! i);
  nx ← Next l p i;
  SetNext l x i nx.

(** One turn of the loop: that store, then [prev[i]->SetNext(i, x)]. *)
Definition LinkLevel (l : SkipList) (x : nat) (prev : list (option nat)) (i : nat) : option SkipList :=
  l ← LinkNode l x prev i;
  p ← mjoin (prev !! i);
  SetNext l p i (Some x).

(** The loop over the levels below [n]. *)
Fixpoint LinkLevels (l : SkipList) (x : nat) (prev : list (option nat)) (n : nat) : option SkipList :=
  match n with
  | O => Some l
  | S n' => l ← LinkLevels l x prev n'; LinkLevel l x prev n'
  end.

(** Lines 43-55 of [Insert], up to the links: the new node, [prev], the height and
    the list with the node allocated. *)
Definition Insert_prepare (l : SkipList) (k : Key) : option (nat * list (option nat) * nat * SkipList) :=
  '(x, prev) ← FindGreaterOrEqual l k;
  (* assert(x == nullptr || cmp_(key, x->key) != 0) *)
  if match x with
     | None => true
     | Some n => match keys l !! n with Some kn => negb (cmp k kn =? 0)%Z | None => false end
     end
  then
    let '(height, l) := RandomHeight l in
    let '(prev, l) :=
      if GetMaxHeight l <? height
      then (raise_prev (height - GetMaxHeight l) (GetMaxHeight l) prev,
            mkSkipList (keys l) (nexts l) height (rng_ l))
      else (prev, l) in
    let '(x, l) := NewNode l k height in
    Some (x, prev, height, l)
  else None.

Definition Insert (l : SkipList) (k : Key) : option SkipList :=
  '(x, prev, height, l) ← Insert_prepare l k;
  LinkLevels l x prev height.

Definition Contains (l : SkipList) (k : Key) : option bool :=
  '(x, _) ← FindGreaterOrEqual l k;
  match x with
  | None => Some false
  | Some n => kn ← keys l !! n; Some (cmp k kn =? 0)%Z
  end.

(** [curr->~Node()] and [delete[]]: the links of the node are gone. *)
Definition FreeNode (l : SkipList) (x : nat) : SkipList :=
  set_nexts (base.filter (fun c : nat * nat * option nat => c.1.1 <> x) (nexts l)) l.

(** The loop of the destructor: the nodes it has freed, and what is left. *)
Fixpoint Destroy_loop (fuel : nat) (l : SkipList) (curr : option nat) (freed : list nat) : option (list nat * SkipList) :=
  match curr with
  | None => Some (freed, l)
  | Some x =>
      match fuel with
      | O => None
      | S fuel' => next ← Next l x 0; Destroy_loop fuel' (FreeNode l x) next (freed ++ [x])
      end
  end.

Definition Destroy (l : SkipList) : option (list nat * SkipList) := Destroy_loop (length (keys l)) l (Some head_) [].

(** ** The nested class [Iterator]: [node_], with [None] for [nullptr] *)

Definition Iter_Valid (node : option nat) : bool := bool_decide (node <> None).
Definition Iter_key (l : SkipList) (node : option nat) : option Key := n ← node; keys l !! n.
Definition Iter_Next (l : SkipList) (node : option nat) : option (option nat) := n ← node; Next l n 0.
Definition Iter_Prev (l : SkipList) (node : option nat) : option (option nat) :=
  k ← Iter_key l node;
  n ← FindLessThan l k;
  Some (if n =? head_ then None else Some n).
Definition Iter_Seek (l : SkipList) (target : Key) : option (option nat) :=
  '(n, _) ← FindGreaterOrEqual l target; Some n.
Definition Iter_SeekToFirst (l : SkipList) : option (option nat) := Next l head_ 0.
Definition Iter_SeekToLast (l : SkipList) : option (option nat) :=
  n ← FindLast l; Some (if n =? head_ then None else Some n).

(** ** Invariant *)

(** The first node of [tail] linked at level [i], when node [x] has [h x] levels. *)
Definition next_at (h : nat -> nat) (i : nat) (tail : list nat) : option nat :=
  find (fun x => i <? h x) tail.

(** [ids] lists the nodes after [head_] in order; [h x] is the number of levels at
    which node [x] is linked.  At each of them the link of a node is the next node
    of [ids] that is linked at that level. *)
Record links (l : SkipList) (ids : list nat) (h : nat -> nat) : Prop := {
  lk_nodup : NoDup (head_ :: ids);
  lk_alloc : Forall (fun x => x < length (keys l)) (head_ :: ids);
  lk_height : Forall (fun x => h x <= kMaxHeight) ids /\ h head_ = kMaxHeight;
  lk_next : forall pre x post i, head_ :: ids = pre ++ x :: post -> i < h x ->
            nexts l !! (x, i) = Some (next_at h i post);
}.

(** The keys of a chain of nodes. *)
Definition keys_of (l : SkipList) (ids : list nat) : list Key := omap (fun x => keys l !! x) ids.

(** [l] is a well-formed list whose nodes are [ids]; [h] is the height of each. *)
Record wf (l : SkipList) (ids : list nat) (h : nat -> nat) : Prop := {
  wf_links : links l ids h;
  wf_pos : Forall (fun x => 1 <= h x) ids;
  wf_sorted : StronglySorted (cmp_lt cmp) (keys_of l ids);
  wf_max : 1 <= max_height_ l <= kMaxHeight;
  wf_le_max : Forall (fun x => h x <= max_height_ l) ids;
}.

(** The nodes reached from [node] at level 0, and the keys a reader sees. *)
Fixpoint chase (fuel : nat) (l : SkipList) (node : option nat) : list nat :=
  match fuel, node with
  | S fuel', Some x => x :: chase fuel' l (mjoin (Next l x 0))
  | _, _ => []
  end.

Definition nodes (l : SkipList) : list nat := chase (length (keys l)) l (mjoin (Next l head_ 0)).
Definition contents (l : SkipList) : list Key := keys_of l (nodes l).
Definition Wf (l : SkipList) : Prop := exists h, wf l (nodes l) h.
End skiplist.

Arguments mkSkipList {Key} _ _ _ _.
Arguments keys {Key} _.
Arguments nexts {Key} _.
Arguments max_height_ {Key} _.
Arguments rng_ {Key} _.
Arguments NewNode {Key} _ _ _.
Arguments New {Key} _.
Arguments Next {Key} _ _ _.
Arguments SetNext {Key} _ _ _ _.
Arguments set_nexts {Key} _ _.
Arguments descend {Key} _ _ _ _ _ _.
Arguments search {Key} _ _.
Arguments FindLast {Key} _.
Arguments LinkNode {Key} _ _ _ _.
Arguments LinkLevel {Key} _ _ _ _.
Arguments LinkLevels {Key} _ _ _ _.
Arguments RandomHeight {Key} _ _.
Arguments FreeNode {Key} _ _.
Arguments Destroy_loop {Key} _ _ _ _.
Arguments Destroy {Key} _.
Arguments Iter_key {Key} _ _.
Arguments Iter_Next {Key} _ _.
Arguments Iter_SeekToFirst {Key} _.
Arguments Iter_SeekToLast {Key} _.
Arguments links {Key} _ _ _.
Arguments keys_of {Key} _ _.
Arguments GetMaxHeight {Key} _.
Arguments chase {Key} _ _ _.
Arguments nodes {Key} _.
Arguments contents {Key} _.
Arguments next_at : simpl never.

Section skiplist_proofs.
Context {Key : Type} (cmp : Key -> Key -> Z) `{!Comparator cmp}.
Implicit Types (l : @SkipList Key).

(** ** Chains *)

Lemma next_at_cons h i x tail :
  next_at h i (x :: tail) = if i <? h x then Some x else next_at h i tail.
Proof. done. Qed.

Lemma next_at_app h i a b :
  next_at h i (a ++ b) = match next_at h i a with Some x => Some x | None => next_at h i b end.
Proof.
  induction a as [|x a IH]; simpl; [done|]. rw !next_at_cons IH. by destruct (i <? h x).
Qed.

Lemma next_at_None h i a : next_at h i a = None <-> Forall (fun x => h x <= i) a.
Proof.
  induction a as [|x a IH]; simpl; [by rw Forall_nil|].
  rw next_at_cons Forall_cons -IH. destruct (Nat.ltb_spec i (h x)).
  - split; [done|]. lia.
  - split; [auto | tauto].
Qed.

Lemma next_at_Some h i a n :
  next_at h i a = Some n ->
  exists b c, a = b ++ n :: c /\ Forall (fun x => h x <= i) b /\ i < h n.
Proof.
  induction a as [|x a IH]; [done|]. rw next_at_cons. destruct (Nat.ltb_spec i (h x)).
  - intros [= <-]. by exists [], a.
  - intros (b & c & -> & Hb & Hn)%IH. exists (x :: b), c. split_and!; auto.
Qed.

Lemma next_at_ext h h' i a :
  Forall (fun x => (i <? h x) = (i <? h' x)) a -> next_at h i a = next_at h' i a.
Proof. induction 1 as [|x a Hx Ha IH]; [done|]. by rw !next_at_cons Hx IH. Qed.

(** At level 0 every node is linked. *)
Lemma next_at_0 h a : Forall (fun x => 1 <= h x) a -> next_at h 0 a = head a.
Proof. destruct 1; [done|]. rw next_at_cons. by destruct (Nat.ltb_spec 0 (h x)); [|lia]. Qed.

(** [x] is the last node of [head_ :: A] linked at level [i]. *)
Definition is_last (h : nat -> nat) (A : list nat) (i x : nat) : Prop :=
  exists pre post, head_ :: A = pre ++ x :: post /\ i < h x /\ Forall (fun y => h y <= i) post.

Lemma is_last_unique h A i x pre y post :
  is_last h A i x -> head_ :: A = pre ++ y :: post -> i < h y -> Forall (fun z => h z <= i) post -> y = x.
Proof.
  intros (p1 & q1 & E1 & Hx & F1) E2 Hy F2. rw E2 in E1.
  apply app_eq_inv in E1 as [(k & -> & Ek)|(k & -> & Ek)]; destruct k as [|z k]; simplify_list_eq; auto; exfalso.
  - apply Forall_app in F1 as [_ F1]. apply Forall_cons in F1 as [? _]. lia.
  - apply Forall_app in F2 as [_ F2]. apply Forall_cons in F2 as [? _]. lia.
Qed.

(** ** Searching *)

(** On a well-linked list whose nodes split into [A], where [adv] holds, and [B],
    where it does not, the search ends between them, whatever the level it starts
    at; [prev] holds the last node of [A] linked at each level below. *)
Lemma descend_run l A B h adv fuel pre x post level prev :
  links l (A ++ B) h -> Forall (fun n => adv n = true) A -> Forall (fun n => adv n = false) B ->
  head_ :: A = pre ++ x :: post -> level < h x -> length post + level < fuel -> level < length prev ->
  exists x' prev', descend fuel l adv x level prev = Some (x', next_at h 0 B, prev') /\
    is_last h A 0 x' /\ length prev' = length prev /\
    (forall i, i <= level -> exists y, prev' !! i = Some (Some y) /\ is_last h A i y) /\
    (forall i, level < i -> prev' !! i = prev !! i).
Proof.
  intros HL HA HB. revert pre x post level prev.
  induction fuel as [|fuel IH]; intros pre x post level prev E Hlev Hf Hpl; [lia|].
  assert (Hnext : Next l x level = Some (next_at h level (post ++ B))).
  { eapply (lk_next _ _ _ HL pre); [|done]. rw app_comm_cons E -app_assoc //. }
  cbn [descend]. rw Hnext /= next_at_app.
  destruct (next_at h level post) as [n|] eqn:En.
  - apply next_at_Some in En as (b & c & -> & Hb & Hn).
    assert (Hin : n ∈ A).
    { assert (n ∈ head_ :: A) as Hin by (rw E; set_solver).
      apply elem_of_cons in Hin as [->|?]; [|done]. exfalso.
      pose proof (lk_nodup _ _ _ HL) as Hnd. rw app_comm_cons E in Hnd.
      destruct pre as [|z pre]; simpl in E; injection E as E0 E'; subst.
      - rw -app_assoc in Hnd. apply NoDup_cons in Hnd as [Hni _]. set_solver.
      - rw -app_assoc in Hnd. apply NoDup_cons in Hnd as [Hni _]. set_solver. }
    rewrite -> Forall_forall in HA. rw (HA n Hin).
    destruct (IH (pre ++ x :: b) n c level prev) as (x' & prev' & E' & R); [|done|rw length_app /= in Hf; lia|done|].
    { rw E -app_assoc //. }
    eauto 10.
  - apply next_at_None in En.
    assert (Hl : is_last h A level x) by (exists pre, post; done).
    assert (HBl : match next_at h level B with Some n => adv n | None => false end = false).
    { destruct (next_at h level B) as [n|] eqn:EB; [|done].
      apply next_at_Some in EB as (b & c & -> & _ & _). rewrite -> Forall_forall in HB. apply HB. set_solver. }
    rw HBl. destruct level as [|level].
    + exists x, (<[0:=Some x]> prev). split_and!; auto.
      * apply length_insert.
      * intros i Hi. assert (i = 0) as -> by lia. exists x. by rw list_lookup_insert_eq.
      * intros i Hi. rw list_lookup_insert_ne //; lia.
    + destruct (IH pre x post level (<[S level:=Some x]> prev)) as (x' & prev' & E' & Hx' & Hlen & Hp & Hr);
        [done|lia|lia|rw length_insert; lia|].
      exists x', prev'. rw length_insert in Hlen. split_and!; auto.
      * intros i Hi. destruct (decide (i = S level)) as [->|]; [|apply Hp; lia].
        exists x. rw Hr; [lia|]. by rw list_lookup_insert_eq.
      * intros i Hi. rw Hr; [lia|]. rw list_lookup_insert_ne //; lia.
Qed.

Lemma wf_length l ids h : wf cmp l ids h -> length ids < length (keys l).
Proof.
  intros [HL _ _ _ _]. pose proof (lk_nodup _ _ _ HL) as Hnd. pose proof (lk_alloc _ _ _ HL) as Ha.
  assert (head_ :: ids ⊆+ seq 0 (length (keys l))) as Hs%submseteq_length.
  { apply NoDup_submseteq; [done|]. intros x Hx. rewrite -> Forall_forall in Ha.
    apply elem_of_seq. specialize (Ha x Hx). lia. }
  rw length_seq /= in Hs. lia.
Qed.

Lemma wf_key l ids h x : wf cmp l ids h -> x ∈ ids -> is_Some (keys l !! x) /\ x <> head_.
Proof.
  intros [HL _ _ _ _] Hx. split.
  - apply lookup_lt_is_Some. pose proof (lk_alloc _ _ _ HL) as Ha. rewrite -> Forall_forall in Ha. apply Ha. set_solver.
  - intros ->. pose proof (lk_nodup _ _ _ HL) as Hnd. by apply NoDup_cons in Hnd as [? _].
Qed.

Lemma is_last_0 h A x : Forall (fun y => 1 <= h y) A -> is_last h A 0 x -> last (head_ :: A) = Some x.
Proof.
  intros HA (pre & post & E & _ & Hp). destruct post as [|y post].
  - by rw E last_snoc.
  - exfalso. assert (y ∈ A) as Hy by (destruct pre; simpl in E; injection E as _ ->; set_solver).
    apply Forall_cons in Hp as [? _]. rewrite -> Forall_forall in HA. specialize (HA y Hy). lia.
Qed.

(** Any search on a well-formed list returns: the node before the split, the node
    after it, and the predecessors at every level in use. *)
Lemma search_run l ids h A B adv :
  wf cmp l ids h -> ids = A ++ B ->
  Forall (fun n => adv n = true) A -> Forall (fun n => adv n = false) B ->
  exists x prev, search l adv = Some (x, head B, prev) /\ last (head_ :: A) = Some x /\
    length prev = kMaxHeight /\
    (forall i, i < max_height_ l -> exists y, prev !! i = Some (Some y) /\ is_last h A i y).
Proof.
  intros Hwf -> HA HB. pose proof (wf_length _ _ _ Hwf) as Hlen. destruct Hwf as [HL Hpos _ Hmax _].
  apply Forall_app in Hpos as [HpA HpB]. rw /kMaxHeight in Hmax.
  destruct (descend_run l A B h adv (length (keys l) + kMaxHeight) [] head_ A (GetMaxHeight l - 1)
              (replicate kMaxHeight None) HL HA HB) as (x & prev & E & Hx & Hpl & Hp & _); try done.
  - rw (proj2 (lk_height _ _ _ HL)) /GetMaxHeight /kMaxHeight. lia.
  - rw /GetMaxHeight /kMaxHeight. rw length_app in Hlen. lia.
  - rw length_replicate /GetMaxHeight /kMaxHeight. lia.
  - exists x, prev. rw /search E next_at_0 //. split_and!; auto.
    + by eapply is_last_0.
    + intros i Hi. apply Hp. rw /GetMaxHeight. lia.
Qed.

(** The nodes split at a key. *)
Definition lt_key l (k : Key) (x : nat) : bool :=
  match keys l !! x with Some kx => (cmp kx k <? 0)%Z | None => false end.

Lemma keys_of_elem l ids kx : kx ∈ keys_of l ids -> exists x, x ∈ ids /\ keys l !! x = Some kx.
Proof. rw /keys_of list_elem_of_omap. naive_solver. Qed.

Lemma keys_of_app l A B : keys_of l (A ++ B) = keys_of l A ++ keys_of l B.
Proof. apply omap_app. Qed.

Lemma split_by_key l ids k :
  StronglySorted (cmp_lt cmp) (keys_of l ids) -> Forall (fun x => is_Some (keys l !! x)) ids ->
  exists A B, ids = A ++ B /\ Forall (fun x => lt_key l k x = true) A /\
              Forall (fun x => lt_key l k x = false) B.
Proof.
  induction ids as [|x ids IH]; intros Hs Ha; [by exists [], []|].
  apply Forall_cons in Ha as [[kx Hx] Ha]. rw /keys_of /= Hx /= in Hs.
  apply StronglySorted_inv in Hs as [Hs Hall].
  destruct (lt_key l k x) eqn:E.
  - destruct (IH Hs Ha) as (A & B & -> & HA & HB). exists (x :: A), B. split_and!; auto.
  - exists [], (x :: ids). split_and!; auto. constructor; [done|].
    rewrite -> Forall_forall in Ha. rewrite -> Forall_forall in Hall. apply Forall_forall. intros y Hy. destruct (Ha y Hy) as [ky Hky].
    assert (cmp_lt cmp kx ky) as Hlt by (apply Hall, list_elem_of_omap; eauto).
    rw /lt_key Hky. rw /lt_key Hx in E. apply Z.ltb_ge in E. apply Z.ltb_ge.
    apply cmp_ge_le in E; [|done]. apply cmp_ge_le; [done|].
    pose proof (cmp_le_lt_trans cmp _ _ _ E Hlt). lia.
Qed.

Lemma wf_split l ids h k :
  wf cmp l ids h ->
  exists A B, ids = A ++ B /\ Forall (fun x => lt_key l k x = true) A /\
              Forall (fun x => lt_key l k x = false) B.
Proof.
  intros Hwf. apply split_by_key; [apply Hwf|]. apply Forall_forall. intros x Hx.
  by eapply wf_key.
Qed.

(** [KeyIsAfterNode] and [lt_key] agree on the nodes of the list. *)
Lemma KeyIsAfterNode_lt l ids h k b :
  wf cmp l ids h -> forall C, C ⊆ ids -> Forall (fun x => lt_key l k x = b) C ->
  Forall (fun x => KeyIsAfterNode cmp l k x = b) C.
Proof.
  intros Hwf C HC. rewrite -> !Forall_forall. intros H x Hx. rw -(H x Hx) /KeyIsAfterNode /lt_key.
  destruct (wf_key _ _ _ x Hwf) as [_ Hne]; [set_solver|]. by destruct (Nat.eqb_spec x head_).
Qed.

Lemma FindGreaterOrEqual_run l ids h A B k :
  wf cmp l ids h -> ids = A ++ B ->
  Forall (fun x => lt_key l k x = true) A -> Forall (fun x => lt_key l k x = false) B ->
  exists prev, FindGreaterOrEqual cmp l k = Some (head B, prev) /\ length prev = kMaxHeight /\
    (forall i, i < max_height_ l -> exists y, prev !! i = Some (Some y) /\ is_last h A i y).
Proof.
  intros Hwf E HA HB.
  destruct (search_run l ids h A B (KeyIsAfterNode cmp l k) Hwf E) as (x & prev & Es & _ & Hl & Hp).
  - eapply KeyIsAfterNode_lt; eauto. set_solver.
  - eapply KeyIsAfterNode_lt; eauto. set_solver.
  - exists prev. by rw /FindGreaterOrEqual Es.
Qed.

(** The keys on either side of the split. *)
Lemma split_keys l A B k :
  Forall (fun x => lt_key l k x = true) A -> Forall (fun x => lt_key l k x = false) B ->
  Forall (fun a => cmp_lt cmp a k) (keys_of l A) /\ Forall (fun b => (0 <= cmp b k)%Z) (keys_of l B).
Proof.
  rewrite -> !Forall_forall. intros HA HB. split; intros a (x & Hx & Ea)%keys_of_elem.
  - specialize (HA x Hx). rw /lt_key Ea in HA. by apply Z.ltb_lt in HA.
  - specialize (HB x Hx). rw /lt_key Ea in HB. by apply Z.ltb_ge in HB.
Qed.

(** ** Reading *)

Lemma chase_run l ids h pre x post fuel :
  wf cmp l ids h -> head_ :: ids = pre ++ x :: post -> length post <= fuel ->
  chase fuel l (mjoin (Next l x 0)) = post.
Proof.
  intros Hwf. revert pre x post. induction fuel as [|fuel IH]; intros pre x post E Hf.
  - destruct post; [done | simpl in Hf; lia].
  - assert (Hnx : Next l x 0 = Some (head post)).
    { pose proof Hwf as [HL Hp _ _ _]. rw /Next (lk_next _ _ _ HL pre x post 0 E).
      - destruct pre as [|y pre]; injection E as <- Eids; [rw (proj2 (lk_height _ _ _ HL)) /kMaxHeight; lia|].
        rewrite -> Forall_forall in Hp. apply Hp. rw Eids. set_solver.
      - f_equal. apply next_at_0. destruct pre as [|y pre]; injection E as <- Eids; [by rw -Eids|].
        rw Eids in Hp. apply Forall_app in Hp as [_ Hp]. by apply Forall_cons in Hp as [_ Hp]. }
    rw Hnx /=. destruct post as [|y post]; [done|]. simpl. f_equal.
    apply (IH (pre ++ [x])); [by rw E -app_assoc | simpl in Hf; lia].
Qed.

Lemma nodes_wf l ids h : wf cmp l ids h -> nodes l = ids.
Proof.
  intros Hwf. apply (chase_run l ids h [] head_ ids); auto. pose proof (wf_length _ _ _ Hwf). lia.
Qed.

Lemma wf_Wf l ids h : wf cmp l ids h -> Wf cmp l /\ contents l = keys_of l ids.
Proof.
  intros Hwf. pose proof (nodes_wf _ _ _ Hwf) as E. rw /Wf /contents E. split; [by exists h | done].
Qed.

(** The destructor frees the nodes in order, and follows no link of a node it has freed. *)
Lemma FreeNode_next l x y n : x <> y -> Next (FreeNode l x) y n = Next l y n.
Proof.
  intros Hne. rw /Next /FreeNode /=. destruct (nexts l !! (y, n)) as [c|] eqn:E.
  - apply map_lookup_filter_Some. split; [done|]. simpl. congruence.
  - apply map_lookup_filter_None. by left.
Qed.

Lemma Destroy_loop_run l ids h pre post fuel l' :
  wf cmp l ids h -> head_ :: ids = pre ++ post -> (forall y, y ∈ post -> Next l' y 0 = Next l y 0) -> length post <= fuel ->
  exists l2, Destroy_loop fuel l' (head post) pre = Some (head_ :: ids, l2).
Proof.
  intros Hw. revert pre l' fuel; induction post as [|x post IH]; intros pre l' fuel E Hn Hf.
  { exists l'. rw app_nil_r in E. rw /= E. by destruct fuel. }
  destruct fuel as [|fuel]; [simpl in Hf; lia|]. cbn [Destroy_loop head]. rw (Hn x ltac:(by left)).
  pose proof (wf_links _ _ _ _ Hw) as HL. pose proof (wf_pos _ _ _ _ Hw) as Hp. pose proof (lk_height _ _ _ HL) as [_ Hh].
  assert (Hall : Forall (fun y => 1 <= h y) (head_ :: ids)) by (constructor; [rw Hh /kMaxHeight; lia|done]). rw E in Hall.
  apply Forall_app in Hall as [_ [Hx Hpost]%Forall_cons]. rw /Next (lk_next _ _ _ HL pre x post 0 E ltac:(lia)) (next_at_0 _ _ Hpost). cbn [mbind option_bind].
  apply (IH (pre ++ [x]) (FreeNode l' x) fuel); [by rw -app_assoc| |simpl in Hf; lia].
  intros y Hy. rw FreeNode_next; [|apply Hn; by right]. intros ->. pose proof (lk_nodup _ _ _ HL) as Hnd. rw E in Hnd.
  apply NoDup_app in Hnd as (_ & _ & [Hnin _]%NoDup_cons). done.
Qed.

Lemma Destroy_run l : Wf cmp l -> exists l', Destroy l = Some (head_ :: nodes l, l') /\ NoDup (head_ :: nodes l).
Proof.
  intros [h Hw]. pose proof (wf_length _ _ _ Hw). destruct (Destroy_loop_run l (nodes l) h [] (head_ :: nodes l) (length (keys l)) l Hw) as [l' E]; [done|done|simpl; lia|].
  exists l'. split; [exact E|]. apply (lk_nodup _ _ _ (wf_links _ _ _ _ Hw)).
Qed.

(** The node a chain of keys starts with. *)
Lemma keys_of_nth l ids h i x :
  wf cmp l ids h -> ids !! i = Some x -> exists k, keys l !! x = Some k /\ keys_of l ids !! i = Some k.
Proof.
  intros Hwf. assert (Forall (fun x => is_Some (keys l !! x)) ids) as Hall.
  { apply Forall_forall. intros y Hy. by eapply wf_key. }
  clear Hwf. revert i. induction Hall as [|y ids [ky Hy] Hids IH]; intros i Hi; [done|].
  rw /keys_of /= Hy. destruct i as [|i]; simpl in *; [injection Hi as <-; eauto|]. by apply IH.
Qed.

Lemma keys_of_length l ids h : wf cmp l ids h -> length (keys_of l ids) = length ids.
Proof.
  intros Hwf. assert (Forall (fun x => is_Some (keys l !! x)) ids) as Hall.
  { apply Forall_forall. intros y Hy. by eapply wf_key. }
  clear Hwf. induction Hall as [|y ids [ky Hy] Hids IH]; [done|]. rw /keys_of /= Hy /=. f_equal. apply IH.
Qed.

Lemma FindLessThan_run l ids h A B k :
  wf cmp l ids h -> ids = A ++ B ->
  Forall (fun x => lt_key l k x = true) A -> Forall (fun x => lt_key l k x = false) B ->
  exists x, FindLessThan cmp l k = Some x /\ last (head_ :: A) = Some x.
Proof.
  intros Hwf E HA HB.
  destruct (search_run l ids h A B (lt_key l k) Hwf E HA HB) as (x & prev & Es & Hl & _).
  exists x. rw /lt_key in Es. by rw /FindLessThan Es.
Qed.

Lemma FindLast_run l ids h :
  wf cmp l ids h -> exists x, FindLast l = Some x /\ last (head_ :: ids) = Some x.
Proof.
  intros Hwf.
  destruct (search_run l ids h ids [] (fun _ => true) Hwf) as (x & prev & Es & Hl & _); auto.
  - by rw app_nil_r.
  - by apply Forall_true.
  - exists x. by rw /FindLast Es.
Qed.

(** A node other than [head_] stands for itself, [head_] for the end. *)
Lemma last_or_head l ids h A B x :
  wf cmp l ids h -> ids = A ++ B -> last (head_ :: A) = Some x ->
  (if x =? head_ then None else Some x) = last A.
Proof.
  intros Hwf -> Hl. destruct A as [|y A]; [by injection Hl as <-|].
  rw last_cons in Hl. change (last (y :: A)) with (last (y :: A)) in Hl.
  destruct (last (y :: A)) as [z|] eqn:Ez; [|by apply last_None in Ez]. injection Hl as ->.
  destruct (wf_key _ _ _ x Hwf) as [_ Hne].
  - apply elem_of_app; left. by apply last_Some_elem_of.
  - by destruct (Nat.eqb_spec x head_).
Qed.

(** ** What the readers and the writer rely on *)

Lemma contents_sorted l : Wf cmp l -> StronglySorted (cmp_lt cmp) (contents l).
Proof. intros [h Hwf]. apply Hwf. Qed.

Lemma Seek_run l k :
  Wf cmp l -> exists i, Iter_Seek cmp l k = Some (nodes l !! i) /\ i <= length (contents l) /\
    Forall (fun a => (cmp a k < 0)%Z) (take i (contents l)) /\
    Forall (fun a => (0 <= cmp a k)%Z) (drop i (contents l)).
Proof.
  intros [h Hwf]. destruct (wf_split l _ h k Hwf) as (A & B & E & HA & HB).
  destruct (FindGreaterOrEqual_run l _ h A B k Hwf E HA HB) as (prev & Ef & _).
  destruct (split_keys l A B k HA HB) as [H1 H2].
  assert (Hl : length (keys_of l A) = length A).
  { pose proof (keys_of_length _ _ _ Hwf) as Hl. rw E keys_of_app !length_app in Hl.
    assert (forall C, length (keys_of l C) <= length C) as Hle by (intros C; apply omap_length_le).
    pose proof (Hle A). pose proof (Hle B). lia. }
  exists (length A). rw /Iter_Seek Ef /= /contents E keys_of_app.
  rw lookup_app_r // Nat.sub_diag head_lookup. rw -Hl take_app_length drop_app_length length_app.
  split_and!; auto. lia.
Qed.

(** The node an iterator stands on, by its position in the list. *)
Lemma key_run l i x :
  Wf cmp l -> nodes l !! i = Some x -> Iter_key l (Some x) = contents l !! i /\ is_Some (contents l !! i).
Proof.
  intros [h Hwf] Hi. destruct (keys_of_nth _ _ _ _ _ Hwf Hi) as (k & E1 & E2).
  rw /Iter_key /= E1 /contents E2. eauto.
Qed.

Lemma Next_run l i x :
  Wf cmp l -> nodes l !! i = Some x -> Iter_Next l (Some x) = Some (nodes l !! S i).
Proof.
  intros [h Hwf] Hi. rw /Iter_Next /=. apply list_elem_of_split_length in Hi as (a & b & E & ->).
  pose proof Hwf as [HL Hp _ _ _]. rw /Next (lk_next _ _ _ HL (head_ :: a) x b 0); [by rw E| |].
  - rewrite -> Forall_forall in Hp. apply Hp. rw E. set_solver.
  - rw next_at_0; [rw E in Hp; apply Forall_app in Hp as [_ Hp]; by apply Forall_cons in Hp as [_ Hp]|].
    rw head_lookup E lookup_app_r; [lia|]. by replace (S (length a) - length a) with 1 by lia.
Qed.

Lemma SeekToFirst_run l : Wf cmp l -> Iter_SeekToFirst l = Some (nodes l !! 0).
Proof.
  intros [h Hwf]. pose proof Hwf as [HL Hp _ _ _].
  rw /Iter_SeekToFirst /Next (lk_next _ _ _ HL [] head_ (nodes l) 0); [done| |].
  - rw (proj2 (lk_height _ _ _ HL)) /kMaxHeight. lia.
  - by rw next_at_0 // head_lookup.
Qed.

Lemma SeekToLast_run l : Wf cmp l -> Iter_SeekToLast l = Some (last (nodes l)).
Proof.
  intros [h Hwf]. destruct (FindLast_run l _ h Hwf) as (x & E & Hl). rw /Iter_SeekToLast E /=.
  f_equal. eapply (last_or_head l _ h _ []); eauto. by rw app_nil_r.
Qed.

Lemma Prev_run l i x :
  Wf cmp l -> nodes l !! i = Some x ->
  Iter_Prev cmp l (Some x) = Some (match i with O => None | S j => nodes l !! j end).
Proof.
  intros [h Hwf] Hi. destruct (keys_of_nth _ _ _ _ _ Hwf Hi) as (k & Ek & Ei).
  rw /Iter_Prev /Iter_key /= Ek /=.
  set (A := take i (nodes l)). set (B := drop i (nodes l)).
  assert (E : nodes l = A ++ B) by (symmetry; apply take_drop).
  pose proof (wf_sorted _ _ _ _ Hwf) as Hs.
  assert (Hpos : forall y j, nodes l !! j = Some y -> lt_key l k y = (j <? i)).
  { intros y j Hy. destruct (keys_of_nth _ _ _ _ _ Hwf Hy) as (ky & Eky & Ej). rw /lt_key Eky.
    destruct (Nat.ltb_spec j i) as [Hlt|Hge].
    - apply Z.ltb_lt. by eapply (StronglySorted_lookup_lt (cmp_lt cmp)).
    - apply Z.ltb_ge. destruct (decide (j = i)) as [->|Hne].
      + assert (k = ky) as -> by congruence. rw cmp_refl. lia.
      + assert (cmp_lt cmp k ky) as Hlt by (eapply (StronglySorted_lookup_lt (cmp_lt cmp)); eauto; lia).
        rw /cmp_lt in Hlt. apply cmp_lt_gt in Hlt. lia. }
  destruct (FindLessThan_run l _ h A B k Hwf E) as (y & Ef & Hl).
  - apply Forall_lookup. intros j y [Hy Hj]%lookup_take_Some. rw (Hpos y j Hy). by apply Nat.ltb_lt.
  - apply Forall_lookup. intros j y Hy. rw lookup_drop in Hy. rw (Hpos y _ Hy). apply Nat.ltb_ge. lia.
  - rw Ef /=. f_equal. rw (last_or_head l _ h A B y Hwf E Hl). rw last_lookup /A.
    apply lookup_lt_Some in Hi. rw length_take. destruct i as [|i]; [done|].
    rw lookup_take_lt; [lia|]. f_equal. lia.
Qed.

Lemma Contains_run l k :
  Wf cmp l -> Contains cmp l k = Some (existsb (fun a => cmp k a =? 0)%Z (contents l)).
Proof.
  intros Hwf. destruct (Seek_run l k Hwf) as (i & E & Hi & H1 & H2).
  rw /Iter_Seek in E. rw /Contains. destruct (FindGreaterOrEqual cmp l k) as [[n prev]|]; [|done].
  injection E as ->. cbn [mbind option_bind].
  rw -(take_drop i (contents l)) existsb_app.
  assert (existsb (fun a => cmp k a =? 0)%Z (take i (contents l)) = false) as ->.
  { apply existsb_false_Forall. eapply Forall_impl; [exact H1|]. intros a Ha.
    apply Z.eqb_neq. rw cmp_lt_gt in Ha. lia. }
  destruct (nodes l !! i) as [x|] eqn:Ex.
  - pose proof (contents_sorted _ Hwf) as Hs.
    destruct (key_run l i x Hwf Ex) as [Ek [kx Hkx]]. rw /Iter_key /= in Ek. rw Ek Hkx /=. f_equal.
    rw (drop_S _ _ _ Hkx) /=. rw -(take_drop i (contents l)) in Hs.
    rw (drop_S _ _ _ Hkx) in Hs H2. apply Forall_cons in H2 as [H2 _].
    apply StronglySorted_app in Hs as (_ & _ & Hs). apply StronglySorted_inv in Hs as [_ Hs].
    assert (existsb (fun a => cmp k a =? 0)%Z (drop (S i) (contents l)) = false) as ->; [|by rw orb_false_r].
    apply existsb_false_Forall. eapply Forall_impl; [exact Hs|]. intros a Ha.
    apply cmp_ge_le in H2; [|done]. apply Z.eqb_neq.
    pose proof (cmp_le_lt_trans cmp _ _ _ H2 Ha). lia.
  - destruct Hwf as [h Hwf]. apply lookup_ge_None in Ex. rw drop_ge //. rw /contents (keys_of_length _ _ _ Hwf) //.
Qed.

(** ** Linking *)

Definition fupd (h : nat -> nat) (x n y : nat) : nat := if y =? x then n else h y.

Lemma fupd_eq h x n : fupd h x n x = n.
Proof. rw /fupd Nat.eqb_refl //. Qed.

Lemma fupd_ne h x n y : y <> x -> fupd h x n y = h y.
Proof. rw /fupd => ?. by destruct (Nat.eqb_spec y x). Qed.

Lemma Forall_fupd (P : nat -> Prop) h x n A B :
  Forall (fun y => P (h y)) (A ++ B) -> P n -> Forall (fun y => P (fupd h x n y)) (A ++ x :: B).
Proof.
  intros [HA HB]%Forall_app Hn. apply Forall_app; split; [|constructor; [by rw fupd_eq|]].
  - eapply Forall_impl; [exact HA|]. intros y Hy. rw /fupd. by destruct (y =? x).
  - eapply Forall_impl; [exact HB|]. intros y Hy. rw /fupd. by destruct (y =? x).
Qed.

Lemma next_at_fupd h x n i tail : x ∉ tail -> next_at (fupd h x n) i tail = next_at h i tail.
Proof.
  intros Hx. apply next_at_ext, Forall_forall. intros y Hy. rw fupd_ne //. by intros ->.
Qed.

Lemma next_at_skip h x i tail :
  next_at (fupd h x 0) i tail = next_at h i (filter (.≠ x) tail).
Proof.
  induction tail as [|y tail IH]; [done|]. rw next_at_cons filter_cons IH.
  destruct (decide (y = x)) as [->|Hne].
  - rw fupd_eq decide_False; [by intros ?|]. by destruct (Nat.ltb_spec i 0); [lia|].
  - rw fupd_ne // decide_True // next_at_cons //.
Qed.

Lemma null_links_lookup x n m y i :
  null_links x n m !! (y, i) = if decide (y = x /\ i < n) then Some None else m !! (y, i).
Proof.
  induction n as [|n IH]; simpl.
  - rw decide_False; [lia|]. done.
  - destruct (decide (y = x /\ i = n)) as [[-> ->]|Hne].
    + rw lookup_insert_eq decide_True //; lia.
    + rw lookup_insert_ne; [naive_solver|]. rw IH. repeat case_decide; try done; exfalso; naive_solver lia.
Qed.

Lemma is_last_fupd h A i p x n : x ∉ head_ :: A -> is_last h A i p -> is_last (fupd h x n) A i p.
Proof.
  intros Hx (pre & post & E & Hp & Hpost). exists pre, post.
  assert (forall y, y ∈ head_ :: A -> y <> x) as Hne by set_solver.
  split; [done|]. rw E in Hne. split.
  - rw fupd_ne //. apply Hne. set_solver.
  - rewrite -> !Forall_forall in *. intros y Hy. rw fupd_ne; [apply Hne; set_solver|]. auto.
Qed.

(** Allocating the node: it belongs to the chain with no level linked. *)
Lemma links_alloc l A B h k height mh rng :
  links l (A ++ B) h ->
  let x := length (keys l) in
  let l1 := mkSkipList (keys l ++ [k]) (null_links x height (nexts l)) mh rng in
  links l1 (A ++ x :: B) (fupd h x 0).
Proof.
  intros [Hnd Ha [Hh Hh0] Hn] x l1.
  assert (Hx : x ∉ head_ :: A ++ B).
  { intros Hin. rewrite -> Forall_forall in Ha. specialize (Ha x Hin). lia. }
  assert (Hx0 : head_ <> x) by set_solver.
  split.
  - rw app_comm_cons. rewrite <- Permutation_middle. constructor; [set_solver|done].
  - rw app_comm_cons. apply Forall_app. rw app_comm_cons in Ha. apply Forall_app in Ha as [Ha1 Ha2].
    assert (Hlen : length (keys l1) = S (length (keys l))) by (rw /l1 /= length_app /=; lia). rw Hlen.
    split; [|constructor; [lia|]]; eapply Forall_impl; eauto; simpl; lia.
  - split; [|by rw fupd_ne]. apply Forall_app in Hh as [Hh1 Hh2].
    apply Forall_app; split; [|constructor]; [..|by rw fupd_eq; lia|];
      eapply Forall_impl; eauto; simpl; intros y Hy; rw /fupd; destruct (y =? x); lia.
  - intros pre y post i E Hi. assert (y <> x) as Hyx.
    { intros ->. rw fupd_eq in Hi. lia. }
    rw fupd_ne // in Hi. rw /l1 /= null_links_lookup decide_False; [naive_solver|].
    rw next_at_skip. apply (Hn (filter (.≠ x) pre)); [|done].
    assert (EL : filter (.≠ x) (head_ :: A ++ x :: B) = head_ :: A ++ B).
    { rw filter_cons_True // filter_app filter_cons_False; [by intros ?|]. rw -filter_app.
      f_equal. apply filter_all. apply Forall_forall. set_solver. }
    rw E filter_app filter_cons_True // in EL.
Qed.

Lemma SetNext_run l x i y :
  is_Some (nexts l !! (x, i)) ->
  SetNext l x i y = Some (set_nexts (<[(x, i) := y]> (nexts l)) l).
Proof. intros [v Hv]. rw /SetNext Hv //. Qed.

(** Links other than the predecessor's do not see the new level. *)
Lemma link_other A B h x p i pre y post j :
  NoDup (head_ :: A ++ x :: B) -> head_ :: A ++ x :: B = pre ++ y :: post ->
  h x = i -> is_last h A i p -> (y, j) <> (p, i) -> (y, j) <> (x, i) ->
  j < (if y =? x then S i else h y) ->
  next_at (fupd h x (S i)) j post = next_at h j post.
Proof.
  intros Hnd E Hx Hlast Hne1 Hne2 Hj.
  destruct (decide (x ∈ post)) as [(q & r & ->)%list_elem_of_split|Hni]; [|by apply next_at_fupd].
  rw app_comm_cons in Hnd. rw app_comm_cons in E.
  destruct (NoDup_split_unique _ _ (pre ++ y :: q) r x Hnd) as [EA <-]; [by rw E -app_assoc|].
  apply NoDup_app in Hnd as (_ & HxA & HxB). apply NoDup_cons in HxB as [HxB _].
  assert (x ∉ q) as Hxq by (intros ?; eapply (HxA x); [rw EA|]; set_solver).
  assert (y <> x) as Hyx by (intros ->; eapply (HxA x); [rw EA|]; set_solver).
  rw !next_at_app !next_at_cons !next_at_fupd // fupd_eq Hx.
  destruct (next_at h j q) eqn:Eq; [done|].
  destruct (Nat.eqb_spec y x); [done|].
  destruct (Nat.ltb_spec j (S i)), (Nat.ltb_spec j i); try done; try lia.
  assert (j = i) as -> by lia. apply next_at_None in Eq. destruct Hne1. f_equal.
  by eapply is_last_unique.
Qed.

(** Linking the node at one more level. *)
Lemma LinkLevel_run l A B h x prev p i :
  links l (A ++ x :: B) h -> h x = i -> S i <= kMaxHeight -> is_Some (nexts l !! (x, i)) ->
  prev !! i = Some (Some p) -> is_last h A i p ->
  exists l', LinkLevel l x prev i = Some l' /\ links l' (A ++ x :: B) (fupd h x (S i)) /\
    keys l' = keys l /\ max_height_ l' = max_height_ l /\
    (forall y j, is_Some (nexts l !! (y, j)) -> is_Some (nexts l' !! (y, j))).
Proof.
  intros HL Hx Hi Hal Hp Hlast. pose proof HL as [Hnd Ha [Hh Hh0] Hn].
  assert (Hnd' : (x ∉ head_ :: A) /\ (x ∉ B)).
  { rw app_comm_cons in Hnd. apply NoDup_app in Hnd as (_ & H1 & H2). apply NoDup_cons in H2 as [H2 _].
    split; [|done]. intros Hin. apply (H1 x Hin). set_solver. }
  destruct Hnd' as [HxA HxB].
  pose proof Hlast as (pre & post & E & Hhp & Hpost).
  assert (Hpx : p <> x) by (intros ->; apply HxA; rw E; set_solver).
  assert (Hpn : nexts l !! (p, i) = Some (next_at h i B)).
  { rw (Hn pre p (post ++ x :: B)); [|done|].
    - rw app_comm_cons E -app_assoc //.
    - rw next_at_app. apply next_at_None in Hpost as ->. rw next_at_cons Hx Nat.ltb_irrefl //. }
  set (m := <[(p, i) := Some x]> (<[(x, i) := next_at h i B]> (nexts l))).
  exists (set_nexts m l). split; [|split; [|split_and!; try done]].
  - rw /LinkLevel /LinkNode Hp /= /Next Hpn /= SetNext_run // /= SetNext_run //.
    simpl. rw lookup_insert_ne; [naive_solver|]. by eexists.
  - split; try done.
    + split; [|rw fupd_ne //; set_solver]. eapply Forall_impl; [done|].
      intros y Hy. rw /fupd. destruct (y =? x); [done|]. exact Hy.
    + intros pre' y post' j E' Hj. simpl.
      destruct (decide ((y, j) = (p, i))) as [[= -> ->]|Hne1].
      { rw /m lookup_insert_eq. f_equal.
        assert (pre = pre' /\ post ++ x :: B = post') as [_ <-].
        { rw app_comm_cons E -app_assoc /= in E'. eapply NoDup_split_unique; [|exact E'].
          by rw app_comm_cons E -app_assoc /= in Hnd. }
        rw next_at_app. rw next_at_fupd; [intros ?; apply HxA; rw E; set_solver|].
        apply next_at_None in Hpost as ->. rw next_at_cons fupd_eq. by rw (proj2 (Nat.ltb_lt i (S i))); [lia|]. }
      destruct (decide ((y, j) = (x, i))) as [[= -> ->]|Hne2].
      { rw /m lookup_insert_ne // lookup_insert_eq. f_equal.
        assert (head_ :: A = pre' /\ B = post') as [_ <-]
          by (apply (NoDup_split_unique _ _ _ _ x); by rw -app_comm_cons).
        by rw next_at_fupd. }
      rw /m !lookup_insert_ne //. rw (Hn pre' y post' j E').
      { rw /fupd in Hj. destruct (Nat.eqb_spec y x) as [->|]; [|done]. rw Hx. assert (j <> i) by congruence. lia. }
      f_equal. rw /fupd in Hj. symmetry.
      apply (link_other A B h x p i pre' y post' j); auto; naive_solver.
  - intros y j [v Hv]. simpl. rw /m. rw !lookup_insert. repeat case_decide; eauto.
Qed.

Lemma LinkLevels_run l A B h x prev height n :
  links l (A ++ x :: B) (fupd h x 0) -> n <= height -> height <= kMaxHeight ->
  (forall j, j < height -> is_Some (nexts l !! (x, j))) ->
  (forall i, i < height -> exists p, prev !! i = Some (Some p) /\ is_last h A i p) ->
  exists l', LinkLevels l x prev n = Some l' /\ links l' (A ++ x :: B) (fupd h x n) /\
    keys l' = keys l /\ max_height_ l' = max_height_ l /\
    (forall j, j < height -> is_Some (nexts l' !! (x, j))).
Proof.
  intros HL Hn Hh Hal Hprev. induction n as [|n IH]; [by exists l|].
  destruct IH as (l1 & E1 & HL1 & Hk1 & Hm1 & Hal1); [lia|].
  destruct (Hprev n) as (p & Hp & Hlast); [lia|].
  assert (HxA : x ∉ head_ :: A).
  { pose proof (lk_nodup _ _ _ HL) as Hnd. rw app_comm_cons in Hnd.
    apply NoDup_app in Hnd as (_ & Hd & _). intros Hin. apply (Hd x Hin). set_solver. }
  destruct (LinkLevel_run l1 A B (fupd h x n) x prev p n) as (l2 & E2 & HL2 & Hk2 & Hm2 & Hal2); auto.
  - apply fupd_eq.
  - lia.
  - by apply is_last_fupd.
  - exists l2. cbn [LinkLevels]. rw E1 /= E2. split_and!; auto; try congruence.
    destruct HL2 as [H1 H2 H3 H4].
    assert (Hf : forall y, fupd (fupd h x n) x (S n) y = fupd h x (S n) y).
    { intros y. rw /fupd. by destruct (y =? x). }
    split; auto.
    + destruct H3 as [H3 H3']. split; [|by rw -Hf]. eapply Forall_impl; [done|]. intros y Hy. by rw -Hf.
    + intros pre y post i E Hi. rw -Hf in Hi. rw (H4 pre y post i E Hi). f_equal.
      apply next_at_ext, Forall_forall. intros z _. by rw Hf.
Qed.

(** A store that only adds cells of an unlisted node, and keys, keeps the chain. *)
Lemma links_grow l l1 ids h :
  links l ids h -> length (keys l) <= length (keys l1) ->
  (forall x i, x ∈ head_ :: ids -> nexts l1 !! (x, i) = nexts l !! (x, i)) -> links l1 ids h.
Proof.
  intros [H1 H2 H3 H4] Hlen Hn. split; auto.
  - eapply Forall_impl; [done|]. simpl. lia.
  - intros pre x post i E Hi. rw Hn; [rw E; set_solver|]. eauto.
Qed.

(** ** Inserting: the new node's height, its predecessors and its links *)

Context (key0 : Key) (draw : nat -> Z).

Lemma RandomHeight_loop_range t height rng :
  height <= (RandomHeight_loop draw t height rng).1 <= height + t.
Proof.
  revert height rng; induction t as [|t IH]; intros height rng; simpl; [lia|].
  destruct (draw rng =? 0)%Z; simpl; [|lia]. specialize (IH (S height) (S rng)). lia.
Qed.

Lemma RandomHeight_run l :
  exists height rng, RandomHeight draw l = (height, mkSkipList (keys l) (nexts l) (max_height_ l) rng) /\
    1 <= height <= kMaxHeight.
Proof.
  rw /RandomHeight. pose proof (RandomHeight_loop_range (kMaxHeight - 1) 1 (rng_ l)) as H.
  destruct (RandomHeight_loop _ _ _ _) as [height rng]. exists height, rng.
  split; [done|]. rw /kMaxHeight /= in H *. lia.
Qed.

Lemma raise_prev_lookup n i prev j :
  i + n <= length prev ->
  raise_prev n i prev !! j = if decide (i <= j < i + n) then Some (Some head_) else prev !! j.
Proof.
  revert i prev; induction n as [|n IH]; intros i prev Hl; simpl.
  - rw decide_False //; lia.
  - rw IH; [rw length_insert; lia|]. destruct (decide (j = i)) as [->|Hne].
    + rw decide_False; [lia|]. rw decide_True; [lia|]. rw list_lookup_insert_eq //; lia.
    + rw list_lookup_insert_ne //. repeat case_decide; try done; lia.
Qed.

Lemma keys_of_grow l l1 ids k :
  keys l1 = keys l ++ [k] -> Forall (fun x => x < length (keys l)) ids -> keys_of l1 ids = keys_of l ids.
Proof.
  intros Hk. induction 1 as [|x ids Hx Hids IH]; [done|]. rw /keys_of /=.
  rw {1}Hk lookup_app_l //. destruct (keys l !! x); [f_equal|]; apply IH.
Qed.

(** The state from which a new key [k] is linked between [A] and [B]. *)
Record ready l (A B : list nat) h (k : Key) (x : nat) (prev : list (option nat)) (height : nat) l1 : Prop := {
  rd_x : x = length (keys l);
  rd_keys : keys l1 = keys l ++ [k];
  rd_height : 1 <= height <= kMaxHeight;
  rd_max : max_height_ l <= max_height_ l1 <= kMaxHeight /\ height <= max_height_ l1;
  rd_old : links l1 (A ++ B) h;
  rd_new : links l1 (A ++ x :: B) (fupd h x 0);
  rd_cells : forall j, j < height -> is_Some (nexts l1 !! (x, j));
  rd_prev : forall i, i < height -> exists p, prev !! i = Some (Some p) /\ is_last h A i p;
}.

Lemma Insert_prepare_run l A B h k :
  wf cmp l (A ++ B) h ->
  Forall (fun x => lt_key l k x = true) A -> Forall (fun x => lt_key l k x = false) B ->
  Forall (fun kx => cmp k kx <> 0%Z) (keys_of l (A ++ B)) ->
  exists x prev height l1, Insert_prepare cmp draw l k = Some (x, prev, height, l1) /\
    ready l A B h k x prev height l1.
Proof.
  intros Hwf HA HB Hfresh.
  destruct (FindGreaterOrEqual_run l (A ++ B) h A B k Hwf eq_refl HA HB) as (prev & E & Hpl & Hp).
  rw /Insert_prepare E /=.
  assert (match head B with None => true
          | Some n => match keys l !! n with Some kn => negb (cmp k kn =? 0)%Z | None => false end end = true) as ->.
  { destruct B as [|n B]; [done|]. simpl.
    destruct (wf_key _ _ _ n Hwf) as [[kn Hkn] _]; [set_solver|]. rw Hkn. apply negb_true_iff, Z.eqb_neq.
    rewrite -> Forall_forall in Hfresh. apply Hfresh, list_elem_of_omap. exists n. split; [set_solver|done]. }
  destruct (RandomHeight_run l) as (height & rng & -> & Hh). rw /GetMaxHeight /=.
  pose proof Hwf as [HL Hpos Hs Hmax Hle].
  assert (Hfin : forall prev' mh, (max_height_ l <= mh <= kMaxHeight /\ height <= mh) ->
    (forall i, i < height -> exists p, prev' !! i = Some (Some p) /\ is_last h A i p) ->
    ready l A B h k (length (keys l)) prev' height
      (mkSkipList (keys l ++ [k]) (null_links (length (keys l)) height (nexts l)) mh rng)).
  { intros prev' mh Hmh Hprev'. split; auto.
    - eapply links_grow; [done | rw /= length_app /=; lia |].
      intros y i Hy. simpl. rw null_links_lookup decide_False //. intros [-> _].
      pose proof (lk_alloc _ _ _ HL) as Ha. rewrite -> Forall_forall in Ha. specialize (Ha _ Hy). lia.
    - by apply links_alloc.
    - intros j Hj. simpl. rw null_links_lookup decide_True //. }
  destruct (Nat.ltb_spec (max_height_ l) height); simpl; do 4 eexists; (split; [done|]); apply Hfin; try lia.
  - intros i Hi. rw raise_prev_lookup; [lia|]. case_decide; [|apply Hp; lia].
    exists head_. split; [done|]. exists [], A. split; [done|]. split.
    + rw (proj2 (lk_height _ _ _ HL)). lia.
    + apply Forall_app in Hle as [Hle _]. eapply Forall_impl; [done|]. simpl. lia.
  - intros i Hi. apply Hp. lia.
Qed.

Lemma omap_snoc_key l l1 ids k x :
  keys l1 = keys l ++ [k] -> x = length (keys l) -> keys_of l1 (x :: ids) = k :: keys_of l1 ids.
Proof. intros Hk ->. rw /keys_of /= Hk lookup_app_r // Nat.sub_diag //. Qed.

(** A key smaller than [B]'s keys and greater than [A]'s extends the order. *)
Lemma sorted_insert (ks1 ks2 : list Key) k :
  StronglySorted (cmp_lt cmp) (ks1 ++ ks2) ->
  Forall (fun a => cmp_lt cmp a k) ks1 -> Forall (fun b => cmp_lt cmp k b) ks2 ->
  StronglySorted (cmp_lt cmp) (ks1 ++ k :: ks2).
Proof.
  intros Hs H1 H2. induction ks1 as [|a ks1 IH]; simpl in *.
  - by constructor.
  - apply StronglySorted_inv in Hs as [Hs Ha]. apply Forall_cons in H1 as [Hak H1].
    constructor; [auto|]. apply Forall_app in Ha as [Ha1 Ha2]. apply Forall_app; split; [done|].
    by constructor.
Qed.

Lemma ready_sorted l A B h k x prev height l1 :
  wf cmp l (A ++ B) h ->
  Forall (fun x => lt_key l k x = true) A -> Forall (fun x => lt_key l k x = false) B ->
  Forall (fun kx => cmp k kx <> 0%Z) (keys_of l (A ++ B)) ->
  ready l A B h k x prev height l1 ->
  keys_of l1 (A ++ B) = keys_of l (A ++ B) /\
  keys_of l1 (A ++ x :: B) = keys_of l A ++ k :: keys_of l B /\
  StronglySorted (cmp_lt cmp) (keys_of l A ++ k :: keys_of l B).
Proof.
  intros Hwf HA HB Hfresh R. pose proof (lk_alloc _ _ _ (wf_links _ _ _ _ Hwf)) as Ha.
  apply Forall_cons in Ha as [_ Ha]. pose proof Ha as Ha'. apply Forall_app in Ha' as [HaA HaB].
  pose proof (rd_keys _ _ _ _ _ _ _ _ _ R) as Hk.
  split; [by eapply keys_of_grow|]. split.
  - rw keys_of_app (omap_snoc_key l _ _ k) //; [apply R|]. by rw !(keys_of_grow l l1 _ k).
  - destruct (split_keys l A B k HA HB) as [H1 H2]. pose proof (wf_sorted _ _ _ _ Hwf) as Hs.
    rw keys_of_app in Hs Hfresh. apply Forall_app in Hfresh as [_ Hf].
    apply sorted_insert; auto. rewrite -> Forall_forall in *. intros b Hb.
    specialize (H2 b Hb). specialize (Hf b Hb). rw /cmp_lt.
    apply cmp_ge_le in H2; [|done]. lia.
Qed.

(** The state after [n] turns of the linking loop is well formed: the nodes are the
    old ones while [n] is 0, and the new node is among them from then on. *)
Lemma LinkLevels_wf l A B h k x prev height l1 n :
  wf cmp l (A ++ B) h ->
  Forall (fun x => lt_key l k x = true) A -> Forall (fun x => lt_key l k x = false) B ->
  Forall (fun kx => cmp k kx <> 0%Z) (keys_of l (A ++ B)) ->
  ready l A B h k x prev height l1 -> n <= height ->
  exists l2, LinkLevels l1 x prev n = Some l2 /\ keys l2 = keys l1 /\
    if n =? 0 then wf cmp l2 (A ++ B) h /\ keys_of l2 (A ++ B) = keys_of l (A ++ B)
    else wf cmp l2 (A ++ x :: B) (fupd h x n) /\ keys_of l2 (A ++ x :: B) = keys_of l A ++ k :: keys_of l B.
Proof.
  intros Hwf HA HB Hfresh R Hn.
  destruct (ready_sorted _ _ _ _ _ _ _ _ _ Hwf HA HB Hfresh R) as (Ek0 & Ek1 & Hs1).
  pose proof R as [Hx Hk Hh Hmax Hold Hnew Hcells Hprev]. pose proof Hwf as [HL Hpos Hs Hm Hle].
  destruct (LinkLevels_run l1 A B h x prev height n) as (l2 & E & HL2 & Hk2 & Hm2 & _); try done; [lia|].
  exists l2. split; [done|]. split; [done|]. destruct n as [|n].
  - injection E as <-. split; [|done]. split; auto.
    + by rw Ek0.
    + lia.
    + eapply Forall_impl; [done|]. simpl. lia.
  - cbn [Nat.eqb]. assert (Ek2 : keys_of l2 (A ++ x :: B) = keys_of l A ++ k :: keys_of l B).
    { by rw -Ek1 /keys_of Hk2. }
    split; [|done]. split; auto.
    + apply (Forall_fupd (fun m => 1 <= m)); [done|lia].
    + by rw Ek2.
    + lia.
    + apply (Forall_fupd (fun m => m <= max_height_ l2)); [|lia].
      eapply Forall_impl; [done|]. simpl. lia.
Qed.

Lemma Insert_run l ids h k :
  wf cmp l ids h -> Forall (fun kx => cmp k kx <> 0%Z) (keys_of l ids) ->
  exists A B l' x height, ids = A ++ B /\ Insert cmp draw l k = Some l' /\
    wf cmp l' (A ++ x :: B) (fupd h x height) /\
    keys_of l' (A ++ x :: B) = keys_of l A ++ k :: keys_of l B.
Proof.
  intros Hwf Hf. destruct (wf_split l ids h k Hwf) as (A & B & -> & HA & HB).
  destruct (Insert_prepare_run l A B h k Hwf HA HB Hf) as (x & prev & height & l1 & E & R).
  destruct (LinkLevels_wf _ _ _ _ _ _ _ _ _ height Hwf HA HB Hf R) as (l2 & E2 & _ & W); [done|].
  pose proof (rd_height _ _ _ _ _ _ _ _ _ R). destruct (Nat.eqb_spec height 0); [lia|].
  exists A, B, l2, x, height. rw /Insert E /= E2. by destruct W.
Qed.

Lemma New_wf : wf cmp (New key0) [] (fun _ => kMaxHeight) /\ keys_of (New key0) [] = [].
Proof.
  split; [|done]. split; try constructor; try (rw /kMaxHeight /=; lia).
  - apply NoDup_singleton.
  - constructor; [rw /= /head_; lia|constructor].
  - done.
  - intros pre x post i E Hi. destruct pre as [|y pre]; [|by destruct pre]. injection E as <- <-.
    change (nexts (New key0)) with (null_links 0 kMaxHeight (∅ : gmap (nat * nat) (option nat))).
    rw null_links_lookup decide_True //.
Qed.

Lemma New_Wf : Wf cmp (New key0) /\ contents (New key0) = [].
Proof. destruct New_wf as [H1 H2]. by apply wf_Wf in H1. Qed.

Lemma Insert_contents l k :
  Wf cmp l -> Forall (fun kx => cmp k kx <> 0%Z) (contents l) ->
  exists l' a b, Insert cmp draw l k = Some l' /\ Wf cmp l' /\
    contents l = a ++ b /\ contents l' = a ++ k :: b.
Proof.
  intros [h Hwf] Hf.
  destruct (Insert_run l (nodes l) h k Hwf Hf) as (A & B & l' & x & height & E & Ei & W & K).
  apply wf_Wf in W as [W C]. exists l', (keys_of l A), (keys_of l B). split_and!; auto.
  - by rw /contents E keys_of_app.
  - by rw C.
Qed.

(** ** Readers during an insertion *)

(** Storing in the new node's own link at a level it is not linked at yet. *)
Lemma LinkNode_wf l ids h x prev i p :
  wf cmp l ids h -> x ∉ head_ :: ids \/ (x ∈ ids /\ h x <= i) -> is_Some (nexts l !! (x, i)) ->
  prev !! i = Some (Some p) -> is_Some (nexts l !! (p, i)) ->
  exists l', LinkNode l x prev i = Some l' /\ keys l' = keys l /\ wf cmp l' ids h.
Proof.
  intros [HL Hp Hs Hm Hle] Hx Hc Hprev [v Hv].
  exists (set_nexts (<[(x, i) := v]> (nexts l)) l). split; [|split; [done|]].
  - rw /LinkNode Hprev /= /Next Hv /= SetNext_run //.
  - split; auto. destruct HL as [H1 H2 H3 H4]. split; auto.
    intros pre y post j E Hj. simpl. rw lookup_insert_ne; [|eauto].
    intros [= <- <-]. destruct Hx as [Hx|[_ Hx]]; [|lia]. apply Hx. rw E. set_solver.
Qed.

(** The stores of [Insert(k)] on [l] that another thread can observe, in order: the
    new maximum height, the allocation, and at each level the new node's link and
    then its predecessor's. *)
Inductive observable l (k : Key) : SkipList -> Prop :=
  | obs_start : observable l k l
  | obs_height height l1 : RandomHeight draw l = (height, l1) -> GetMaxHeight l1 < height ->
      observable l k (mkSkipList (keys l1) (nexts l1) height (rng_ l1))
  | obs_linked x prev height l1 n l2 : Insert_prepare cmp draw l k = Some (x, prev, height, l1) ->
      n <= height -> LinkLevels l1 x prev n = Some l2 -> observable l k l2
  | obs_half x prev height l1 n l2 l3 : Insert_prepare cmp draw l k = Some (x, prev, height, l1) ->
      n < height -> LinkLevels l1 x prev n = Some l2 -> LinkNode l2 x prev n = Some l3 ->
      observable l k l3.

Lemma wf_raise l ids h mh rng :
  wf cmp l ids h -> max_height_ l <= mh <= kMaxHeight ->
  wf cmp (mkSkipList (keys l) (nexts l) mh rng) ids h.
Proof.
  intros [[H1 H2 H3 H4] Hp Hs Hm Hle] Hmh. split; auto; [by split|simpl; lia|].
  eapply Forall_impl; [done|]. simpl. lia.
Qed.

(** The nodes a reader sees after [n] turns, whether or not the new node's link at
    level [n] has been stored. *)
Lemma LinkLevels_half l A B h k x prev height l1 n l2 l3 :
  wf cmp l (A ++ B) h ->
  Forall (fun x => lt_key l k x = true) A -> Forall (fun x => lt_key l k x = false) B ->
  Forall (fun kx => cmp k kx <> 0%Z) (keys_of l (A ++ B)) ->
  ready l A B h k x prev height l1 -> n < height ->
  LinkLevels l1 x prev n = Some l2 -> LinkNode l2 x prev n = Some l3 ->
  Wf cmp l3 /\ contents l3 = contents l2.
Proof.
  intros Hwf HA HB Hf R Hn E2 E3.
  destruct (LinkLevels_wf _ _ _ _ _ _ _ _ _ n Hwf HA HB Hf R) as (l2' & E2' & Hk & W); [lia|].
  assert (l2' = l2) as -> by congruence. pose proof R as [Hx Hkx Hh Hmax Hold Hnew Hcells Hprev].
  destruct (LinkLevels_run l1 A B h x prev height n) as (l2' & E2'' & HL2 & _ & _ & Hal); try done; try lia.
  assert (l2' = l2) as -> by congruence. destruct (Hprev n Hn) as (p & Hp & Hlast).
  assert (Hxn : x ∉ head_ :: A ++ B).
  { pose proof (lk_alloc _ _ _ (wf_links _ _ _ _ Hwf)) as Ha. rewrite -> Forall_forall in Ha.
    intros Hin. specialize (Ha x Hin). lia. }
  assert (Hpc : is_Some (nexts l2 !! (p, n))).
  { destruct Hlast as (pre & post & E & Hhp & _).
    rw (lk_next _ _ _ HL2 pre p (post ++ x :: B)); [by rw app_comm_cons E -app_assoc| |done].
    rw fupd_ne //. intros ->. apply Hxn. rw app_comm_cons E. set_solver. }
  set (ids := if n =? 0 then A ++ B else A ++ x :: B).
  set (h2 := if n =? 0 then h else fupd h x n).
  assert (W2 : wf cmp l2 ids h2) by (rw /ids /h2; destruct (n =? 0); apply W).
  destruct (LinkNode_wf l2 ids h2 x prev n p W2) as (l3' & E3' & Hk3 & W3); auto.
  { rw /ids /h2. destruct (Nat.eqb_spec n 0); [by left|right]. rw fupd_eq. split; [set_solver|lia]. }
  assert (l3' = l3) as -> by congruence.
  apply wf_Wf in W2 as [_ C2]. apply wf_Wf in W3 as [W3 C3]. split; [done|].
  by rw C2 C3 /keys_of Hk3.
Qed.

Lemma observable_Wf l k l' :
  Wf cmp l -> Forall (fun kx => cmp k kx <> 0%Z) (contents l) -> observable l k l' ->
  Wf cmp l' /\ (contents l' = contents l \/
    exists lf, Insert cmp draw l k = Some lf /\ contents l' = contents lf).
Proof.
  intros [h Hwf] Hf. pose proof (wf_split l _ h k Hwf) as (A & B & E & HA & HB).
  rw /contents E in Hf. pose proof Hwf as Hwf'. rw E in Hwf'.
  destruct (Insert_prepare_run l A B h k Hwf' HA HB Hf) as (x & prev & height & l1 & Ep & R).
  destruct (LinkLevels_wf _ _ _ _ _ _ _ _ _ height Hwf' HA HB Hf R) as (lf & Ef & _ & Wf'); [done|].
  pose proof (rd_height _ _ _ _ _ _ _ _ _ R) as Hh. destruct (Nat.eqb_spec height 0) as [|_]; [lia|].
  destruct Wf' as [Wf' Cf]. apply wf_Wf in Wf' as [_ Cf']. rw Cf in Cf'.
  assert (EI : Insert cmp draw l k = Some lf) by rw /Insert Ep //.
  assert (Hstep : forall n l2, n <= height -> LinkLevels l1 x prev n = Some l2 ->
    Wf cmp l2 /\ (contents l2 = contents l \/ contents l2 = contents lf)).
  { intros n l2 Hn E2. destruct (LinkLevels_wf _ _ _ _ _ _ _ _ _ n Hwf' HA HB Hf R Hn) as (l2' & E2' & _ & W).
    assert (l2' = l2) as -> by congruence.
    destruct (n =? 0); destruct W as [W C]; apply wf_Wf in W as [W C']; (split; [done|]).
    - left. by rw C' C /contents E.
    - right. by rw C' C Cf'. }
  destruct 1 as [|height' l1' Er Hlt|x' prev' height' l1' n l2 E' Hn E2|x' prev' height' l1' n l2 l3 E' Hn E2 E3].
  - split; [by exists h | by left].
  - destruct (RandomHeight_run l) as (hh & rng & Er' & Hrange). rw Er' in Er. injection Er as <- <-.
    rw /= in Hlt *. pose proof (wf_raise l _ h hh rng Hwf) as W.
    apply wf_Wf in W as [W C]; [|rw /GetMaxHeight /= in Hlt; lia]. split; [done|]. left. by rw C.
  - rw Ep in E'. injection E' as <- <- <- <-. destruct (Hstep n l2 Hn E2) as [W [C|C]]; split; eauto.
  - rw Ep in E'. injection E' as <- <- <- <-. destruct (Hstep n l2) as [W C]; [lia|done|].
    destruct (LinkLevels_half _ _ _ _ _ _ _ _ _ _ _ _ Hwf' HA HB Hf R Hn E2 E3) as [W3 C3].
    split; [done|]. rw C3. destruct C; eauto.
Qed.
End skiplist_proofs.

(** ** The claims *)

(** C10: inserting a key that compares equal to none of the list returns, keeps the
    list well formed (every level a sublist of the level below, sorted, links within
    the nodes' heights), and the keys are the old ones with the new one at its place
    in the order: nothing is lost, duplicated or reordered. *)
Theorem skiplist_insert {Key} (cmp : Key -> Key -> Z) `{!Comparator cmp} (draw : nat -> Z)
    (l : @SkipList Key) (k : Key) :
  Wf cmp l -> Forall (fun kx => cmp k kx <> 0%Z) (contents l) ->
  exists l' a b, Insert cmp draw l k = Some l' /\ Wf cmp l' /\
    contents l = a ++ b /\ contents l' = a ++ k :: b /\
    StronglySorted (cmp_lt cmp) (contents l').
Proof.
  intros W F. destruct (Insert_contents cmp draw l k W F) as (l' & a & b & E & W' & C & C').
  exists l', a, b. split_and!; auto. by apply contents_sorted.
Qed.

(** C9: at every store of [Insert] that a concurrent reader can observe, the list is
    well formed and holds either exactly the old keys or exactly the final ones: a
    reader never meets a dangling link, an unsorted list or a lost key. *)
Theorem skiplist_readers_during_insert {Key} (cmp : Key -> Key -> Z) `{!Comparator cmp} (draw : nat -> Z)
    (l : @SkipList Key) (k : Key) (l' : @SkipList Key) :
  Wf cmp l -> Forall (fun kx => cmp k kx <> 0%Z) (contents l) -> observable cmp draw l k l' ->
  Wf cmp l' /\
  (contents l' = contents l \/ exists lf, Insert cmp draw l k = Some lf /\ contents l' = contents lf).
Proof. apply observable_Wf. done. Qed.

(** C21: on a well-formed list every iterator operation returns, and walks the keys in
    order: [Seek] stops at the first key not smaller than the target, [SeekToFirst]
    and [SeekToLast] at the ends, [Next] and [Prev] move by one and leave the list at
    its ends, and [Contains] is membership up to the comparator. *)
Theorem skiplist_iterator {Key} (cmp : Key -> Key -> Z) `{!Comparator cmp} (l : @SkipList Key) :
  Wf cmp l ->
  (forall i x, nodes l !! i = Some x -> Iter_key l (Some x) = contents l !! i) /\
  length (nodes l) = length (contents l) /\
  Iter_SeekToFirst l = Some (nodes l !! 0) /\
  Iter_SeekToLast l = Some (last (nodes l)) /\
  (forall i x, nodes l !! i = Some x -> Iter_Next l (Some x) = Some (nodes l !! S i)) /\
  (forall i x, nodes l !! i = Some x ->
     Iter_Prev cmp l (Some x) = Some (match i with O => None | S j => nodes l !! j end)) /\
  (forall k, exists i, Iter_Seek cmp l k = Some (nodes l !! i) /\
     Forall (fun a => (cmp a k < 0)%Z) (take i (contents l)) /\
     Forall (fun a => (0 <= cmp a k)%Z) (drop i (contents l))) /\
  (forall k, Contains cmp l k = Some (existsb (fun a => cmp k a =? 0)%Z (contents l))).
Proof.
  intros W. split_and!; intros.
  - by destruct (key_run cmp l i x W H).
  - destruct W as [h W]. by rw /contents (keys_of_length _ _ _ _ W).
  - by apply (SeekToFirst_run cmp).
  - by apply (SeekToLast_run cmp).
  - by apply (Next_run cmp).
  - by apply Prev_run.
  - destruct (Seek_run cmp l k W) as (i & E & _ & H1 & H2). by exists i.
  - by apply Contains_run.
Qed.

(** A list of integers, built by two insertions, to run the claims on. *)
#[export] Instance Zsub_comparator : Comparator Z.sub.
Proof. split; lia. Qed.

Definition sample_draw (n : nat) : Z := if Nat.even n then 0%Z else 1%Z.
Definition sample_list : @SkipList Z :=
  default (New 0%Z) (l ← Insert Z.sub sample_draw (New 0%Z) 5%Z; Insert Z.sub sample_draw l 9%Z).

Lemma sample_list_Wf : Wf Z.sub sample_list /\ contents sample_list = [5%Z; 9%Z].
Proof.
  destruct (New_Wf Z.sub 0%Z) as [W0 C0].
  destruct (Insert_contents Z.sub sample_draw (New 0%Z) 5%Z W0) as (l1 & a & b & E1 & W1 & C1 & C1').
  { by rw C0. }
  destruct (Insert_contents Z.sub sample_draw l1 9%Z W1) as (l2 & a2 & b2 & E2 & W2 & _).
  { rw C1'. rw C0 in C1. symmetry in C1. apply app_eq_nil in C1 as [-> ->]. by repeat constructor. }
  split; [|by vm_compute]. rw /sample_list E1 /= E2 //.
Qed.

Lemma skiplist_insert_witness :
  exists l' a b, Insert Z.sub sample_draw sample_list 7%Z = Some l' /\ Wf Z.sub l' /\
    contents sample_list = a ++ b /\ contents l' = a ++ 7%Z :: b /\
    StronglySorted (cmp_lt Z.sub) (contents l').
Proof.
  destruct sample_list_Wf as [W C]. apply (skiplist_insert Z.sub sample_draw sample_list 7%Z W).
  rw C. repeat constructor; lia.
Defined.

(** The list while 7 is being inserted: linked at level 0 only. *)
Definition sample_half : @SkipList Z :=
  default sample_list ('(x, prev, _, l1) ← Insert_prepare Z.sub sample_draw sample_list 7%Z;
                       LinkLevels l1 x prev 1).

Lemma skiplist_readers_during_insert_witness :
  contents sample_half = [5%Z; 7%Z; 9%Z] /\ Wf Z.sub sample_half.
Proof.
  split; [by vm_compute|]. destruct sample_list_Wf as [W C].
  apply (skiplist_readers_during_insert Z.sub sample_draw sample_list 7%Z sample_half W).
  - rw C. repeat constructor; lia.
  - eapply (obs_linked _ _ _ _ _ _ _ _ 1); [vm_compute; reflexivity|lia|vm_compute; reflexivity].
Defined.

Lemma skiplist_iterator_witness : Iter_SeekToFirst sample_list = Some (nodes sample_list !! 0).
Proof. apply (skiplist_iterator Z.sub sample_list (proj1 sample_list_Wf)). Defined.
