(* ===== verification/Entry.v ===== *)
(** * Entry: internal entries and what a snapshot sees of them

    Models [MemtableEntry] and [MemtableKeyComparator] of [src/memtable.h].  The
    same four fields are what every [InternalIterator] exposes ([Key], [Seq],
    [Type], [Value]), so this record is also the element type of their
    specifications.  [newest] and [user_view] are the reference definitions: the
    version of a key a reader at a given sequence number must get, and the rows an
    iterator at that number must produce. *)

From S2P Require Import Prelude Status Slice Format.

Record MemtableEntry := mkEntry {
  user_key : bytes;
  seq : SequenceNumber;
  type : ValueType;
  value : bytes;
}.

Definition MemtableKeyComparator (a b : MemtableEntry) : Z :=
  CompareInternalKey (user_key a) (seq a) (user_key b) (seq b).

#[global] Instance entry_eq_dec : EqDecision MemtableEntry.
Proof. solve_decision. Defined.

#[global] Instance MemtableKeyComparator_comparator : Comparator MemtableKeyComparator.
Proof.
  split; rw /MemtableKeyComparator.
  - intros a. by apply CompareInternalKey_eq.
  - intros a b. rw (CompareInternalKey_antisym (user_key b)). lia.
  - intros a b c. apply CompareInternalKey_trans.
  - intros a b c [-> ->]%CompareInternalKey_eq. done.
Qed.

Abbreviation entry_lt := (cmp_lt MemtableKeyComparator).

(** Strictly increasing internal keys: user keys ascending, newest first. *)
Abbreviation entries_sorted := (StronglySorted entry_lt).

Lemma entry_lt_iff a b :
  entry_lt a b <-> Slice.compare (user_key a) (user_key b) < 0 \/ user_key a = user_key b /\ seq b < seq a.
Proof. apply CompareInternalKey_lt. Qed.

Lemma entry_lt_key a b : entry_lt a b -> Slice.compare (user_key a) (user_key b) <= 0.
Proof.
  rw entry_lt_iff. intros [?|[-> _]]; [lia|]. by rw cmp_refl.
Qed.

(** User keys ascending, not strictly: the order an index block has, whose entries
    carry no sequence number. *)
Abbreviation keys_sorted := (StronglySorted (fun a b => Slice.compare (user_key a) (user_key b) <= 0)).

Lemma entries_sorted_keys es : entries_sorted es -> keys_sorted es.
Proof.
  induction es as [|e es IH]; [constructor|]. intros [Hs He]%StronglySorted_inv.
  constructor; [auto|]. eapply Forall_impl; [exact He|]. intros x. apply entry_lt_key.
Qed.

(** ** The version a snapshot sees *)

(** Does a reader of [k] at sequence number [s] see version [e]? *)
Definition sees (k : bytes) (s : SequenceNumber) (e : MemtableEntry) : bool :=
  Slice.eqb (user_key e) k && (seq e <=? s).

Lemma sees_true k s e : sees k s e = true <-> user_key e = k /\ seq e <= s.
Proof. rw /sees andb_true_iff Slice.eqb_eq Z.leb_le //. Qed.

(** Of the versions of [k] in [es] not newer than [s], the newest. *)
Fixpoint newest (es : list MemtableEntry) (k : bytes) (s : SequenceNumber) : option MemtableEntry :=
  match es with
  | [] => None
  | e :: es' =>
      let r := newest es' k s in
      if sees k s e then
        match r with Some e' => if seq e <? seq e' then r else Some e | None => Some e end
      else r
  end.

(** What a lookup that found [r] answers: whether the search is over, [*value] and
    [*s] (the caller's [v] and [st] before). *)
Definition lookup_result (r : option MemtableEntry) (v : option bytes) (st : Status.t) : bool * option bytes * Status.t :=
  match r with
  | None => (false, v, st)
  | Some e => if type e =? kTypeValue then (true, (fun _ => value e) <$> v, Status.OK) else (true, v, Status.NotFound [])
  end.

(** A value or a tombstone. *)
Definition known_type (e : MemtableEntry) : Prop := type e = kTypeValue \/ type e = kTypeDeletion.

(** The property that defines [newest]. *)
Definition is_newest (es : list MemtableEntry) (k : bytes) (s : SequenceNumber) (e : MemtableEntry) : Prop :=
  e ∈ es /\ sees k s e = true /\ forall e', e' ∈ es -> sees k s e' = true -> seq e' <= seq e.

Lemma newest_None es k s : newest es k s = None <-> Forall (fun e => sees k s e = false) es.
Proof.
  induction es as [|e es IH]; simpl; [by rw Forall_nil|]. rw Forall_cons -IH.
  destruct (sees k s e); [|naive_solver]. destruct (newest es k s); [|naive_solver].
  destruct (_ <? _); naive_solver.
Qed.

Lemma newest_Some es k s e : newest es k s = Some e -> is_newest es k s e.
Proof.
  revert e; induction es as [|x es IH]; simpl; [done|]. intros e.
  destruct (sees k s x) eqn:Ex; [destruct (newest es k s) as [y|] eqn:Ey|].
  - destruct (IH y eq_refl) as (Hy & Sy & My). destruct (Z.ltb_spec (seq x) (seq y)); intros [= <-].
    + split_and!; [by right|done|]. intros e' [->|He']%elem_of_cons ?; [lia|auto].
    + split_and!; [by left|done|]. intros e' [->|He']%elem_of_cons He; [lia|]. specialize (My e' He' He). lia.
  - intros [= <-]. apply newest_None in Ey. rewrite -> Forall_forall in Ey.
    split_and!; [by left|done|]. intros e' [->|He']%elem_of_cons He; [lia|]. by rw Ey in He.
  - intros Hn. destruct (IH e Hn) as (Hy & Sy & My).
    split_and!; [by right|done|]. intros e' [->|He']%elem_of_cons He; [congruence|auto].
Qed.

(** The newer of two versions; the first one when they are equally new. *)
Definition newer (r r' : option MemtableEntry) : option MemtableEntry :=
  match r, r' with
  | Some e, Some e' => if seq e <? seq e' then r' else r
  | None, _ => r'
  | _, None => r
  end.

Lemma newest_cons e es k s : newest (e :: es) k s = newer (if sees k s e then Some e else None) (newest es k s).
Proof. simpl. destruct (sees k s e), (newest es k s); done. Qed.

Lemma newer_assoc a b c : newer a (newer b c) = newer (newer a b) c.
Proof.
  destruct a as [a|], b as [b|], c as [c|]; simpl; try done.
  - destruct (Z.ltb_spec (seq b) (seq c)), (Z.ltb_spec (seq a) (seq b)); simpl;
      repeat match goal with |- context [?x <? ?y] => destruct (Z.ltb_spec x y) end; done || lia.
  - by destruct (seq a <? seq b).
Qed.

Lemma newest_app a b k s : newest (a ++ b) k s = newer (newest a k s) (newest b k s).
Proof.
  induction a as [|x a IH]; [done|].
  change ((x :: a) ++ b) with (x :: (a ++ b)). by rw !newest_cons IH newer_assoc.
Qed.

(** Every version of a key in [a] is newer than those in [b]. *)
Definition newer_versions (a b : list MemtableEntry) : Prop :=
  forall e e', e ∈ a -> e' ∈ b -> user_key e = user_key e' -> seq e' < seq e.

(** No two entries share a user key and a sequence number. *)
Definition seqs_unique (es : list MemtableEntry) : Prop :=
  forall e e', e ∈ es -> e' ∈ es -> MemtableKeyComparator e e' = 0 -> e = e'.

Lemma newest_app_newer a b k s :
  newer_versions a b ->
  newest (a ++ b) k s = match newest a k s with Some e => Some e | None => newest b k s end.
Proof.
  intros Hn. rw newest_app. destruct (newest a k s) as [e|] eqn:Ea; [|done].
  destruct (newest b k s) as [e'|] eqn:Eb; [|done]. simpl.
  apply newest_Some in Ea as (Ha & Sa & _), Eb as (Hb & Sb & _). apply sees_true in Sa as [Ka _], Sb as [Kb _].
  specialize (Hn e e' Ha Hb ltac:(congruence)). by destruct (Z.ltb_spec (seq e) (seq e')); [lia|].
Qed.

Lemma newest_unique es k s e : seqs_unique es -> is_newest es k s e -> newest es k s = Some e.
Proof.
  intros Hu (He & Se & Me). destruct (newest es k s) as [e'|] eqn:E.
  - apply newest_Some in E as (He' & Se' & Me'). f_equal. apply Hu; auto.
    apply CompareInternalKey_eq. specialize (Me e' He' Se'). specialize (Me' e He Se).
    apply sees_true in Se as [-> _], Se' as [-> _]. split; [done|lia].
  - apply newest_None in E. rewrite -> Forall_forall in E. by rw E in Se.
Qed.

(** [newest] only depends on the set of entries. *)
Lemma newest_perm es es' k s : seqs_unique es -> es ≡ₚ es' -> newest es k s = newest es' k s.
Proof.
  intros Hu Hp. destruct (newest es k s) as [e|] eqn:E.
  - apply newest_Some in E as (He & Se & Me). symmetry. apply newest_unique.
    + intros a b. rewrite <- Hp. apply Hu.
    + split_and!; [by rewrite <- Hp|done|]. intros e'. rewrite <- Hp. apply Me.
  - symmetry. apply newest_None. apply newest_None in E. by rewrite <- Hp.
Qed.

Lemma entries_sorted_unique es : entries_sorted es -> seqs_unique es.
Proof.
  intros Hs a b Ha Hb Hc. apply list_elem_of_lookup_1 in Ha as [i Hi], Hb as [j Hj].
  destruct (Nat.lt_trichotomy i j) as [Hlt|[->|Hlt]]; [|congruence|].
  - pose proof (StronglySorted_lookup_lt _ _ _ _ _ _ Hs Hi Hj Hlt) as Hab. rw /cmp_lt in Hab. lia.
  - pose proof (StronglySorted_lookup_lt _ _ _ _ _ _ Hs Hj Hi Hlt) as Hab. rw /cmp_lt in Hab.
    apply cmp_lt_gt in Hab. lia.
Qed.

(** On a sorted list, the newest visible version is the first visible one. *)
Lemma newest_sorted_cons e es k s :
  entries_sorted (e :: es) -> newest (e :: es) k s = if sees k s e then Some e else newest es k s.
Proof.
  intros Hs. destruct (sees k s e) eqn:E; [|by rw /= E].
  apply newest_unique; [by apply entries_sorted_unique|]. split_and!; [by left|done|].
  apply StronglySorted_inv in Hs as [_ Hs]. rewrite -> Forall_forall in Hs.
  intros e' [->|He']%elem_of_cons Se; [lia|]. specialize (Hs e' He'). rw entry_lt_iff in Hs.
  apply sees_true in E as [E1 E2], Se as [S1 S2]. rw E1 S1 cmp_refl in Hs. lia.
Qed.

Lemma newest_sorted_app a b k s :
  entries_sorted (a ++ b) ->
  newest (a ++ b) k s = match newest a k s with Some e => Some e | None => newest b k s end.
Proof.
  induction a as [|x a IH]; [done|]. intros Hs. pose proof (StronglySorted_inv Hs) as [Hs' _].
  assert (entries_sorted (x :: a)) as Ha.
  { change ((x :: a) ++ b) with ([x] ++ a ++ b) in Hs. rewrite -> app_assoc in Hs. by apply StronglySorted_app_1_l in Hs. }
  change ((x :: a) ++ b) with (x :: a ++ b). rw (newest_sorted_cons x (a ++ b)) // (newest_sorted_cons x a) //.
  destruct (sees k s x); [done|]. by apply IH.
Qed.

(** No version of a key among entries of other keys. *)
Lemma newest_other_keys es k s : Forall (fun e => user_key e <> k) es -> newest es k s = None.
Proof.
  intros H. apply newest_None. eapply Forall_impl; [exact H|]. intros e He. simpl in He.
  apply not_true_iff_false. intros [? _]%sees_true. done.
Qed.

(** A sorted list split at the probe [(k, s)]: the newest visible version of [k]
    is the entry at the split, if it is a version of [k]. *)
Lemma newest_at_split a b k s :
  entries_sorted (a ++ b) ->
  Forall (fun e => CompareInternalKey (user_key e) (seq e) k s < 0) a ->
  Forall (fun e => 0 <= CompareInternalKey (user_key e) (seq e) k s) b ->
  newest (a ++ b) k s =
    match b with e :: _ => if Slice.eqb (user_key e) k then Some e else None | [] => None end.
Proof.
  intros Hs Ha Hb. induction a as [|x a IH]; simpl app in *.
  - destruct b as [|e b]; [done|]. rw newest_sorted_cons //.
    apply Forall_cons in Hb as [He Hb]. rw /sees.
    assert (user_key e = k -> seq e <= s) as Hseq.
    { intros <-. rw /CompareInternalKey cmp_refl /= in He. rw Z.gtb_ltb in He.
      destruct (Z.ltb_spec s (seq e)); [lia|done]. }
    destruct (Slice.eqb_spec (user_key e) k) as [Hk|Hk]; simpl.
    + rw (proj2 (Z.leb_le _ _)); auto.
    + apply newest_None. apply StronglySorted_inv in Hs as [_ Hs]. rewrite -> Forall_forall in Hs.
      apply Forall_forall. intros x Hx. apply not_true_iff_false. intros [Ek _]%sees_true.
      specialize (Hs x Hx). apply entry_lt_key in Hs. rw Ek in Hs.
      rw /CompareInternalKey in He. destruct (Z.eqb_spec (Slice.compare (user_key e) k) 0) as [E0|E0].
      * by apply Slice.compare_eq in E0.
      * simpl in He. lia.
  - apply Forall_cons in Ha as [Hx Ha]. rw newest_sorted_cons //.
    apply StronglySorted_inv in Hs as [Hs _]. rw (IH Hs Ha).
    destruct (sees k s x) eqn:E; [|done]. apply sees_true in E as [E1 E2].
    apply CompareInternalKey_lt in Hx as [Hx|[_ Hx]]; [|lia]. rw E1 cmp_refl in Hx. lia.
Qed.
