(* ===== verification/Kept.v ===== *)
(** * Kept: what a compaction keeps of its inputs

    The reference definition of the merge loop of [DoCompaction]: of the versions of a
    key the newest, and not that one either if it is a tombstone with nothing below.
    Replacing entries by what is kept of them changes no answer. *)

From S2P Require Import Prelude Status Slice Format Entry.

#[local] Open Scope Z_scope.

(** [base key]: no deeper level can have the key.  [last]: the key of the entry before. *)
Fixpoint kept (base : bytes -> bool) (last : option bytes) (es : list MemtableEntry) : list MemtableEntry :=
  match es with
  | [] => []
  | e :: es' =>
      if bool_decide (last = Some (user_key e)) then kept base last es'
      else if (type e =? kTypeDeletion) && base (user_key e) then kept base (Some (user_key e)) es'
      else e :: kept base (Some (user_key e)) es'
  end.

(** Strictly ascending user keys. *)
Abbreviation keys_ascending := (StronglySorted (fun a b => Slice.compare (user_key a) (user_key b) < 0)).

Lemma keys_ascending_sorted es : keys_ascending es -> entries_sorted es.
Proof.
  induction 1 as [|e es _ IH He]; constructor; [done|]. eapply Forall_impl; [exact He|]. intros x Hx. apply entry_lt_iff. by left.
Qed.

Section kept.
Context (base : bytes -> bool).

Lemma kept_sublist last es : kept base last es `sublist_of` es.
Proof.
  revert last; induction es as [|e es IH]; intros last; simpl; [constructor|].
  case_bool_decide; [by constructor|]. destruct (_ && _); by constructor.
Qed.

Lemma kept_elem last es x : x ∈ kept base last es -> x ∈ es.
Proof. intros H. eapply elem_of_submseteq; [exact H|]. apply sublist_submseteq, kept_sublist. Qed.

(** The versions of the key before are skipped. *)
Lemma kept_above k es :
  entries_sorted es -> Forall (fun e => Slice.compare k (user_key e) <= 0) es ->
  Forall (fun e => Slice.compare k (user_key e) < 0) (kept base (Some k) es).
Proof.
  induction es as [|e es IH]; intros Hs Hk; simpl; [constructor|]. apply StronglySorted_inv in Hs as [Hs He]. apply Forall_cons in Hk as [Hke Hk].
  case_bool_decide as Hl; [auto|]. assert (Hlt : Slice.compare k (user_key e) < 0).
  { destruct (Z.eq_dec (Slice.compare k (user_key e)) 0) as [E|]; [apply Slice.compare_eq in E; congruence|lia]. }
  assert (Hall : Forall (fun x => Slice.compare k (user_key x) < 0) es).
  { eapply Forall_impl; [exact He|]. intros x Hx%entry_lt_key. by eapply (cmp_lt_le_trans Slice.compare). }
  assert (Hrest : forall l, Forall (fun x => Slice.compare k (user_key x) < 0) (kept base l es)).
  { intros l. apply Forall_forall. intros x Hx%kept_elem. by eapply Forall_forall in Hall. }
  destruct (_ && _); [done|by constructor].
Qed.

Lemma kept_ascending last es : entries_sorted es -> keys_ascending (kept base last es).
Proof.
  revert last; induction es as [|e es IH]; intros last Hs; simpl; [constructor|]. apply StronglySorted_inv in Hs as [Hs He].
  case_bool_decide; [auto|]. destruct (_ && _); [auto|]. constructor; [auto|]. apply kept_above; [done|].
  eapply Forall_impl; [exact He|]. intros x. apply entry_lt_key.
Qed.

(** What is kept of a key. *)
Definition kept_version (x : MemtableEntry) : option MemtableEntry :=
  if (type x =? kTypeDeletion) && base (user_key x) then None else Some x.

Lemma kept_newest last es k s :
  entries_sorted es -> Forall (fun e => seq e <= s) es -> last <> Some k ->
  newest (kept base last es) k s = newest es k s ≫= kept_version.
Proof.
  revert last; induction es as [|e es IH]; intros last Hs Hq Hl; [done|]. rw (newest_sorted_cons e es) //. cbn [kept].
  apply StronglySorted_inv in Hs as [Hs He]. apply Forall_cons in Hq as [Hqe Hq].
  destruct (decide (user_key e = k)) as [<-|Hne].
  - rw bool_decide_false // (proj2 (sees_true _ _ _)) //. cbn [mbind option_bind]. rw /kept_version.
    assert (Hno : newest (kept base (Some (user_key e)) es) (user_key e) s = None).
    { apply newest_other_keys. eapply Forall_impl; [apply kept_above; [done|]|].
      - eapply Forall_impl; [exact He|]. intros x. apply entry_lt_key.
      - intros x Hx E. simpl in Hx. rw E cmp_refl in Hx. lia. }
    destruct (_ && _); [done|]. rw newest_cons (proj2 (sees_true _ _ _)) // Hno //.
  - rw (_ : sees k s e = false). { apply not_true_iff_false. intros [? _]%sees_true. done. }
    case_bool_decide as Hb; [by apply IH|]. destruct (_ && _); [apply IH; congruence|].
    rw newest_cons (_ : sees k s e = false). { apply not_true_iff_false. intros [? _]%sees_true. done. }
    apply IH; congruence.
Qed.
End kept.

(** ** Answers *)

(** What a reader sees of the newest version. *)
Definition visible (r : option MemtableEntry) : option bytes :=
  x ← r; if type x =? kTypeValue then Some (value x) else None.

Lemma seqs_unique_sub a b : (forall x, x ∈ a -> x ∈ b) -> seqs_unique b -> seqs_unique a.
Proof. intros H Hu x y Hx Hy. apply Hu; auto. Qed.

(** Inputs [I] among other tables' entries [T] are replaced by what is kept of them.  An
    entry that may be dropped is older than all other versions of the key in [T]. *)
Lemma compacted_answers base es I T old new k s :
  entries_sorted es -> es ≡ₚ I -> old ≡ₚ I ++ T -> new ≡ₚ kept base None es ++ T -> seqs_unique old ->
  Forall (fun e => seq e <= s) old ->
  (forall x y, x ∈ I -> y ∈ T -> user_key x = user_key y -> base (user_key x) = true -> seq x < seq y) ->
  visible (newest new k s) = visible (newest old k s).
Proof.
  intros Hs Hp Ho Hn Hu Hq Hb.
  assert (Hin : forall x, x ∈ es -> x ∈ old) by (intros x Hx; rewrite -> Ho, <- Hp; apply elem_of_app; by left).
  assert (Hun : seqs_unique new).
  { eapply seqs_unique_sub; [|exact Hu]. intros x. rewrite -> Hn, Ho, <- Hp. rewrite -> !elem_of_app. intros [Hx%kept_elem|Hx]; auto. }
  rw (newest_perm new _ k s Hun Hn) (newest_perm old _ k s Hu Ho) !newest_app -(newest_perm es I k s) //.
  { eapply seqs_unique_sub; [exact Hin|done]. }
  rw kept_newest //.
  { apply Forall_forall. intros x Hx. eapply Forall_forall in Hq; [exact Hq|auto]. }
  destruct (newest es k s) as [x|] eqn:Ex; [|done]. apply newest_Some in Ex as (Hx & [Hk _]%sees_true & _). cbn [mbind option_bind].
  rw /kept_version. destruct (_ && _) eqn:Ed; [|done]. apply andb_true_iff in Ed as [Et%Z.eqb_eq Ebase].
  destruct (newest T k s) as [y|] eqn:Ey; simpl.
  - apply newest_Some in Ey as (Hy & [Hky _]%sees_true & _). specialize (Hb x y). rewrite <- Hp in Hb. specialize (Hb Hx Hy ltac:(congruence) Ebase).
    by rw (proj2 (Z.ltb_lt _ _) Hb).
  - by rw Et.
Qed.
