(* ===== verification/Iterator.v ===== *)
(** * Iterator: the iterator interface

    Models the abstract classes [Iterator] ([include/strata/iterator.h]) and
    [InternalIterator] ([src/iterator_internal.h]).  The virtual methods are type
    classes of operations: [It.View] has the methods that only look, [It.Internal]
    the ones that move, which may read files and use the block cache, so they are
    computations on a state [St] that all iterators share.  [None] is a failed
    [assert] or an access out of an object.  [ForwardIterator] and [BackwardIterator]
    are the contracts in the header's comments, against which the merging and the
    database iterator are verified; the memtable, block and table iterators discharge
    them. *)

From S2P Require Import Prelude Status Slice Format Entry.
From S2P Require Export Effect.

Module It.
Class View (I : Type) := {
  Valid : I -> bool;
  Key : I -> option bytes;
  Value : I -> option bytes;
  Seq : I -> option SequenceNumber;
  Type_ : I -> option ValueType;
  status : I -> Status.t;
}.

Class Internal (St I : Type) `{View I} := {
  SeekToFirst : I -> SM St I;
  SeekToLast : I -> SM St I;
  Seek : bytes -> I -> SM St I;
  Next : I -> SM St I;
  Prev : I -> SM St I;
}.
End It.

(** ** Positions *)

(** The number of entries before the first one whose user key is not less than the
    target: where [Seek] must stop. *)
Fixpoint seek_pos (es : list MemtableEntry) (target : bytes) : nat :=
  match es with
  | [] => O
  | e :: es' => if Slice.compare (user_key e) target <? 0 then S (seek_pos es' target) else O
  end.

Lemma seek_pos_le es t : (seek_pos es t <= length es)%nat.
Proof. induction es as [|e es IH]; simpl; [lia|]. destruct (_ <? _); lia. Qed.

Lemma seek_pos_take es t : Forall (fun e => Slice.compare (user_key e) t < 0) (take (seek_pos es t) es).
Proof.
  induction es as [|e es IH]; simpl; [constructor|].
  destruct (Z.ltb_spec (Slice.compare (user_key e) t) 0); simpl; by constructor.
Qed.

Lemma seek_pos_drop es t :
  keys_sorted es -> Forall (fun e => 0 <= Slice.compare (user_key e) t) (drop (seek_pos es t) es).
Proof.
  induction es as [|e es IH]; simpl; [constructor|]. intros [Hs He]%StronglySorted_inv.
  destruct (Z.ltb_spec (Slice.compare (user_key e) t) 0) as [Hlt|Hge]; simpl; [auto|].
  constructor; [done|]. rewrite -> Forall_forall in He. apply Forall_forall. intros x Hx.
  specialize (He x Hx). apply cmp_ge_le; [apply _|].
  apply cmp_ge_le in Hge; [|apply _]. by apply (cmp_le_trans Slice.compare t (user_key e)).
Qed.

(** A split of the list below and above the target is at [seek_pos]. *)
Lemma seek_pos_unique es t i :
  (i <= length es)%nat ->
  Forall (fun e => Slice.compare (user_key e) t < 0) (take i es) ->
  Forall (fun e => 0 <= Slice.compare (user_key e) t) (drop i es) -> i = seek_pos es t.
Proof.
  revert i; induction es as [|e es IH]; intros [|i] Hi H1 H2; simpl in *; try done; try lia.
  - apply Forall_cons in H2 as [H2 _]. by destruct (Z.ltb_spec (Slice.compare (user_key e) t) 0); [lia|].
  - apply Forall_cons in H1 as [H1 ?]. destruct (Z.ltb_spec (Slice.compare (user_key e) t) 0); [|lia].
    f_equal. apply IH; auto; lia.
Qed.

(** ** The contracts *)

(** [rep it es i]: [it] iterates over [es] and stands on its [i]-th entry, or is not
    valid when [i] is the length of [es]. *)
Abbreviation cursor_rep I := (I -> list MemtableEntry -> nat -> Prop).

(** What an iterator shows. *)
Class IteratorView (I : Type) `{It.View I} (rep : cursor_rep I) : Prop := {
  fwd_sorted it es i : rep it es i -> entries_sorted es;
  fwd_le it es i : rep it es i -> (i <= length es)%nat;
  fwd_valid it es i : rep it es i -> It.Valid it = (i <? length es)%nat;
  fwd_key it es i e : rep it es i -> es !! i = Some e -> It.Key it = Some (user_key e);
  fwd_value it es i e : rep it es i -> es !! i = Some e -> It.Value it = Some (value e);
  fwd_seq it es i e : rep it es i -> es !! i = Some e -> It.Seq it = Some (seq e);
  fwd_type it es i e : rep it es i -> es !! i = Some e -> It.Type_ it = Some (type e);
  fwd_status it es i : rep it es i -> It.status it = Status.OK;
}.

(** How it moves, from any state of the shared objects that satisfies [inv]. *)
Class ForwardIterator (St I : Type) `{It.Internal St I} (inv : St -> Prop) (rep : cursor_rep I) : Prop := {
  fwd_view :: IteratorView I rep;
  fwd_first it es i : rep it es i -> runs inv (It.SeekToFirst it) (fun it' => rep it' es 0%nat);
  fwd_seek it es i t : rep it es i -> runs inv (It.Seek t it) (fun it' => rep it' es (seek_pos es t));
  fwd_next it es i : rep it es i -> (i < length es)%nat -> runs inv (It.Next it) (fun it' => rep it' es (S i));
}.

Class BackwardIterator (St I : Type) `{It.Internal St I} (inv : St -> Prop) (rep : cursor_rep I) : Prop := {
  bwd_last it es i : rep it es i -> runs inv (It.SeekToLast it) (fun it' => rep it' es (pred (length es)));
  bwd_prev it es i : rep it es i -> (i < length es)%nat ->
    runs inv (It.Prev it) (fun it' => rep it' es (match i with O => length es | S j => j end));
}.

(** ** Reading through the interface *)

(** The entry an iterator shows. *)
Definition current_entry {I} `{It.View I} (it : I) : option MemtableEntry :=
  k ← It.Key it; s ← It.Seq it; t ← It.Type_ it; v ← It.Value it; Some (mkEntry k s t v).

Lemma current_entry_run {I} `{IteratorView I rep} it es i e : rep it es i -> es !! i = Some e -> current_entry it = Some e.
Proof.
  intros Hr He. rw /current_entry (fwd_key _ _ _ _ Hr He) /= (fwd_seq _ _ _ _ Hr He) /=.
  rw (fwd_type _ _ _ _ Hr He) /= (fwd_value _ _ _ _ Hr He) /=. by destruct e.
Qed.

Section collect.
Context {St I : Type} `{HI : It.Internal St I}.

(** [for (; it->Valid(); it->Next())], reading each entry: what the flush and the
    compaction loops do. *)
Fixpoint collect (fuel : nat) (it : I) : SM St (list MemtableEntry) :=
  match fuel with
  | O => lift None
  | S fuel' =>
      if It.Valid it then
        e ← lift (current_entry it); it' ← It.Next it; es ← collect fuel' it'; mret (e :: es)
      else mret []
  end.

Context (inv : St -> Prop) (rep : cursor_rep I) `{!ForwardIterator St I inv rep}.

Lemma collect_run it es i fuel :
  rep it es i -> (length es - i < fuel)%nat -> runs inv (collect fuel it) (fun l => l = drop i es).
Proof.
  revert it i; induction fuel as [|fuel IH]; intros it i Hr Hf; [lia|]. simpl.
  rw (fwd_valid _ _ _ Hr). destruct (Nat.ltb_spec i (length es)) as [Hi|Hi].
  - destruct (lookup_lt_is_Some_2 es i Hi) as [e He].
    eapply runs_bind_lift; [by eapply current_entry_run|]. eapply runs_bind; [by eapply fwd_next|].
    intros it' Hr'. eapply runs_bind; [eapply (IH it' (S i) Hr'); lia|].
    intros l ->. apply runs_ret. by rw (drop_S _ _ _ He).
  - apply runs_ret. by rw drop_ge.
Qed.
End collect.

(** ** Dynamic dispatch *)

(** A child of the merging iterator is a memtable iterator or a table iterator: a
    call through the base class goes to the one it is. *)
#[global] Instance sum_view {I J} `{It.View I} `{It.View J} : It.View (I + J) := {
  It.Valid it := match it with inl a => It.Valid a | inr b => It.Valid b end;
  It.Key it := match it with inl a => It.Key a | inr b => It.Key b end;
  It.Value it := match it with inl a => It.Value a | inr b => It.Value b end;
  It.Seq it := match it with inl a => It.Seq a | inr b => It.Seq b end;
  It.Type_ it := match it with inl a => It.Type_ a | inr b => It.Type_ b end;
  It.status it := match it with inl a => It.status a | inr b => It.status b end;
}.

(** The move of the alternative at hand. *)
Definition sum_move {St I J} (f : I -> SM St I) (g : J -> SM St J) (it : I + J) : SM St (I + J) :=
  match it with inl a => a ← f a; mret (inl a) | inr b => b ← g b; mret (inr b) end.

#[global] Instance sum_iterator {St I J} `{It.Internal St I} `{It.Internal St J} : It.Internal St (I + J) := {
  It.SeekToFirst := sum_move It.SeekToFirst It.SeekToFirst;
  It.SeekToLast := sum_move It.SeekToLast It.SeekToLast;
  It.Seek t := sum_move (It.Seek t) (It.Seek t);
  It.Next := sum_move It.Next It.Next;
  It.Prev := sum_move It.Prev It.Prev;
}.

Definition sum_rep {I J} (repI : cursor_rep I) (repJ : cursor_rep J) (it : I + J) :
    list MemtableEntry -> nat -> Prop :=
  match it with inl a => repI a | inr b => repJ b end.

#[global] Instance sum_iterator_view {I J} `{HI : It.View I} `{HJ : It.View J} repI repJ
    `{!IteratorView I repI} `{!IteratorView J repJ} : IteratorView (I + J) (sum_rep repI repJ).
Proof.
  split; intros [a|b] es i; simpl; intros;
    solve [eapply (@fwd_sorted I _ repI _); eauto | eapply (@fwd_sorted J _ repJ _); eauto
      | eapply (@fwd_le I _ repI _); eauto | eapply (@fwd_le J _ repJ _); eauto | eapply fwd_valid; eauto
      | eapply fwd_key; eauto | eapply fwd_value; eauto | eapply fwd_seq; eauto | eapply fwd_type; eauto
      | eapply fwd_status; eauto].
Qed.

Lemma sum_move_run {St I J} (inv : St -> Prop) (repI : cursor_rep I) (repJ : cursor_rep J) f g it es j :
  match it with
  | inl a => runs inv (f a) (fun a' => repI a' es j)
  | inr b => runs inv (g b) (fun b' => repJ b' es j)
  end -> runs inv (sum_move f g it) (fun it' => sum_rep repI repJ it' es j).
Proof. destruct it; intros H; (eapply runs_bind; [exact H|]; intros; by apply runs_ret). Qed.

#[global] Instance sum_forward {St I J} `{HI : It.Internal St I} `{HJ : It.Internal St J} inv repI repJ
    `{!ForwardIterator St I inv repI} `{!ForwardIterator St J inv repJ} :
  ForwardIterator St (I + J) inv (sum_rep repI repJ).
Proof.
  split; [apply _|..]; intros it es i; intros; apply sum_move_run; destruct it;
    eauto using fwd_first, fwd_seek, fwd_next.
Qed.

(** ** The reference iterator: a sorted list and a position *)

Definition list_iter : Type := list MemtableEntry * nat.

#[global] Instance list_view : It.View list_iter := {
  It.Valid it := (it.2 <? length it.1)%nat;
  It.Key it := user_key <$> it.1 !! it.2;
  It.Value it := value <$> it.1 !! it.2;
  It.Seq it := seq <$> it.1 !! it.2;
  It.Type_ it := type <$> it.1 !! it.2;
  It.status _ := Status.OK;
}.

#[global] Instance list_iterator {St} : It.Internal St list_iter := {
  It.SeekToFirst it := mret (it.1, O);
  It.SeekToLast it := mret (it.1, pred (length it.1));
  It.Seek t it := mret (it.1, seek_pos it.1 t);
  It.Next it := if (it.2 <? length it.1)%nat then mret (it.1, S it.2) else lift None;
  It.Prev it := if (it.2 <? length it.1)%nat
                then mret (it.1, match it.2 with O => length it.1 | S j => j end) else lift None;
}.

Definition list_rep (it : list_iter) (es : list MemtableEntry) (i : nat) : Prop :=
  it = (es, i) /\ entries_sorted es /\ (i <= length es)%nat.

#[global] Instance list_iterator_view : IteratorView list_iter list_rep.
Proof. split; intros it es i; try (by intros (-> & ? & ?)); intros e (-> & _) He; by rw /= He. Qed.

#[global] Instance list_forward {St} (inv : St -> Prop) : ForwardIterator St list_iter inv list_rep.
Proof.
  split; [apply _|..]; intros it es i; simpl.
  - intros (-> & ? & ?). apply runs_ret. split_and!; auto. simpl. lia.
  - intros t (-> & ? & ?). apply runs_ret. split_and!; auto. apply seek_pos_le.
  - intros (-> & ? & ?) Hi. simpl. rw (proj2 (Nat.ltb_lt _ _)) //. apply runs_ret. by split_and!.
Qed.

#[global] Instance list_backward {St} (inv : St -> Prop) : BackwardIterator St list_iter inv list_rep.
Proof.
  split; intros it es i (-> & ? & ?); simpl.
  - apply runs_ret. split_and!; auto. lia.
  - intros Hi. rw (proj2 (Nat.ltb_lt _ _)) //. apply runs_ret. split_and!; auto. destruct i; lia.
Qed.
