(* ===== verification/Memtable.v ===== *)
(** * Memtable: the in-memory table of recent writes

    Models [src/memtable.h] and [src/memtable.cc].  The state is the skip list and
    the two atomic counters.  [Get] returns the boolean result with the two output
    parameters, [*value] ([None] when the caller passes [nullptr]) and [*s].  The
    iterator is the list it reads and [node_] of the skip-list iterator it wraps. *)

From S2P Require Import Prelude Status Slice Format Entry Iterator SkipList.

(** [sizeof] of [MemtableEntry] and of a pointer on LP64 with libstdc++: two 32-byte
    strings, an 8-byte number, a byte and its padding. *)
Definition sizeof_MemtableEntry : Z := 80.
Definition sizeof_ptr : Z := 8.

(** [MemtableEntry()]: the key of [head_]. *)
Definition default_entry : MemtableEntry := mkEntry [] 0 kTypeValue [].

Record Memtable := mkMemtable {
  table_ : @SkipList MemtableEntry;
  memory_usage_ : Z;
  count_ : Z;
}.

Definition NewMemtable : Memtable := mkMemtable (New default_entry) 0 0.

Definition entry_usage (e : MemtableEntry) : Z :=
  sizeof_MemtableEntry + size_of (user_key e) + size_of (value e) + sizeof_ptr * 8.

Definition ApproximateMemoryUsage (m : Memtable) : Z := memory_usage_ m.
Definition Count (m : Memtable) : Z := count_ m.

(** [Memtable::Get]. *)
Definition Get (m : Memtable) (key : bytes) (s : SequenceNumber) (value_out : option bytes) (st : Status.t) :
    option (bool * option bytes * Status.t) :=
  let probe := mkEntry key s kTypeValue [] in
  node ← Iter_Seek MemtableKeyComparator (table_ m) probe;
  if Iter_Valid node then
    entry ← Iter_key (table_ m) node;
    Some (if Slice.eqb (user_key entry) (user_key probe) then
            if type entry =? kTypeValue then (true, (fun _ => value entry) <$> value_out, Status.OK)
            else if type entry =? kTypeDeletion then (true, value_out, Status.NotFound [])
            else (false, value_out, st)
          else (false, value_out, st))
  else Some (false, value_out, st).

Section add.
Context (draw : nat -> Z).

(** [Memtable::Add]. *)
Definition Add (m : Memtable) (s : SequenceNumber) (t : ValueType) (key val : bytes) : option Memtable :=
  let entry := mkEntry key s t val in
  table ← Insert MemtableKeyComparator draw (table_ m) entry;
  Some (mkMemtable table (u64 (memory_usage_ m + entry_usage entry)) (u64 (count_ m + 1))).

(** The writes of a log, applied in order. *)
Fixpoint AddAll (m : Memtable) (es : list MemtableEntry) : option Memtable :=
  match es with
  | [] => Some m
  | e :: es' => m ← Add m (seq e) (type e) (user_key e) (value e); AddAll m es'
  end.
End add.

(** ** [MemTableIterator] *)

Record MemTableIterator := mkMemIter {
  list_ : @SkipList MemtableEntry;
  node_ : option nat;
}.

Definition NewIterator (m : Memtable) : MemTableIterator := mkMemIter (table_ m) None.

Definition mem_Valid (it : MemTableIterator) : bool := Iter_Valid (node_ it).
Definition mem_SeekToFirst (it : MemTableIterator) : option MemTableIterator :=
  mkMemIter (list_ it) <$> Iter_SeekToFirst (list_ it).
Definition mem_SeekToLast (it : MemTableIterator) : option MemTableIterator :=
  mkMemIter (list_ it) <$> Iter_SeekToLast (list_ it).
Definition mem_Seek (target : bytes) (it : MemTableIterator) : option MemTableIterator :=
  let probe := mkEntry target kMaxSequenceNumber kTypeValue [] in
  mkMemIter (list_ it) <$> Iter_Seek MemtableKeyComparator (list_ it) probe.
Definition mem_Next (it : MemTableIterator) : option MemTableIterator :=
  mkMemIter (list_ it) <$> Iter_Next (list_ it) (node_ it).
Definition mem_Prev (it : MemTableIterator) : option MemTableIterator :=
  mkMemIter (list_ it) <$> Iter_Prev MemtableKeyComparator (list_ it) (node_ it).
Definition mem_Entry (it : MemTableIterator) : option MemtableEntry := Iter_key (list_ it) (node_ it).
Definition mem_Key (it : MemTableIterator) : option bytes := user_key <$> mem_Entry it.
Definition mem_Value (it : MemTableIterator) : option bytes := value <$> mem_Entry it.
Definition mem_Seq (it : MemTableIterator) : option SequenceNumber := seq <$> mem_Entry it.
Definition mem_Type (it : MemTableIterator) : option ValueType := type <$> mem_Entry it.
Definition mem_status (it : MemTableIterator) : Status.t := Status.OK.

#[global] Instance memtable_view : It.View MemTableIterator := {
  It.Valid := mem_Valid;
  It.Key := mem_Key;
  It.Value := mem_Value;
  It.Seq := mem_Seq;
  It.Type_ := mem_Type;
  It.status := mem_status;
}.

(** Its moves only follow links of the skip list. *)
#[global] Instance memtable_iterator {St} : It.Internal St MemTableIterator := {
  It.SeekToFirst it := lift (mem_SeekToFirst it);
  It.SeekToLast it := lift (mem_SeekToLast it);
  It.Seek t it := lift (mem_Seek t it);
  It.Next it := lift (mem_Next it);
  It.Prev it := lift (mem_Prev it);
}.

(** ** Invariant *)

Definition mem_entries (m : Memtable) : list MemtableEntry := contents (table_ m).

(** The bytes charged for a list of entries. *)
Definition usage_of (es : list MemtableEntry) : Z := foldr (fun e z => entry_usage e + z) 0 es.

(** The table is well formed and the counters count its entries, modulo [2^64]. *)
Record mem_inv (m : Memtable) : Prop := {
  mi_table : Wf MemtableKeyComparator (table_ m);
  mi_usage : memory_usage_ m = u64 (usage_of (mem_entries m));
  mi_count : count_ m = u64 (Z.of_nat (length (mem_entries m)));
}.

Lemma NewMemtable_inv : mem_inv NewMemtable /\ mem_entries NewMemtable = [].
Proof.
  destruct (New_Wf MemtableKeyComparator default_entry) as [W C].
  split; [|exact C]. split; [exact W|..]; rw /mem_entries; cbn [table_ NewMemtable]; rw C; vm_compute; done.
Qed.

Lemma mem_sorted m : mem_inv m -> entries_sorted (mem_entries m).
Proof. intros [W _ _]. by apply contents_sorted. Qed.

#[global] Instance usage_of_perm : Proper (Permutation ==> eq) usage_of.
Proof.
  intros a b. induction 1 as [| x a b _ IH | x y a | a b c _ IH1 _ IH2]; simpl; try lia; congruence.
Qed.

Lemma Add_run draw m s t k v :
  mem_inv m -> Forall (fun e => ~ (user_key e = k /\ seq e = s)) (mem_entries m) ->
  exists m', Add draw m s t k v = Some m' /\ mem_inv m' /\
    mem_entries m' ≡ₚ mkEntry k s t v :: mem_entries m.
Proof.
  intros [W U C] Hf.
  destruct (Insert_contents MemtableKeyComparator draw (table_ m) (mkEntry k s t v) W)
    as (l' & a & b & E & W' & Eo & En).
  { eapply Forall_impl; [exact Hf|]. intros e Hne [Hk Hs]%CompareInternalKey_eq. simpl in *. naive_solver. }
  assert (Hp : contents l' ≡ₚ mkEntry k s t v :: mem_entries m).
  { rw En /mem_entries Eo. by rewrite -> Permutation_middle. }
  eexists. rw /Add E /=. split; [done|]. split; [|done]. split; rw /mem_entries /=; [done|..].
  - rewrite -> Hp. rw /= U /u64. rw Zplus_mod_idemp_l. f_equal. lia.
  - rewrite -> Hp. rw /= C /u64. rw Zplus_mod_idemp_l. f_equal. lia.
Qed.

Lemma Get_run m k s v st :
  mem_inv m ->
  Get m k s v st = Some
    (match newest (mem_entries m) k s with
     | Some e => if type e =? kTypeValue then (true, (fun _ => value e) <$> v, Status.OK)
                 else if type e =? kTypeDeletion then (true, v, Status.NotFound [])
                 else (false, v, st)
     | None => (false, v, st)
     end).
Proof.
  intros Hi. pose proof (mem_sorted m Hi) as Hs. destruct Hi as [W _ _].
  destruct (Seek_run MemtableKeyComparator (table_ m) (mkEntry k s kTypeValue []) W) as (i & E & Hi & H1 & H2).
  rw /Get E. cbn [mbind option_bind].
  rw -{1}(take_drop i (mem_entries m)) newest_at_split //; [by rw take_drop|].
  rw /mem_entries. destruct (nodes (table_ m) !! i) as [x|] eqn:Ex.
  - destruct (key_run MemtableKeyComparator (table_ m) i x W Ex) as [-> [e He]].
    rw He (drop_S _ _ _ He) /=. by destruct (Slice.eqb (user_key e) k).
  - destruct W as [h W]. apply lookup_ge_None in Ex. rw drop_ge //. rw /contents (keys_of_length _ _ _ _ W) //.
Qed.

(** ** A memtable is the log of its writes *)

(** Each write has a larger sequence number than the ones before it. *)
Abbreviation log_ordered := (StronglySorted (fun a b : MemtableEntry => seq a < seq b)).

Lemma log_ordered_unique es : log_ordered es -> seqs_unique es.
Proof.
  intros Hs a b Ha Hb [_ Hseq]%CompareInternalKey_eq.
  apply list_elem_of_lookup_1 in Ha as [i Hi], Hb as [j Hj].
  destruct (Nat.lt_trichotomy i j) as [Hlt|[->|Hlt]]; [|congruence|].
  - pose proof (StronglySorted_lookup_lt _ _ _ _ _ _ Hs Hi Hj Hlt) as H. simpl in H. lia.
  - pose proof (StronglySorted_lookup_lt _ _ _ _ _ _ Hs Hj Hi Hlt) as H. simpl in H. lia.
Qed.

(** The last write of [k] with a sequence number of at most [s]. *)
Definition last_write (log : list MemtableEntry) (k : bytes) (s : SequenceNumber) : option MemtableEntry :=
  last (List.filter (sees k s) log).

Lemma last_write_newest log k s : log_ordered log -> newest log k s = last_write log k s.
Proof.
  induction 1 as [|e log Hs IH He]; [done|]. rw /last_write /=. rw IH /last_write.
  destruct (sees k s e) eqn:E; [|done]. rw last_cons.
  destruct (last (List.filter (sees k s) log)) as [x|] eqn:El; [|done].
  apply last_Some_elem_of, list_elem_of_In, filter_In in El as [Hx _].
  rewrite -> Forall_forall in He. rw (proj2 (Z.ltb_lt _ _)) //. by apply He, list_elem_of_In.
Qed.

Lemma AddAll_run draw m log log' :
  mem_inv m -> mem_entries m ≡ₚ log -> log_ordered (log ++ log') ->
  exists m', AddAll draw m log' = Some m' /\ mem_inv m' /\ mem_entries m' ≡ₚ log ++ log'.
Proof.
  revert m log; induction log' as [|e log' IH]; intros m log Hm Hp Ho; simpl.
  - exists m. by rw app_nil_r.
  - destruct (Add_run draw m (seq e) (type e) (user_key e) (value e) Hm) as (m1 & -> & H1 & P1).
    + rewrite -> Hp. apply Forall_forall. intros x Hx [_ Hseq].
      apply StronglySorted_app in Ho as (Ho & _). specialize (Ho x e Hx). set_solver by lia.
    + simpl. destruct e as [k s t v]; simpl in *.
      replace (log ++ mkEntry k s t v :: log') with ((log ++ [mkEntry k s t v]) ++ log') in * by by rw -app_assoc.
      apply IH; auto. rewrite -> P1, Hp. by rewrite -> Permutation_cons_append.
Qed.

(** ** The iterator keeps its contract *)

Definition mem_rep (it : MemTableIterator) (es : list MemtableEntry) (i : nat) : Prop :=
  Wf MemtableKeyComparator (list_ it) /\ contents (list_ it) = es /\
  node_ it = nodes (list_ it) !! i /\ (i <= length es)%nat /\
  Forall (fun e => seq e <= kMaxSequenceNumber) es.

Lemma nodes_length l : Wf MemtableKeyComparator l -> length (nodes l) = length (contents l).
Proof. intros [h W]. by rw /contents (keys_of_length _ _ _ _ W). Qed.

Lemma mem_rep_entry it es i e : mem_rep it es i -> es !! i = Some e -> mem_Entry it = Some e.
Proof.
  intros (W & <- & Hn & _ & _) He. rw /mem_Entry Hn.
  destruct (nodes (list_ it) !! i) as [x|] eqn:Ex.
  - by destruct (key_run _ _ _ _ W Ex) as [-> _].
  - apply lookup_ge_None in Ex. apply lookup_lt_Some in He. rw nodes_length // in Ex. lia.
Qed.

Lemma mem_rep_node it es i : mem_rep it es i -> (i < length es)%nat ->
  exists x, node_ it = Some x /\ nodes (list_ it) !! i = Some x.
Proof.
  intros (W & <- & -> & _ & _) Hi. rw -nodes_length // in Hi. apply lookup_lt_is_Some in Hi as [x Hx]. eauto.
Qed.

#[global] Instance memtable_iterator_view : IteratorView MemTableIterator mem_rep.
Proof.
  split; intros it es i.
  - intros (W & <- & _). by apply contents_sorted.
  - by intros (_ & _ & _ & ? & _).
  - intros Hr. simpl. rw /mem_Valid. destruct (Nat.ltb_spec i (length es)) as [Hi|Hi].
    + by destruct (mem_rep_node _ _ _ Hr Hi) as (x & -> & _).
    + destruct Hr as (W & <- & -> & _). rw lookup_ge_None_2 //. by rw nodes_length.
  - intros e Hr He. by rw /= /mem_Key (mem_rep_entry _ _ _ _ Hr He).
  - intros e Hr He. by rw /= /mem_Value (mem_rep_entry _ _ _ _ Hr He).
  - intros e Hr He. by rw /= /mem_Seq (mem_rep_entry _ _ _ _ Hr He).
  - intros e Hr He. by rw /= /mem_Type (mem_rep_entry _ _ _ _ Hr He).
  - done.
Qed.

#[global] Instance memtable_forward {St} (inv : St -> Prop) : ForwardIterator St MemTableIterator inv mem_rep.
Proof.
  split; [apply _|..]; intros it es i.
  - intros (W & <- & _ & _ & Hk). eapply runs_lift; [by rw /mem_SeekToFirst (SeekToFirst_run _ _ W)|].
    split_and!; auto. lia.
  - intros t (W & <- & _ & _ & Hk).
    destruct (Seek_run _ _ (mkEntry t kMaxSequenceNumber kTypeValue []) W) as (j & E & Hj & H1 & H2).
    eapply runs_lift; [by rw /mem_Seek E|].
    assert (j = seek_pos (contents (list_ it)) t) as <-; [|by split_and!].
    apply seek_pos_unique; [done|..].
    + rewrite -> Forall_forall in H1 |- *. intros e He. specialize (H1 e He).
      apply CompareInternalKey_lt in H1 as [?|[_ H1]]; [done|]. exfalso.
      apply (Z.lt_irrefl kMaxSequenceNumber), (Z.lt_le_trans _ _ _ H1).
      rewrite -> Forall_forall in Hk. by eapply Hk, subseteq_take.
    + eapply Forall_impl; [exact H2|]. intros e He. apply Z.nlt_ge. intros Hlt.
      apply Z.le_ngt in He. apply He, CompareInternalKey_lt. by left.
  - intros Hr Hi. destruct (mem_rep_node _ _ _ Hr Hi) as (x & Ex & Hx). destruct Hr as (W & <- & _ & _ & Hk).
    eapply runs_lift; [by rw /mem_Next Ex (Next_run _ _ _ _ W Hx)|]. by split_and!.
Qed.

#[global] Instance memtable_backward {St} (inv : St -> Prop) : BackwardIterator St MemTableIterator inv mem_rep.
Proof.
  split; intros it es i.
  - intros (W & <- & _ & _ & Hk). eapply runs_lift; [by rw /mem_SeekToLast (SeekToLast_run _ _ W)|]. split_and!; auto; [|lia]. by rw /= last_lookup nodes_length.
  - intros Hr Hi. destruct (mem_rep_node _ _ _ Hr Hi) as (x & Ex & Hx). destruct Hr as (W & <- & _ & _ & Hk).
    eapply runs_lift; [by rw /mem_Prev Ex (Prev_run _ _ _ _ W Hx)|].
    destruct i as [|j]; split_and!; auto; [|lia]. by rw /= lookup_ge_None_2 // nodes_length.
Qed.

(** ** The claims *)

(** C8: applying any log of writes with increasing sequence numbers to an empty
    memtable succeeds, and the memtable then is that log: it holds exactly its
    entries, its counters are the number of writes and the bytes charged for them
    (modulo [2^64]), and a read of any key at any sequence number returns what the
    last write of the key up to that number left: its value, [NotFound] for a
    tombstone, or [false] when there is none. *)
Theorem memtable_is_its_log (draw : nat -> Z) (log : list MemtableEntry) :
  log_ordered log -> Forall (fun e => type e = kTypeValue \/ type e = kTypeDeletion) log ->
  exists m, AddAll draw NewMemtable log = Some m /\
    mem_entries m ≡ₚ log /\ entries_sorted (mem_entries m) /\
    Count m = u64 (Z.of_nat (length log)) /\ ApproximateMemoryUsage m = u64 (usage_of log) /\
    forall k s v st, Get m k s v st = Some
      match last_write log k s with
      | None => (false, v, st)
      | Some e => if type e =? kTypeValue then (true, (fun _ => value e) <$> v, Status.OK)
                  else (true, v, Status.NotFound [])
      end.
Proof.
  intros Ho Ht. destruct NewMemtable_inv as [H0 E0].
  destruct (AddAll_run draw NewMemtable [] log H0) as (m & E & Hm & Hp); [by rw E0|done|].
  simpl in Hp. exists m. split_and!; auto.
  - by apply mem_sorted.
  - rw /Count (mi_count _ Hm). by rewrite -> Hp.
  - rw /ApproximateMemoryUsage (mi_usage _ Hm). by rewrite -> Hp.
  - intros k s v st. rw Get_run // -last_write_newest //.
    rw (newest_perm _ log) //; [apply entries_sorted_unique, mem_sorted; done|].
    destruct (newest log k s) as [e|] eqn:En; [|done].
    apply newest_Some in En as (He & _). rewrite -> Forall_forall in Ht.
    by destruct (Ht e He) as [-> | ->].
Qed.

(** Two versions of a key and a tombstone. *)
Definition sample_log : list MemtableEntry :=
  [mkEntry (str "a") 1 kTypeValue (str "x"); mkEntry (str "b") 2 kTypeValue (str "y");
   mkEntry (str "a") 3 kTypeDeletion []; mkEntry (str "a") 5 kTypeValue (str "z")].

Lemma memtable_is_its_log_witness :
  exists m, AddAll (fun _ => 1) NewMemtable sample_log = Some m /\ Count m = 4 /\
    Get m (str "a") 4 (Some []) Status.OK = Some (true, Some [], Status.NotFound []) /\
    Get m (str "a") 2 (Some []) Status.OK = Some (true, Some (str "x"), Status.OK).
Proof.
  destruct (memtable_is_its_log (fun _ => 1) sample_log) as (m & E & _ & _ & C & _ & G).
  - repeat constructor; simpl; lia.
  - repeat (apply Forall_cons; split; [by (left + right)|]). constructor.
  - exists m. rw E C !G. split_and!; done.
Defined.

(** C22: the memtable iterator keeps the iterator contract in both directions, over
    exactly the entries of the memtable in internal-key order: in particular a scan
    from [SeekToFirst] returns all of them in that order, once each. *)
Theorem memtable_iterator_contract (m : Memtable) :
  mem_inv m -> Forall (fun e => seq e <= kMaxSequenceNumber) (mem_entries m) ->
  ForwardIterator unit MemTableIterator pure mem_rep /\ BackwardIterator unit MemTableIterator pure mem_rep /\
  mem_rep (NewIterator m) (mem_entries m) (length (mem_entries m)) /\
  exists it, mem_SeekToFirst (NewIterator m) = Some it /\
    collect (S (length (mem_entries m))) it tt = Some (mem_entries m, tt).
Proof.
  intros Hm Hk. split; [apply _|]. split; [apply _|].
  assert (Hr : mem_rep (NewIterator m) (mem_entries m) (length (mem_entries m))).
  { split_and!; auto; [apply Hm|]. rw /= lookup_ge_None_2 //. rw nodes_length //. apply Hm. }
  split; [done|]. destruct (runs_pure _ _ (fwd_first _ _ _ Hr)) as (it & E & Hr'). exists it. split.
  - simpl in E. rw /lift in E. destruct (mem_SeekToFirst _); [|done]. by injection E as ->.
  - destruct (runs_pure _ _ (collect_run pure mem_rep it (mem_entries m) 0 (S (length (mem_entries m))) Hr' ltac:(lia)))
      as (l & El & ->). exact El.
Qed.

Lemma memtable_iterator_contract_witness :
  exists m, AddAll (fun _ => 1) NewMemtable sample_log = Some m /\
    exists it, mem_SeekToFirst (NewIterator m) = Some it /\
      collect (S (length (mem_entries m))) it tt = Some (mem_entries m, tt).
Proof.
  destruct NewMemtable_inv as [H0 E0].
  destruct (AddAll_run (fun _ => 1) NewMemtable [] sample_log H0) as (m & E & Hm & Hp); [by rw E0|repeat constructor; simpl; lia|].
  exists m. split; [done|]. apply (memtable_iterator_contract m Hm).
  rewrite -> Hp. by repeat constructor.
Defined.
