(* ===== verification/MergingIterator.v ===== *)
(** * MergingIterator: several sorted sources as one

    Models [src/merging_iterator.h] and [src/merging_iterator.cc] over any type of
    children with the iterator interface.  [current_] points into [children_]: it is
    an index.  The forward contract of the children gives the forward contract of
    the merged iterator. *)

From S2P Require Import Prelude Status Slice Format Entry Iterator.

Section merging.
Context {St I : Type} `{HI : It.Internal St I}.

Definition CompareIterators (a b : I) : option Z :=
  ka ← It.Key a; kb ← It.Key b;
  let r := Slice.compare ka kb in
  if negb (r =? 0) then Some r else
  sa ← It.Seq a; sb ← It.Seq b;
  if sa >? sb then Some (-1) else
  if sa <? sb then Some 1 else
  ta ← It.Type_ a; tb ← It.Type_ b;
  if ta >? tb then Some (-1) else
  if ta <? tb then Some 1 else Some 0.

Record MergingIterator := mkMerging {
  children_ : list I;
  current_ : option nat;
}.

Definition NewMerging (children : list I) : MergingIterator := mkMerging children None.

(** The child [current_] points to. *)
Definition current (m : MergingIterator) : option I := j ← current_ m; children_ m !! j.

Definition merging_Valid (m : MergingIterator) : bool :=
  match current m with Some c => It.Valid c | None => false end.

(** The loop of [FindSmallest] and [FindLargest]: [better r] tells from the comparison
    with the best child so far whether the child at hand replaces it. *)
Fixpoint find_best (better : Z -> bool) (cs : list I) (j : nat) (best : option (nat * I)) :
    option (option (nat * I)) :=
  match cs with
  | [] => Some best
  | c :: cs' =>
      if It.Valid c then
        match best with
        | None => find_best better cs' (S j) (Some (j, c))
        | Some (_, b) =>
            r ← CompareIterators c b;
            find_best better cs' (S j) (if better r then Some (j, c) else best)
        end
      else find_best better cs' (S j) best
  end.

Definition FindSmallest (m : MergingIterator) : option MergingIterator :=
  best ← find_best (fun r => r <? 0) (children_ m) O None;
  Some (mkMerging (children_ m) (fst <$> best)).

Definition FindLargest (m : MergingIterator) : option MergingIterator :=
  best ← find_best (fun r => r >? 0) (children_ m) O None;
  Some (mkMerging (children_ m) (fst <$> best)).

Definition merging_SeekToFirst (m : MergingIterator) : SM St MergingIterator :=
  cs ← mapM It.SeekToFirst (children_ m);
  lift (FindSmallest (mkMerging cs (current_ m))).

Definition merging_SeekToLast (m : MergingIterator) : SM St MergingIterator :=
  cs ← mapM It.SeekToLast (children_ m);
  lift (FindLargest (mkMerging cs (current_ m))).

Definition merging_Seek (target : bytes) (m : MergingIterator) : SM St MergingIterator :=
  cs ← mapM (It.Seek target) (children_ m);
  lift (FindSmallest (mkMerging cs (current_ m))).

(** [assert(Valid()); current_->move()]: the children with the current one moved. *)
Definition move_current (move : I -> SM St I) (m : MergingIterator) : SM St MergingIterator :=
  if merging_Valid m then
    j ← lift (current_ m); c ← lift (children_ m !! j); c' ← move c;
    mret (mkMerging (<[j := c']> (children_ m)) (current_ m))
  else lift None.

Definition merging_Next (m : MergingIterator) : SM St MergingIterator :=
  m ← move_current It.Next m; lift (FindSmallest m).

Definition merging_Prev (m : MergingIterator) : SM St MergingIterator :=
  m ← move_current It.Prev m; lift (FindLargest m).

Definition merging_Key (m : MergingIterator) : option bytes :=
  if merging_Valid m then c ← current m; It.Key c else None.
Definition merging_Value (m : MergingIterator) : option bytes :=
  if merging_Valid m then c ← current m; It.Value c else None.
Definition merging_Seq (m : MergingIterator) : option SequenceNumber :=
  if merging_Valid m then c ← current m; It.Seq c else None.
Definition merging_Type (m : MergingIterator) : option ValueType :=
  if merging_Valid m then c ← current m; It.Type_ c else None.

(** The first error among the children. *)
Fixpoint first_error (cs : list I) : Status.t :=
  match cs with
  | [] => Status.OK
  | c :: cs' => if Status.ok (It.status c) then first_error cs' else It.status c
  end.

Definition merging_status (m : MergingIterator) : Status.t := first_error (children_ m).

#[global] Instance merging_view : It.View MergingIterator := {
  It.Valid := merging_Valid;
  It.Key := merging_Key;
  It.Value := merging_Value;
  It.Seq := merging_Seq;
  It.Type_ := merging_Type;
  It.status := merging_status;
}.

#[global] Instance merging_iterator : It.Internal St MergingIterator := {
  It.SeekToFirst := merging_SeekToFirst;
  It.SeekToLast := merging_SeekToLast;
  It.Seek := merging_Seek;
  It.Next := merging_Next;
  It.Prev := merging_Prev;
}.

(** [NewMergingIterator]: [nullptr] when there is no child. *)
Definition NewMergingIterator (children : list I) : option MergingIterator :=
  match children with [] => None | _ => Some (NewMerging children) end.
End merging.

Arguments MergingIterator I : clear implicits.

(** ** The forward contract *)

Section merging_proofs.
Context {St I : Type} `{HI : It.Internal St I}.
Context (inv : St -> Prop) (rep : cursor_rep I) `{!ForwardIterator St I inv rep}.

(** The entries of a child and its position. *)
Abbreviation cursor := (list MemtableEntry * nat)%type.

Definition child_at (c : I) (st : cursor) : Prop := rep c st.1 st.2.

(** The entries before a child's position have been passed, the others are to come. *)
Definition covers (es : list MemtableEntry) (i : nat) (st : cursor) : Prop :=
  (forall e, e ∈ take st.2 st.1 -> e ∈ take i es) /\ (forall e, e ∈ drop st.2 st.1 -> e ∈ drop i es).

Record merging_at (cs : list I) (sts : list cursor) (es : list MemtableEntry) (i : nat) : Prop := {
  ma_children : Forall2 child_at cs sts;
  ma_sorted : entries_sorted es;
  ma_perm : es ≡ₚ concat (sts.*1);
  ma_covers : Forall (covers es i) sts;
  ma_le : (i <= length es)%nat;
}.

Definition merging_rep (m : MergingIterator I) (es : list MemtableEntry) (i : nat) : Prop :=
  exists sts, merging_at (children_ m) sts es i /\
    match es !! i with
    | Some e => exists j st, current_ m = Some j /\ sts !! j = Some st /\ st.1 !! st.2 = Some e
    | None => merging_Valid m = false
    end.

Lemma entries_sorted_NoDup es : entries_sorted es -> NoDup es.
Proof.
  induction 1 as [|e es Hs IH He]; constructor; [|done]. intros Hin.
  rewrite -> Forall_forall in He. by apply (irreflexivity entry_lt e), He.
Qed.

Lemma CompareIterators_run a b sa sb ea eb :
  child_at a sa -> child_at b sb -> sa.1 !! sa.2 = Some ea -> sb.1 !! sb.2 = Some eb ->
  exists r, CompareIterators a b = Some r /\
    (r <= 0 -> MemtableKeyComparator ea eb <= 0) /\ (0 <= r -> 0 <= MemtableKeyComparator ea eb).
Proof.
  intros Ha Hb Ea Eb. rw /CompareIterators.
  rw (fwd_key _ _ _ _ Ha Ea) /= (fwd_key _ _ _ _ Hb Eb) /=.
  rw (fwd_seq _ _ _ _ Ha Ea) (fwd_seq _ _ _ _ Hb Eb) (fwd_type _ _ _ _ Ha Ea) (fwd_type _ _ _ _ Hb Eb) /=.
  rw /MemtableKeyComparator /CompareInternalKey.
  destruct (Slice.compare (user_key ea) (user_key eb) =? 0) eqn:E; simpl; [|eexists; split; [done|]; lia].
  rw !Z.gtb_ltb. repeat case_bool; eexists; (split; [done|]); lia.
Qed.

(** The child [find_best] returns shows a smallest entry; there is none only if no
    child is valid. *)
Definition best_of (cs : list I) (sts : list cursor) (best : option (nat * I)) : Prop :=
  match best with
  | None => Forall (fun st : cursor => st.1 !! st.2 = None) sts
  | Some (j, c) => exists st e, cs !! j = Some c /\ sts !! j = Some st /\ st.1 !! st.2 = Some e /\
      Forall (fun st' : cursor => forall e', st'.1 !! st'.2 = Some e' -> MemtableKeyComparator e e' <= 0) sts
  end.

Lemma best_of_snoc_skip cs sts best c st :
  length cs = length sts -> best_of cs sts best -> st.1 !! st.2 = None -> best_of (cs ++ [c]) (sts ++ [st]) best.
Proof.
  intros Hl Hb Hn. destruct best as [[j b]|]; simpl in *.
  - destruct Hb as (sb & e & H1 & H2 & H3 & H4). exists sb, e. split_and!; auto.
    + by apply lookup_app_l_Some.
    + by apply lookup_app_l_Some.
    + apply Forall_app; split; [done|]. constructor; [|constructor]. intros e' He'. congruence.
  - apply Forall_app; split; [done|]. by constructor.
Qed.


Lemma best_of_first cs sts c st e :
  length cs = length sts -> best_of cs sts None -> st.1 !! st.2 = Some e ->
  best_of (cs ++ [c]) (sts ++ [st]) (Some (length cs, c)).
Proof.
  intros Hl Hb He. exists st, e. split_and!; auto.
  - by rw list_lookup_middle.
  - by rw Hl list_lookup_middle.
  - apply Forall_app; split.
    + eapply Forall_impl; [exact Hb|]. intros st' E e' E'. congruence.
    + constructor; [|constructor]. intros e' E'. assert (e' = e) as -> by congruence. by rw cmp_refl.
Qed.

Lemma best_of_next cs sts c st e j b sb eb r :
  length cs = length sts -> best_of cs sts (Some (j, b)) -> sts !! j = Some sb -> sb.1 !! sb.2 = Some eb ->
  st.1 !! st.2 = Some e ->
  (r < 0 -> MemtableKeyComparator e eb <= 0) -> (0 <= r -> 0 <= MemtableKeyComparator e eb) ->
  best_of (cs ++ [c]) (sts ++ [st]) (if r <? 0 then Some (length cs, c) else Some (j, b)).
Proof.
  intros Hl (sb' & eb' & H1 & H2 & H3 & H4) Hsb Heb He Hlt Hge.
  assert (sb' = sb) as -> by congruence. assert (eb' = eb) as -> by congruence.
  destruct (Z.ltb_spec r 0) as [Hr|Hr].
  - exists st, e. split_and!; auto; [by rw list_lookup_middle | by rw Hl list_lookup_middle |].
    apply Forall_app; split.
    + eapply Forall_impl; [exact H4|]. intros st' Hst e' E'. specialize (Hst e' E').
      by apply (cmp_le_trans _ e eb e'); auto.
    + constructor; [|constructor]. intros e' E'. assert (e' = e) as -> by congruence. by rw cmp_refl.
  - exists sb, eb. split_and!; auto; [by apply lookup_app_l_Some..|].
    apply Forall_app; split; [done|]. constructor; [|constructor]. intros e' E'.
    assert (e' = e) as -> by congruence. apply cmp_ge_le; auto. apply _.
Qed.

Lemma find_best_run cs2 sts2 cs1 sts1 best :
  Forall2 child_at cs1 sts1 -> Forall2 child_at cs2 sts2 -> best_of cs1 sts1 best ->
  exists best', find_best (fun r => r <? 0) cs2 (length cs1) best = Some best' /\
    best_of (cs1 ++ cs2) (sts1 ++ sts2) best'.
Proof.
  intros H1 H2. revert cs1 sts1 best H1.
  induction H2 as [|c st cs2 sts2 Hc H2 IH]; intros cs1 sts1 best H1 Hb; simpl.
  { exists best. by rw !app_nil_r. }
  pose proof (Forall2_length _ _ _ H1) as Hl.
  assert (Hgo : forall best1, best_of (cs1 ++ [c]) (sts1 ++ [st]) best1 ->
    exists best', find_best (fun r => r <? 0) cs2 (S (length cs1)) best1 = Some best' /\
      best_of (cs1 ++ c :: cs2) (sts1 ++ st :: sts2) best').
  { intros best1 Hb1. destruct (IH (cs1 ++ [c]) (sts1 ++ [st]) best1) as (best' & E & Hb'); auto.
    - apply Forall2_app; [done|]. by constructor.
    - exists best'. rw length_app Nat.add_1_r in E. by rw -!app_assoc in Hb'. }
  rw (fwd_valid _ _ _ Hc). destruct (Nat.ltb_spec st.2 (length st.1)) as [Hi|Hi].
  - destruct (lookup_lt_is_Some_2 st.1 st.2 Hi) as [e He].
    destruct best as [[j b]|]; [|by apply Hgo, (best_of_first _ _ _ _ e)].
    pose proof Hb as (sb & eb & Hj & Hsb & Heb & _).
    destruct (CompareIterators_run c b st sb e eb) as (r & -> & Hr1 & Hr2); auto.
    { by eapply Forall2_lookup_lr. }
    simpl. apply Hgo. eapply best_of_next; eauto. intros Hr. apply Hr1. lia.
  - apply Hgo, best_of_snoc_skip; auto. by apply lookup_ge_None_2.
Qed.

(** ** Where the merged iterator stands *)

Lemma concat_covers (es : list MemtableEntry) (sts : list cursor) e :
  es ≡ₚ concat (sts.*1) -> e ∈ es -> exists j st, sts !! j = Some st /\ e ∈ st.1.
Proof.
  intros Hp He. rewrite -> Hp in He. apply list_elem_of_In, in_concat in He as (ces & Hc & He).
  apply list_elem_of_In, list_elem_of_fmap in Hc as (st & -> & Hst).
  apply list_elem_of_lookup_1 in Hst as [j Hj]. exists j, st. split; [done|]. by apply list_elem_of_In.
Qed.

(** A child that shows an entry shows its smallest one to come. *)
Lemma shown_in_drop (st : cursor) e : st.1 !! st.2 = Some e -> e ∈ drop st.2 st.1.
Proof. intros He. rw (drop_S _ _ _ He). by left. Qed.

(** The entry at a position of a sorted list is the smallest from there on. *)
Lemma drop_min es i x y : entries_sorted es -> es !! i = Some x -> y ∈ drop i es -> x = y \/ entry_lt x y.
Proof.
  intros Hs Ex. rw (drop_S _ _ _ Ex). intros [->|Hy]%elem_of_cons; [by left|right].
  apply list_elem_of_lookup_1 in Hy as [n Hn]. rw lookup_drop in Hn.
  eapply (StronglySorted_lookup_lt entry_lt es i (S i + n)); eauto. lia.
Qed.

Lemma entry_lt_asym a b : entry_lt a b -> MemtableKeyComparator b a <= 0 -> False.
Proof. rw /cmp_lt => H1 H2. apply cmp_lt_gt in H1. lia. Qed.

Lemma take_drop_disjoint es i (x : MemtableEntry) : NoDup es -> x ∈ take i es -> x ∈ drop i es -> False.
Proof. rw -{1}(take_drop i es). intros (_ & Hnd & _)%NoDup_app. apply Hnd. Qed.

(** Some child shows the entry the merged iterator stands on. *)
Lemma next_shown cs sts es i x :
  merging_at cs sts es i -> es !! i = Some x -> exists k st, sts !! k = Some st /\ st.1 !! st.2 = Some x.
Proof.
  intros [Hc Hs Hp Hcov Hle] Ex. assert (x ∈ es) as Hx by by eapply list_elem_of_lookup_2.
  destruct (concat_covers es sts x Hp Hx) as (k & st & Hk & Hin).
  pose proof (Forall_lookup_1 _ _ _ _ Hcov Hk) as [Ht Hd].
  pose proof (Forall2_lookup_r _ _ _ _ _ Hc Hk) as (c & _ & Hcst).
  assert (x ∈ drop st.2 st.1) as Hxd.
  { rw -(take_drop st.2 st.1) in Hin. apply elem_of_app in Hin as [Hin|Hin]; [|done]. exfalso.
    eapply take_drop_disjoint; [by apply entries_sorted_NoDup|by apply Ht|].
    rw (drop_S _ _ _ Ex). by left. }
  destruct (st.1 !! st.2) as [h|] eqn:Hh.
  - exists k, st. split; [done|]. rw Hh. f_equal.
    destruct (drop_min es i x h Hs Ex) as [->|Hlt]; [by apply Hd, shown_in_drop|done|].
    destruct (drop_min _ _ _ x (fwd_sorted _ _ _ Hcst) Hh Hxd) as [->|Hlt']; [done|]. exfalso.
    eapply entry_lt_asym; [exact Hlt|]. rw /cmp_lt in Hlt'. lia.
  - exfalso. apply lookup_ge_None in Hh. rw drop_ge // in Hxd. by apply elem_of_nil in Hxd.
Qed.

Lemma merging_at_smallest cs sts es i cur :
  merging_at cs sts es i ->
  exists m, FindSmallest (mkMerging cs cur) = Some m /\ merging_rep m es i.
Proof.
  intros Hm. pose proof Hm as [Hc Hs Hp Hcov Hle].
  destruct (find_best_run cs sts [] [] None) as (best & E & Hb); [constructor|done|constructor|].
  simpl in E, Hb. exists (mkMerging cs (fst <$> best)). rw /FindSmallest /= E /=.
  split; [done|]. exists sts. split; [done|].
  destruct (es !! i) as [x|] eqn:Ex.
  - destruct (next_shown _ _ _ _ _ Hm Ex) as (k & st & Hk & Hx).
    destruct best as [[j c]|]; simpl in Hb.
    + destruct Hb as (st' & e & H1 & H2 & H3 & H4). exists j, st'. split_and!; auto. rw H3. f_equal.
      pose proof (Forall_lookup_1 _ _ _ _ Hcov H2) as [_ Hd'].
      pose proof (Forall_lookup_1 _ _ _ _ H4 Hk x Hx) as Hle'.
      destruct (drop_min es i x e Hs Ex) as [->|Hlt]; [by apply Hd', shown_in_drop|done|].
      by destruct (entry_lt_asym _ _ Hlt).
    + pose proof (Forall_lookup_1 _ _ _ _ Hb Hk). cbn beta in *. congruence.
  - rw /merging_Valid /current /=. destruct best as [[j c]|]; simpl; [|done].
    destruct Hb as (st' & e & H1 & H2 & H3 & _). exfalso.
    pose proof (Forall_lookup_1 _ _ _ _ Hcov H2) as [_ Hd'].
    apply lookup_ge_None in Ex. specialize (Hd' e (shown_in_drop _ _ H3)). rw drop_ge // in Hd'.
    by apply elem_of_nil in Hd'.
Qed.

(** ** Moving *)

(** A movement of every child that the children's contract allows. *)
Lemma mapM_children (f : I -> SM St I) (g : list MemtableEntry -> nat) cs sts :
  (forall c es i, rep c es i -> runs inv (f c) (fun c' => rep c' es (g es))) ->
  Forall2 child_at cs sts ->
  runs inv (mapM f cs) (fun cs' => Forall2 child_at cs' ((fun st : cursor => (st.1, g st.1)) <$> sts)).
Proof.
  intros Hf Hc. eapply runs_mono; [apply (runs_mapM _ f child_at (fun c st => rep c st.1 (g st.1)) cs sts)|].
  - intros c st. apply Hf.
  - done.
  - intros cs' Hcs. by apply Forall2_fmap_r.
Qed.

Lemma positioned_fst (g : list MemtableEntry -> nat) (sts : list cursor) :
  ((fun st : cursor => (st.1, g st.1)) <$> sts).*1 = sts.*1.
Proof. rw -list_fmap_compose. by apply list_fmap_ext. Qed.

Lemma child_entries sts (es : list MemtableEntry) j (st : cursor) e :
  es ≡ₚ concat (sts.*1) -> sts !! j = Some st -> e ∈ st.1 -> e ∈ es.
Proof.
  intros Hp Hj He. rewrite -> Hp. apply list_elem_of_In, in_concat. exists st.1.
  split; [|by apply list_elem_of_In]. apply list_elem_of_In, list_elem_of_fmap. exists st. split; [done|].
  by eapply list_elem_of_lookup_2.
Qed.

(** Moving every child to a position [g] that splits lists by a property of entries. *)
Lemma merging_move_all (f : I -> SM St I) (g : list MemtableEntry -> nat) (before : MemtableEntry -> Prop)
    cs sts es cur :
  (forall c es i, rep c es i -> runs inv (f c) (fun c' => rep c' es (g es))) ->
  (forall es, (g es <= length es)%nat) ->
  (forall es, entries_sorted es -> Forall before (take (g es) es) /\ Forall (fun e => ~ before e) (drop (g es) es)) ->
  Forall2 child_at cs sts -> entries_sorted es -> es ≡ₚ concat (sts.*1) ->
  runs inv (cs ← mapM f cs; lift (FindSmallest (mkMerging cs cur))) (fun m' => merging_rep m' es (g es)).
Proof.
  intros Hf Hg Hsplit Hc Hs Hp.
  eapply runs_bind; [by apply (mapM_children f g)|]. intros cs' Hcs'.
  destruct (merging_at_smallest cs' ((fun st : cursor => (st.1, g st.1)) <$> sts) es (g es) cur) as (m & E & Hm);
    [|by eapply runs_lift]. split; [done|done| | |done].
  - by rw positioned_fst.
  - apply Forall_fmap, Forall_lookup. intros j st Hj. simpl.
    pose proof (Forall2_lookup_r _ _ _ _ _ Hc Hj) as (c & _ & Hcst).
    destruct (Hsplit es Hs) as [Ht Hd]. destruct (Hsplit _ (fwd_sorted _ _ _ Hcst)) as [Ht' Hd'].
    rewrite -> Forall_forall in Ht, Hd, Ht', Hd'.
    split; simpl; intros e He.
    + assert (e ∈ es) as Hin by (eapply child_entries; eauto; by eapply subseteq_take).
      rw -(take_drop (g es) es) in Hin. apply elem_of_app in Hin as [?|Hin]; [done|].
      by destruct (Hd e Hin (Ht' e He)).
    + assert (e ∈ es) as Hin by (eapply child_entries; eauto; by eapply subseteq_drop).
      rw -(take_drop (g es) es) in Hin. apply elem_of_app in Hin as [Hin|?]; [|done].
      by destruct (Hd' e He (Ht e Hin)).
Qed.

Lemma merging_first_run cs sts es cur :
  Forall2 child_at cs sts -> entries_sorted es -> es ≡ₚ concat (sts.*1) ->
  runs inv (merging_SeekToFirst (mkMerging cs cur)) (fun m' => merging_rep m' es O).
Proof.
  intros Hc Hs Hp.
  eapply (merging_move_all It.SeekToFirst (fun _ => O) (fun _ => False)); [by apply fwd_first| | |done..].
  - intros es'. lia.
  - intros es' _. rw take_0 drop_0. split; [constructor|]. apply Forall_true. auto.
Qed.

Lemma merging_seek_run cs sts es cur t :
  Forall2 child_at cs sts -> entries_sorted es -> es ≡ₚ concat (sts.*1) ->
  runs inv (merging_Seek t (mkMerging cs cur)) (fun m' => merging_rep m' es (seek_pos es t)).
Proof.
  intros Hc Hs Hp.
  eapply (merging_move_all (It.Seek t) (fun es => seek_pos es t) (fun e => Slice.compare (user_key e) t < 0));
    [| | |done..].
  - intros c es' i' Hr. by apply (fwd_seek _ _ _ t) in Hr.
  - intros es'. apply seek_pos_le.
  - intros es' Hs'. split; [apply seek_pos_take|]. eapply Forall_impl; [by apply seek_pos_drop, entries_sorted_keys|]. simpl. lia.
Qed.

(** The child the merged iterator stands on. *)
Lemma merging_current m es i e :
  merging_rep m es i -> es !! i = Some e ->
  exists j st c sts, merging_at (children_ m) sts es i /\ current_ m = Some j /\ sts !! j = Some st /\
    children_ m !! j = Some c /\ child_at c st /\ st.1 !! st.2 = Some e /\
    current m = Some c /\ merging_Valid m = true.
Proof.
  intros (sts & Hm & Hcur) Ee. rw Ee in Hcur. destruct Hcur as (j & st & Hj & Hst & He).
  pose proof (Forall2_lookup_r _ _ _ _ _ (ma_children _ _ _ _ Hm) Hst) as (c & Hc & Hcst).
  assert (Hcc : current m = Some c) by rw /current Hj //.
  exists j, st, c, sts. split_and!; auto. rw /merging_Valid Hcc (fwd_valid _ _ _ Hcst).
  by apply Nat.ltb_lt, lookup_lt_is_Some; eexists.
Qed.

Lemma NoDup_concat_fst (sts : list cursor) j k sj sk e :
  NoDup (concat (sts.*1)) -> sts !! j = Some sj -> sts !! k = Some sk -> e ∈ sj.1 -> e ∈ sk.1 -> j = k.
Proof.
  revert j k; induction sts as [|s sts IH]; intros j k Hnd Hj Hk Ej Ek; [done|].
  simpl in Hnd. apply NoDup_app in Hnd as (_ & Hd & Hnd).
  assert (Hin : forall n sn, sts !! n = Some sn -> e ∈ sn.1 -> e ∈ concat (sts.*1)).
  { intros n sn Hn He. apply list_elem_of_In, in_concat. exists sn.1. split; [|by apply list_elem_of_In].
    apply list_elem_of_In, list_elem_of_fmap. exists sn. split; [done|]. by eapply list_elem_of_lookup_2. }
  destruct j as [|j], k as [|k]; simpl in *; simplify_eq; auto; exfalso; eapply Hd; eauto.
Qed.

Lemma covers_next es i e (st : cursor) :
  entries_sorted st.1 -> es !! i = Some e -> st.1 !! st.2 = Some e -> covers es i st ->
  covers es (S i) (st.1, S st.2).
Proof.
  intros Hs Ee He [Ht Hd]. split; simpl; intros x.
  - rw (take_S_r _ _ _ He) (take_S_r _ _ _ Ee). set_solver.
  - intros Hx. assert (x ∈ drop st.2 st.1) as Hx' by (rw (drop_S _ _ _ He); by right).
    specialize (Hd x Hx'). rw (drop_S _ _ _ Ee) in Hd. apply elem_of_cons in Hd as [->|?]; [|done]. exfalso.
    apply entries_sorted_NoDup in Hs. rw -(take_drop st.2 st.1) (drop_S _ _ _ He) in Hs.
    apply NoDup_app in Hs as (_ & _ & Hs). by apply NoDup_cons in Hs as [? _].
Qed.

Lemma covers_other es i e (st : cursor) : es !! i = Some e -> e ∉ st.1 -> covers es i st -> covers es (S i) st.
Proof.
  intros Ee Hne [Ht Hd]. split; intros x Hx.
  - rw (take_S_r _ _ _ Ee). apply elem_of_app. left. auto.
  - specialize (Hd x Hx). rw (drop_S _ _ _ Ee) in Hd. apply elem_of_cons in Hd as [->|?]; [|done].
    destruct Hne. by eapply subseteq_drop.
Qed.

Lemma merging_next_run m es i :
  merging_rep m es i -> (i < length es)%nat ->
  runs inv (merging_Next m) (fun m' => merging_rep m' es (S i)).
Proof.
  intros Hr Hi. destruct (lookup_lt_is_Some_2 es i Hi) as [e Ee].
  destruct (merging_current _ _ _ _ Hr Ee) as (j & st & c & sts & Hm & Hj & Hst & Hc & Hcst & He & Hcur & Hv).
  pose proof Hm as [Hcs Hs Hp Hcov Hle].
  rw /merging_Next /move_current Hv.
  eapply (runs_bind _ _ _ (fun m' => exists c', m' = mkMerging (<[j := c']> (children_ m)) (current_ m) /\ rep c' st.1 (S st.2))).
  { eapply runs_bind_lift; [exact Hj|]. eapply runs_bind_lift; [exact Hc|].
    eapply runs_bind; [apply (fwd_next _ _ _ Hcst); by apply lookup_lt_is_Some; eexists|].
    intros c' Hc'. apply runs_ret. by exists c'. }
  intros ? (c' & -> & Hc').
  destruct (merging_at_smallest (<[j := c']> (children_ m)) (<[j := (st.1, S st.2)]> sts) es (S i) (current_ m))
    as (m' & E & Hm'); [|by eapply runs_lift]. split; auto.
  - by apply Forall2_insert.
  - rw list_fmap_insert list_insert_id //. by rw list_lookup_fmap Hst.
  - apply Forall_lookup. intros k sk Hk. destruct (decide (j = k)) as [<-|Hne].
    + rw list_lookup_insert_eq in Hk; [by eapply lookup_lt_Some|]. injection Hk as <-.
      apply (covers_next _ _ e); auto; [by eapply fwd_sorted|]. by eapply (Forall_lookup_1 _ _ _ _ Hcov).
    + rw list_lookup_insert_ne // in Hk. apply (covers_other _ _ e); auto.
      * intros Hin. apply Hne. eapply (NoDup_concat_fst sts j k st sk e); eauto.
        -- rewrite <- Hp. by apply entries_sorted_NoDup.
        -- by eapply list_elem_of_lookup_2.
      * by eapply (Forall_lookup_1 _ _ _ _ Hcov).
Qed.

Lemma merging_status_run cs sts : Forall2 child_at cs sts -> first_error cs = Status.OK.
Proof. induction 1 as [|c st cs sts Hc Hcs IH]; simpl; [done|]. by rw (fwd_status _ _ _ Hc). Qed.

#[global] Instance merging_iterator_view : IteratorView (MergingIterator I) merging_rep.
Proof.
  split; intros m es i.
  - by intros (sts & Hm & _); apply Hm.
  - by intros (sts & Hm & _); apply Hm.
  - intros Hr. simpl. destruct (Nat.ltb_spec i (length es)) as [Hi|Hi].
    + destruct (lookup_lt_is_Some_2 es i Hi) as [e Ee]. by destruct (merging_current _ _ _ _ Hr Ee) as (? & ? & ? & ? & ?); destruct_and!.
    + destruct Hr as (sts & _ & Hcur). by rw lookup_ge_None_2 // in Hcur.
  - intros e Hr Ee. destruct (merging_current _ _ _ _ Hr Ee) as (j & st & c & sts & _ & _ & _ & _ & Hc & He & Hcur & Hv).
    by rw /= /merging_Key Hv Hcur /= (fwd_key _ _ _ _ Hc He).
  - intros e Hr Ee. destruct (merging_current _ _ _ _ Hr Ee) as (j & st & c & sts & _ & _ & _ & _ & Hc & He & Hcur & Hv).
    by rw /= /merging_Value Hv Hcur /= (fwd_value _ _ _ _ Hc He).
  - intros e Hr Ee. destruct (merging_current _ _ _ _ Hr Ee) as (j & st & c & sts & _ & _ & _ & _ & Hc & He & Hcur & Hv).
    by rw /= /merging_Seq Hv Hcur /= (fwd_seq _ _ _ _ Hc He).
  - intros e Hr Ee. destruct (merging_current _ _ _ _ Hr Ee) as (j & st & c & sts & _ & _ & _ & _ & Hc & He & Hcur & Hv).
    by rw /= /merging_Type Hv Hcur /= (fwd_type _ _ _ _ Hc He).
  - intros (sts & Hm & _). simpl. eapply merging_status_run, Hm.
Qed.

#[global] Instance merging_forward : ForwardIterator St (MergingIterator I) inv merging_rep.
Proof.
  split; [apply _|..]; intros m es i.
  - intros (sts & [Hc Hs Hp _ _] & _). by eapply merging_first_run.
  - intros t (sts & [Hc Hs Hp _ _] & _). by eapply merging_seek_run.
  - apply merging_next_run.
Qed.

(** ** Moving backwards *)

(** The child that [FindLargest] ends with shows an entry that is not smaller than the one
    it started from, nor than any that the remaining children show. *)
Lemma find_largest_run cs sts j k b sb eb :
  Forall2 child_at cs sts -> child_at b sb -> sb.1 !! sb.2 = Some eb ->
  exists k' c st e, find_best (fun r => r >? 0) cs j (Some (k, b)) = Some (Some (k', c)) /\ child_at c st /\ st.1 !! st.2 = Some e /\
    ((k' = k /\ c = b) \/ exists n, k' = (j + n)%nat /\ cs !! n = Some c) /\
    MemtableKeyComparator eb e <= 0 /\
    Forall (fun st' : cursor => forall e', st'.1 !! st'.2 = Some e' -> MemtableKeyComparator e' e <= 0) sts.
Proof.
  intros Hcs. revert j k b sb eb. induction Hcs as [|c st cs sts Hc Hcs IH]; intros j k b sb eb Hb Eb; simpl.
  { exists k, b, sb, eb. split_and!; auto. by rw cmp_refl. }
  assert (Hgo : forall k1 b1 sb1 eb1, child_at b1 sb1 -> sb1.1 !! sb1.2 = Some eb1 ->
    (k1 = k /\ b1 = b) \/ (k1 = j /\ b1 = c) -> MemtableKeyComparator eb eb1 <= 0 ->
    (forall e', st.1 !! st.2 = Some e' -> MemtableKeyComparator e' eb1 <= 0) ->
    exists k' c' st' e, find_best (fun r => r >? 0) cs (S j) (Some (k1, b1)) = Some (Some (k', c')) /\ child_at c' st' /\ st'.1 !! st'.2 = Some e /\
      ((k' = k /\ c' = b) \/ exists n, k' = (j + n)%nat /\ (c :: cs) !! n = Some c') /\ MemtableKeyComparator eb e <= 0 /\
      Forall (fun st' : cursor => forall e', st'.1 !! st'.2 = Some e' -> MemtableKeyComparator e' e <= 0) (st :: sts)).
  { intros k1 b1 sb1 eb1 Hb1 Eb1 Hwhich Hle Hst. destruct (IH (S j) k1 b1 sb1 eb1 Hb1 Eb1) as (k' & c' & st' & e & E & Hc' & He & Hw & Hle' & Hall).
    exists k', c', st', e. split_and!; auto.
    - destruct Hw as [[-> ->]|(n & -> & Hn)]; [|right; exists (S n); split; [lia|done]].
      destruct Hwhich as [?|[-> ->]]; [by left|right]. exists 0%nat. split; [lia|done].
    - by apply (cmp_le_trans _ eb eb1 e).
    - constructor; [|done]. intros e' He'. apply (cmp_le_trans _ e' eb1 e); [by apply Hst|done]. }
  rw (fwd_valid _ _ _ Hc). destruct (Nat.ltb_spec st.2 (length st.1)) as [Hi|Hi].
  - destruct (lookup_lt_is_Some_2 st.1 st.2 Hi) as [e He].
    destruct (CompareIterators_run c b st sb e eb) as (r & -> & Hr1 & Hr2); auto. simpl. rw Z.gtb_ltb.
    destruct (Z.ltb_spec 0 r) as [Hr|Hr].
    + apply (Hgo j c st e); auto; [apply cmp_ge_le; [apply _|apply Hr2; lia]|]. intros e' He'. assert (e' = e) as -> by congruence. by rw cmp_refl.
    + apply (Hgo k b sb eb); auto; [by rw cmp_refl|]. intros e' He'. assert (e' = e) as -> by congruence. apply Hr1. lia.
  - apply (Hgo k b sb eb); auto; [by rw cmp_refl|]. intros e' He'. apply lookup_ge_None_2 in Hi. congruence.
Qed.

Lemma find_largest_from cs sts j k sk x :
  Forall2 child_at cs sts -> sts !! k = Some sk -> sk.1 !! sk.2 = Some x ->
  exists n c st e, find_best (fun r => r >? 0) cs j None = Some (Some ((j + n)%nat, c)) /\ cs !! n = Some c /\ child_at c st /\
    st.1 !! st.2 = Some e /\ Forall (fun st' : cursor => forall e', st'.1 !! st'.2 = Some e' -> MemtableKeyComparator e' e <= 0) sts.
Proof.
  intros Hcs. revert j k. induction Hcs as [|c st cs sts Hc Hcs IH]; intros j k Hk Hx; [done|]. simpl.
  rw (fwd_valid _ _ _ Hc). destruct (Nat.ltb_spec st.2 (length st.1)) as [Hi|Hi].
  - destruct (lookup_lt_is_Some_2 st.1 st.2 Hi) as [e0 He0].
    destruct (find_largest_run cs sts (S j) j c st e0 Hcs Hc He0) as (k' & c' & st' & e & E & Hc' & He & Hw & Hle & Hall).
    assert (Hall' : Forall (fun st' : cursor => forall e', st'.1 !! st'.2 = Some e' -> MemtableKeyComparator e' e <= 0) (st :: sts)).
    { constructor; [|done]. intros e' He'. by assert (e' = e0) as -> by congruence. }
    destruct Hw as [[-> ->]|(n & -> & Hn)].
    + exists 0%nat, c, st', e. rw Nat.add_0_r. split_and!; auto.
    + exists (S n), c', st', e. rw Nat.add_succ_r. split_and!; auto.
  - apply lookup_ge_None_2 in Hi. destruct k as [|k]; [simplify_eq/=; congruence|].
    destruct (IH (S j) k Hk Hx) as (n & c' & st' & e & E & Hn & Hc' & He & Hall). exists (S n), c', st', e. rw Nat.add_succ_r.
    split_and!; auto. constructor; [|done]. intros e' He'. congruence.
Qed.

Lemma current_entry_child m j c st e :
  current_ m = Some j -> children_ m !! j = Some c -> child_at c st -> st.1 !! st.2 = Some e -> current_entry m = Some e.
Proof.
  intros Hj Hc Hst He. assert (Hcur : current m = Some c) by rw /current Hj //.
  assert (Hv : merging_Valid m = true).
  { rw /merging_Valid Hcur (fwd_valid _ _ _ Hst). by apply Nat.ltb_lt, lookup_lt_is_Some; eexists. }
  rw /current_entry /= /merging_Key /merging_Seq /merging_Type /merging_Value Hv Hcur /=.
  exact (current_entry_run c st.1 st.2 e Hst He).
Qed.

(** Every entry that another child shows comes after the one the merged iterator is on. *)
Lemma others_ahead cs sts es i j k sj sk e x :
  merging_at cs sts es i -> es !! i = Some e -> sts !! j = Some sj -> sj.1 !! sj.2 = Some e ->
  sts !! k = Some sk -> k <> j -> sk.1 !! sk.2 = Some x -> entry_lt e x.
Proof.
  intros [Hc Hs Hp Hcov Hle] Ee Hj He Hk Hne Hx. pose proof (Forall_lookup_1 _ _ _ _ Hcov Hk) as [_ Hd].
  destruct (drop_min es i e x Hs Ee) as [->|?]; [by apply Hd, shown_in_drop| |done]. destruct Hne.
  eapply (NoDup_concat_fst sts k j sk sj x); eauto; [rewrite <- Hp; by apply entries_sorted_NoDup|by eapply list_elem_of_lookup_2..].
Qed.

(** C38: [Prev] does not return to the previous entry.  Whenever the merging iterator has
    come forward to an entry of one child while another child still has entries to come,
    [Prev] moves on to a strictly larger entry: it moves back only the child it stands on
    and takes the largest entry shown, and the children that are ahead stay there. *)
Theorem merging_prev_after_next_skips `{!BackwardIterator St I inv rep} cs sts es i j k sj sk e x :
  merging_at cs sts es i -> es !! i = Some e -> sts !! j = Some sj -> sj.1 !! sj.2 = Some e ->
  sts !! k = Some sk -> k <> j -> sk.1 !! sk.2 = Some x ->
  runs inv (merging_Prev (mkMerging cs (Some j))) (fun m' => exists e', current_entry m' = Some e' /\ entry_lt e e').
Proof.
  intros Hm Ee Hj He Hk Hne Hx. pose proof (others_ahead _ _ _ _ _ _ _ _ _ _ Hm Ee Hj He Hk Hne Hx) as Hlt.
  pose proof Hm as [Hcs _ _ _ _]. destruct (Forall2_lookup_r _ _ _ _ _ Hcs Hj) as (c & Hc & Hcst).
  pose proof (lookup_lt_Some _ _ _ He) as Hpos.
  assert (Hv : merging_Valid (mkMerging cs (Some j)) = true).
  { rw /merging_Valid /current /= Hc (fwd_valid _ _ _ Hcst). by apply Nat.ltb_lt. }
  rw /merging_Prev /move_current Hv. set (p := match sj.2 with O => length sj.1 | S n => n end).
  eapply (runs_bind _ _ _ (fun m' => exists c', m' = mkMerging (<[j := c']> cs) (Some j) /\ rep c' sj.1 p)).
  { eapply runs_bind_lift; [done|]. eapply runs_bind_lift; [exact Hc|].
    eapply runs_bind; [by apply (bwd_prev _ _ _ Hcst)|]. intros c' Hc'. apply runs_ret. by exists c'. }
  intros ? (c' & -> & Hc').
  assert (Hcs' : Forall2 child_at (<[j := c']> cs) (<[j := (sj.1, p)]> sts)) by (by apply Forall2_insert).
  destruct (find_largest_from _ _ 0 k sk x Hcs') as (n & b & sb & e' & E & Hn & Hb & He' & Hall);
    [by rw list_lookup_insert_ne|done|]. simpl in E.
  eapply runs_lift; [by rw /FindLargest /= E|]. exists e'. split; [by eapply current_entry_child|].
  assert (Hle : MemtableKeyComparator x e' <= 0).
  { eapply (Forall_lookup_1 _ _ k sk Hall); [by rw list_lookup_insert_ne|done]. }
  by eapply (cmp_lt_le_trans MemtableKeyComparator).
Qed.
End merging_proofs.

(** ** The claims *)

(** C12: over children that keep the forward contract, whatever their positions, the
    merging iterator returns from [SeekToFirst] and from [Seek(target)] positioned in
    the sorted merge of the children's entries, and scanning it gives every entry of
    that merge from there on, in internal-key order, each once, with status [OK]; it
    keeps the forward contract itself. *)
Theorem merging_iterator_merges {St I : Type} `{HI : It.Internal St I}
    (inv : St -> Prop) (rep : cursor_rep I) `{!ForwardIterator St I inv rep}
    (cs : list I) (sts : list (list MemtableEntry * nat)) (es : list MemtableEntry) :
  Forall2 (child_at rep) cs sts -> entries_sorted es -> es ≡ₚ concat (sts.*1) ->
  ForwardIterator St (MergingIterator I) inv (merging_rep rep) /\
  runs inv (m ← merging_SeekToFirst (NewMerging cs); l ← collect (S (length es)) m; mret (l, merging_status m))
    (fun r => r = (es, Status.OK)) /\
  (forall t, runs inv (m ← merging_Seek t (NewMerging cs); collect (S (length es)) m)
     (fun l => l = drop (seek_pos es t) es)).
Proof.
  intros Hc Hs Hp. split; [apply _|]. split.
  - eapply runs_bind; [by apply (merging_first_run inv rep cs sts es None)|]. intros m Hr.
    eapply runs_bind; [eapply (collect_run _ _ _ _ _ _ Hr); lia|]. intros l ->. apply runs_ret.
    destruct Hr as (sts' & Hm & _). f_equal. eapply (merging_status_run inv rep), Hm.
  - intros t. eapply runs_bind; [by apply (merging_seek_run inv rep cs sts es None t)|]. intros m Hr.
    eapply (collect_run _ _ _ _ _ _ Hr). pose proof (seek_pos_le es t). lia.
Qed.

Definition sample_a : MemtableEntry := mkEntry (str "a") 1 kTypeValue (str "1").
Definition sample_b : MemtableEntry := mkEntry (str "b") 2 kTypeValue (str "2").
Definition sample_c : MemtableEntry := mkEntry (str "c") 3 kTypeValue (str "3").
Definition sample_d : MemtableEntry := mkEntry (str "d") 4 kTypeDeletion [].

Lemma merging_iterator_merges_witness :
  let cs := [([sample_a; sample_c], 0%nat); ([sample_b; sample_d], 1%nat)] in
  runs pure (m ← merging_SeekToFirst (NewMerging cs); l ← collect 5 m; mret (l, merging_status m))
    (fun r => r = ([sample_a; sample_b; sample_c; sample_d], Status.OK)).
Proof.
  apply (merging_iterator_merges pure list_rep [([sample_a; sample_c], 0%nat); ([sample_b; sample_d], 1%nat)]
    [([sample_a; sample_c], 0%nat); ([sample_b; sample_d], 1%nat)] [sample_a; sample_b; sample_c; sample_d]).
  - repeat constructor; simpl; lia.
  - repeat constructor.
  - simpl. do 1 constructor. apply perm_swap.
Defined.

(** [a, c] merged with [b, d]: [Next] from [a] stands on [b], and [Prev] from there goes
    forward, to [c]. *)
Lemma merging_prev_after_next_skips_witness :
  exists m1 m2 m3 e', merging_SeekToFirst (NewMerging [([sample_a; sample_c], 0%nat); ([sample_b; sample_d], 0%nat)]) tt = Some (m1, tt) /\
    current_entry m1 = Some sample_a /\ merging_Next m1 tt = Some (m2, tt) /\ current_entry m2 = Some sample_b /\
    merging_Prev m2 tt = Some (m3, tt) /\ current_entry m3 = Some e' /\ entry_lt sample_b e'.
Proof.
  set (cs := [([sample_a; sample_c], 1%nat); ([sample_b; sample_d], 0%nat)]).
  assert (Hm : merging_at list_rep cs cs [sample_a; sample_b; sample_c; sample_d] 1).
  { split.
    - repeat constructor; simpl; lia.
    - repeat constructor.
    - simpl. constructor. apply perm_swap.
    - constructor; [split; simpl; set_solver|]. constructor; [split; simpl; set_solver|constructor].
    - simpl. lia. }
  destruct (runs_pure _ _ (merging_prev_after_next_skips pure list_rep cs cs [sample_a; sample_b; sample_c; sample_d] 1 1 0
    ([sample_b; sample_d], 0%nat) ([sample_a; sample_c], 1%nat) sample_b sample_c Hm eq_refl eq_refl eq_refl eq_refl ltac:(lia) eq_refl))
    as (m3 & E & e' & He & Hlt).
  exists (mkMerging [([sample_a; sample_c], 0%nat); ([sample_b; sample_d], 0%nat)] (Some 0%nat)), (mkMerging cs (Some 1%nat)), m3, e'.
  split_and!; [by vm_compute..|exact E|exact He|exact Hlt].
Defined.
