(* ===== verification/DBIterator.v ===== *)
(** * DBIterator: the rows of a snapshot

    Models [src/db_iterator.h] and [src/db_iterator.cc] over any internal iterator.
    [user_view] is what a user must see of sorted internal entries at a sequence
    number: per user key, in order, the newest visible version if it is a value.
    The loops have fuel; the theorems hold for any fuel above the number of
    internal entries, so the loops terminate. *)

From S2P Require Import Prelude Status Slice Format Entry Iterator.

(** ** Specification *)

(** The distinct user keys, in the order of the list. *)
Definition user_keys (es : list MemtableEntry) : list bytes := remove_dups (user_key <$> es).

(** The row of key [k] at sequence number [s], unless the key is absent or deleted. *)
Definition row_of (es : list MemtableEntry) (s : SequenceNumber) (k : bytes) : option (bytes * bytes) :=
  e ← newest es k s; if type e =? kTypeValue then Some (k, value e) else None.

Definition user_view (es : list MemtableEntry) (s : SequenceNumber) : list (bytes * bytes) :=
  omap (row_of es s) (user_keys es).

(** The entries after the versions of [k] at the front. *)
Fixpoint skip_key (k : bytes) (es : list MemtableEntry) : list MemtableEntry :=
  match es with
  | [] => []
  | e :: es' => if Slice.eqb (user_key e) k then skip_key k es' else es
  end.

(** ** The iterator *)

Section db_iterator.
Context {St I : Type} `{HI : It.Internal St I}.

Record DBIterator := mkDBIterator {
  iter_ : option I;
  sequence_ : SequenceNumber;
  valid_ : bool;
  saved_key_ : bytes;
  saved_value_ : bytes;
}.

Definition NewDBIterator (iter : option I) (sequence : SequenceNumber) : DBIterator :=
  mkDBIterator iter sequence false [] [].

Definition db_Valid (d : DBIterator) : bool := valid_ d.

(** [while (iter_->Valid() && iter_->Key() == k) iter_->Next()]. *)
Fixpoint skip_loop (fuel : nat) (k : bytes) (it : I) : SM St I :=
  match fuel with
  | O => lift None
  | S fuel' =>
      if It.Valid it then
        k' ← lift (It.Key it);
        if Slice.eqb k' k then it ← It.Next it; skip_loop fuel' k it else mret it
      else mret it
  end.

(** The loop of [FindNextUserEntry]: the iterator and the row it stopped at. *)
Fixpoint find_loop (fuel : nat) (s : SequenceNumber) (it : I) : SM St (I * option (bytes * bytes)) :=
  match fuel with
  | O => lift None
  | S fuel' =>
      if It.Valid it then
        q ← lift (It.Seq it);
        if q >? s then it ← It.Next it; find_loop fuel' s it
        else
          candidate_key ← lift (It.Key it);
          t ← lift (It.Type_ it);
          if t =? kTypeValue then v ← lift (It.Value it); mret (it, Some (candidate_key, v))
          else if t =? kTypeDeletion then
            it ← skip_loop fuel candidate_key it; find_loop fuel' s it
          else it ← It.Next it; find_loop fuel' s it
      else mret (it, None)
  end.

Definition FindNextUserEntry (fuel : nat) (it : I) (d : DBIterator) : SM St DBIterator :=
  '(it, r) ← find_loop fuel (sequence_ d) it;
  mret match r with
       | Some (k, v) => mkDBIterator (Some it) (sequence_ d) true k v
       | None => mkDBIterator (Some it) (sequence_ d) false (saved_key_ d) (saved_value_ d)
       end.

Definition db_SeekToFirst (fuel : nat) (d : DBIterator) : SM St DBIterator :=
  match iter_ d with
  | None => mret d
  | Some it => it ← It.SeekToFirst it; FindNextUserEntry fuel it d
  end.

Definition db_Seek (fuel : nat) (target : bytes) (d : DBIterator) : SM St DBIterator :=
  match iter_ d with
  | None => mret d
  | Some it => it ← It.Seek target it; FindNextUserEntry fuel it d
  end.

Definition db_Next (fuel : nat) (d : DBIterator) : SM St DBIterator :=
  if db_Valid d then
    it ← lift (iter_ d);
    it ← skip_loop fuel (saved_key_ d) it;
    FindNextUserEntry fuel it d
  else lift None.

Definition db_Key (d : DBIterator) : option bytes := if db_Valid d then Some (saved_key_ d) else None.
Definition db_Value (d : DBIterator) : option bytes := if db_Valid d then Some (saved_value_ d) else None.

(** [while (Valid() && cond(Key())) { last = row; Next(); }]: the iterator and the
    last row passed. *)
Fixpoint pass_rows (turns fuel : nat) (cond : bytes -> bool) (d : DBIterator) (lastrow : option (bytes * bytes)) :
    SM St (DBIterator * option (bytes * bytes)) :=
  match turns with
  | O => lift None
  | S turns' =>
      if db_Valid d && cond (saved_key_ d) then
        k ← lift (db_Key d); v ← lift (db_Value d);
        d' ← db_Next fuel d;
        pass_rows turns' fuel cond d' (Some (k, v))
      else mret (d, lastrow)
  end.

Definition restore (d : DBIterator) (r : bytes * bytes) : DBIterator :=
  mkDBIterator (iter_ d) (sequence_ d) true r.1 r.2.

Definition db_SeekToLast (fuel : nat) (d : DBIterator) : SM St DBIterator :=
  match iter_ d with
  | None => mret d
  | Some _ =>
      d ← db_SeekToFirst fuel d;
      '(d, r) ← pass_rows fuel fuel (fun _ => true) d None;
      mret (match r with Some r => restore d r | None => d end)
  end.

Definition db_Prev (fuel : nat) (d : DBIterator) : SM St DBIterator :=
  if db_Valid d then
    let target := saved_key_ d in
    d ← db_SeekToFirst fuel d;
    '(d, r) ← pass_rows fuel fuel (fun k => Slice.ltb k target) d None;
    mret (match r with
          | Some r => restore d r
          | None => mkDBIterator (iter_ d) (sequence_ d) false (saved_key_ d) (saved_value_ d)
          end)
  else lift None.

Definition db_status (d : DBIterator) : Status.t :=
  match iter_ d with None => Status.OK | Some it => It.status it end.
End db_iterator.

Arguments DBIterator I : clear implicits.

(** ** The view, entry by entry *)

Lemma skip_key_suffix k es : exists b, es = b ++ skip_key k es /\ Forall (fun e => user_key e = k) b.
Proof.
  induction es as [|e es (b & E & Hb)]; simpl; [by exists []|].
  destruct (Slice.eqb_spec (user_key e) k) as [Hk|Hk].
  - exists (e :: b). rw /= -E. split; [done|]. by constructor.
  - by exists [].
Qed.

(** In a sorted list the versions of a key are adjacent. *)
Lemma skip_key_none k es :
  entries_sorted es -> (forall e, e ∈ es -> Slice.compare k (user_key e) <= 0) ->
  Forall (fun e => user_key e <> k) (skip_key k es).
Proof.
  induction es as [|e es IH]; simpl; [constructor|]. intros [Hs He]%StronglySorted_inv Hmin.
  destruct (Slice.eqb_spec (user_key e) k) as [Hk|Hk].
  - apply IH; [done|]. intros x Hx. apply Hmin. by right.
  - constructor; [done|]. rewrite -> Forall_forall in He. apply Forall_forall. intros x Hx Ex.
    specialize (He x Hx). apply entry_lt_key in He. rw Ex in He.
    pose proof (Hmin e (list_elem_of_here e es)) as Hle. apply Hk, Slice.compare_eq.
    pose proof (Slice.compare_antisym k (user_key e)). lia.
Qed.

Lemma newest_skip b es k s : Forall (fun e => user_key e <> k) b -> newest (b ++ es) k s = newest es k s.
Proof.
  induction 1 as [|e b He Hb IH]; simpl; [done|]. rw IH /sees.
  by destruct (Slice.eqb_spec (user_key e) k).
Qed.

Lemma newest_skip_r b es k s : Forall (fun e => user_key e <> k) es -> newest (b ++ es) k s = newest b k s.
Proof.
  intros He. induction b as [|e b IH]; simpl; [|by rw IH].
  apply newest_None. eapply Forall_impl; [exact He|]. intros x Hx. rw /sees.
  by destruct (Slice.eqb_spec (user_key x) k).
Qed.

Lemma row_of_ext es es' s ks :
  Forall (fun k => newest es k s = newest es' k s) ks -> omap (row_of es s) ks = omap (row_of es' s) ks.
Proof.
  induction 1 as [|k ks Hk Hks IH]; [done|]. rw /= /row_of Hk. rw /row_of in IH.
  destruct (newest es' k s) as [e|]; simpl; [|done]. destruct (type e =? kTypeValue); [by f_equal|done].
Qed.

Lemma elem_of_user_keys k es : k ∈ user_keys es <-> exists e, e ∈ es /\ user_key e = k.
Proof. rw /user_keys elem_of_remove_dups list_elem_of_fmap. naive_solver. Qed.

(** A version newer than the snapshot is not part of the view. *)
Lemma view_newer e es s : s < seq e -> user_view (e :: es) s = user_view es s.
Proof.
  intros Hs. assert (Hn : forall k, newest (e :: es) k s = newest es k s).
  { intros k. simpl. rw /sees. destruct (Z.leb_spec (seq e) s); [lia|]. by rw andb_false_r. }
  rw /user_view (row_of_ext (e :: es) es); [by apply Forall_true|].
  rw /user_keys /=. case_decide as Hin; [done|]. simpl.
  assert (row_of es s (user_key e) = None) as ->; [|done].
  rw /row_of. assert (newest es (user_key e) s = None) as ->; [|done].
  apply newest_None, Forall_forall. intros x Hx. rw /sees.
  destruct (Slice.eqb_spec (user_key x) (user_key e)) as [E|]; [|done].
  destruct Hin. apply list_elem_of_fmap. by exists x.
Qed.

(** The newest visible version of a key hides its other versions. *)
Lemma view_visible e es s :
  entries_sorted (e :: es) -> seq e <= s ->
  user_view (e :: es) s =
    (if type e =? kTypeValue then [(user_key e, value e)] else []) ++ user_view (skip_key (user_key e) es) s.
Proof.
  intros Hs Hseq. set (k := user_key e). pose proof Hs as [Hs' He]%StronglySorted_inv.
  destruct (skip_key_suffix k es) as (b & E & Hb). set (r := skip_key k es) in *.
  assert (Hr : Forall (fun x => user_key x <> k) r).
  { apply skip_key_none; [done|]. intros x Hx. rewrite -> Forall_forall in He. by apply entry_lt_key, He. }
  assert (Hkeys : user_keys (e :: es) = k :: user_keys r).
  { rw /user_keys E fmap_cons fmap_app. clear -Hb Hr. assert (k ∉ user_key <$> r) as Hnk.
    { intros (x & Ex & Hx)%list_elem_of_fmap. rewrite -> Forall_forall in Hr. by apply (Hr x). }
    change (user_key e) with k. induction Hb as [|x b Hx Hb IH]; simpl; [by case_decide|].
    rw Hx. rw /= in IH. rw decide_True; [by left|]. exact IH. }
  rw /user_view Hkeys /=.
  assert (row_of (e :: es) s k = if type e =? kTypeValue then Some (k, value e) else None) as ->.
  { rw /row_of newest_sorted_cons // (proj2 (sees_true k s e)) //. }
  assert (omap (row_of (e :: es) s) (user_keys r) = omap (row_of r s) (user_keys r)) as Eo.
  { apply row_of_ext, Forall_forall. intros k' (x & Hx & Ex)%elem_of_user_keys.
    rw E app_comm_cons. apply newest_skip. rewrite -> Forall_forall in Hr. specialize (Hr x Hx).
    constructor; [intros Ek; apply Hr; rw Ex -Ek //|]. eapply Forall_impl; [exact Hb|]. intros y Hy Ey. congruence. }
  destruct (type e =? kTypeValue); simpl; by rw -Eo.
Qed.

(** ** Rows and key boundaries *)

Lemma user_keys_app a b :
  (forall x y, x ∈ a -> y ∈ b -> user_key x <> user_key y) -> user_keys (a ++ b) = user_keys a ++ user_keys b.
Proof.
  intros Hd. rw /user_keys fmap_app. induction a as [|x a IH]; simpl; [done|].
  rw IH; [intros x' y Hx'; apply Hd; by right|].
  assert (user_key x ∉ user_key <$> b) as Hnb.
  { intros (y & E & Hy)%list_elem_of_fmap. apply (Hd x y); [by left|done..]. }
  repeat case_decide; auto; exfalso; set_solver.
Qed.

(** The view of a list cut between two user keys. *)
Lemma view_app a b s :
  (forall x y, x ∈ a -> y ∈ b -> user_key x <> user_key y) ->
  user_view (a ++ b) s = user_view a s ++ user_view b s.
Proof.
  intros Hd. rw /user_view user_keys_app // omap_app. f_equal; apply row_of_ext, Forall_forall.
  - intros k (x & Hx & Ex)%elem_of_user_keys. apply newest_skip_r, Forall_forall. intros y Hy Ey.
    apply (Hd x y); auto. congruence.
  - intros k (x & Hx & Ex)%elem_of_user_keys. apply newest_skip, Forall_forall. intros y Hy Ey.
    apply (Hd y x); auto. congruence.
Qed.

Lemma elem_of_view es s r : r ∈ user_view es s -> exists e, e ∈ es /\ user_key e = r.1.
Proof.
  intros (k & Hk & Er)%list_elem_of_omap. apply elem_of_user_keys in Hk as (e & He & Ek).
  exists e. split; [done|]. rw /row_of in Er. destruct (newest es k s); [|done]. simpl in Er.
  destruct (type m =? kTypeValue); [|done]. by injection Er as <-.
Qed.

Lemma view_length es s : (length (user_view es s) <= length es)%nat.
Proof.
  etrans; [apply omap_length_le|]. rw /user_keys -(length_fmap user_key es).
  generalize (user_key <$> es). intros ks. induction ks as [|k ks IH]; simpl; [lia|].
  case_decide; simpl; lia.
Qed.

Abbreviation row_lt := (fun r r' : bytes * bytes => Slice.compare r.1 r'.1 < 0).

(** Rows come in strictly ascending order of their keys. *)
Lemma view_sorted es s : entries_sorted es -> StronglySorted row_lt (user_view es s).
Proof.
  remember (length es) as n eqn:En. revert es En. induction (lt_wf n) as [n _ IH].
  intros [|e es] -> Hs; [constructor|]. pose proof Hs as [Hs' He]%StronglySorted_inv.
  destruct (Z.le_gt_cases (seq e) s) as [Hle|Hgt]; [|rw view_newer; [lia|]; by eapply IH; [|done|]; simpl; [lia|]].
  rw view_visible //. destruct (skip_key_suffix (user_key e) es) as (b & E & Hb).
  assert (Hrest : StronglySorted row_lt (user_view (skip_key (user_key e) es) s)).
  { eapply IH; [|done|].
    - apply (f_equal length) in E. rw length_app in E. simpl. lia.
    - rw E in Hs'. by apply StronglySorted_app_1_r in Hs'. }
  destruct (type e =? kTypeValue); [|done]. simpl. constructor; [done|].
  apply Forall_forall. intros r (x & Hx & Ex)%elem_of_view. simpl.
  assert (x ∈ es) as Hxe by (rw E; set_solver).
  rewrite -> Forall_forall in He. pose proof (entry_lt_key _ _ (He x Hxe)) as Hk. rw Ex in Hk.
  assert (user_key x <> user_key e) as Hne.
  { pose proof (skip_key_none (user_key e) es Hs') as Hn. rewrite -> Forall_forall in Hn. apply Hn; [|done].
    intros y Hy. by apply entry_lt_key, He. }
  assert (Slice.compare (user_key e) r.1 <> 0); [|lia]. intros E0%Slice.compare_eq. congruence.
Qed.

(** ** The loops *)

Section db_iterator_proofs.
Context {St I : Type} `{HI : It.Internal St I}.
Context (inv : St -> Prop) (rep : cursor_rep I) `{!ForwardIterator St I inv rep}.

Abbreviation known_type := (fun e : MemtableEntry => type e = kTypeValue \/ type e = kTypeDeletion).

Lemma skip_loop_run fuel k it es i :
  rep it es i -> (length es - i < fuel)%nat ->
  runs inv (skip_loop fuel k it) (fun it' => exists j, rep it' es j /\ drop j es = skip_key k (drop i es)).
Proof.
  revert it i; induction fuel as [|fuel IH]; intros it i Hr Hf; [lia|]. simpl. rw (fwd_valid _ _ _ Hr).
  destruct (Nat.ltb_spec i (length es)) as [Hi|Hi].
  - destruct (lookup_lt_is_Some_2 es i Hi) as [e He]. eapply runs_bind_lift; [by eapply fwd_key|].
    rw (drop_S _ _ _ He) /=. destruct (Slice.eqb (user_key e) k) eqn:Ek.
    + eapply runs_bind; [by eapply fwd_next|]. intros it1 Hr1. apply IH; [done|lia].
    + apply runs_ret. exists i. by rw (drop_S _ _ _ He).
  - apply runs_ret. exists i. by rw drop_ge.
Qed.

Lemma skip_key_progress k es i j :
  (i < length es)%nat -> (j <= length es)%nat -> drop j es = skip_key k (drop (S i) es) -> (i < j)%nat.
Proof.
  intros Hi Hj E. destruct (skip_key_suffix k (drop (S i) es)) as (b & Eb & _). rw -E in Eb.
  apply (f_equal length) in Eb. rw length_app !length_drop in Eb. lia.
Qed.

Lemma sorted_drop es i : entries_sorted es -> entries_sorted (drop i es).
Proof. rw -{1}(take_drop i es). apply StronglySorted_app_1_r. Qed.

(** [FindNextUserEntry] stops at the first row of the view from its position on. *)
Lemma find_loop_run fuel s it es i :
  rep it es i -> Forall known_type es -> (length es - i < fuel)%nat ->
  runs inv (find_loop fuel s it) (fun r => r.2 = head (user_view (drop i es) s) /\ exists j, rep r.1 es j /\
    user_view (drop j es) s = user_view (drop i es) s /\
    match head (user_view (drop i es) s) with
    | Some row => (exists e, head (drop j es) = Some e /\ user_key e = row.1) /\
                  user_view (skip_key row.1 (drop j es)) s = tail (user_view (drop i es) s)
    | None => drop j es = []
    end).
Proof.
  intros Hr Ht. revert it i Hr; induction fuel as [|fuel IH]; intros it i Hr Hf; [lia|].
  cbn [find_loop]. rw (fwd_valid _ _ _ Hr).
  destruct (Nat.ltb_spec i (length es)) as [Hi|Hi]; [|apply runs_ret; rw drop_ge //; split; [done|exists i; by rw drop_ge]].
  destruct (lookup_lt_is_Some_2 es i Hi) as [e He].
  eapply runs_bind_lift; [by eapply fwd_seq|]. rw (drop_S _ _ _ He) Z.gtb_ltb.
  destruct (Z.ltb_spec s (seq e)) as [Hs|Hs].
  { eapply runs_bind; [by eapply fwd_next|]. intros it1 Hr1. rw view_newer //. apply IH; [done|lia]. }
  eapply runs_bind_lift; [by eapply fwd_key|]. eapply runs_bind_lift; [by eapply fwd_type|].
  pose proof (sorted_drop es i (fwd_sorted _ _ _ Hr)) as Hsd. rw (drop_S _ _ _ He) in Hsd.
  rw (view_visible _ _ _ Hsd Hs).
  destruct (Forall_lookup_1 _ _ _ _ Ht He) as [Ety | Ety]; rw Ety; cbn [Z.eqb].
  - eapply runs_bind_lift; [by eapply fwd_value|]. apply runs_ret. split; [done|]. exists i.
    rw (drop_S _ _ _ He) (view_visible _ _ _ Hsd Hs) Ety /= Slice.eqb_refl.
    do 2 (split; [done|]). split; [by exists e | done].
  - eapply runs_bind; [by apply (skip_loop_run (S fuel) (user_key e) it es i Hr Hf)|]. intros it1 (j & Hr1 & Ej).
    rw (drop_S _ _ _ He) /= Slice.eqb_refl in Ej. rw -Ej /=.
    apply IH; [done|]. pose proof (skip_key_progress _ _ _ _ Hi (fwd_le _ _ _ Hr1) Ej). lia.
Qed.

(** ** The iterator as a cursor over the rows *)

(** [d] reads [es] at sequence number [s] and stands on row [r], or is not valid when
    [r] is the number of rows. *)
Definition db_rep (d : DBIterator I) (es : list MemtableEntry) (s : SequenceNumber) (r : nat) : Prop :=
  exists it i, iter_ d = Some it /\ rep it es i /\ sequence_ d = s /\ Forall known_type es /\
    (r <= length (user_view es s))%nat /\
    match user_view es s !! r with
    | Some row => valid_ d = true /\ (saved_key_ d, saved_value_ d) = row /\
                  user_view (skip_key row.1 (drop i es)) s = drop (S r) (user_view es s)
    | None => valid_ d = false
    end.

(** After a forward movement the internal iterator stands on the row's own version. *)
Definition db_fresh (d : DBIterator I) (es : list MemtableEntry) (s : SequenceNumber) (r : nat) : Prop :=
  exists it i, iter_ d = Some it /\ rep it es i /\ sequence_ d = s /\ Forall known_type es /\
    (r <= length (user_view es s))%nat /\ user_view (drop i es) s = drop r (user_view es s) /\
    match user_view es s !! r with
    | Some row => valid_ d = true /\ (saved_key_ d, saved_value_ d) = row /\
                  (exists e, head (drop i es) = Some e /\ user_key e = row.1) /\
                  user_view (skip_key row.1 (drop i es)) s = drop (S r) (user_view es s)
    | None => valid_ d = false /\ drop i es = []
    end.

Lemma db_fresh_rep d es s r : db_fresh d es s r -> db_rep d es s r.
Proof.
  intros (it & i & ? & ? & ? & ? & ? & ? & Hrow). exists it, i. split_and!; auto.
  destruct (user_view es s !! r); naive_solver.
Qed.

Lemma FindNextUserEntry_run fuel it es i d r :
  rep it es i -> Forall known_type es -> (length es < fuel)%nat ->
  (r <= length (user_view es (sequence_ d)))%nat ->
  user_view (drop i es) (sequence_ d) = drop r (user_view es (sequence_ d)) ->
  runs inv (FindNextUserEntry fuel it d) (fun d' => db_fresh d' es (sequence_ d) r).
Proof.
  intros Hr Ht Hf Hle Hv. eapply runs_bind; [apply (find_loop_run fuel (sequence_ d) it es i Hr Ht); lia|].
  intros [it' row] [E (j & Hr' & Hv' & Hrow)]. apply runs_ret. simpl in E, Hr'.
  rw Hv in Hrow Hv' E. rw !head_lookup lookup_drop Nat.add_0_r in Hrow E. rw E.
  destruct (user_view es (sequence_ d) !! r) as [[k v]|] eqn:Erow;
    (exists it', j; split_and!; try done; rw Erow); [|done].
  destruct Hrow as [Hhd Htl]. rw !head_lookup. split_and!; auto. by rw Htl (drop_S _ _ _ Erow).
Qed.

Lemma db_SeekToFirst_run fuel d es s r :
  db_rep d es s r -> (length es < fuel)%nat ->
  runs inv (db_SeekToFirst fuel d) (fun d' => db_fresh d' es s 0).
Proof.
  intros (it & i & Ei & Hr & <- & Ht & _) Hf. rw /db_SeekToFirst Ei.
  eapply runs_bind; [by eapply fwd_first|]. intros it' Hr'. apply (FindNextUserEntry_run _ _ _ 0%nat); auto. lia.
Qed.

(** Where [Seek(t)] must stop: the first row whose key is not less than [t]. *)
Fixpoint row_pos (rows : list (bytes * bytes)) (t : bytes) : nat :=
  match rows with
  | [] => O
  | r :: rows' => if Slice.ltb r.1 t then S (row_pos rows' t) else O
  end.

Lemma row_pos_app a b t :
  Forall (fun r : bytes * bytes => Slice.compare r.1 t < 0) a ->
  Forall (fun r : bytes * bytes => 0 <= Slice.compare r.1 t) b -> row_pos (a ++ b) t = length a.
Proof.
  intros Ha Hb. induction Ha as [|r a Hr Ha IH]; simpl; rw /Slice.ltb.
  - destruct Hb as [|r b Hr Hb]; [done|]. simpl. rw /Slice.ltb. by destruct (Z.ltb_spec (Slice.compare r.1 t) 0); [lia|].
  - destruct (Z.ltb_spec (Slice.compare r.1 t) 0); [by f_equal|lia].
Qed.

Lemma view_seek es s t :
  entries_sorted es ->
  user_view (drop (seek_pos es t) es) s = drop (row_pos (user_view es s) t) (user_view es s) /\
  (row_pos (user_view es s) t <= length (user_view es s))%nat.
Proof.
  intros Hs. set (p := seek_pos es t).
  pose proof (seek_pos_take es t) as H1. pose proof (seek_pos_drop es t (entries_sorted_keys es Hs)) as H2.
  rewrite -> Forall_forall in H1, H2.
  assert (E : user_view es s = user_view (take p es) s ++ user_view (drop p es) s).
  { rw -{1}(take_drop p es). apply view_app. intros x y Hx%H1 Hy%H2 Exy. rw Exy in Hx. lia. }
  assert (Ep : row_pos (user_view es s) t = length (user_view (take p es) s)).
  { rw E. apply row_pos_app; apply Forall_forall; intros row (x & Hx & Ex)%elem_of_view; rw -Ex; auto. }
  rw Ep E. split; [by rw drop_app_length|]. rw length_app. lia.
Qed.

Lemma db_Seek_run fuel d es s r t :
  db_rep d es s r -> (length es < fuel)%nat ->
  runs inv (db_Seek fuel t d) (fun d' => db_fresh d' es s (row_pos (user_view es s) t)).
Proof.
  intros (it & i & Ei & Hr & <- & Ht & _) Hf. rw /db_Seek Ei.
  destruct (view_seek es (sequence_ d) t (fwd_sorted _ _ _ Hr)) as [E Hle].
  eapply runs_bind; [by eapply fwd_seek|]. intros it' Hr'. by apply (FindNextUserEntry_run _ _ _ (seek_pos es t)).
Qed.

Lemma db_Next_run fuel d es s r :
  db_rep d es s r -> (r < length (user_view es s))%nat -> (length es < fuel)%nat ->
  runs inv (db_Next fuel d) (fun d' => db_fresh d' es s (S r)).
Proof.
  intros (it & i & Ei & Hr & <- & Ht & _ & Hrow) Hlt Hf.
  destruct (lookup_lt_is_Some_2 _ _ Hlt) as [row Erow]. rw Erow in Hrow. destruct Hrow as (Hv & <- & Hnext).
  rw /db_Next /db_Valid Hv. simpl in Hnext. eapply runs_bind_lift; [exact Ei|].
  eapply runs_bind; [apply (skip_loop_run fuel (saved_key_ d) it es i Hr); lia|]. intros it' (j & Hr' & Ej).
  apply (FindNextUserEntry_run _ _ _ j); auto. by rw Ej.
Qed.

(** ** Passing rows *)

(** The loop passes the [n] rows on which [cond] holds and remembers the last one. *)
Lemma pass_rows_run n turns fuel cond d es s r lastrow :
  db_fresh d es s r -> (length es < fuel)%nat -> (r + n <= length (user_view es s))%nat -> (n < turns)%nat ->
  (forall m row, (r <= m < r + n)%nat -> user_view es s !! m = Some row -> cond row.1 = true) ->
  (forall row, user_view es s !! (r + n)%nat = Some row -> cond row.1 = false) ->
  runs inv (pass_rows turns fuel cond d lastrow) (fun x => db_fresh x.1 es s (r + n) /\
    x.2 = if (n =? 0)%nat then lastrow else user_view es s !! (r + n - 1)%nat).
Proof.
  revert turns d r lastrow; induction n as [|n IH]; intros turns d r lastrow Hd Hf Hn Ht Hc Hstop;
    (destruct turns as [|turns]; [lia|]); simpl.
  - rw Nat.add_0_r in Hstop *. pose proof Hd as (it & i & _ & _ & _ & _ & _ & _ & Hrow).
    assert (db_Valid d && cond (saved_key_ d) = false) as ->; [|by apply runs_ret].
    destruct (user_view es s !! r) as [row|] eqn:Erow.
    + destruct Hrow as (Hv & <- & _). specialize (Hstop _ eq_refl). simpl in Hstop. by rw Hstop andb_false_r.
    + by rw /db_Valid (proj1 Hrow).
  - pose proof Hd as (it & i & _ & _ & _ & _ & _ & _ & Hrow).
    destruct (lookup_lt_is_Some_2 (user_view es s) r) as [row Erow]; [lia|]. rw Erow in Hrow.
    destruct Hrow as (Hv & Ers & _). assert (Hcr : cond (saved_key_ d) = true).
    { rw -(Hc r row) //; [lia|]. by rw -Ers. }
    rw /db_Key /db_Value /db_Valid Hv Hcr. do 2 (eapply runs_bind_lift; [done|]).
    eapply runs_bind; [apply (db_Next_run fuel d es s r (db_fresh_rep _ _ _ _ Hd)); [lia|done]|]. intros d1 Hd1.
    eapply runs_mono; [apply (IH turns d1 (S r) (Some (saved_key_ d, saved_value_ d))); auto; try lia|].
    + intros m row' Hm. apply Hc. lia.
    + intros row'. replace (S r + n)%nat with (r + S n)%nat by lia. apply Hstop.
    + intros [d' x] [Hd' Ep]. simpl in Hd', Ep |- *. replace (r + S n)%nat with (S r + n)%nat by lia. split; [done|]. rw Ep.
      destruct n as [|n]; simpl; [|f_equal; lia]. replace (r + 0 - 0)%nat with r by lia. by rw Erow Ers.
Qed.

(** Putting the row passed last back into the saved fields. *)
Lemma restore_rep d es s r row :
  db_fresh d es s (S r) -> user_view es s !! r = Some row -> db_rep (restore d row) es s r.
Proof.
  intros (it & i & Ei & Hr & Es & Ht & Hle & Hv & Hrow) Erow. exists it, i.
  split_and!; auto; [lia|]. rw Erow. simpl. split; [done|]. split; [by destruct row|].
  destruct (user_view es s !! S r) as [row'|] eqn:Erow'.
  - destruct Hrow as (_ & _ & (e & He & Ek) & _). destruct (drop i es) as [|e' rest] eqn:Ed; [done|].
    injection He as ->. simpl. destruct (Slice.eqb_spec (user_key e) row.1) as [E|_]; [|by rw Hv].
    exfalso. pose proof (StronglySorted_lookup_lt _ _ r (S r) row row' (view_sorted es s (fwd_sorted _ _ _ Hr)) Erow Erow') as Hlt.
    simpl in Hlt. assert (Slice.compare row.1 row'.1 < 0) as Hlt2 by (apply Hlt; lia). rw -E Ek cmp_refl in Hlt2. lia.
  - destruct Hrow as [_ Hd]. rw Hd in Hv *. by rw -Hv.
Qed.

Lemma db_SeekToLast_run fuel d es s r :
  db_rep d es s r -> (length es < fuel)%nat ->
  runs inv (db_SeekToLast fuel d) (fun d' => db_rep d' es s (pred (length (user_view es s)))).
Proof.
  intros Hd Hf. pose proof Hd as (it & i & Ei & _). rw /db_SeekToLast Ei.
  eapply runs_bind; [by apply (db_SeekToFirst_run fuel d es s r Hd Hf)|]. intros d1 Hd1.
  set (n := length (user_view es s)). pose proof (view_length es s) as Hn.
  eapply runs_bind; [apply (pass_rows_run n fuel fuel (fun _ => true) d1 es s 0 None Hd1 Hf); try done|].
  - simpl. lia.
  - simpl. rw lookup_ge_None_2 //.
  - intros [d2 x] [Hd2 Ex]. simpl in Hd2, Ex. rw Ex. apply runs_ret. destruct n as [|n'] eqn:En; simpl; [by apply db_fresh_rep|].
    rw Nat.sub_0_r. destruct (lookup_lt_is_Some_2 (user_view es s) n') as [row Erow]; [fold n in En; lia|].
    rw Erow. by apply restore_rep.
Qed.

Lemma db_Prev_run fuel d es s r :
  db_rep d es s r -> (r < length (user_view es s))%nat -> (length es < fuel)%nat ->
  runs inv (db_Prev fuel d)
    (fun d' => db_rep d' es s (match r with O => length (user_view es s) | S r' => r' end)).
Proof.
  intros Hd Hlt Hf. pose proof Hd as (it & i & Ei & Hr & _ & _ & _ & Hrow).
  destruct (lookup_lt_is_Some_2 _ _ Hlt) as [row Erow]. rw Erow in Hrow. destruct Hrow as (Hv & Ers & _).
  rw /db_Prev /db_Valid Hv. eapply runs_bind; [by apply (db_SeekToFirst_run fuel d es s r Hd Hf)|]. intros d1 Hd1.
  pose proof (view_sorted es s (fwd_sorted _ _ _ Hr)) as Hsorted. pose proof (view_length es s) as Hn.
  eapply runs_bind; [apply (pass_rows_run r fuel fuel (fun k => Slice.ltb k (saved_key_ d)) d1 es s 0 None Hd1 Hf);
    try (simpl; lia)|].
  - intros m row' Hm Em. pose proof (StronglySorted_lookup_lt _ _ m r _ _ Hsorted Em Erow) as Hmr.
    rw /Slice.ltb. apply Z.ltb_lt. rw -Ers /= in Hmr. apply Hmr. lia.
  - intros row' Er. simpl in Er. assert (row' = row) as -> by congruence. rw -Ers /Slice.ltb /= cmp_refl //.
  - intros [d2 x] [Hd2 Ex]. simpl in Hd2, Ex. rw Ex. apply runs_ret. destruct r as [|r']; simpl.
    + destruct Hd2 as (it2 & i2 & ? & ? & ? & ? & _). exists it2, i2. split_and!; auto.
      by rw lookup_ge_None_2.
    + rw Nat.sub_0_r. destruct (lookup_lt_is_Some_2 (user_view es s) r') as [row' Erow']; [lia|].
      rw Erow'. by apply restore_rep.
Qed.
End db_iterator_proofs.

(** ** Scanning *)

Section scan.
Context {St I : Type} `{HI : It.Internal St I}.

(** [for (it->SeekToFirst(); it->Valid(); it->Next())], collecting the rows. *)
Fixpoint collect_rows (turns fuel : nat) (d : DBIterator I) : SM St (list (bytes * bytes)) :=
  match turns with
  | O => lift None
  | S turns' =>
      if db_Valid d then
        k ← lift (db_Key d); v ← lift (db_Value d); d' ← db_Next fuel d;
        rows ← collect_rows turns' fuel d'; mret ((k, v) :: rows)
      else mret []
  end.

Definition scan (fuel : nat) (d : DBIterator I) : SM St (list (bytes * bytes)) :=
  d ← db_SeekToFirst fuel d; collect_rows fuel fuel d.

Context (inv : St -> Prop) (rep : cursor_rep I) `{!ForwardIterator St I inv rep}.

Lemma NewDBIterator_rep it es i s :
  rep it es i -> Forall (fun e => type e = kTypeValue \/ type e = kTypeDeletion) es ->
  db_rep rep (NewDBIterator (Some it) s) es s (length (user_view es s)).
Proof. intros Hr Ht. exists it, i. split_and!; auto. by rw lookup_ge_None_2. Qed.

Lemma collect_rows_run turns fuel d es s r :
  db_rep rep d es s r -> (length es < fuel)%nat -> (length (user_view es s) - r < turns)%nat ->
  runs inv (collect_rows turns fuel d) (fun rows => rows = drop r (user_view es s)).
Proof.
  revert d r; induction turns as [|turns IH]; intros d r Hd Hf Ht; [lia|].
  pose proof Hd as (it & i & _ & _ & _ & _ & Hle & Hrow). simpl.
  destruct (user_view es s !! r) as [row|] eqn:Erow.
  - destruct Hrow as (Hv & Ers & _). rw /db_Key /db_Value /db_Valid Hv. do 2 (eapply runs_bind_lift; [done|]).
    pose proof (lookup_lt_Some _ _ _ Erow) as Hlt.
    eapply runs_bind; [by apply (db_Next_run inv rep fuel d es s r Hd Hlt Hf)|]. intros d' Hd'.
    eapply runs_bind; [apply (IH d' (S r)); [by apply db_fresh_rep|done|lia]|]. intros rows ->.
    apply runs_ret. by rw (drop_S _ _ _ Erow) Ers.
  - rw /db_Valid Hrow. apply runs_ret. apply lookup_ge_None in Erow. by rw drop_ge.
Qed.

Lemma scan_run fuel it es i s :
  rep it es i -> Forall (fun e => type e = kTypeValue \/ type e = kTypeDeletion) es -> (length es < fuel)%nat ->
  runs inv (scan fuel (NewDBIterator (Some it) s)) (fun rows => rows = user_view es s).
Proof.
  intros Hr Ht Hf. pose proof (NewDBIterator_rep it es i s Hr Ht) as Hd.
  eapply runs_bind; [by apply (db_SeekToFirst_run inv rep fuel _ es s _ Hd Hf)|]. intros d Hd'.
  apply (collect_rows_run fuel fuel d es s 0); auto; [by apply db_fresh_rep|]. pose proof (view_length es s). lia.
Qed.
End scan.

(** A row of the view is the newest visible version of its key, and a value. *)
Lemma elem_of_user_view es s k v :
  (k, v) ∈ user_view es s <-> exists e, newest es k s = Some e /\ type e = kTypeValue /\ value e = v.
Proof.
  rw /user_view list_elem_of_omap. split.
  - intros (k' & _ & E). rw /row_of in E. destruct (newest es k' s) as [e|] eqn:En; [|done]. simpl in E.
    destruct (Z.eqb_spec (type e) kTypeValue); [|done]. injection E as <- <-. eauto.
  - intros (e & En & Et & <-). exists k. rw /row_of En /= Et. split; [|done].
    apply newest_Some in En as (He & Se & _). apply sees_true in Se as [<- _]. apply elem_of_user_keys. eauto.
Qed.

(** ** The claims *)

(** C11: over an internal iterator that keeps the forward contract, the database
    iterator is a cursor over the rows its snapshot sees: wherever it stands,
    [SeekToFirst], [SeekToLast] and [Seek(target)] return on the first row, on the
    last row and on the first row whose key is not less than the target, [Next] and
    [Prev] move by one row and leave the rows at their ends, and the key and value
    shown are the row's.  All loops end within a fuel of one more than the number
    of internal entries. *)
Theorem db_iterator_is_row_cursor {St I : Type} `{HI : It.Internal St I}
    (inv : St -> Prop) (rep : cursor_rep I) `{!ForwardIterator St I inv rep}
    (fuel : nat) (d : DBIterator I) (es : list MemtableEntry) (s : SequenceNumber) (r : nat) :
  let rows := user_view es s in
  let at_row i := fun d' => db_rep rep d' es s i in
  db_rep rep d es s r -> (length es < fuel)%nat ->
  (forall row, rows !! r = Some row -> db_Valid d = true /\ db_Key d = Some row.1 /\ db_Value d = Some row.2) /\
  (rows !! r = None -> db_Valid d = false) /\
  runs inv (db_SeekToFirst fuel d) (at_row 0%nat) /\
  runs inv (db_SeekToLast fuel d) (at_row (pred (length rows))) /\
  (forall t, runs inv (db_Seek fuel t d) (at_row (row_pos rows t))) /\
  ((r < length rows)%nat -> runs inv (db_Next fuel d) (at_row (S r))) /\
  ((r < length rows)%nat -> runs inv (db_Prev fuel d) (at_row (match r with O => length rows | S r' => r' end))).
Proof.
  intros rows at_row Hd Hf. split_and!.
  - intros row Erow. pose proof Hd as (it & i & _ & _ & _ & _ & _ & Hrow). fold rows in Hrow. rw Erow in Hrow.
    destruct Hrow as (Hv & <- & _). by rw /db_Key /db_Value /db_Valid Hv.
  - intros Erow. pose proof Hd as (it & i & _ & _ & _ & _ & _ & Hrow). fold rows in Hrow. by rw Erow in Hrow.
  - eapply runs_mono; [by apply (db_SeekToFirst_run inv rep fuel d es s r)|]. intros d'. apply db_fresh_rep.
  - by apply (db_SeekToLast_run inv rep fuel d es s r).
  - intros t. eapply runs_mono; [by apply (db_Seek_run inv rep fuel d es s r t)|]. intros d'. apply db_fresh_rep.
  - intros Hlt. eapply runs_mono; [by apply (db_Next_run inv rep fuel d es s r)|]. intros d'. apply db_fresh_rep.
  - intros Hlt. by apply (db_Prev_run inv rep fuel d es s r).
Qed.

(** Versions of two keys, one of them deleted in between. *)
Definition sample_entries : list MemtableEntry :=
  [mkEntry (str "a") 5 kTypeValue (str "z"); mkEntry (str "a") 3 kTypeDeletion [];
   mkEntry (str "a") 1 kTypeValue (str "x"); mkEntry (str "b") 2 kTypeValue (str "y");
   mkEntry (str "c") 4 kTypeValue (str "w")].

Lemma sample_entries_rep : list_rep (sample_entries, 0%nat) sample_entries 0%nat.
Proof. split_and!; [done| |simpl; lia]. repeat constructor. Qed.

Lemma db_iterator_is_row_cursor_witness :
  exists d, db_SeekToLast 6 (NewDBIterator (Some (sample_entries, 0%nat)) 4) tt = Some (d, tt) /\
    db_rep list_rep d sample_entries 4 1 /\ user_view sample_entries 4 = [(str "b", str "y"); (str "c", str "w")].
Proof.
  assert (Hv : user_view sample_entries 4 = [(str "b", str "y"); (str "c", str "w")]) by by vm_compute.
  destruct (db_iterator_is_row_cursor pure list_rep 6 (NewDBIterator (Some (sample_entries, 0%nat)) 4) sample_entries 4 2)
    as (_ & _ & _ & (d & E & Hd)%runs_pure & _).
  - change 2%nat with (length [(str "b", str "y"); (str "c", str "w")]). rw -Hv.
    apply (NewDBIterator_rep list_rep (sample_entries, 0%nat) _ 0); [apply sample_entries_rep|].
    repeat (apply Forall_cons; split; [by (left + right)|]). constructor.
  - simpl. lia.
  - exists d. split; [done|]. rw Hv in Hd. by split.
Defined.
