(* ===== verification/Block.v ===== *)
(** * Block: data and index blocks

    Models [src/block.h] and [src/block.cc]: [BlockHandle], [BlockBuilder], [Block]
    and [Block::Iter].  A read through [data_] is partial: [None] is a read outside
    the block's bytes, or a failed [assert].  Loops have fuel; the block's size plus
    one is enough for the linear scans, and the number of restarts for the searches. *)

From S2P Require Import Prelude Status Slice Coding Format Entry Iterator.

(** ** [BlockHandle] *)

Record BlockHandle := mkHandle {
  handle_offset : Z;
  handle_size : Z;
}.

Definition BlockHandle_EncodeTo (h : BlockHandle) (dst : bytes) : bytes :=
  PutFixed64 (PutFixed64 dst (handle_offset h)) (handle_size h).

(** [DecodeFrom(input)]: the status, the handle and the rest of the input. *)
Definition BlockHandle_DecodeFrom (h : BlockHandle) (input : bytes) : option (Status.t * BlockHandle * bytes) :=
  if size_of input <? 16 then Some (Status.Corruption [Status.Lit "Bad block handle"], h, input)
  else
    offset ← DecodeFixed64 input 0;
    size ← DecodeFixed64 input 8;
    rest ← Slice.remove_prefix input 16;
    Some (Status.OK, mkHandle offset size, rest).

(** ** [BlockBuilder] *)

Record BlockBuilder := mkBuilder {
  restart_interval_ : Z;
  buffer_ : bytes;
  restarts_ : list Z;
  counter_ : Z;
  finished_ : bool;
}.

Definition NewBlockBuilder (restart_interval : Z) : BlockBuilder :=
  mkBuilder restart_interval [] [0] 0 false.

Definition BlockBuilder_Reset (b : BlockBuilder) : BlockBuilder :=
  mkBuilder (restart_interval_ b) [] [0] 0 false.

(** The bytes [Add] appends for one entry. *)
Definition encode_entry (e : MemtableEntry) : bytes :=
  EncodeFixed32 (u32 (size_of (user_key e))) ++ user_key e ++ EncodeFixed64 (seq e) ++
  [byte_of_Z (type e)] ++ EncodeFixed32 (u32 (size_of (value e))) ++ value e.

Definition BlockBuilder_Add (b : BlockBuilder) (s : SequenceNumber) (t : ValueType) (key val : bytes) :
    option BlockBuilder :=
  if finished_ b then None else
  let '(restarts, counter) :=
    if counter_ b >=? restart_interval_ b
    then (restarts_ b ++ [u32 (size_of (buffer_ b))], 0)
    else (restarts_ b, counter_ b) in
  let buffer := PutFixed32 (buffer_ b) (u32 (size_of key)) ++ key in
  let buffer := PutFixed64 buffer s ++ [byte_of_Z t] in
  let buffer := PutFixed32 buffer (u32 (size_of val)) ++ val in
  Some (mkBuilder (restart_interval_ b) buffer restarts (counter + 1) false).

Definition BlockBuilder_Finish (b : BlockBuilder) : bytes * BlockBuilder :=
  let buffer := foldl PutFixed32 (buffer_ b) (restarts_ b) in
  let buffer := PutFixed32 buffer (u32 (Z.of_nat (length (restarts_ b)))) in
  (buffer, mkBuilder (restart_interval_ b) buffer (restarts_ b) (counter_ b) true).

Definition BlockBuilder_CurrentSizeEstimate (b : BlockBuilder) : Z :=
  size_of (buffer_ b) + Z.of_nat (length (restarts_ b)) * 4 + 4.

Definition BlockBuilder_Empty (b : BlockBuilder) : bool := bool_decide (buffer_ b = []).

(** ** [Block] *)

Record Block := mkBlock {
  data_ : bytes;
  restarts_offset_ : Z;
  num_restarts_ : Z;
}.

(** The constructor. *)
Definition NewBlock (data : bytes) : option Block :=
  if size_of data >=? 4 then
    n ← DecodeFixed32 data (size_of data - 4);
    let max_restarts := (size_of data - 4) / 4 in
    if n <=? max_restarts
    then Some (mkBlock data (u32 (size_of data - u32 (1 + n) * 4)) n)
    else Some (mkBlock data 0 0)
  else Some (mkBlock data 0 0).

(** ** [Block::Iter] *)

Record BlockIter := mkBlockIter {
  block_ : Block;
  current_ : Z;
  next_offset_ : Z;
  current_key_ : bytes;
  current_seq_ : SequenceNumber;
  current_type_ : ValueType;
  current_value_ : bytes;
  status_ : Status.t;
}.

Definition NewBlockIter (b : Block) : BlockIter :=
  mkBlockIter b (restarts_offset_ b) 0 [] 0 kTypeValue [] Status.OK.

Definition set_current (c : Z) (it : BlockIter) : BlockIter :=
  mkBlockIter (block_ it) c (next_offset_ it) (current_key_ it) (current_seq_ it) (current_type_ it)
    (current_value_ it) (status_ it).

(** [current_ = restarts_offset_]: no longer valid. *)
Definition invalidate (it : BlockIter) : BlockIter := set_current (restarts_offset_ (block_ it)) it.

Definition fail_with (msg : Status.t) (it : BlockIter) : BlockIter :=
  mkBlockIter (block_ it) (restarts_offset_ (block_ it)) (next_offset_ it) (current_key_ it) (current_seq_ it)
    (current_type_ it) (current_value_ it) msg.

Definition blk_Valid (it : BlockIter) : bool := current_ it <? restarts_offset_ (block_ it).

Definition GetRestartOffset (it : BlockIter) (index : Z) : option Z :=
  let b := block_ it in
  if index <? num_restarts_ b
  then DecodeFixed32 (data_ b) (restarts_offset_ b + index * 4)
  else None.

Definition ParseEntryAt (it : BlockIter) (offset : Z) : option BlockIter :=
  let b := block_ it in
  let data := data_ b in
  let ro := restarts_offset_ b in
  if offset >=? ro then Some (invalidate it)
  else if offset + 17 >? ro then
    Some (fail_with (Status.Corruption [Status.Lit "Truncated block entry"]) it)
  else
    klen ← DecodeFixed32 data offset;
    if offset + 17 + klen >? ro then
      Some (fail_with (Status.Corruption [Status.Lit "Truncated block entry key"]) it)
    else
      let key := sub_bytes data (offset + 4) klen in
      s ← DecodeFixed64 data (offset + 4 + klen);
      t ← byte_at data (offset + 4 + klen + 8);
      vlen ← DecodeFixed32 data (offset + 4 + klen + 9);
      if offset + 17 + klen + vlen >? ro then
        Some (fail_with (Status.Corruption [Status.Lit "Truncated block entry value"])
                (mkBlockIter b (current_ it) (next_offset_ it) key s (Z_of_byte t) (current_value_ it) (status_ it)))
      else
        let val := sub_bytes data (offset + 4 + klen + 13) vlen in
        Some (mkBlockIter b offset (u32 (offset + 17 + klen + vlen)) key s (Z_of_byte t) val (status_ it)).

Definition blk_SeekToFirst (it : BlockIter) : option BlockIter :=
  if num_restarts_ (block_ it) =? 0 then Some (invalidate it) else ParseEntryAt it 0.

(** [while (true) { ParseEntryAt(offset); if (next_offset_ >= limit) break; offset = next_offset_; }] *)
Fixpoint scan_to (fuel : nat) (limit : Z) (it : BlockIter) (offset : Z) : option BlockIter :=
  match fuel with
  | O => None
  | S fuel' =>
      it ← ParseEntryAt it offset;
      if next_offset_ it >=? limit then Some it else scan_to fuel' limit it (next_offset_ it)
  end.

(** Enough turns for a scan of the block. *)
Definition scan_fuel (it : BlockIter) : nat := S (length (data_ (block_ it))).

Definition blk_SeekToLast (it : BlockIter) : option BlockIter :=
  if num_restarts_ (block_ it) =? 0 then Some (invalidate it)
  else
    offset ← GetRestartOffset it (num_restarts_ (block_ it) - 1);
    scan_to (scan_fuel it) (restarts_offset_ (block_ it)) it offset.

(** The binary search of [Seek] and [Prev]: [below mid] tells whether the restart
    point [mid] is before what is looked for. *)
Fixpoint restart_search (fuel : nat) (below : Z -> option bool) (left right target_restart : Z) : option Z :=
  if left <=? right then
    match fuel with
    | O => None
    | S fuel' =>
        let mid := left + (right - left) / 2 in
        match below mid with
        | None => None
        | Some true => restart_search fuel' below (mid + 1) right mid
        | Some false => restart_search fuel' below left (mid - 1) target_restart
        end
    end
  else Some target_restart.

Definition find_restart (it : BlockIter) (below : Z -> option bool) : option Z :=
  let n := num_restarts_ (block_ it) in
  restart_search (Z.to_nat n) below 0 (to_int n - 1) 0.

(** [std::string_view(data_ + offset + 4, klen) < target]: the comparison reads the
    shorter of the two lengths. *)
Definition view_lt (data : bytes) (off klen : Z) (target : bytes) : option bool :=
  let n := Z.min klen (size_of target) in
  if off + n <=? size_of data then
    let r := Slice.memcmp (sub_bytes data off n) target (Z.to_nat n) in
    Some (if r =? 0 then klen <? size_of target else r <? 0)
  else None.

(** The linear part of [Seek]. *)
Fixpoint seek_scan (fuel : nat) (target : bytes) (it : BlockIter) (offset : Z) : option BlockIter :=
  match fuel with
  | O => None
  | S fuel' =>
      if offset <? restarts_offset_ (block_ it) then
        it ← ParseEntryAt it offset;
        if negb (blk_Valid it) then Some (invalidate it)
        else if Slice.geb (current_key_ it) target then Some it
        else seek_scan fuel' target it (next_offset_ it)
      else Some (invalidate it)
  end.

(** Is the first key of the restart point [mid] less than the target? *)
Definition seek_below (target : bytes) (it : BlockIter) (mid : Z) : option bool :=
  offset ← GetRestartOffset it mid;
  klen ← DecodeFixed32 (data_ (block_ it)) offset;
  view_lt (data_ (block_ it)) (offset + 4) klen target.

Definition blk_Seek (target : bytes) (it : BlockIter) : option BlockIter :=
  if num_restarts_ (block_ it) =? 0 then Some (invalidate it)
  else
    tr ← find_restart it (seek_below target it);
    offset ← GetRestartOffset it tr;
    seek_scan (scan_fuel it) target it offset.

Definition blk_Next (it : BlockIter) : option BlockIter :=
  if blk_Valid it then ParseEntryAt it (next_offset_ it) else None.

Definition blk_Prev (it : BlockIter) : option BlockIter :=
  if blk_Valid it then
    let original := current_ it in
    tr ← find_restart it (fun mid => offset ← GetRestartOffset it mid; Some (offset <? original));
    offset ← GetRestartOffset it tr;
    if offset >=? original then Some (invalidate it)
    else scan_to (scan_fuel it) original it offset
  else None.

Definition blk_Key (it : BlockIter) : option bytes := Some (current_key_ it).
Definition blk_Value (it : BlockIter) : option bytes := Some (current_value_ it).
Definition blk_Seq (it : BlockIter) : option SequenceNumber := Some (current_seq_ it).
Definition blk_Type (it : BlockIter) : option ValueType := Some (current_type_ it).
Definition blk_status (it : BlockIter) : Status.t := status_ it.

(** [Block::Iter] has the methods of an internal iterator. *)
#[global] Instance block_view : It.View BlockIter := {
  It.Valid := blk_Valid;
  It.Key := blk_Key;
  It.Value := blk_Value;
  It.Seq := blk_Seq;
  It.Type_ := blk_Type;
  It.status := blk_status;
}.

(** The block is in memory: moving has no effect on other objects. *)
#[global] Instance block_iterator {St} : It.Internal St BlockIter := {
  It.SeekToFirst it := lift (blk_SeekToFirst it);
  It.SeekToLast it := lift (blk_SeekToLast it);
  It.Seek t it := lift (blk_Seek t it);
  It.Next it := lift (blk_Next it);
  It.Prev it := lift (blk_Prev it);
}.

(** ** The bytes of a block *)

Definition body (es : list MemtableEntry) : bytes := concat (encode_entry <$> es).

(** The offset of the [i]-th entry. *)
Definition off (es : list MemtableEntry) (i : nat) : Z := size_of (body (take i es)).

(** The restart array and its length. *)
Definition restart_bytes (restarts : list Z) : bytes := concat (EncodeFixed32 <$> restarts).
Definition trailer (restarts : list Z) : bytes :=
  restart_bytes restarts ++ EncodeFixed32 (u32 (Z.of_nat (length restarts))).

(** An entry whose fields are within the widths of the format. *)
Record entry_ok (e : MemtableEntry) : Prop := {
  ok_seq : 0 <= seq e < 2 ^ 64;
  ok_type : 0 <= type e < 256;
}.

Lemma size_encode_entry e : size_of (encode_entry e) = 17 + size_of (user_key e) + size_of (value e).
Proof. rw /encode_entry. size_tac. Qed.

Lemma body_app a b : body (a ++ b) = body a ++ body b.
Proof. by rw /body fmap_app concat_app. Qed.

Lemma body_cons e es : body (e :: es) = encode_entry e ++ body es.
Proof. done. Qed.

Lemma off_0 es : off es 0 = 0.
Proof. done. Qed.

Lemma off_length es : off es (length es) = size_of (body es).
Proof. by rw /off firstn_all. Qed.

Lemma off_S es i e : es !! i = Some e -> off es (S i) = off es i + (17 + size_of (user_key e) + size_of (value e)).
Proof. intros He. rw /off (take_S_r _ _ _ He) body_app size_of_app body_cons app_nil_r size_encode_entry. lia. Qed.

Lemma off_lt es i j : (i < j <= length es)%nat -> off es i + 17 <= off es j.
Proof.
  induction j as [|j IH]; [lia|]. intros Hj. destruct (lookup_lt_is_Some_2 es j) as [e He]; [lia|].
  rw (off_S _ _ _ He). destruct (decide (i = j)) as [->|]; [size_tac|]. specialize (IH ltac:(lia)). size_tac.
Qed.

Lemma off_le es i : off es i <= size_of (body es).
Proof. rw -{2}(take_drop i es) body_app /off. size_tac. Qed.

Lemma off_lt_iff es i j : (i <= length es)%nat -> (j <= length es)%nat -> off es i < off es j <-> (i < j)%nat.
Proof.
  intros Hi Hj. split.
  - intros Hlt. destruct (Nat.lt_trichotomy i j) as [?|[->|?]]; [done|lia|]. pose proof (off_lt es j i). lia.
  - intros Hlt. pose proof (off_lt es i j). lia.
Qed.

Lemma size_restart_bytes rs : size_of (restart_bytes rs) = 4 * Z.of_nat (length rs).
Proof. induction rs as [|r rs IH]; [done|]. rw /restart_bytes /= -/(restart_bytes rs) size_of_app size_EncodeFixed32 IH. lia. Qed.

Lemma length_le_body es : (length es <= length (body es))%nat.
Proof.
  induction es as [|e es IH]; [done|]. pose proof (size_encode_entry e) as He. rw /size_of in He.
  rw body_cons length_app /=. lia.
Qed.

(** [b] is the block of the entries [es] with restart points at the entries [rs]. *)
Record built (b : Block) (es : list MemtableEntry) (rs : list nat) : Prop := {
  bt_data : data_ b = body es ++ trailer (off es <$> rs);
  bt_offset : restarts_offset_ b = size_of (body es);
  bt_num : num_restarts_ b = Z.of_nat (length rs);
  bt_size : size_of (body es) < 2 ^ 32;
  bt_few : Z.of_nat (length rs) < 2 ^ 31;
  bt_first : rs !! 0%nat = Some 0%nat;
  bt_range : Forall (fun r => r < length es \/ r = 0)%nat rs;
  bt_entries : Forall entry_ok es;
}.

Lemma built_data_at b es rs i e :
  built b es rs -> es !! i = Some e ->
  exists R, data_ b = body (take i es) ++ encode_entry e ++ R.
Proof.
  intros B He. exists (body (drop (S i) es) ++ trailer (off es <$> rs)).
  rw (bt_data _ _ _ B) -{1}(take_drop i es) (drop_S _ _ _ He) body_app body_cons -!app_assoc //.
Qed.

Lemma GetRestartOffset_run it es rs j r :
  built (block_ it) es rs -> rs !! j = Some r -> GetRestartOffset it (Z.of_nat j) = Some (off es r).
Proof.
  intros B Hj. pose proof (lookup_lt_Some _ _ _ Hj) as Hlt.
  rw /GetRestartOffset (bt_num _ _ _ B) (bt_offset _ _ _ B). destruct (Z.ltb_spec (Z.of_nat j) (Z.of_nat (length rs))); [|lia].
  rw (bt_data _ _ _ B) /trailer -(take_drop j rs) (drop_S _ _ _ Hj) fmap_app fmap_cons /restart_bytes fmap_app concat_app /=.
  rw -/(restart_bytes (off es <$> take j rs)).
  rw -!app_assoc. rewrite -> (app_assoc (body es)). rw DecodeFixed32_Encode.
  - rw size_of_app size_restart_bytes length_fmap length_take. lia.
  - f_equal. apply u32_small. pose proof (off_le es r). pose proof (bt_size _ _ _ B). rw /off in H0 *. size_tac.
Qed.

(** The fields of an encoded entry, read back at their offsets. *)
Lemma decode_entry_fields a e R data :
  data = a ++ encode_entry e ++ R ->
  entry_ok e -> size_of (user_key e) < 2 ^ 32 -> size_of (value e) < 2 ^ 32 ->
  DecodeFixed32 data (size_of a) = Some (size_of (user_key e)) /\
  sub_bytes data (size_of a + 4) (size_of (user_key e)) = user_key e /\
  DecodeFixed64 data (size_of a + 4 + size_of (user_key e)) = Some (seq e) /\
  byte_at data (size_of a + 4 + size_of (user_key e) + 8) = Some (byte_of_Z (type e)) /\
  DecodeFixed32 data (size_of a + 4 + size_of (user_key e) + 9) = Some (size_of (value e)) /\
  sub_bytes data (size_of a + 4 + size_of (user_key e) + 13) (size_of (value e)) = value e.
Proof.
  destruct e as [k s t v]. rw /encode_entry. cbn [user_key seq type value].
  intros ED [Hs Ht] Hk Hv. cbn [user_key seq type value] in *.
  rw (u32_small (size_of k)) in ED; [size_tac|]. rw (u32_small (size_of v)) in ED; [size_tac|].
  remember (EncodeFixed32 (size_of k)) as F eqn:EF. remember (EncodeFixed64 s) as S eqn:ES.
  remember (EncodeFixed32 (size_of v)) as G eqn:EG. set (b := byte_of_Z t) in *.
  assert (HF : size_of F = 4) by (rw EF; apply size_EncodeFixed32).
  assert (HS : size_of S = 8) by (rw ES; apply size_EncodeFixed64).
  assert (HG : size_of G = 4) by (rw EG; apply size_EncodeFixed32).
  split_and!.
  - rw ED -!app_assoc EF DecodeFixed32_Encode // u32_small //; size_tac.
  - assert (ED' : data = (a ++ F) ++ k ++ (S ++ [b] ++ G ++ v ++ R)) by rw ED -!app_assoc //.
    rw ED'. apply sub_bytes_mid; size_tac.
  - assert (ED' : data = (a ++ F ++ k) ++ S ++ ([b] ++ G ++ v ++ R)) by rw ED -!app_assoc //.
    rw ED' ES DecodeFixed64_Encode; [size_tac|]. by rw u64_small.
  - assert (ED' : data = (a ++ F ++ k ++ S) ++ ([b] ++ G ++ v ++ R)) by rw ED -!app_assoc //.
    rw ED'. rewrite -> byte_at_app_r by size_tac. rw byte_at_eq.
    assert (size_of a + 4 + size_of k + 8 - size_of (a ++ F ++ k ++ S) = 0) as -> by size_tac. reflexivity.
  - assert (ED' : data = (a ++ F ++ k ++ S ++ [b]) ++ G ++ (v ++ R)) by rw ED -!app_assoc //.
    rw ED' EG DecodeFixed32_Encode; [size_tac|]. rw u32_small //. size_tac.
  - assert (ED' : data = (a ++ F ++ k ++ S ++ [b] ++ G) ++ v ++ R) by rw ED -!app_assoc //.
    rw ED'. apply sub_bytes_mid; size_tac.
Qed.

(** Parsing at the offset of an entry. *)
Lemma ParseEntryAt_run it es rs i e :
  built (block_ it) es rs -> es !! i = Some e ->
  ParseEntryAt it (off es i) =
    Some (mkBlockIter (block_ it) (off es i) (off es (S i)) (user_key e) (seq e) (type e) (value e) (status_ it)).
Proof.
  intros B He. destruct (built_data_at _ _ _ _ _ B He) as (R & ED).
  pose proof (bt_size _ _ _ B) as Hsz. pose proof (off_S _ _ _ He) as HS. pose proof (off_le es (S i)) as Hle.
  pose proof (Forall_lookup_1 _ _ _ _ (bt_entries _ _ _ B) He) as Hok.
  assert (Ha : off es i = size_of (body (take i es))) by done.
  pose proof (size_of_nonneg (body (take i es))). pose proof (size_of_nonneg (user_key e)). pose proof (size_of_nonneg (value e)).
  destruct (decode_entry_fields (body (take i es)) e R _ ED Hok) as (F1 & F2 & F3 & F4 & F5 & F6); [lia|lia|].
  rw /ParseEntryAt (bt_offset _ _ _ B) Z.geb_leb !Z.gtb_ltb Ha.
  destruct (Z.leb_spec (size_of (body es)) (size_of (body (take i es)))); [lia|].
  destruct (Z.ltb_spec (size_of (body es)) (size_of (body (take i es)) + 17)); [lia|].
  rw F1. cbn [mbind option_bind]. rw !Z.gtb_ltb.
  destruct (Z.ltb_spec (size_of (body es)) (size_of (body (take i es)) + 17 + size_of (user_key e))); [lia|].
  rw F3 F4 F5 F2. cbn [mbind option_bind]. rw !Z.gtb_ltb F6.
  destruct (Z.ltb_spec (size_of (body es)) (size_of (body (take i es)) + 17 + size_of (user_key e) + size_of (value e))); [lia|].
  rw Z_of_byte_of_Z Z.mod_small; [apply Hok|]. rw u32_small; [lia|]. do 2 f_equal. lia.
Qed.

Lemma ParseEntryAt_end it es rs offset :
  built (block_ it) es rs -> size_of (body es) <= offset -> ParseEntryAt it offset = Some (invalidate it).
Proof. intros B H. rw /ParseEntryAt (bt_offset _ _ _ B) Z.geb_leb. by destruct (Z.leb_spec (size_of (body es)) offset); [|lia]. Qed.

(** ** Searching the restart points *)

(** The search returns restart point 0 or one that is below. *)
Lemma restart_search_run (f : Z -> bool) below n fuel left right tr :
  (forall mid, 0 <= mid < n -> below mid = Some (f mid)) ->
  0 <= left -> right < n -> right - left < Z.of_nat fuel -> 0 <= tr < n -> tr = 0 \/ f tr = true ->
  exists tr', restart_search fuel below left right tr = Some tr' /\ 0 <= tr' < n /\ (tr' = 0 \/ f tr' = true).
Proof.
  intros Hb. revert left right tr. induction fuel as [|fuel IH]; intros left right tr Hl Hr Hf Htr Hp; simpl.
  - destruct (Z.leb_spec left right); [lia|]. by exists tr.
  - destruct (Z.leb_spec left right) as [Hle|]; [|by exists tr].
    set (mid := left + (right - left) / 2).
    assert (left <= mid <= right).
    { rw /mid. pose proof (Z.div_pos (right - left) 2). pose proof (Z.div_le_upper_bound (right - left) 2 (right - left)). lia. }
    rw Hb; [lia|]. destruct (f mid) eqn:Ef; apply IH; auto; lia.
Qed.

Lemma find_restart_run it es rs below f :
  built (block_ it) es rs -> (forall mid, 0 <= mid < Z.of_nat (length rs) -> below mid = Some (f mid)) ->
  exists j r, find_restart it below = Some (Z.of_nat j) /\ rs !! j = Some r /\ (r = 0%nat \/ f (Z.of_nat j) = true).
Proof.
  intros B Hb. pose proof (lookup_lt_Some _ _ _ (bt_first _ _ _ B)) as Hpos. pose proof (bt_few _ _ _ B) as Hfew.
  rw /find_restart (bt_num _ _ _ B) Nat2Z.id /to_int.
  destruct (Z.ltb_spec (Z.of_nat (length rs)) (2 ^ 31)); [|lia].
  destruct (restart_search_run f below (Z.of_nat (length rs)) (length rs) 0 (Z.of_nat (length rs) - 1) 0)
    as (tr & E & Hr & Hp); auto; try lia.
  destruct (lookup_lt_is_Some_2 rs (Z.to_nat tr)) as [r Hrs]; [lia|].
  exists (Z.to_nat tr), r. rw Z2Nat.id; [lia|]. split_and!; auto. destruct Hp as [->|?]; [|by right].
  left. pose proof (bt_first _ _ _ B) as H0. change (Z.to_nat 0) with 0%nat in Hrs. congruence.
Qed.

(** ** Scanning entries *)

(** The iterator on the [i]-th entry. *)
Definition at_entry (it : BlockIter) (es : list MemtableEntry) (i : nat) (e : MemtableEntry) : BlockIter :=
  mkBlockIter (block_ it) (off es i) (off es (S i)) (user_key e) (seq e) (type e) (value e) (status_ it).

Lemma scan_to_run fuel limit it es rs i j e :
  built (block_ it) es rs -> es !! j = Some e -> (i <= j)%nat -> (j - i < fuel)%nat ->
  limit <= off es (S j) -> (forall k, (i <= k < j)%nat -> off es (S k) < limit) ->
  scan_to fuel limit it (off es i) = Some (at_entry it es j e).
Proof.
  intros B He. revert it i B. induction fuel as [|fuel IH]; intros it i B Hij Hf Hlim Hk; [lia|].
  pose proof (lookup_lt_Some _ _ _ He) as Hj. destruct (lookup_lt_is_Some_2 es i) as [x Hx]; [lia|].
  cbn [scan_to]. rw (ParseEntryAt_run _ _ _ _ _ B Hx). cbn [mbind option_bind next_offset_]. rw Z.geb_leb.
  destruct (decide (i = j)) as [->|Hne].
  - rw (proj2 (Z.leb_le _ _)) //. by simplify_eq.
  - destruct (Z.leb_spec limit (off es (S i))) as [Hle|Hgt]; [specialize (Hk i ltac:(lia)); lia|].
    rw IH //; try lia. intros k Hki. apply Hk. lia.
Qed.

Lemma scan_fuel_enough it es rs : built (block_ it) es rs -> (length es < scan_fuel it)%nat.
Proof. intros B. rw /scan_fuel (bt_data _ _ _ B) length_app. pose proof (length_le_body es). lia. Qed.

(** The iterator stands on the first entry from [i] on whose key is not less than the
    target, or is not valid when there is none. *)
Lemma seek_scan_run fuel it es rs i t :
  built (block_ it) es rs -> (i <= length es)%nat -> (length es - i < fuel)%nat ->
  seek_scan fuel t it (off es i) =
    Some (let p := (i + seek_pos (drop i es) t)%nat in
          match es !! p with
          | Some e => at_entry it es p e
          | None => match last (drop i es) with
                    | Some e => invalidate (at_entry it es (pred (length es)) e)
                    | None => invalidate it
                    end
          end).
Proof.
  revert it i. induction fuel as [|fuel IH]; intros it i B Hi Hf; [lia|]. cbn [seek_scan].
  rw (bt_offset _ _ _ B) -off_length.
  destruct (decide (i = length es)) as [->|Hne].
  - rw Z.ltb_irrefl drop_ge // /= Nat.add_0_r lookup_ge_None_2 //.
  - destruct (lookup_lt_is_Some_2 es i) as [x Hx]; [lia|].
    assert (Hlt : off es i < off es (length es)) by (apply off_lt_iff; lia).
    rw (proj2 (Z.ltb_lt _ _) Hlt) (ParseEntryAt_run _ _ _ _ _ B Hx). cbn [mbind option_bind].
    rw /blk_Valid /= (bt_offset _ _ _ B) -off_length (proj2 (Z.ltb_lt _ _) Hlt) /=.
    rw /Slice.geb Z.geb_leb (drop_S _ _ _ Hx) /=.
    destruct (Z.leb_spec 0 (Slice.compare (user_key x) t)), (Z.ltb_spec (Slice.compare (user_key x) t) 0); try lia.
    + by rw Nat.add_0_r Hx.
    + rw IH //; [simpl; lia..|]. replace (i + S (seek_pos (drop (S i) es) t))%nat with (S i + seek_pos (drop (S i) es) t)%nat by lia.
      f_equal. cbn zeta. destruct (es !! (S i + seek_pos (drop (S i) es) t)%nat) as [y|] eqn:Ey; [done|].
      rw last_cons. destruct (last (drop (S i) es)) eqn:El; [done|]. apply last_None in El.
      apply (f_equal length) in El. rw length_drop /= in El. assert (i = pred (length es)) as <- by lia. done.
Qed.

(** ** The contract *)

(** The iterator is on the [i]-th entry of its block, or past the end. *)
Definition block_at (it : BlockIter) (es : list MemtableEntry) (i : nat) : Prop :=
  exists rs, built (block_ it) es rs /\ keys_sorted es /\ (i <= length es)%nat /\
    status_ it = Status.OK /\ 0 <= next_offset_ it /\
    match es !! i with
    | Some e => it = at_entry it es i e
    | None => current_ it = restarts_offset_ (block_ it)
    end.

Lemma rep_at_entry it es rs i e :
  built (block_ it) es rs -> keys_sorted es -> status_ it = Status.OK -> es !! i = Some e ->
  block_at (at_entry it es i e) es i.
Proof.
  intros B Hs Hst He. exists rs. split_and!; auto; [apply lookup_lt_Some in He; lia|apply size_of_nonneg|]. by rw He.
Qed.

Lemma rep_invalid it es rs i :
  built (block_ it) es rs -> keys_sorted es -> status_ it = Status.OK -> 0 <= next_offset_ it -> i = length es ->
  block_at (invalidate it) es i.
Proof. intros B Hs Hst Hn ->. exists rs. split_and!; auto. by rw lookup_ge_None_2. Qed.

Lemma parse_rep it es rs i :
  built (block_ it) es rs -> keys_sorted es -> status_ it = Status.OK -> 0 <= next_offset_ it -> (i <= length es)%nat ->
  exists it', ParseEntryAt it (off es i) = Some it' /\ block_at it' es i.
Proof.
  intros B Hs Hst Hn Hi. destruct (decide (i = length es)) as [->|Hne].
  - rw (ParseEntryAt_end _ _ _ _ B); [rw off_length; lia|]. eexists; split; [done|]. by eapply rep_invalid.
  - destruct (lookup_lt_is_Some_2 es i) as [e He]; [lia|]. rw (ParseEntryAt_run _ _ _ _ _ B He).
    eexists; split; [done|]. by eapply (rep_at_entry it).
Qed.

(** [view_lt] on a key of the block is the order of strings. *)
Lemma memcmp_take a t n : Slice.memcmp (take n a) t n = Slice.memcmp a t n.
Proof.
  revert a t; induction n as [|n IH]; intros [|x a] [|y t]; simpl; try done. by rw IH.
Qed.

Lemma view_lt_run a k R t :
  view_lt (a ++ k ++ R) (size_of a) (size_of k) t = Some (Slice.ltb k t).
Proof.
  rw /view_lt. set (n := Z.min (size_of k) (size_of t)).
  pose proof (size_of_nonneg k). pose proof (size_of_nonneg t). pose proof (size_of_nonneg R).
  destruct (Z.leb_spec (size_of a + n) (size_of (a ++ k ++ R))); [|rw !size_of_app in H2; lia]. f_equal.
  rw sub_bytes_app_r; [lia|]. rw Z.sub_diag sub_bytes_app_l; [lia..|].
  rw sub_bytes_eq drop_0 memcmp_take /Slice.ltb /Slice.compare.
  assert (Z.to_nat n = Z.to_nat (if size_of k <? size_of t then size_of k else size_of t)) as <-.
  { f_equal. rw /n. case_bool; lia. }
  destruct (Z.eqb_spec (Slice.memcmp k t (Z.to_nat n)) 0) as [E|]; [|done].
  rw E Z.gtb_ltb. destruct (Z.ltb_spec (size_of k) (size_of t)); [done|].
  by destruct (size_of t <? size_of k).
Qed.

(** The comparison of [Seek] at a restart point. *)
Lemma seek_below_run it es rs t j :
  built (block_ it) es rs -> es <> [] -> (j < length rs)%nat ->
  exists r e, rs !! j = Some r /\ es !! r = Some e /\
    seek_below t it (Z.of_nat j) = Some (Slice.ltb (user_key e) t).
Proof.
  intros B Hne Hj. destruct (lookup_lt_is_Some_2 rs j Hj) as [r Hr].
  assert (r < length es)%nat as Hlt.
  { destruct (Forall_lookup_1 _ _ _ _ (bt_range _ _ _ B) Hr) as [?| ->]; [done|]. destruct es; [done|simpl; lia]. }
  destruct (lookup_lt_is_Some_2 es r Hlt) as [e He]. exists r, e. split; [done|]. split; [done|].
  rw /seek_below (GetRestartOffset_run _ _ _ _ _ B Hr). cbn [mbind option_bind].
  destruct (built_data_at _ _ _ _ _ B He) as (R & ED).
  pose proof (bt_size _ _ _ B). pose proof (off_S _ _ _ He). pose proof (off_le es (S r)).
  assert (0 <= off es r) by apply size_of_nonneg. pose proof (size_of_nonneg (user_key e)). pose proof (size_of_nonneg (value e)).
  pose proof (Forall_lookup_1 _ _ _ _ (bt_entries _ _ _ B) He) as Hok.
  destruct (decode_entry_fields (body (take r es)) e R _ ED Hok) as (F1 & _); [lia|lia|].
  rw /off F1. cbn [mbind option_bind]. rw ED /encode_entry -!app_assoc. rewrite -> (app_assoc (body (take r es))).
  replace (size_of (body (take r es)) + 4) with (size_of (body (take r es) ++ EncodeFixed32 (u32 (size_of (user_key e)))))
    by rw size_of_app size_EncodeFixed32 //.
  apply view_lt_run.
Qed.

(** In the block of no entry every restart point is 0 and shows an empty key. *)
Lemma seek_below_empty it rs t mid :
  built (block_ it) [] rs -> 0 <= mid < Z.of_nat (length rs) ->
  seek_below t it mid = Some (0 <? size_of t).
Proof.
  intros B Hm. destruct (lookup_lt_is_Some_2 rs (Z.to_nat mid)) as [r Hr]; [lia|].
  pose proof (GetRestartOffset_run _ _ _ _ _ B Hr) as E. rw Z2Nat.id in E; [lia|]. rw /seek_below E. cbn [mbind option_bind].
  assert (off [] r = 0) as -> by (by rw /off take_nil).
  pose proof (bt_first _ _ _ B) as H0. destruct rs as [|r0 rs]; [done|]. injection H0 as ->.
  rw (bt_data _ _ _ B) /trailer /restart_bytes fmap_cons /=. change (off [] 0) with 0.
  rw -app_assoc (DecodeFixed32_Encode []) //=. cbn [mbind option_bind].
  change (u32 0) with 0. rw /view_lt. pose proof (size_of_nonneg t). rw Z.min_l //. rw (proj2 (Z.leb_le _ _)) //. size_tac.
Qed.

(** The binary search of [Seek] stops at a restart point before which every key is
    less than the target. *)
Lemma seek_restart_run it es rs t :
  built (block_ it) es rs -> keys_sorted es ->
  exists j r, find_restart it (seek_below t it) = Some (Z.of_nat j) /\ rs !! j = Some r /\
    (r <= length es)%nat /\ Forall (fun e => Slice.compare (user_key e) t < 0) (take r es).
Proof.
  intros B Hs. destruct (decide (es = [])) as [->|Hne].
  - destruct (find_restart_run it [] rs (seek_below t it) (fun _ => 0 <? size_of t) B (fun mid => seek_below_empty it rs t mid B))
      as (j & r & E & Hr & _). exists j, r. split; [done|]. split; [done|].
    destruct (Forall_lookup_1 _ _ _ _ (bt_range _ _ _ B) Hr) as [?| ->]; simpl in *; [lia|]. split; [lia|constructor].
  - destruct (find_restart_run it es rs (seek_below t it) (fun mid =>
        match rs !! Z.to_nat mid with Some r => match es !! r with Some e => Slice.ltb (user_key e) t | None => false end | None => false end) B)
      as (j & r & E & Hr & Hf).
    { intros mid Hm. destruct (seek_below_run it es rs t (Z.to_nat mid) B Hne) as (r & e & Hr & He & Ev); [lia|].
      rw Z2Nat.id in Ev; [lia|]. by rw Ev Hr He. }
    exists j, r. split; [done|]. split; [done|]. rw Nat2Z.id Hr in Hf.
    destruct (decide (r = 0%nat)) as [->|Hr0]; [split; [lia|constructor]|]. destruct Hf as [?|Hf]; [done|].
    destruct (es !! r) as [e|] eqn:He; [|done]. pose proof (lookup_lt_Some _ _ _ He). split; [lia|].
    apply Forall_lookup. intros k x [Hx Hk]%lookup_take_Some. apply Z.ltb_lt in Hf.
    pose proof (StronglySorted_lookup_lt _ _ k r x e Hs Hx He Hk) as Hxe.
    eapply (cmp_le_lt_trans Slice.compare); [exact Hxe|exact Hf].
Qed.

Lemma block_seek_run it es i t :
  block_at it es i -> exists it', blk_Seek t it = Some it' /\ block_at it' es (seek_pos es t).
Proof.
  intros (rs & B & Hs & _ & Hst & Hnx & _). pose proof (lookup_lt_Some _ _ _ (bt_first _ _ _ B)) as Hpos.
  rw /blk_Seek (bt_num _ _ _ B). destruct (Z.eqb_spec (Z.of_nat (length rs)) 0); [lia|].
  destruct (seek_restart_run it es rs t B Hs) as (j & r & E & Hr & Hle & Hbelow).
  rw E. cbn [mbind option_bind]. rw (GetRestartOffset_run _ _ _ _ _ B Hr). cbn [mbind option_bind].
  rw (seek_scan_run _ _ _ _ _ _ B) //; [pose proof (scan_fuel_enough _ _ _ B); lia|].
  assert (r + seek_pos (drop r es) t = seek_pos es t)%nat as ->.
  { apply seek_pos_unique.
    - pose proof (seek_pos_le (drop r es) t) as Hl. rw length_drop in Hl. lia.
    - rw -{2}(take_drop r es). rw take_app_ge; [rw length_take; lia|]. apply Forall_app; split; [done|].
      rw length_take Nat.min_l //. replace (r + seek_pos (drop r es) t - r)%nat with (seek_pos (drop r es) t) by lia.
      apply seek_pos_take.
    - rw -drop_drop. apply seek_pos_drop. rw -(take_drop r es) in Hs. by apply StronglySorted_app_1_r in Hs. }
  eexists; split; [done|]. cbn zeta. destruct (es !! seek_pos es t) as [e|] eqn:Ee; [by eapply rep_at_entry|].
  apply lookup_ge_None in Ee. pose proof (seek_pos_le es t). assert (seek_pos es t = length es) by lia.
  destruct (last (drop r es)); eapply rep_invalid; eauto. apply size_of_nonneg.
Qed.

(** ** Moving to the last and to the previous entry *)

Lemma scan_to_last it es rs r e :
  built (block_ it) es rs -> (r < length es)%nat -> last es = Some e ->
  scan_to (scan_fuel it) (restarts_offset_ (block_ it)) it (off es r) = Some (at_entry it es (pred (length es)) e).
Proof.
  intros B Hr He. rw last_lookup in He. pose proof (scan_fuel_enough _ _ _ B).
  rw (bt_offset _ _ _ B) -off_length. apply (scan_to_run _ _ _ _ rs); auto; try lia.
  - replace (S (pred (length es))) with (length es) by lia. lia.
  - intros k Hk. apply off_lt_iff; lia.
Qed.

Lemma block_last_run it es i :
  block_at it es i -> exists it', blk_SeekToLast it = Some it' /\ block_at it' es (pred (length es)).
Proof.
  intros (rs & B & Hs & _ & Hst & Hnx & _). pose proof (lookup_lt_Some _ _ _ (bt_first _ _ _ B)) as Hpos.
  rw /blk_SeekToLast (bt_num _ _ _ B). destruct (Z.eqb_spec (Z.of_nat (length rs)) 0); [lia|].
  destruct (lookup_lt_is_Some_2 rs (pred (length rs))) as [r Hr]; [lia|].
  replace (Z.of_nat (length rs) - 1) with (Z.of_nat (pred (length rs))) by lia.
  rw (GetRestartOffset_run _ _ _ _ _ B Hr). cbn [mbind option_bind].
  destruct (last es) as [e|] eqn:El.
  - assert (r < length es)%nat as Hlt.
    { destruct (Forall_lookup_1 _ _ _ _ (bt_range _ _ _ B) Hr) as [?| ->]; [done|]. destruct es; [done|simpl; lia]. }
    rw (scan_to_last _ _ _ _ _ B Hlt El). eexists; split; [done|]. eapply rep_at_entry; eauto. by rw -last_lookup.
  - apply last_None in El as ->. rw /scan_fuel. cbn [scan_to].
    rw (ParseEntryAt_end _ _ _ _ B); [apply size_of_nonneg|]. cbn [mbind option_bind].
    rw (bt_offset _ _ _ B) Z.geb_leb (proj2 (Z.leb_le _ _)) //. eexists; split; [done|]. by eapply rep_invalid.
Qed.

Lemma block_prev_run it es i :
  block_at it es i -> (i < length es)%nat ->
  exists it', blk_Prev it = Some it' /\ block_at it' es (match i with O => length es | S j => j end).
Proof.
  intros (rs & B & Hs & _ & Hst & Hnx & Hcur) Hi. destruct (lookup_lt_is_Some_2 es i Hi) as [e He]. rw He in Hcur.
  assert (Hc : current_ it = off es i) by by rw Hcur.
  assert (Hlt : off es i < off es (length es)) by (apply off_lt_iff; lia).
  rw /blk_Prev /blk_Valid Hc (bt_offset _ _ _ B) -off_length (proj2 (Z.ltb_lt _ _) Hlt).
  destruct (find_restart_run it es rs (fun mid => offset ← GetRestartOffset it mid; Some (offset <? off es i))
    (fun mid => match rs !! Z.to_nat mid with Some r => off es r <? off es i | None => false end) B) as (j & r & E & Hr & Hf).
  { intros mid Hm. destruct (lookup_lt_is_Some_2 rs (Z.to_nat mid)) as [r Hr]; [lia|].
    pose proof (GetRestartOffset_run _ _ _ _ _ B Hr) as Eg. rw Z2Nat.id in Eg; [lia|]. by rw Eg Hr. }
  rw E. cbn [mbind option_bind]. rw (GetRestartOffset_run _ _ _ _ _ B Hr). cbn [mbind option_bind]. rw Z.geb_leb.
  rw Nat2Z.id Hr in Hf.
  assert (Hrl : (r <= length es)%nat) by (destruct (Forall_lookup_1 _ _ _ _ (bt_range _ _ _ B) Hr); lia).
  destruct i as [|i].
  - destruct Hf as [->|Hf].
    + rw Z.leb_refl. eexists; split; [done|]. by eapply rep_invalid.
    + apply Z.ltb_lt in Hf. rw off_0 in Hf. pose proof (size_of_nonneg (body (take r es))). rw /off in Hf. lia.
  - assert (r < S i)%nat as Hri.
    { destruct Hf as [->|Hf]; [lia|]. apply Z.ltb_lt, off_lt_iff in Hf; lia. }
    assert (off es r < off es (S i)) as Hro by (apply off_lt_iff; lia).
    destruct (Z.leb_spec (off es (S i)) (off es r)); [lia|].
    destruct (lookup_lt_is_Some_2 es i) as [x Hx]; [lia|]. pose proof (scan_fuel_enough _ _ _ B).
    rw (scan_to_run _ _ _ es rs r i x B Hx); [lia..| |eexists; split; [done|]; by eapply rep_at_entry].
    intros k Hk. apply off_lt_iff; lia.
Qed.

Lemma block_at_view it es i :
  block_at it es i ->
  blk_Valid it = (i <? length es)%nat /\ status_ it = Status.OK /\
  forall e, es !! i = Some e -> current_key_ it = user_key e /\ current_value_ it = value e /\
    current_seq_ it = seq e /\ current_type_ it = type e.
Proof.
  intros (rs & B & Hs & Hle & Hst & Hnx & Hcur). split_and!; [|done|].
  - rw /blk_Valid. destruct (Nat.ltb_spec i (length es)) as [Hlt|Hge].
    + destruct (lookup_lt_is_Some_2 es i Hlt) as [e He]. rw He in Hcur. rw Hcur /= (bt_offset _ _ _ B) -off_length.
      apply Z.ltb_lt, off_lt_iff; lia.
    + rw lookup_ge_None_2 // in Hcur. by rw Hcur Z.ltb_irrefl.
  - intros e He. rw He in Hcur. by rw Hcur.
Qed.

Lemma block_first_run it es i :
  block_at it es i -> exists it', blk_SeekToFirst it = Some it' /\ block_at it' es 0.
Proof.
  intros (rs & B & Hs & _ & Hst & Hnx & _). pose proof (lookup_lt_Some _ _ _ (bt_first _ _ _ B)) as Hpos.
  rw /blk_SeekToFirst (bt_num _ _ _ B). destruct (Z.eqb_spec (Z.of_nat (length rs)) 0); [lia|].
  rw -(off_0 es). apply (parse_rep _ _ rs); auto. lia.
Qed.

Lemma block_next_run it es i :
  block_at it es i -> (i < length es)%nat -> exists it', blk_Next it = Some it' /\ block_at it' es (S i).
Proof.
  intros (rs & B & Hs & _ & Hst & Hnx & Hcur) Hi.
  destruct (lookup_lt_is_Some_2 es i Hi) as [e He]. rw He in Hcur.
  assert (Hlt : off es i < off es (length es)) by (apply off_lt_iff; lia).
  rw /blk_Next /blk_Valid (bt_offset _ _ _ B) -off_length. rw {1}Hcur /= (proj2 (Z.ltb_lt _ _) Hlt) Hcur /=.
  rw -Hcur. by apply (parse_rep _ _ rs).
Qed.

Lemma NewBlockIter_at b es rs :
  built b es rs -> keys_sorted es -> block_at (NewBlockIter b) es (length es).
Proof. intros B Hs. exists rs. split_and!; auto; simpl; [lia|]. by rw lookup_ge_None_2. Qed.

(** The iterator of a data block, whose entries are sorted by internal key. *)
Definition block_rep (it : BlockIter) (es : list MemtableEntry) (i : nat) : Prop :=
  entries_sorted es /\ block_at it es i.

#[global] Instance block_iterator_view : IteratorView BlockIter block_rep.
Proof.
  split; intros it es i.
  - by intros [? _].
  - by intros (_ & rs & _ & _ & ? & _).
  - intros [_ H]. apply (block_at_view _ _ _ H).
  - intros e [_ H] He. rw /= /blk_Key. f_equal. by apply (block_at_view _ _ _ H).
  - intros e [_ H] He. rw /= /blk_Value. f_equal. by apply (block_at_view _ _ _ H).
  - intros e [_ H] He. rw /= /blk_Seq. f_equal. by apply (block_at_view _ _ _ H).
  - intros e [_ H] He. rw /= /blk_Type. f_equal. by apply (block_at_view _ _ _ H).
  - intros [_ H]. by apply (block_at_view _ _ _ H).
Qed.

#[global] Instance block_forward {St} (inv : St -> Prop) : ForwardIterator St BlockIter inv block_rep.
Proof.
  split; [apply _|..]; intros it es i.
  - intros [Hs (it' & E & H')%block_first_run]. by eapply runs_lift.
  - intros t [Hs H]. destruct (block_seek_run it es i t H) as (it' & E & H'). by eapply runs_lift.
  - intros [Hs H] Hi. destruct (block_next_run it es i H Hi) as (it' & E & H'). by eapply runs_lift.
Qed.

#[global] Instance block_backward {St} (inv : St -> Prop) : BackwardIterator St BlockIter inv block_rep.
Proof.
  split; intros it es i [Hs H].
  - destruct (block_last_run it es i H) as (it' & E & H'). by eapply runs_lift.
  - intros Hi. destruct (block_prev_run it es i H Hi) as (it' & E & H'). by eapply runs_lift.
Qed.

(** ** Building *)

(** [Add] for each entry in order. *)
Fixpoint BlockBuilder_AddAll (b : BlockBuilder) (es : list MemtableEntry) : option BlockBuilder :=
  match es with
  | [] => Some b
  | e :: es' => b ← BlockBuilder_Add b (seq e) (type e) (user_key e) (value e); BlockBuilder_AddAll b es'
  end.

(** The builder holds the entries [es] and has restart points at the entries [rs]. *)
Record building (b : BlockBuilder) (es : list MemtableEntry) (rs : list nat) : Prop := {
  bd_buffer : buffer_ b = body es;
  bd_restarts : restarts_ b = off es <$> rs;
  bd_first : rs !! 0%nat = Some 0%nat;
  bd_range : Forall (fun r => r < length es \/ r = 0)%nat rs;
  bd_few : (length rs <= S (length es))%nat;
  bd_open : finished_ b = false;
}.

Lemma off_app es es' r : (r <= length es)%nat -> off (es ++ es') r = off es r.
Proof. intros Hr. by rw /off take_app_le. Qed.

Lemma offs_app es es' rs :
  Forall (fun r => r < length es \/ r = 0)%nat rs -> off (es ++ es') <$> rs = off es <$> rs.
Proof.
  intros Hr. apply list_fmap_ext. intros i r Hi. apply off_app.
  destruct (Forall_lookup_1 _ _ _ _ Hr Hi); lia.
Qed.

Lemma building_add b es rs e :
  building b es rs -> size_of (body es) < 2 ^ 32 ->
  exists b' rs', BlockBuilder_Add b (seq e) (type e) (user_key e) (value e) = Some b' /\ building b' (es ++ [e]) rs'.
Proof.
  intros [Hb Hrs H0 Hr Hf Ho] Hsz. rw /BlockBuilder_Add Ho.
  assert (Hbuf : PutFixed32 (PutFixed64 (PutFixed32 (buffer_ b) (u32 (size_of (user_key e))) ++ user_key e) (seq e) ++
      [byte_of_Z (type e)]) (u32 (size_of (value e))) ++ value e = body (es ++ [e])).
  { rw body_app body_cons /PutFixed32 /PutFixed64 Hb /encode_entry -!app_assoc app_nil_r //. }
  assert (Hr' : Forall (fun r => r < length (es ++ [e]) \/ r = 0)%nat rs).
  { eapply Forall_impl; [exact Hr|]. intros r. rw length_app /=. lia. }
  destruct (counter_ b >=? restart_interval_ b).
  - do 2 eexists. split; [done|]. split; simpl; [done| | | | |done].
    + rw (u32_small (size_of (buffer_ b))); [rw Hb; size_tac|]. rw Hrs -(offs_app es [e]) // Hb -off_length -(off_app es [e]) //.
      by rw -(fmap_app _ rs [length es]).
    + by apply lookup_app_l_Some.
    + apply Forall_app; split; [done|]. constructor; [|constructor]. rw length_app /=. lia.
    + rw !length_app /=. lia.
  - do 2 eexists. split; [done|]. split; simpl; [done| |exact H0|done| |done].
    + by rw Hrs offs_app.
    + rw length_app /=. lia.
Qed.

Lemma building_all es b es0 rs0 :
  building b es0 rs0 -> size_of (body (es0 ++ es)) < 2 ^ 32 ->
  exists b' rs', BlockBuilder_AddAll b es = Some b' /\ building b' (es0 ++ es) rs'.
Proof.
  revert b es0 rs0; induction es as [|e es IH]; intros b es0 rs0 Hb Hsz; simpl.
  - exists b, rs0. by rw app_nil_r.
  - rw body_app in Hsz. destruct (building_add b es0 rs0 e Hb) as (b1 & rs1 & -> & Hb1); [size_tac|].
    cbn [mbind option_bind]. replace (es0 ++ e :: es) with ((es0 ++ [e]) ++ es) by by rw -app_assoc.
    eapply IH; [done|]. rw -app_assoc body_app. done.
Qed.

Lemma building_new ri : building (NewBlockBuilder ri) [] [0%nat].
Proof. split; try done. constructor; [by right|constructor]. Qed.

Lemma foldl_PutFixed32 rs buf : foldl PutFixed32 buf rs = buf ++ restart_bytes rs.
Proof.
  revert buf; induction rs as [|r rs IH]; intros buf; simpl; [by rw app_nil_r|].
  rw IH /PutFixed32 -app_assoc //.
Qed.

Lemma Finish_bytes b es rs :
  building b es rs -> (BlockBuilder_Finish b).1 = body es ++ trailer (off es <$> rs).
Proof.
  intros B. rw /BlockBuilder_Finish /= foldl_PutFixed32 /PutFixed32 (bd_buffer _ _ _ B) (bd_restarts _ _ _ B).
  by rw /trailer app_assoc.
Qed.

Lemma size_trailer (rs : list Z) : size_of (trailer rs) = 4 * Z.of_nat (length rs) + 4.
Proof. rw /trailer size_of_app size_restart_bytes size_EncodeFixed32 //. Qed.

Lemma length_body_17 es : 17 * Z.of_nat (length es) <= size_of (body es).
Proof.
  induction es as [|e es IH]; [done|]. rw body_cons size_of_app size_encode_entry /=. size_tac.
Qed.

Lemma NewBlock_built es rs :
  size_of (body es) < 2 ^ 32 -> Forall entry_ok es -> rs !! 0%nat = Some 0%nat ->
  Forall (fun r => r < length es \/ r = 0)%nat rs -> (length rs <= S (length es))%nat ->
  exists b, NewBlock (body es ++ trailer (off es <$> rs)) = Some b /\ built b es rs.
Proof.
  intros Hsz Hok H0 Hr Hf. set (data := body es ++ trailer (off es <$> rs)). pose proof (length_body_17 es) as H17.
  assert (Hlen : size_of data = size_of (body es) + (4 * Z.of_nat (length rs) + 4)).
  { rw /data size_of_app size_trailer length_fmap //. }
  assert (Hn : DecodeFixed32 data (size_of data - 4) = Some (Z.of_nat (length rs))).
  { rw Hlen. rw /data /trailer app_assoc -{1}(app_nil_r (EncodeFixed32 _)) DecodeFixed32_Encode.
    - rw size_of_app size_restart_bytes length_fmap. lia.
    - rw length_fmap (u32_small (u32 _)); [apply u32_range|]. rw u32_small //. lia. }
  pose proof (size_of_nonneg (body es)).
  exists (mkBlock data (size_of (body es)) (Z.of_nat (length rs))). split.
  - rw /NewBlock Z.geb_leb. destruct (Z.leb_spec 4 (size_of data)); [|lia]. rw Hn /=.
    assert (Z.of_nat (length rs) <= (size_of data - 4) / 4) as Hle by (apply Z.div_le_lower_bound; lia).
    rw (proj2 (Z.leb_le _ _) Hle). do 2 f_equal. rw (u32_small (1 + Z.of_nat (length rs))); [lia|]. rw u32_small; lia.
  - split; auto. lia.
Qed.

(** ** Arbitrary bytes *)

Lemma NewBlock_bounds data b :
  NewBlock data = Some b ->
  data_ b = data /\ 0 <= restarts_offset_ b <= size_of data /\ restarts_offset_ b < 2 ^ 32.
Proof.
  rw /NewBlock Z.geb_leb. pose proof (size_of_nonneg data) as Hsz.
  destruct (Z.leb_spec 4 (size_of data)); [|intros [= <-]; split; [done|simpl; lia]].
  destruct (DecodeFixed32 data (size_of data - 4)) as [n|] eqn:En; [|done]. cbn [mbind option_bind].
  pose proof (DecodeFixed32_range _ _ _ En) as Hn.
  destruct (Z.leb_spec n ((size_of data - 4) / 4)) as [Hle|]; intros [= <-]; simpl; [|split; [done|lia]].
  pose proof (Z.mul_div_le (size_of data - 4) 4 ltac:(lia)). pose proof (u32_range (size_of data - u32 (1 + n) * 4)).
  split; [done|]. pose proof (u32_range (1 + n)). pose proof (u32_le (1 + n) ltac:(lia)).
  pose proof (u32_le (size_of data - u32 (1 + n) * 4) ltac:(lia)). lia.
Qed.

(** What [ParseEntryAt] guarantees of its result. *)
Definition parsed (b : Block) (offset : Z) (it' : BlockIter) : Prop :=
  block_ it' = b /\
  (blk_Valid it' = true -> current_ it' = offset /\ offset + 17 <= next_offset_ it' <= restarts_offset_ b) /\
  (blk_Valid it' = false -> current_ it' = restarts_offset_ b).

Lemma parsed_invalid b offset it' :
  block_ it' = b -> current_ it' = restarts_offset_ b -> parsed b offset it'.
Proof. intros Eb Hc. split; [done|]. rw /blk_Valid Eb Hc Z.ltb_irrefl. by split. Qed.

Lemma ParseEntryAt_bounds it offset :
  0 <= offset -> 0 <= restarts_offset_ (block_ it) <= size_of (data_ (block_ it)) ->
  restarts_offset_ (block_ it) < 2 ^ 32 ->
  exists it', ParseEntryAt it offset = Some it' /\ parsed (block_ it) offset it'.
Proof.
  intros Ho Hro H32. rw /ParseEntryAt Z.geb_leb !Z.gtb_ltb. set (ro := restarts_offset_ (block_ it)) in *.
  destruct (Z.leb_spec ro offset); [eexists; split; [done|]; by apply parsed_invalid|].
  destruct (Z.ltb_spec ro (offset + 17)); [eexists; split; [done|]; by apply parsed_invalid|].
  destruct (DecodeFixed32_Some (data_ (block_ it)) offset) as [klen Ek]; [lia..|].
  pose proof (DecodeFixed32_range _ _ _ Ek). rw Ek. cbn [mbind option_bind]. rw !Z.gtb_ltb.
  destruct (Z.ltb_spec ro (offset + 17 + klen)); [eexists; split; [done|]; by apply parsed_invalid|].
  destruct (DecodeFixed64_Some (data_ (block_ it)) (offset + 4 + klen)) as [s ->]; [lia..|].
  destruct (byte_at_Some (data_ (block_ it)) (offset + 4 + klen + 8)) as [t ->]; [lia|].
  destruct (DecodeFixed32_Some (data_ (block_ it)) (offset + 4 + klen + 9)) as [vlen Ev]; [lia..|].
  pose proof (DecodeFixed32_range _ _ _ Ev). rw Ev. cbn [mbind option_bind]. rw !Z.gtb_ltb.
  destruct (Z.ltb_spec ro (offset + 17 + klen + vlen)); [eexists; split; [done|]; by apply parsed_invalid|].
  eexists; split; [done|]. split; [done|]. rw /blk_Valid /= -/ro. rw u32_small; [lia|]. split; [lia|].
  destruct (Z.ltb_spec offset ro); [done|lia].
Qed.

(** ** The claims *)

(** C16: a block is the list of entries it was built from.  For any restart interval,
    adding sorted entries whose encoding stays below 4 GiB succeeds;
    [CurrentSizeEstimate] is the exact size of what [Finish] returns; reading those
    bytes back gives an iterator that keeps the forward and the backward contract
    over exactly those entries ([Seek]'s binary search over the restart points
    included), and a scan from [SeekToFirst] returns them. *)
Theorem block_roundtrip (restart_interval : Z) (es : list MemtableEntry) :
  entries_sorted es -> Forall entry_ok es -> size_of (body es) < 2 ^ 32 ->
  exists b blk, BlockBuilder_AddAll (NewBlockBuilder restart_interval) es = Some b /\
    size_of (BlockBuilder_Finish b).1 = BlockBuilder_CurrentSizeEstimate b /\
    NewBlock (BlockBuilder_Finish b).1 = Some blk /\
    block_rep (NewBlockIter blk) es (length es) /\
    ForwardIterator unit BlockIter pure block_rep /\ BackwardIterator unit BlockIter pure block_rep /\
    exists it, blk_SeekToFirst (NewBlockIter blk) = Some it /\ collect (S (length es)) it tt = Some (es, tt).
Proof.
  intros Hs Hok Hsz.
  destruct (building_all es _ [] _ (building_new restart_interval) Hsz) as (b & rs & E & B).
  destruct (NewBlock_built es rs Hsz Hok (bd_first _ _ _ B) (bd_range _ _ _ B) (bd_few _ _ _ B)) as (blk & Eb & Bb).
  assert (Hr : block_rep (NewBlockIter blk) es (length es)).
  { split; [done|]. eapply NewBlockIter_at; [done|]. by apply entries_sorted_keys. }
  exists b, blk. rw (Finish_bytes _ _ _ B). split_and!; auto; try apply _.
  - rw size_of_app size_trailer length_fmap /BlockBuilder_CurrentSizeEstimate (bd_buffer _ _ _ B) (bd_restarts _ _ _ B) length_fmap. simpl. lia.
  - destruct (block_first_run _ _ _ (proj2 Hr)) as (it & Ef & Hr'). exists it. split; [done|].
    destruct (runs_pure _ _ (collect_run pure block_rep it es 0 (S (length es)) (conj Hs Hr') ltac:(lia))) as (l & El & ->).
    exact El.
Qed.

(** Three entries and a restart point at every second one. *)
Definition sample_block_entries : list MemtableEntry :=
  [mkEntry (str "a") 7 kTypeValue (str "1"); mkEntry (str "a") 3 kTypeDeletion []; mkEntry (str "b") 5 kTypeValue (str "22")].

Lemma block_roundtrip_witness :
  exists b blk, BlockBuilder_AddAll (NewBlockBuilder 2) sample_block_entries = Some b /\
    NewBlock (BlockBuilder_Finish b).1 = Some blk /\ num_restarts_ blk = 2 /\
    exists it, blk_SeekToFirst (NewBlockIter blk) = Some it /\ collect 4 it tt = Some (sample_block_entries, tt).
Proof.
  destruct (block_roundtrip 2 sample_block_entries) as (b & blk & E & _ & Eb & _ & _ & _ & Hc).
  - repeat constructor.
  - by repeat constructor.
  - by vm_compute.
  - exists b, blk. split_and!; auto. vm_compute in E. injection E as <-. vm_compute in Eb. by injection Eb as <-.
Defined.

(** C27: on a block of arbitrary bytes, [ParseEntryAt] at any offset returns without
    reading outside the block, and an entry it accepts lies within the entry area
    and ends after it starts: a forward iteration is memory safe and ends on any
    input, corrupt or not. *)
Theorem block_parse_in_bounds (data : bytes) (b : Block) (it : BlockIter) (offset : Z) :
  NewBlock data = Some b -> block_ it = b -> 0 <= offset ->
  0 <= restarts_offset_ b <= size_of data /\
  exists it', ParseEntryAt it offset = Some it' /\ block_ it' = b /\
    (blk_Valid it' = true -> current_ it' = offset /\ offset + 17 <= next_offset_ it' <= restarts_offset_ b) /\
    (blk_Valid it' = false -> current_ it' = restarts_offset_ b).
Proof.
  intros Hb <- Ho. destruct (NewBlock_bounds _ _ Hb) as (Ed & Hro & H32). split; [done|].
  rw -Ed in Hro. destruct (ParseEntryAt_bounds it offset Ho Hro H32) as (it' & E & Hp). by exists it'.
Qed.

(** A block whose only restart point claims an entry at offset 1000. *)
Definition bad_restart_block : bytes := EncodeFixed32 1000 ++ EncodeFixed32 1.

(** A block with one byte where an entry should be. *)
Definition truncated_block : bytes := str "x" ++ EncodeFixed32 0 ++ EncodeFixed32 1.

Lemma block_parse_in_bounds_witness :
  exists b it', NewBlock truncated_block = Some b /\ ParseEntryAt (NewBlockIter b) 0 = Some it' /\
    block_ it' = b /\ Status.IsCorruption (status_ it') = true.
Proof.
  set (b := default (mkBlock [] 0 0) (NewBlock truncated_block)).
  destruct (block_parse_in_bounds truncated_block b (NewBlockIter b) 0) as (_ & it' & E & Eb & _).
  - by vm_compute.
  - done.
  - done.
  - exists b, it'. split; [by vm_compute|]. split; [done|]. split; [done|].
    vm_compute in E. injection E as <-. by vm_compute.
Defined.

(** ** [Seek] on any block *)

(** The first four bytes of the restart point's entry, and the key behind them, can be read. *)
Definition restart_readable (it : BlockIter) (i : Z) : Prop :=
  exists offset klen, GetRestartOffset it i = Some offset /\ DecodeFixed32 (data_ (block_ it)) offset = Some klen /\
    offset + 4 + klen <= size_of (data_ (block_ it)).

Lemma seek_below_readable target it i : restart_readable it i -> is_Some (seek_below target it i).
Proof.
  intros (offset & klen & E1 & E2 & Hle). rw /seek_below E1. cbn [mbind option_bind]. rw E2. cbn [mbind option_bind].
  pose proof (DecodeFixed32_range _ _ _ E2). rw /view_lt.
  destruct (Z.leb_spec (offset + 4 + Z.min klen (size_of target)) (size_of (data_ (block_ it)))); [eauto|lia].
Qed.

(** The binary search ends within as many turns as there are restart points. *)
Lemma restart_search_total fuel below n left right tr :
  (forall i, 0 <= i < n -> is_Some (below i)) -> 0 <= left -> right < n -> 0 <= tr < n -> right - left + 1 <= Z.of_nat fuel ->
  exists tr', restart_search fuel below left right tr = Some tr' /\ 0 <= tr' < n.
Proof.
  intros Hb. revert left right tr. induction fuel as [|fuel IH]; intros left right tr Hl Hr Ht Hf; cbn [restart_search];
    destruct (Z.leb_spec left right) as [Hle|Hgt]; [lia|eauto| |eauto].
  pose proof (Z.div_le_upper_bound (right - left) 2 (right - left) ltac:(lia) ltac:(lia)).
  pose proof (Z.div_pos (right - left) 2 ltac:(lia) ltac:(lia)).
  destruct (Hb (left + (right - left) / 2)) as [x ->]; [lia|]. destruct x; apply IH; lia.
Qed.

(** The linear part ends on any block: every entry that is accepted moves it forward. *)
Lemma seek_scan_total fuel target it offset :
  0 <= offset -> 0 <= restarts_offset_ (block_ it) <= size_of (data_ (block_ it)) -> restarts_offset_ (block_ it) < 2 ^ 32 ->
  Z.max 0 (restarts_offset_ (block_ it) - offset) < Z.of_nat fuel -> exists it', seek_scan fuel target it offset = Some it'.
Proof.
  revert it offset. induction fuel as [|fuel IH]; intros it offset Ho Hro H32 Hf; cbn [seek_scan]; [lia|].
  destruct (Z.ltb_spec offset (restarts_offset_ (block_ it))); [|eauto].
  destruct (ParseEntryAt_bounds it offset Ho Hro H32) as (it1 & -> & Eb & Hv & _). cbn [mbind option_bind].
  destruct (blk_Valid it1) eqn:Ev; cbn [negb]; [|eauto]. destruct (Slice.geb (current_key_ it1) target); [eauto|].
  destruct (Hv eq_refl) as [_ Hn]. apply IH; rw ?Eb; lia.
Qed.

Lemma NewBlock_restarts data b : NewBlock data = Some b -> size_of data < 2 ^ 32 -> 0 <= num_restarts_ b < 2 ^ 30.
Proof.
  rw /NewBlock Z.geb_leb. intros Hb Hsz. destruct (Z.leb_spec 4 (size_of data)); [|by injection Hb as <-].
  destruct (DecodeFixed32 data (size_of data - 4)) as [n|] eqn:En; [|done]. cbn [mbind option_bind] in Hb.
  pose proof (DecodeFixed32_range _ _ _ En) as Hn. pose proof (Z.mul_div_le (size_of data - 4) 4 ltac:(lia)).
  destruct (Z.leb_spec n ((size_of data - 4) / 4)); injection Hb as <-; simpl; lia.
Qed.

(** C39: [Seek] trusts the restart array.  If every restart point of a block of arbitrary
    bytes can be read, [Seek] returns, for every target; but if the restart point in the
    middle of the array, the first one that the binary search looks at, lies outside the
    block, then [Seek] reads outside the block's bytes. *)
Theorem block_seek_unchecked_restart (data : bytes) (b : Block) (it : BlockIter) (target : bytes) :
  NewBlock data = Some b -> block_ it = b -> size_of data < 2 ^ 32 -> 0 < num_restarts_ b ->
  ((forall i, 0 <= i < num_restarts_ b -> restart_readable it i) -> exists it', blk_Seek target it = Some it') /\
  (forall offset, GetRestartOffset it ((num_restarts_ b - 1) / 2) = Some offset -> size_of data < offset + 4 ->
     DecodeFixed32 data offset = None /\ blk_Seek target it = None).
Proof.
  intros Hb <- Hsz Hn. destruct (NewBlock_bounds _ _ Hb) as (Ed & Hro & H32). pose proof (NewBlock_restarts _ _ Hb Hsz) as Hnr.
  rw /blk_Seek /find_restart /to_int. destruct (Z.eqb_spec (num_restarts_ (block_ it)) 0); [lia|].
  destruct (Z.ltb_spec (num_restarts_ (block_ it)) (2 ^ 31)); [|lia]. split.
  - intros Hr. destruct (restart_search_total (Z.to_nat (num_restarts_ (block_ it))) (seek_below target it) (num_restarts_ (block_ it))
      0 (num_restarts_ (block_ it) - 1) 0) as (tr & -> & Ht); try lia; [intros i Hi; by apply seek_below_readable, Hr|].
    destruct (Hr tr Ht) as (offset & klen & E1 & E2 & _). cbn [mbind option_bind]. rw E1. cbn [mbind option_bind].
    pose proof (DecodeFixed32_inside _ _ _ E2) as [Ho _]. rw -Ed in Hro. apply seek_scan_total; auto. rw /scan_fuel. rw /size_of in Hro. lia.
  - intros offset Eo Hout. assert (Hd : DecodeFixed32 data offset = None).
    { destruct (DecodeFixed32 data offset) as [k|] eqn:Ek; [|done]. apply DecodeFixed32_inside in Ek. lia. }
    split; [done|]. destruct (Z.to_nat (num_restarts_ (block_ it))) as [|fuel] eqn:Ef; [lia|]. cbn [restart_search].
    destruct (Z.leb_spec 0 (num_restarts_ (block_ it) - 1)); [|lia]. rw Z.sub_0_r Z.add_0_l /seek_below Eo. cbn [mbind option_bind].
    by rw Ed Hd.
Qed.

Lemma block_seek_unchecked_restart_witness :
  exists b, NewBlock bad_restart_block = Some b /\ DecodeFixed32 bad_restart_block 1000 = None /\ blk_Seek (str "k") (NewBlockIter b) = None.
Proof.
  exists (mkBlock bad_restart_block 0 1). split; [by vm_compute|].
  apply (block_seek_unchecked_restart bad_restart_block (mkBlock bad_restart_block 0 1) (NewBlockIter (mkBlock bad_restart_block 0 1)) (str "k")).
  - by vm_compute.
  - done.
  - by vm_compute.
  - done.
  - by vm_compute.
  - by vm_compute.
Defined.

(** C40: [SeekToLast] does not end on a block whose entry is truncated: the parse error
    leaves [next_offset_] unchanged, so the loop parses the same offset for ever,
    whatever the number of turns. *)
Theorem block_seek_to_last_diverges :
  exists b, NewBlock truncated_block = Some b /\
    GetRestartOffset (NewBlockIter b) (num_restarts_ b - 1) = Some 0 /\
    forall fuel, scan_to fuel (restarts_offset_ b) (NewBlockIter b) 0 = None.
Proof.
  exists (mkBlock truncated_block 1 1). split_and!; [by vm_compute..|].
  assert (Hloop : forall fuel it, block_ it = mkBlock truncated_block 1 1 -> next_offset_ it = 0 ->
    scan_to fuel 1 it 0 = None).
  { induction fuel as [|fuel IH]; intros it Eb En; [done|]. cbn [scan_to]. rw /ParseEntryAt Eb /= En /=. by apply IH. }
  intros fuel. by apply Hloop.
Qed.
