(* ===== verification/BlockCache.v ===== *)
(** * BlockCache: the LRU cache of blocks

    Models [src/block_cache.h] and [src/block_cache.cc].  A node of [std::list] has an
    identity, which the iterators stored in [table_] denote: [lru_list_] is a list of
    numbered entries and [table_] maps a key to a number.  Following an iterator to a
    node that is no longer in the list is [None].  Every method holds the mutex
    throughout, so a method is one step.  The specification is an association list in
    order of use. *)

From S2P Require Import Prelude.
From stdpp Require Import gmap.

#[local] Open Scope Z_scope.

Section cache.
Context {B : Type}.

Abbreviation CacheKey := (Z * Z)%type.

Record CacheEntry := mkCacheEntry {
  ce_key : CacheKey;
  ce_block : B;
  ce_charge : Z;
}.

Record BlockCache := mkCache {
  capacity_bytes_ : Z;
  total_charge_ : Z;
  lru_list_ : list (nat * CacheEntry);
  cache_table_ : gmap CacheKey nat;
  next_node : nat;
}.

Definition NewBlockCache (capacity_bytes : Z) : BlockCache := mkCache capacity_bytes 0 [] ∅ O.

(** The entry an iterator of the list denotes, and the list without it. *)
Definition node_entry (n : nat) (l : list (nat * CacheEntry)) : option CacheEntry :=
  snd <$> find (fun p => (p.1 =? n)%nat) l.
Definition node_remove (n : nat) (l : list (nat * CacheEntry)) : list (nat * CacheEntry) :=
  List.filter (fun p => negb (p.1 =? n)%nat) l.

Definition Lookup (c : BlockCache) (k : CacheKey) : option (option B * BlockCache) :=
  match cache_table_ c !! k with
  | None => Some (None, c)
  | Some n =>
      e ← node_entry n (lru_list_ c);
      Some (Some (ce_block e),
            mkCache (capacity_bytes_ c) (total_charge_ c) ((n, e) :: node_remove n (lru_list_ c))
              (cache_table_ c) (next_node c))
  end.

Definition Erase (c : BlockCache) (k : CacheKey) : option BlockCache :=
  match cache_table_ c !! k with
  | None => Some c
  | Some n =>
      e ← node_entry n (lru_list_ c);
      Some (mkCache (capacity_bytes_ c) (u64 (total_charge_ c - ce_charge e)) (node_remove n (lru_list_ c))
              (delete k (cache_table_ c)) (next_node c))
  end.

(** [while (total_charge_ + charge > capacity_bytes_ && !lru_list_.empty())]: a turn
    removes the last node, so as many turns as there are nodes are enough. *)
Fixpoint evict (turns : nat) (charge : Z) (c : BlockCache) : BlockCache :=
  match turns with
  | O => c
  | S turns' =>
      if u64 (total_charge_ c + charge) >? capacity_bytes_ c then
        match last (lru_list_ c) with
        | None => c
        | Some (_, e) =>
            evict turns' charge
              (mkCache (capacity_bytes_ c) (u64 (total_charge_ c - ce_charge e)) (removelast (lru_list_ c))
                 (delete (ce_key e) (cache_table_ c)) (next_node c))
        end
      else c
  end.

Definition Insert (c : BlockCache) (k : CacheKey) (b : B) (charge : Z) : option BlockCache :=
  c ← Erase c k;
  let c := evict (length (lru_list_ c)) charge c in
  Some (mkCache (capacity_bytes_ c) (u64 (total_charge_ c + charge))
          ((next_node c, mkCacheEntry k b charge) :: lru_list_ c)
          (<[k := next_node c]> (cache_table_ c)) (S (next_node c))).

Definition Clear (c : BlockCache) : BlockCache := mkCache (capacity_bytes_ c) 0 [] ∅ (next_node c).
Definition TotalCharge (c : BlockCache) : Z := total_charge_ c.

(** ** Specification: an association list in order of use *)

Definition charge_of (l : list CacheEntry) : Z := foldr (fun e z => ce_charge e + z) 0 l.
Definition spec_find (k : CacheKey) (l : list CacheEntry) : option CacheEntry := find (fun e => bool_decide (ce_key e = k)) l.
Definition spec_erase (k : CacheKey) (l : list CacheEntry) : list CacheEntry :=
  List.filter (fun e => negb (bool_decide (ce_key e = k))) l.
Definition spec_lookup (k : CacheKey) (l : list CacheEntry) : option B * list CacheEntry :=
  match spec_find k l with
  | None => (None, l)
  | Some e => (Some (ce_block e), e :: spec_erase k l)
  end.

(** The least recently used entries go until the rest fits in [room]. *)
Fixpoint spec_evict (turns : nat) (room : Z) (l : list CacheEntry) : list CacheEntry :=
  match turns with
  | O => l
  | S turns' => if charge_of l >? room then spec_evict turns' room (removelast l) else l
  end.

Definition spec_insert (cap : Z) (k : CacheKey) (b : B) (charge : Z) (l : list CacheEntry) : list CacheEntry :=
  let l := spec_erase k l in
  mkCacheEntry k b charge :: spec_evict (length l) (cap - charge) l.

(** ** Representation *)

Definition entries (c : BlockCache) : list CacheEntry := snd <$> lru_list_ c.

(** A limit that keeps the sums of charges within [size_t]. *)
Definition small (z : Z) : Prop := 0 <= z < 2 ^ 62.

Record cache_inv (c : BlockCache) : Prop := {
  ci_nodes : NoDup (fst <$> lru_list_ c);
  ci_keys : NoDup (ce_key <$> entries c);
  ci_table : forall k n, cache_table_ c !! k = Some n <-> exists e, (n, e) ∈ lru_list_ c /\ ce_key e = k;
  ci_fresh : Forall (fun p => p.1 < next_node c)%nat (lru_list_ c);
  ci_charges : Forall (fun e => small (ce_charge e)) (entries c);
  ci_cap : small (capacity_bytes_ c);
  ci_total : total_charge_ c = charge_of (entries c);
  ci_bound : total_charge_ c <= capacity_bytes_ c \/ exists e, entries c = [e];
}.
End cache.

Arguments CacheEntry B : clear implicits.
Arguments BlockCache B : clear implicits.

Section cache_proofs.
Context {B : Type}.
Implicit Types (l : list (nat * CacheEntry B)) (c : BlockCache B).

Lemma node_entry_In l n e : NoDup (fst <$> l) -> (n, e) ∈ l -> node_entry n l = Some e.
Proof.
  rw /node_entry. induction l as [|[m x] l IH]; intros Hnd Hin; [by apply elem_of_nil in Hin|]. simpl in *.
  apply NoDup_cons in Hnd as [Hm Hnd]. destruct (Nat.eqb_spec m n) as [->|Hne].
  - apply elem_of_cons in Hin as [[= ->]|Hin]; [done|]. destruct Hm. apply list_elem_of_fmap. by exists (n, e).
  - apply elem_of_cons in Hin as [[= -> ->]|Hin]; [done|]. by apply IH.
Qed.

(** Removing a node removes the entry with its key. *)
Lemma node_remove_snd l n e :
  NoDup (fst <$> l) -> NoDup (ce_key <$> (snd <$> l)) -> (n, e) ∈ l ->
  snd <$> node_remove n l = spec_erase (ce_key e) (snd <$> l).
Proof.
  intros Hn Hk Hin. rw /node_remove /spec_erase. induction l as [|[m x] l IH]; [done|]. simpl in *.
  apply NoDup_cons in Hn as [Hm Hn]. apply NoDup_cons in Hk as [Hx Hk].
  apply elem_of_cons in Hin as [[= -> ->]|Hin].
  - rw Nat.eqb_refl bool_decide_true //=. clear IH.
    rewrite -> (List_filter_id (fun p : nat * CacheEntry B => negb (p.1 =? m)%nat)), List_filter_id; [done| |].
    + apply Forall_forall. intros y Hy. apply negb_true_iff, bool_decide_false. intros E. apply Hx. rw -E.
      apply list_elem_of_fmap. by exists y.
    + apply Forall_forall. intros [p y] Hy. apply negb_true_iff, Nat.eqb_neq. simpl. intros ->.
      apply Hm, list_elem_of_fmap. by exists (m, y).
  - destruct (Nat.eqb_spec m n) as [->|Hne].
    { destruct Hm. apply list_elem_of_fmap. by exists (n, e). }
    rw bool_decide_false; [|simpl; f_equal; by apply IH]. intros E. apply Hx. rw E.
    apply list_elem_of_fmap. exists e. split; [done|]. apply list_elem_of_fmap. by exists (n, e).
Qed.

Lemma spec_find_In k (es : list (CacheEntry B)) e :
  NoDup (ce_key <$> es) -> e ∈ es -> ce_key e = k -> spec_find k es = Some e.
Proof.
  rw /spec_find. intros Hnd Hin <-. induction es as [|x es IH]; [by apply elem_of_nil in Hin|]. simpl in *.
  apply NoDup_cons in Hnd as [Hx Hnd]. apply elem_of_cons in Hin as [->|Hin]; [by rw bool_decide_true|].
  rw bool_decide_false; [|auto]. intros E. apply Hx. rw E. apply list_elem_of_fmap. by exists e.
Qed.

Lemma spec_find_None k (es : list (CacheEntry B)) : (forall e, e ∈ es -> ce_key e <> k) -> spec_find k es = None /\ spec_erase k es = es.
Proof.
  intros H. split.
  - rw /spec_find. induction es as [|x es IH]; simpl; [done|]. rw bool_decide_false; [apply H; by left|].
    apply IH. intros e He. apply H. by right.
  - apply List_filter_id, Forall_forall. intros e He. apply negb_true_iff, bool_decide_false. by apply H.
Qed.

Lemma charge_of_erase k (es : list (CacheEntry B)) e :
  NoDup (ce_key <$> es) -> e ∈ es -> ce_key e = k -> charge_of (spec_erase k es) = charge_of es - ce_charge e.
Proof.
  intros Hnd Hin <-. induction es as [|x es IH]; [by apply elem_of_nil in Hin|]. simpl in *.
  apply NoDup_cons in Hnd as [Hx Hnd]. apply elem_of_cons in Hin as [->|Hin].
  - rw bool_decide_true //= (proj2 (spec_find_None (ce_key x) es _)); [|lia].
    intros e He E. apply Hx. rw -E. apply list_elem_of_fmap. by exists e.
  - rw bool_decide_false; [intros E; apply Hx; rw E; apply list_elem_of_fmap; by exists e|]. simpl. rw IH //. lia.
Qed.

Lemma charge_of_nonneg (es : list (CacheEntry B)) : Forall (fun e => small (ce_charge e)) es -> 0 <= charge_of es.
Proof. induction 1 as [|e es [He _] Hes IH]; simpl; lia. Qed.

Lemma inv_entry c n e : (n, e) ∈ lru_list_ c -> e ∈ entries c.
Proof. intros Hin. apply list_elem_of_fmap. by exists (n, e). Qed.

(** The table and the list agree on every key. *)
Lemma table_lookup c k :
  cache_inv c ->
  match cache_table_ c !! k with
  | Some n => exists e, (n, e) ∈ lru_list_ c /\ ce_key e = k /\ node_entry n (lru_list_ c) = Some e /\
                spec_find k (entries c) = Some e /\ e ∈ entries c
  | None => spec_find k (entries c) = None /\ spec_erase k (entries c) = entries c
  end.
Proof.
  intros [Hn Hk Ht _ _ _ _ _]. destruct (cache_table_ c !! k) as [n|] eqn:E.
  - apply Ht in E as (e & Hin & Ek). exists e. pose proof (inv_entry _ _ _ Hin). split_and!; auto.
    + by apply node_entry_In.
    + by apply spec_find_In.
  - apply spec_find_None. intros e ([n x] & -> & Hin)%list_elem_of_fmap Ek.
    assert (cache_table_ c !! k = Some n) by (apply Ht; by exists x). congruence.
Qed.

(** The total of a cache within its bound. *)
Lemma total_small c : cache_inv c -> 0 <= total_charge_ c < 2 ^ 62.
Proof.
  intros [_ _ _ _ Hc [_ Hcap] Ht Hb]. pose proof (charge_of_nonneg _ Hc). split; [lia|].
  destruct Hb as [?|[e Ee]]; [lia|]. rw Ht Ee /=. rw Ee in Hc. apply Forall_cons in Hc as [[_ He] _]. lia.
Qed.

(** A cache that lost some of its nodes. *)
Lemma inv_shrink c l m total :
  cache_inv c -> l `sublist_of` lru_list_ c ->
  (forall k n, m !! k = Some n <-> exists e, (n, e) ∈ l /\ ce_key e = k) ->
  total = charge_of (snd <$> l) -> total <= capacity_bytes_ c \/ (exists e, snd <$> l = [e]) ->
  cache_inv (mkCache (capacity_bytes_ c) total l m (next_node c)).
Proof.
  intros [Hn Hk Ht Hf Hc Hcap Htot Hb] Hsub Hm -> Hb'.
  assert (Hin : forall p, p ∈ l -> p ∈ lru_list_ c) by (intros p; by apply sublist_subseteq).
  split; rw /entries; simpl; auto.
  - eapply sublist_NoDup; [exact Hn|]. by apply fmap_sublist.
  - eapply sublist_NoDup; [exact Hk|]. by do 2 apply fmap_sublist.
  - rewrite -> Forall_forall in Hf |- *. auto.
  - rewrite -> Forall_forall in Hc |- *. intros e (p & -> & Hp)%list_elem_of_fmap. apply Hc.
    apply list_elem_of_fmap. exists p. auto.
Qed.

Lemma filter_sublist (f : nat * CacheEntry B -> bool) l : List.filter f l `sublist_of` l.
Proof. induction l as [|p l IH]; simpl; [constructor|]. destruct (f p); by constructor. Qed.

(** Erasing a key, whether or not it is cached. *)
Lemma Erase_run c k :
  cache_inv c ->
  exists c', Erase c k = Some c' /\ cache_inv c' /\ entries c' = spec_erase k (entries c) /\
    capacity_bytes_ c' = capacity_bytes_ c.
Proof.
  intros Hc. pose proof (table_lookup c k Hc) as Ht. rw /Erase.
  destruct (cache_table_ c !! k) as [n|] eqn:Ek; [|destruct Ht as [_ E]; by exists c; rw E].
  destruct Ht as (e & Hin & Eke & -> & _ & He). cbn [mbind option_bind].
  pose proof Hc as [Hn Hk Htab Hf Hch Hcap Htot Hb].
  assert (Eent : snd <$> node_remove n (lru_list_ c) = spec_erase k (entries c)).
  { rw (node_remove_snd _ _ e) // Eke //. }
  assert (Etot : u64 (total_charge_ c - ce_charge e) = charge_of (spec_erase k (entries c))).
  { rw (charge_of_erase k _ e) // Htot u64_small //. pose proof (total_small c Hc). rw Htot in H.
    pose proof (charge_of_erase k (entries c) e Hk He Eke) as Er.
    assert (0 <= charge_of (spec_erase k (entries c))).
    { apply charge_of_nonneg. rewrite -> Forall_forall in Hch |- *. intros x [Hx _]%elem_of_List_filter. auto. }
    rewrite -> Forall_forall in Hch. destruct (Hch e He). lia. }
  eexists; split; [done|]. split; [|by rw /entries /= Eent].
  apply inv_shrink; auto.
  - apply filter_sublist.
  - intros k' n'. rw lookup_delete_Some Htab. split.
    + intros (Hne & x & Hx & Ex). exists x. split; [|done]. apply elem_of_List_filter. split; [done|].
      apply negb_true_iff, Nat.eqb_neq. simpl. intros ->. apply Hne.
      pose proof (node_entry_In _ _ _ Hn Hx). pose proof (node_entry_In _ _ _ Hn Hin). congruence.
    + intros (x & [Hx Hne]%elem_of_List_filter & Ex). split; [|by exists x]. apply negb_true_iff, Nat.eqb_neq in Hne.
      simpl in Hne. intros ->. apply Hne. assert (cache_table_ c !! ce_key x = Some n') by (apply Htab; by exists x). congruence.
  - by rw Eent.
  - rw Etot Eent. pose proof (charge_of_erase k (entries c) e Hk He Eke) as Er.
    rewrite -> Forall_forall in Hch. destruct (Hch e He) as [H0 _]. destruct Hb as [Hb|[x Ex]]; [left; lia|].
    left. rw Ex in He. apply list_elem_of_singleton in He as ->. rw Er Ex /=. destruct Hcap. lia.
Qed.

Lemma charge_of_app (a b : list (CacheEntry B)) : charge_of (a ++ b) = charge_of a + charge_of b.
Proof. induction a as [|e a IH]; simpl; lia. Qed.

(** Dropping the least recently used node. *)
Lemma drop_last_inv c l n e :
  cache_inv c -> lru_list_ c = l ++ [(n, e)] ->
  cache_inv (mkCache (capacity_bytes_ c) (u64 (total_charge_ c - ce_charge e)) l
               (delete (ce_key e) (cache_table_ c)) (next_node c)) /\
  entries c = (snd <$> l) ++ [e].
Proof.
  intros Hc El. pose proof Hc as [Hn Hk Htab Hf Hch Hcap Htot Hb].
  assert (Ee : entries c = (snd <$> l) ++ [e]) by rw /entries El fmap_app //.
  split; [|done]. assert (0 <= charge_of (snd <$> l)) as H0.
  { apply charge_of_nonneg. rw Ee in Hch. by apply Forall_app in Hch as [? _]. }
  pose proof (total_small c Hc) as Hs. rw Htot Ee charge_of_app /= in Hs. rw Htot Ee charge_of_app /= Z.add_0_r Z.add_simpl_r.
  assert (He : 0 <= ce_charge e).
  { rw Ee in Hch. apply Forall_app in Hch as [_ Hch]. by apply Forall_cons in Hch as [[? _] _]. }
  apply inv_shrink; auto.
  - rw El. by apply sublist_inserts_r.
  - intros k n'. rw lookup_delete_Some Htab El. rw Ee fmap_app in Hk. apply NoDup_app in Hk as (_ & Hd & _). split.
    + intros (Hne & x & Hx & Ex). exists x. split; [|done]. apply elem_of_app in Hx as [?|Hx]; [done|].
      apply list_elem_of_singleton in Hx as [= -> ->]. done.
    + intros (x & Hx & Ex). split; [|exists x; split; [by apply elem_of_app; left|done]]. intros E.
      apply (Hd k); [|rw -E; by left]. rw -Ex. apply list_elem_of_fmap. exists x. split; [done|].
      apply list_elem_of_fmap. by exists (n', x).
  - rw u64_small //. lia.
  - left. rw u64_small; [lia|]. rw Htot Ee charge_of_app /= in Hb. destruct Hb as [Hb|[x Ex]]; [lia|].
    destruct l as [|p l]; [|by destruct l]. simpl. destruct Hcap. lia.
Qed.

Lemma spec_evict_nil turns room : spec_evict turns room ([] : list (CacheEntry B)) = [].
Proof. induction turns as [|turns IH]; simpl; [done|]. by destruct (0 >? room). Qed.

(** Eviction leaves enough room, or nothing. *)
Lemma evict_run turns charge c :
  cache_inv c -> small charge -> turns = length (lru_list_ c) ->
  let c' := evict turns charge c in
  cache_inv c' /\ entries c' = spec_evict turns (capacity_bytes_ c - charge) (entries c) /\
  capacity_bytes_ c' = capacity_bytes_ c /\
  (total_charge_ c' + charge <= capacity_bytes_ c' \/ entries c' = []).
Proof.
  revert c; induction turns as [|turns IH]; intros c Hc Hch Hlen; simpl.
  - split_and!; auto. right. rw /entries. by destruct (lru_list_ c).
  - pose proof (total_small c Hc) as Hs. destruct Hch as [H0 H62]. rw u64_small; [lia|]. rw !Z.gtb_ltb.
    pose proof (ci_total c Hc) as Htot.
    destruct (Z.ltb_spec (capacity_bytes_ c) (total_charge_ c + charge)) as [Hlt|Hge],
      (Z.ltb_spec (capacity_bytes_ c - charge) (charge_of (entries c))); try lia; [|split_and!; auto].
    destruct (last (lru_list_ c)) as [[n e]|] eqn:El.
    + apply last_Some in El as [l El].
      destruct (drop_last_inv c l n e Hc El) as [Hc' Ee].
      assert (Er : removelast (lru_list_ c) = l) by rw El removelast_last //.
      rw Er. destruct (IH _ Hc') as (H1 & H2 & H3 & H4); [done | rw El length_app /= in Hlen *; lia|].
      split_and!; auto. rw H2 Ee removelast_last //.
    + apply last_None in El. by rw El in Hlen.
Qed.

Lemma spec_evict_elem turns room (l : list (CacheEntry B)) e : e ∈ spec_evict turns room l -> e ∈ l.
Proof.
  revert l. induction turns as [|turns IH]; intros l; simpl; [done|]. destruct (_ >? _); [|done]. intros Hin%IH.
  destruct (decide (l = [])) as [->|Hne]; [done|]. rw (app_removelast_last e Hne). by apply elem_of_app; left.
Qed.

Lemma spec_erase_elem k (l : list (CacheEntry B)) e : e ∈ spec_erase k l <-> e ∈ l /\ ce_key e <> k.
Proof. by rw /spec_erase elem_of_List_filter negb_true_iff bool_decide_eq_false. Qed.

Lemma cache_Insert_run c k b charge :
  cache_inv c -> small charge ->
  exists c', Insert c k b charge = Some c' /\ cache_inv c' /\ capacity_bytes_ c' = capacity_bytes_ c /\
    entries c' = spec_insert (capacity_bytes_ c) k b charge (entries c).
Proof.
  intros Hc Hch. destruct (Erase_run c k Hc) as (c1 & E1 & Hc1 & Ee1 & Ecap1). rw /Insert E1. cbn [mbind option_bind].
  destruct (evict_run (length (lru_list_ c1)) charge c1 Hc1 Hch eq_refl) as (Hc2 & Ee2 & Ecap2 & Hroom).
  set (c2 := evict (length (lru_list_ c1)) charge c1) in *.
  eexists; split; [done|].
  assert (Eent : entries c2 = spec_evict (length (spec_erase k (entries c))) (capacity_bytes_ c - charge) (spec_erase k (entries c))).
  { rw Ee2 Ecap1 -Ee1 /entries length_fmap //. }
  assert (Hnk : k ∉ ce_key <$> entries c2).
  { intros (e & -> & He)%list_elem_of_fmap. rw Eent in He.
    by apply spec_evict_elem, spec_erase_elem in He as [_ Hne]. }
  pose proof Hc2 as [Hn Hk Htab Hf Hchs Hcap Htot Hb]. pose proof (total_small c2 Hc2) as Hs. destruct Hch as [H0 H62].
  split; [|split; [by rw /= Ecap2|exact (f_equal (cons (mkCacheEntry k b charge)) Eent)]].
  match goal with |- cache_inv ?c3 => assert (Eent3 : entries c3 = mkCacheEntry k b charge :: entries c2) by done end.
  split; rw ?Eent3; simpl.
  - constructor; [|done]. intros (p & Ep & Hp)%list_elem_of_fmap. rewrite -> Forall_forall in Hf. specialize (Hf p Hp). lia.
  - by constructor.
  - intros k' n. rw lookup_insert_Some Htab. split.
    + intros [[<- <-]|[Hne (e & He & Ek)]]; [by eexists; split; [left|]|]. exists e. split; [by right|done].
    + intros (e & [[= -> ->]|He]%elem_of_cons & Ek); [by left|]. right. split; [|by exists e]. intros ->.
      apply Hnk. rw -Ek. apply list_elem_of_fmap. exists e. split; [done|]. by eapply inv_entry.
  - constructor; [simpl; lia|]. eapply Forall_impl; [exact Hf|]. simpl. lia.
  - by constructor.
  - done.
  - rw u64_small; [lia|]. rw Htot. lia.
  - rw u64_small; [lia|]. destruct Hroom as [?|E]; [left; lia|right]. rw E. by eexists.
Qed.

Lemma Lookup_run c k :
  cache_inv c ->
  exists c', Lookup c k = Some ((spec_lookup k (entries c)).1, c') /\ cache_inv c' /\
    capacity_bytes_ c' = capacity_bytes_ c /\ entries c' = (spec_lookup k (entries c)).2.
Proof.
  intros Hc. pose proof (table_lookup c k Hc) as Ht. rw /Lookup /spec_lookup.
  destruct (cache_table_ c !! k) as [n|] eqn:Ek; [|destruct Ht as [-> _]; by exists c].
  destruct Ht as (e & Hin & Eke & -> & -> & He). cbn [mbind option_bind].
  pose proof Hc as [Hn Hk Htab Hf Hch Hcap Htot Hb].
  assert (Hperm : (n, e) :: node_remove n (lru_list_ c) ≡ₚ lru_list_ c).
  { clear -Hin Hn. induction (lru_list_ c) as [|[m x] l IH]; [by apply elem_of_nil in Hin|]. simpl in *.
    apply NoDup_cons in Hn as [Hm Hn]. apply elem_of_cons in Hin as [[= -> ->]|Hin].
    - rw /node_remove /= Nat.eqb_refl /=. rewrite -> List_filter_id; [done|]. apply Forall_forall. intros [p y] Hy. apply negb_true_iff, Nat.eqb_neq.
      simpl. intros ->. apply Hm, list_elem_of_fmap. by exists (m, y).
    - rw /node_remove /=. destruct (Nat.eqb_spec m n) as [->|Hne]; simpl; [destruct Hm; apply list_elem_of_fmap; by exists (n, e)|].
      rewrite -> perm_swap. constructor. by apply IH. }
  eexists; split; [done|]. split; [|split; [done|]; rw -Eke; exact (f_equal (cons e) (node_remove_snd _ _ _ Hn Hk Hin))].
  assert (Hp2 : snd <$> ((n, e) :: node_remove n (lru_list_ c)) ≡ₚ entries c) by by rewrite -> Hperm.
  split; rw /entries; simpl lru_list_; simpl next_node; simpl capacity_bytes_; simpl total_charge_; simpl cache_table_.
  - by rewrite -> Hperm.
  - by rewrite -> Hp2.
  - intros k' n'. rw Htab. by setoid_rewrite Hperm.
  - by rewrite -> Hperm.
  - by rewrite -> Hp2.
  - done.
  - rw Htot. clear -Hp2. induction Hp2; simpl in *; lia.
  - destruct Hb as [?|[x Ex]]; [by left|right]. exists x. rw Ex in Hp2. by apply Permutation_singleton_r in Hp2.
Qed.
End cache_proofs.

(** ** Histories *)

Section history.
Context {B : Type}.

Inductive cache_op :=
  | OpLookup (k : Z * Z)
  | OpInsert (k : Z * Z) (b : B) (charge : Z)
  | OpErase (k : Z * Z)
  | OpClear.

(** The calls of a history, one at a time. *)
Definition apply_op (c : BlockCache B) (op : cache_op) : option (BlockCache B) :=
  match op with
  | OpLookup k => '(_, c) ← Lookup c k; Some c
  | OpInsert k b charge => Insert c k b charge
  | OpErase k => Erase c k
  | OpClear => Some (Clear c)
  end.

Fixpoint run_ops (c : BlockCache B) (ops : list cache_op) : option (BlockCache B) :=
  match ops with
  | [] => Some c
  | op :: ops' => c ← apply_op c op; run_ops c ops'
  end.

Definition spec_op (cap : Z) (l : list (CacheEntry B)) (op : cache_op) : list (CacheEntry B) :=
  match op with
  | OpLookup k => (spec_lookup k l).2
  | OpInsert k b charge => spec_insert cap k b charge l
  | OpErase k => spec_erase k l
  | OpClear => []
  end.

(** The block a key was last given, unless it was erased since. *)
Definition latest_op (m : gmap (Z * Z) B) (op : cache_op) : gmap (Z * Z) B :=
  match op with
  | OpLookup _ => m
  | OpInsert k b _ => <[k := b]> m
  | OpErase k => delete k m
  | OpClear => ∅
  end.

Definition latest (ops : list cache_op) : gmap (Z * Z) B := foldl latest_op ∅ ops.

Definition op_small (op : cache_op) : Prop :=
  match op with OpInsert _ _ charge => small charge | _ => True end.

Lemma NewBlockCache_inv cap : small cap -> cache_inv (NewBlockCache (B:=B) cap).
Proof.
  intros [H1 H2]. split; [constructor|constructor| |constructor|constructor|done|done|by left].
  intros k n. split; [intros Hk; by apply (lookup_empty_Some (M:=gmap (Z * Z)) k n) in Hk|]. intros (e & He & _). by apply elem_of_nil in He.
Qed.

Lemma apply_op_run c op :
  cache_inv c -> op_small op ->
  exists c', apply_op c op = Some c' /\ cache_inv c' /\ capacity_bytes_ c' = capacity_bytes_ c /\
    entries c' = spec_op (capacity_bytes_ c) (entries c) op.
Proof.
  intros Hc Hs. destruct op as [k|k b charge|k|]; simpl.
  - destruct (Lookup_run c k Hc) as (c' & -> & ? & ? & ?). by exists c'.
  - destruct (cache_Insert_run c k b charge Hc Hs) as (c' & -> & ? & ? & ?). by exists c'.
  - destruct (Erase_run c k Hc) as (c' & -> & ? & ? & ?). by exists c'.
  - exists (Clear c). split; [done|]. split; [|done]. pose proof (NewBlockCache_inv _ (ci_cap c Hc)) as [H1 H2 H3 _ H5 H6 H7 H8].
    by split.
Qed.

(** Every cached block is the latest one of its key. *)
Definition current_blocks (m : gmap (Z * Z) B) (l : list (CacheEntry B)) : Prop :=
  forall e, e ∈ l -> m !! ce_key e = Some (ce_block e).

Lemma spec_find_elem k (l : list (CacheEntry B)) e : spec_find k l = Some e -> e ∈ l /\ ce_key e = k.
Proof. intros [Hin Hb]%find_some. split; [by apply list_elem_of_In | by apply bool_decide_eq_true in Hb]. Qed.

Lemma current_blocks_op cap m l op : current_blocks m l -> current_blocks (latest_op m op) (spec_op cap l op).
Proof.
  intros Hm. destruct op as [k|k b charge|k|]; simpl; intros e He.
  - rw /spec_lookup in He. destruct (spec_find k l) as [x|] eqn:Ex; [|by apply Hm]. simpl in He.
    apply elem_of_cons in He as [->|He]; apply Hm; [by apply spec_find_elem in Ex as [? _] | by apply spec_erase_elem in He as [? _]].
  - apply elem_of_cons in He as [->|He]; simpl; [by rw lookup_insert_eq|].
    apply spec_evict_elem, spec_erase_elem in He as [He Hne]. rw lookup_insert_ne //; auto.
  - apply spec_erase_elem in He as [He Hne]. rw lookup_delete_ne //; auto.
  - by apply elem_of_nil in He.
Qed.

Lemma run_ops_run ops c m :
  cache_inv c -> Forall op_small ops -> current_blocks m (entries c) ->
  exists c', run_ops c ops = Some c' /\ cache_inv c' /\ capacity_bytes_ c' = capacity_bytes_ c /\
    entries c' = foldl (spec_op (capacity_bytes_ c)) (entries c) ops /\
    current_blocks (foldl latest_op m ops) (entries c').
Proof.
  revert c m; induction ops as [|op ops IH]; intros c m Hc Hs Hm; simpl; [by exists c|].
  apply Forall_cons in Hs as [Hop Hs]. destruct (apply_op_run c op Hc Hop) as (c1 & -> & Hc1 & Ec & Ee). cbn [mbind option_bind].
  destruct (IH c1 (latest_op m op) Hc1 Hs) as (c' & E & Hc' & Ec' & Ee' & Hm').
  - rw Ee. by apply current_blocks_op.
  - exists c'. split_and!; auto; [congruence|]. by rw Ee' Ec Ee.
Qed.
End history.

Arguments cache_op B : clear implicits.

(** ** The claims *)

(** C17: after any history of calls on a new cache, every call has returned (no
    iterator in the table is ever dangling), the cache is the association list in
    order of use that the specification gives, [TotalCharge] is the sum of the
    charges held and is within the capacity unless a single larger block is held,
    and a lookup of any key returns nothing or the block last inserted under that
    key and not erased since. *)
Theorem block_cache_correct {B : Type} (cap : Z) (ops : list (cache_op B)) :
  small cap -> Forall op_small ops ->
  exists c, run_ops (NewBlockCache cap) ops = Some c /\
    entries c = foldl (spec_op cap) [] ops /\
    NoDup (ce_key <$> entries c) /\
    TotalCharge c = charge_of (entries c) /\
    (TotalCharge c <= cap \/ exists e, entries c = [e]) /\
    forall k, exists r c', Lookup c k = Some (r, c') /\ (r = None \/ r = latest ops !! k).
Proof.
  intros Hcap Hs.
  destruct (run_ops_run ops (NewBlockCache cap) ∅ (NewBlockCache_inv cap Hcap) Hs) as (c & E & Hc & Ec & Ee & Hm).
  { intros e He. by apply elem_of_nil in He. }
  exists c. split; [done|]. split; [done|]. split; [apply Hc|]. split; [apply Hc|].
  split; [change cap with (capacity_bytes_ (NewBlockCache (B:=B) cap)); rw -Ec; apply Hc|]. intros k. destruct (Lookup_run c k Hc) as (c' & E' & _). do 2 eexists. split; [exact E'|].
  rw /spec_lookup. destruct (spec_find k (entries c)) as [e|] eqn:Ef; [|by left]. right. simpl.
  apply spec_find_elem in Ef as [He <-]. by rw /latest (Hm e He).
Qed.

Lemma block_cache_correct_witness :
  exists c, run_ops (NewBlockCache 10)
      [OpInsert (1, 0) 101 4; OpInsert (1, 4) 102 4; OpLookup (1, 0); OpInsert (2, 0) 103 6] = Some c /\
    entries c = [mkCacheEntry (2, 0) 103 6; mkCacheEntry (1, 0) 101 4] /\ TotalCharge c = 10.
Proof.
  destruct (block_cache_correct 10
      [OpInsert (1, 0) 101 4; OpInsert (1, 4) 102 4; OpLookup (1, 0); OpInsert (2, 0) 103 6])
    as (c & E & Ee & _ & Et & _).
  - done.
  - by repeat constructor.
  - exists c. split; [done|]. rw Et Ee. by vm_compute.
Defined.
