(* ===== verification/BloomFilter.v ===== *)
(** * BloomFilter: the per-table filter

    Models [src/bloom_filter.h] and [src/bloom_filter.cc].  The number of probes is
    computed in [double] by the source; it is computed here with the Standard
    Library's binary64 arithmetic on specification floats. *)

From Stdlib Require Import SpecFloat.
From S2P Require Import Prelude Coding.

#[local] Open Scope Z_scope.

(** ** [MurmurHash3] *)

Definition murmur_c1 : Z := 0xcc9e2d51.
Definition murmur_c2 : Z := 0x1b873593.

(** [k *= c1; k = rotl(k, 15); k *= c2]. *)
Definition murmur_mix (k : Z) : Z :=
  let k := u32 (k * murmur_c1) in
  let k := Z.lor (u32 (Z.shiftl k 15)) (Z.shiftr k 17) in
  u32 (k * murmur_c2).

Fixpoint murmur_blocks (data : bytes) (n : nat) (i : Z) (h : Z) : option Z :=
  match n with
  | O => Some h
  | S n' =>
      k ← DecodeFixed32 data (i * 4);
      let h := Z.lxor h (murmur_mix k) in
      let h := Z.lor (u32 (Z.shiftl h 13)) (Z.shiftr h 19) in
      murmur_blocks data n' (i + 1) (u32 (h * 5 + 0xe6546b64))
  end.

(** The [switch (len & 3)]. *)
Definition murmur_tail (data : bytes) (off r : Z) (h : Z) : option Z :=
  k1 ← (if r >=? 3 then b ← byte_at data (off + 2); Some (Z.shiftl (Z_of_byte b) 16) else Some 0);
  k1 ← (if r >=? 2 then b ← byte_at data (off + 1); Some (Z.lxor k1 (Z.shiftl (Z_of_byte b) 8)) else Some k1);
  if r >=? 1 then
    b ← byte_at data off;
    Some (Z.lxor h (murmur_mix (Z.lxor k1 (Z_of_byte b))))
  else Some h.

Definition MurmurHash3 (data : bytes) (seed : Z) : option Z :=
  let len := size_of data in
  let nblocks := len / 4 in
  h ← murmur_blocks data (Z.to_nat nblocks) 0 seed;
  h ← murmur_tail data (nblocks * 4) (Z.land len 3) h;
  let h := Z.lxor h (u32 len) in
  let h := Z.lxor h (Z.shiftr h 16) in
  let h := u32 (h * 0x85ebca6b) in
  let h := Z.lxor h (Z.shiftr h 13) in
  let h := u32 (h * 0xc2b2ae35) in
  Some (Z.lxor h (Z.shiftr h 16)).

(** Published test vectors of MurmurHash3 (x86, 32 bits). *)
Example murmur_hello : MurmurHash3 (str "hello") 0 = Some 0x248bfa47.
Proof. by vm_compute. Qed.
Example murmur_fox : MurmurHash3 (str "The quick brown fox jumps over the lazy dog") 0x9747b28c = Some 0x2fa826cd.
Proof. by vm_compute. Qed.

(** ** [CreateFilter] *)

(** [static_cast<int>(bits_per_key * 0.69)]: the product rounded to binary64, then
    truncated; 0.69 is [0x16147ae147ae14 * 2^-53]. *)
Definition double_of_int (z : Z) : spec_float := binary_normalize 53 1024 z 0 false.
Definition double_0_69 : spec_float := S754_finite false 0x16147ae147ae14 (-53).
Definition trunc_double (f : spec_float) : Z :=
  match f with
  | S754_finite s m e =>
      let a := if e >=? 0 then Z.shiftl (Zpos m) e else Z.shiftr (Zpos m) (- e) in
      if s then - a else a
  | _ => 0
  end.

Definition num_probes (bits_per_key : Z) : Z :=
  let k := trunc_double (SFmul 53 1024 (double_of_int bits_per_key) double_0_69) in
  let k := if k <? 1 then 1 else k in
  if k >? 30 then 30 else k.

Example num_probes_default : num_probes 10 = 6.
Proof. by vm_compute. Qed.

(** [array[bitpos / 8] |= 1 << (bitpos % 8)]; outside the array it is undefined. *)
Definition set_bit (array : bytes) (bitpos : Z) : option bytes :=
  b ← byte_at array (bitpos / 8);
  Some (<[Z.to_nat (bitpos / 8) := byte_of_Z (Z.lor (Z_of_byte b) (Z.shiftl 1 (bitpos mod 8)))]> array).

(** [delta = (h >> 17) | (h << 15)]. *)
Definition hash_delta (h : Z) : Z := Z.lor (Z.shiftr h 17) (u32 (Z.shiftl h 15)).

Fixpoint add_probes (k : nat) (array : bytes) (bits h delta : Z) : option bytes :=
  match k with
  | O => Some array
  | S k' =>
      let bitpos := u32 (h mod bits) in
      array ← set_bit array bitpos;
      add_probes k' array bits (u32 (h + delta)) delta
  end.

Definition filter_seed : Z := 0xbc9f1d34.

Fixpoint add_keys (keys : list bytes) (k : nat) (array : bytes) (bits : Z) : option bytes :=
  match keys with
  | [] => Some array
  | key :: keys' =>
      h ← MurmurHash3 key filter_seed;
      array ← add_probes k array bits h (hash_delta h);
      add_keys keys' k array bits
  end.

Definition filter_bytes (n bits_per_key : Z) : Z :=
  let bits := u64 (n * u64 bits_per_key) in
  let bits := if bits <? 64 then 64 else bits in
  u64 (bits + 7) / 8.

Definition CreateFilter (keys : list bytes) (bits_per_key : Z) (dst : bytes) : option bytes :=
  let nbytes := filter_bytes (Z.of_nat (length keys)) bits_per_key in
  let k := num_probes bits_per_key in
  array ← add_keys keys (Z.to_nat k) (replicate (Z.to_nat nbytes) Byte.x00) (nbytes * 8);
  Some (dst ++ array ++ [byte_of_Z k]).

(** ** [KeyMayMatch] *)

Fixpoint test_probes (k : nat) (array : bytes) (bits h delta : Z) : option bool :=
  match k with
  | O => Some true
  | S k' =>
      let bitpos := u32 (h mod bits) in
      b ← byte_at array (bitpos / 8);
      if Z.land (Z_of_byte b) (Z.shiftl 1 (bitpos mod 8)) =? 0 then Some false
      else test_probes k' array bits (u32 (h + delta)) delta
  end.

Definition KeyMayMatch (key filter : bytes) : option bool :=
  let len := size_of filter in
  if len <? 2 then Some true else
  let bits := (len - 1) * 8 in
  kb ← byte_at filter (len - 1);
  let k := Z_of_byte kb in
  if k >? 30 then Some true else
  h ← MurmurHash3 key filter_seed;
  test_probes (Z.to_nat k) filter bits h (hash_delta h).

(** ** The hash is defined on every string *)

Lemma murmur_blocks_total data n i h :
  0 <= i -> (i + Z.of_nat n) * 4 <= size_of data -> is_Some (murmur_blocks data n i h).
Proof.
  revert i h; induction n as [|n IH]; intros i h Hi Hn; simpl; [eauto|].
  destruct (DecodeFixed32_Some data (i * 4)) as [k ->]; [lia..|]. apply IH; lia.
Qed.

Lemma murmur_tail_total data off r h :
  0 <= off -> 0 <= r -> off + r <= size_of data -> is_Some (murmur_tail data off r h).
Proof.
  intros Ho Hr Hs. rw /murmur_tail !Z.geb_leb.
  destruct (Z.leb_spec 3 r), (Z.leb_spec 2 r), (Z.leb_spec 1 r); try lia.
  - destruct (byte_at_Some data (off + 2)) as [b2 ->]; [lia|]. destruct (byte_at_Some data (off + 1)) as [b1 ->]; [lia|].
    destruct (byte_at_Some data off) as [b0 ->]; [lia|]. eauto.
  - destruct (byte_at_Some data (off + 1)) as [b1 ->]; [lia|].
    destruct (byte_at_Some data off) as [b0 ->]; [lia|]. eauto.
  - destruct (byte_at_Some data off) as [b0 ->]; [lia|]. eauto.
  - eauto.
Qed.

Lemma MurmurHash3_total data seed : is_Some (MurmurHash3 data seed).
Proof.
  rw /MurmurHash3. pose proof (size_of_nonneg data) as H0. pose proof (Z.mul_div_le (size_of data) 4 ltac:(lia)).
  pose proof (Z.div_pos (size_of data) 4 H0 ltac:(lia)).
  destruct (murmur_blocks_total data (Z.to_nat (size_of data / 4)) 0 seed) as [h ->]; [lia..|]. cbn [mbind option_bind].
  assert (Z.land (size_of data) 3 = size_of data mod 4) as -> by (change 3 with (Z.ones 2); by rw Z.land_ones).
  pose proof (Z.mod_pos_bound (size_of data) 4 ltac:(lia)). pose proof (Z.div_mod (size_of data) 4 ltac:(lia)).
  destruct (murmur_tail_total data (size_of data / 4 * 4) (size_of data mod 4) h) as [h' ->]; [lia..|]. eauto.
Qed.

(** ** Bits *)

Definition bit_set (array : bytes) (p : Z) : Prop :=
  exists b, byte_at array (p / 8) = Some b /\ Z.testbit (Z_of_byte b) (p mod 8) = true.

Lemma testbit_byte_lor b j i :
  0 <= j < 8 -> 0 <= i ->
  Z.testbit (Z_of_byte (byte_of_Z (Z.lor (Z_of_byte b) (Z.shiftl 1 j)))) i = Z.testbit (Z_of_byte b) i || (i =? j).
Proof.
  intros Hj Hi. rw Z_of_byte_of_Z. change 256 with (2 ^ 8).
  pose proof (Z_of_byte_range b) as Hb.
  assert (Hsmall : 0 <= Z.lor (Z_of_byte b) (Z.shiftl 1 j) < 2 ^ 8).
  { apply lor_range; [done|done|]. rw Z.shiftl_mul_pow2; [lia|]. split; [lia|].
    rw Z.mul_1_l. apply Z.pow_lt_mono_r; lia. }
  rw Z.mod_small // Z.lor_spec. f_equal. rw Z.shiftl_spec //.
  destruct (Z.eqb_spec i j) as [->|Hne]; [by rw Z.sub_diag|].
  destruct (Z.lt_ge_cases i j); [rw Z.testbit_neg_r //; lia|]. apply Z.bits_above_log2; simpl; lia.
Qed.

Lemma land_bit_0 b j : 0 <= j -> (Z.land (Z_of_byte b) (Z.shiftl 1 j) =? 0) = negb (Z.testbit (Z_of_byte b) j).
Proof.
  intros Hj. rw Z.shiftl_1_l. destruct (Z.testbit (Z_of_byte b) j) eqn:E; simpl.
  - apply Z.eqb_neq. intros H. apply (f_equal (fun z => Z.testbit z j)) in H.
    rw Z.land_spec E Z.pow2_bits_true // Z.bits_0 in H. done.
  - apply Z.eqb_eq, Z.bits_inj'. intros n Hn. rw Z.land_spec Z.bits_0.
    destruct (Z.eq_dec n j) as [->|Hne]; [by rw E|]. by rw Z.pow2_bits_false // andb_false_r.
Qed.

Lemma size_of_insert (s : bytes) i b : size_of (<[i := b]> s) = size_of s.
Proof. by rw /size_of length_insert. Qed.

(** Setting a bit keeps the bits that are set. *)
Lemma set_bit_run array p :
  0 <= p < size_of array * 8 ->
  exists array', set_bit array p = Some array' /\ size_of array' = size_of array /\ bit_set array' p /\
    forall q, 0 <= q -> bit_set array q -> bit_set array' q.
Proof.
  intros Hp. pose proof (Z.mod_pos_bound p 8 ltac:(lia)) as Hm.
  assert (0 <= p / 8 < size_of array) as Hd.
  { split; [apply Z.div_pos; lia|]. apply Z.div_lt_upper_bound; lia. }
  rw /set_bit. destruct (byte_at_Some array (p / 8) Hd) as [b Hb]. rw Hb. cbn [mbind option_bind].
  eexists. split; [done|]. split; [apply size_of_insert|].
  set (b' := byte_of_Z (Z.lor (Z_of_byte b) (Z.shiftl 1 (p mod 8)))).
  assert (Hget : forall i, 0 <= i -> byte_at (<[Z.to_nat (p / 8) := b']> array) i = if i =? p / 8 then Some b' else byte_at array i).
  { intros i Hi. rw !byte_at_eq. destruct (Z.ltb_spec i 0); [lia|]. destruct (Z.eqb_spec i (p / 8)) as [->|Hne].
    - rw list_lookup_insert_eq //. rw /size_of in Hd. lia.
    - rw list_lookup_insert_ne //. lia. }
  split.
  - exists b'. rw Hget; [lia|]. rw Z.eqb_refl. split; [done|]. rw testbit_byte_lor; [lia..|]. by rw Z.eqb_refl orb_true_r.
  - intros q Hq (x & Hx & Ht). assert (0 <= q / 8) as Hq8 by (apply Z.div_pos; lia).
    rw /bit_set Hget //. destruct (Z.eqb_spec (q / 8) (p / 8)) as [E|]; [|by exists x].
    exists b'. split; [done|]. rw E Hb in Hx. injection Hx as <-.
    rw testbit_byte_lor //; [apply Z.mod_pos_bound; lia|]. by rw Ht.
Qed.

(** ** Probes *)

Abbreviation bits_kept a a' := (forall q, 0 <= q -> bit_set a q -> bit_set a' q).

Lemma bitpos_range h bits : 0 < bits -> 0 <= u32 (h mod bits) < bits.
Proof.
  intros Hb. pose proof (Z.mod_pos_bound h bits Hb). pose proof (u32_range (h mod bits)).
  pose proof (u32_le (h mod bits) ltac:(lia)). lia.
Qed.

Lemma test_probes_kept k a a' bits h delta :
  0 < bits -> bits_kept a a' -> test_probes k a bits h delta = Some true -> test_probes k a' bits h delta = Some true.
Proof.
  intros Hb Hk. revert h; induction k as [|k IH]; intros h; simpl; [done|].
  set (p := u32 (h mod bits)). pose proof (bitpos_range h bits Hb) as Hp. fold p in Hp.
  pose proof (Z.mod_pos_bound p 8 ltac:(lia)) as Hm.
  destruct (byte_at a (p / 8)) as [b|] eqn:Eb; [|done]. cbn [mbind option_bind].
  rw land_bit_0; [lia|]. destruct (Z.testbit (Z_of_byte b) (p mod 8)) eqn:Et; [|done]. simpl. intros Ht.
  destruct (Hk p) as (b' & Hb' & Ht'); [lia|by exists b|]. rw Hb'. cbn [mbind option_bind].
  rw land_bit_0; [lia|]. rw Ht' /=. by apply IH.
Qed.

Lemma add_probes_run k a bits h delta :
  0 < bits -> bits = size_of a * 8 ->
  exists a', add_probes k a bits h delta = Some a' /\ size_of a' = size_of a /\ bits_kept a a' /\
    test_probes k a' bits h delta = Some true.
Proof.
  intros Hb. revert a h; induction k as [|k IH]; intros a h Hs; simpl; [by exists a|].
  set (p := u32 (h mod bits)). pose proof (bitpos_range h bits Hb) as Hp. fold p in Hp.
  destruct (set_bit_run a p) as (a1 & -> & Hs1 & Hset & Hk1); [lia|]. cbn [mbind option_bind].
  destruct (IH a1 (u32 (h + delta))) as (a' & -> & Hs' & Hk' & Ht); [lia|]. exists a'.
  split; [done|]. split; [lia|]. split; [auto|].
  destruct (Hk' p) as (b & Hbb & Htb); [lia|done|]. rw Hbb. cbn [mbind option_bind].
  rw land_bit_0; [apply Z.mod_pos_bound; lia|]. by rw Htb.
Qed.

Lemma add_keys_run keys k a bits :
  0 < bits -> bits = size_of a * 8 ->
  exists a', add_keys keys k a bits = Some a' /\ size_of a' = size_of a /\ bits_kept a a' /\
    forall key h, key ∈ keys -> MurmurHash3 key filter_seed = Some h ->
      test_probes k a' bits h (hash_delta h) = Some true.
Proof.
  intros Hb. revert a; induction keys as [|key keys IH]; intros a Hs; simpl.
  - exists a. split_and!; auto. intros key h Hin. by apply elem_of_nil in Hin.
  - destruct (MurmurHash3_total key filter_seed) as [h Eh]. rw Eh. cbn [mbind option_bind].
    destruct (add_probes_run k a bits h (hash_delta h) Hb Hs) as (a1 & -> & Hs1 & Hk1 & Ht1). cbn [mbind option_bind].
    destruct (IH a1) as (a' & -> & Hs' & Hk' & Ht'); [lia|]. exists a'. split_and!; auto; [lia|].
    intros key' h' [->|Hin]%elem_of_cons Eh'; [|by eapply Ht'].
    assert (h' = h) as -> by congruence. by eapply test_probes_kept.
Qed.

(** The probe count byte after the array does not disturb the probes. *)
Lemma test_probes_app k a bits h delta b :
  0 < bits -> bits = size_of a * 8 -> test_probes k (a ++ [b]) bits h delta = test_probes k a bits h delta.
Proof.
  intros Hb Hs. revert h; induction k as [|k IH]; intros h; simpl; [done|].
  pose proof (bitpos_range h bits Hb) as Hp. rw byte_at_app_l; [apply Z.div_lt_upper_bound; lia|].
  destruct (byte_at a (u32 (h mod bits) / 8)) as [x|]; [|done]. simpl. by destruct (_ =? 0).
Qed.

Lemma num_probes_range bpk : 1 <= num_probes bpk <= 30.
Proof. rw /num_probes. generalize (trunc_double (SFmul 53 1024 (double_of_int bpk) double_0_69)). intros k. rw Z.gtb_ltb. repeat case_bool; lia. Qed.

(** [CreateFilter] in full: the filter is appended, answers [true] for its keys and
    has one byte more than its bit array. *)
Lemma CreateFilter_run (keys : list bytes) (bits_per_key : Z) (dst : bytes) :
  0 <= bits_per_key < 2 ^ 31 -> Z.of_nat (length keys) * bits_per_key < 2 ^ 63 ->
  exists filter, CreateFilter keys bits_per_key dst = Some (dst ++ filter) /\
    (forall key, key ∈ keys -> KeyMayMatch key filter = Some true) /\
    size_of filter = filter_bytes (Z.of_nat (length keys)) bits_per_key + 1.
Proof.
  intros Hb Hn. set (nb := filter_bytes (Z.of_nat (length keys)) bits_per_key). set (k := num_probes bits_per_key).
  assert (8 <= nb) as Hnb.
  { rw /nb /filter_bytes (u64_small bits_per_key); [lia|]. rw (u64_small (_ * _)); [lia|].
    destruct (Z.ltb_spec (Z.of_nat (length keys) * bits_per_key) 64) as [|Hge]; rw u64_small; try lia; [done|].
    apply Z.div_le_lower_bound; lia. }
  pose proof (num_probes_range bits_per_key) as Hk. fold k in Hk.
  assert (Hs : nb * 8 = size_of (replicate (Z.to_nat nb) Byte.x00) * 8) by (rw /size_of length_replicate; lia).
  destruct (add_keys_run keys (Z.to_nat k) (replicate (Z.to_nat nb) Byte.x00) (nb * 8)) as (a & Ea & Hsa & _ & Ht); [lia|done|].
  exists (a ++ [byte_of_Z k]). rw /CreateFilter -/nb -/k Ea. split; [done|].
  assert (Hlen : size_of (a ++ [byte_of_Z k]) - 1 = nb) by (rw size_of_app size_of_cons size_of_nil; lia).
  split; [|rw -/nb; lia]. intros key Hin.
  rw /KeyMayMatch Hlen. destruct (Z.ltb_spec (size_of (a ++ [byte_of_Z k])) 2); [lia|].
  rw byte_at_app_r; [lia|]. replace (nb - size_of a) with 0 by lia.
  assert (byte_at [byte_of_Z k] 0 = Some (byte_of_Z k)) as -> by done. cbn [mbind option_bind].
  rw Z_of_byte_of_Z Z.mod_small; [lia|]. rw Z.gtb_ltb. destruct (Z.ltb_spec 30 k); [lia|].
  destruct (MurmurHash3_total key filter_seed) as [h Eh]. rw Eh. cbn [mbind option_bind].
  rw test_probes_app; [lia..|]. by eapply Ht.
Qed.

Lemma filter_bytes_bound n bits_per_key :
  0 <= n -> 0 <= bits_per_key < 2 ^ 31 -> n * bits_per_key <= 2 ^ 28 -> 8 <= filter_bytes n bits_per_key <= 2 ^ 25 + 8.
Proof.
  intros Hn Hb Hs. rw /filter_bytes (u64_small bits_per_key); [lia|]. rw (u64_small (_ * _)); [lia|].
  destruct (Z.ltb_spec (n * bits_per_key) 64); rw u64_small; try lia; [by vm_compute|].
  split; [apply Z.div_le_lower_bound; lia|]. apply Z.div_le_upper_bound; lia.
Qed.

(** [KeyMayMatch] answers on any bytes. *)
Lemma KeyMayMatch_total key filter : is_Some (KeyMayMatch key filter).
Proof.
  rw /KeyMayMatch. destruct (Z.ltb_spec (size_of filter) 2); [eauto|].
  destruct (byte_at_Some filter (size_of filter - 1)) as [kb ->]; [lia|]. cbn [mbind option_bind].
  rw Z.gtb_ltb. destruct (Z.ltb_spec 30 (Z_of_byte kb)); [eauto|].
  destruct (MurmurHash3_total key filter_seed) as [h ->]. cbn [mbind option_bind].
  set (bits := (size_of filter - 1) * 8). generalize (hash_delta h). intros delta. revert h.
  induction (Z.to_nat (Z_of_byte kb)) as [|k IH]; intros h; simpl; [eauto|].
  pose proof (bitpos_range h bits ltac:(lia)) as Hp.
  destruct (byte_at_Some filter (u32 (h mod bits) / 8)) as [b ->].
  - split; [apply Z.div_pos; lia|]. apply Z.div_lt_upper_bound; lia.
  - cbn [mbind option_bind]. destruct (_ =? 0); eauto.
Qed.

(** ** The claims *)

(** C20: no false negatives.  For any keys and any non-negative number of bits per key
    (sizes within [size_t]), [CreateFilter] succeeds, appends the filter after what
    [dst] held, and [KeyMayMatch] on the appended filter answers [true] for every
    key it was built from. *)
Theorem bloom_no_false_negatives (keys : list bytes) (bits_per_key : Z) (dst : bytes) :
  0 <= bits_per_key < 2 ^ 31 -> Z.of_nat (length keys) * bits_per_key < 2 ^ 63 ->
  exists filter, CreateFilter keys bits_per_key dst = Some (dst ++ filter) /\
    forall key, key ∈ keys -> KeyMayMatch key filter = Some true.
Proof. intros Hb Hn. destruct (CreateFilter_run keys bits_per_key dst Hb Hn) as (f & E & H & _). by exists f. Qed.

Lemma bloom_no_false_negatives_witness :
  exists filter, CreateFilter [str "apple"; str "pear"] 10 [] = Some filter /\
    KeyMayMatch (str "pear") filter = Some true /\ KeyMayMatch (str "plum") filter = Some false.
Proof.
  destruct (bloom_no_false_negatives [str "apple"; str "pear"] 10 []) as (f & E & H).
  - lia.
  - done.
  - exists f. split; [done|]. split; [apply H; by right; left|]. vm_compute in E. injection E as <-. by vm_compute.
Defined.

(** C30: [KeyMayMatch] returns on any filter bytes, corrupt ones included, without
    reading outside them. *)
Theorem bloom_match_in_bounds (key filter : bytes) : is_Some (KeyMayMatch key filter).
Proof. apply KeyMayMatch_total. Qed.
