(* ===== verification/Env.v ===== *)
(** * Env: durable files and the CURRENT pointer

    Models [src/env.h] (the non-Apple branches of its conditional code): [FsyncFile],
    [SyncDirectory] and [SetCurrentFile], which replaces CURRENT by writing a
    temporary file, syncing it and renaming it. *)

From S2P Require Import Prelude Status Format Posix Filename.

#[local] Open Scope Z_scope.

Definition FsyncFile (fd : Z) : M Status.t :=
  if fd <? 0 then mret (Status.IOError [Status.Lit "Invalid fd"])
  else
    r ← sys (sys_fdatasync fd);
    if r <? 0 then
      e ← get_errno;
      mret (Status.IOError [Status.Lit "fdatasync failed: "; Status.Errno e])
    else mret Status.OK.

(** [fsync(fd)] answers like [fdatasync(fd)]. *)
Definition sys_fsync : Z -> World -> Z * World := sys_fdatasync.

(** The result of [fsync] is ignored. *)
Definition SyncDirectory (dirpath : bytes) : M Status.t :=
  fd ← sys (sys_open dirpath (mkFlags false false false));
  if fd <? 0 then
    e ← get_errno;
    mret (Status.IOError [Status.Lit "Failed to open directory for sync: "; Status.Str dirpath; Status.Lit " ("; Status.Errno e; Status.Lit ")"])
  else
    _ ← sys (sys_fsync fd);
    _ ← sys (sys_close fd);
    mret Status.OK.

(** [snprintf(manifest_name, "MANIFEST-%06llu\n")]. *)
Definition manifest_line (manifest_number : Z) : bytes :=
  snprintf64 (str "MANIFEST-" ++ format_06llu manifest_number ++ [Byte.x0a]).

Definition tmp_current (dbname : bytes) : bytes := CurrentFileName dbname ++ str ".tmp".

Definition SetCurrentFile (dbname : bytes) (manifest_number : Z) : M Status.t :=
  let manifest_name := manifest_line manifest_number in
  let tmp_file := tmp_current dbname in
  fd ← sys (sys_open tmp_file (mkFlags true true false));
  if fd <? 0 then
    e ← get_errno;
    mret (Status.IOError [Status.Lit "Failed to create temporary CURRENT file: "; Status.Str tmp_file; Status.Lit " ("; Status.Errno e; Status.Lit ")"])
  else
    let len := size_of manifest_name in
    written ← sys (sys_write fd manifest_name);
    if negb (written =? len) then
      _ ← sys (sys_close fd);
      mret (Status.IOError [Status.Lit "Failed to write to temporary CURRENT file"])
    else
      s ← FsyncFile fd;
      _ ← sys (sys_close fd);
      if negb (Status.ok s) then mret s
      else
        r ← sys (sys_rename tmp_file (CurrentFileName dbname));
        if negb (r =? 0) then
          e ← get_errno;
          mret (Status.IOError [Status.Lit "Failed to rename temporary CURRENT file: "; Status.Errno e])
        else SyncDirectory dbname.

(** ** What a path shows *)

Definition content_at (w : World) (path : bytes) : option bytes :=
  ino ← w_dir w !! path; Some (file_content w ino).

(** No two names share an inode, and new inodes and descriptors are new. *)
Record fs_wf (w : World) : Prop := {
  fw_inj : forall p q i, w_dir w !! p = Some i -> w_dir w !! q = Some i -> p = q;
  fw_fresh : forall p i, w_dir w !! p = Some i -> (i < w_fresh_ino w)%nat;
  fw_fd : 0 <= w_fresh_fd w;
}.

(** Two worlds with the same names and contents. *)
Record same_files (w w' : World) : Prop := {
  sf_dir : w_dir w' = w_dir w;
  sf_data : forall i, file_content w' i = file_content w i;
  sf_fresh : w_fresh_ino w' = w_fresh_ino w /\ w_fresh_fd w <= w_fresh_fd w';
}.

Lemma same_files_refl w : same_files w w.
Proof. split; auto. lia. Qed.

Lemma same_files_trans w1 w2 w3 : same_files w1 w2 -> same_files w2 w3 -> same_files w1 w3.
Proof. intros [H1 H2 [H3 H3']] [G1 G2 [G3 G3']]. split; [congruence| |split; [congruence|lia]]. intros i. by rw G2 H2. Qed.

Lemma same_files_content w w' p : same_files w w' -> content_at w' p = content_at w p.
Proof. intros [H1 H2 _]. rw /content_at H1. destruct (w_dir w !! p); simpl; [by rw H2|done]. Qed.

Lemma same_files_wf w w' : same_files w w' -> fs_wf w -> fs_wf w'.
Proof. intros [H1 H2 [H3 H4]] [F1 F2 F3]. split; rw ?H1 ?H3; auto. lia. Qed.

Lemma pop_ctl_same w : same_files w (pop_ctl w).2.
Proof. rw /pop_ctl. destruct (w_ctl w); simpl; [apply same_files_refl|]. split; auto. simpl. lia. Qed.

Lemma set_errno_same w e : same_files w (set_errno e w).
Proof. split; auto. simpl. lia. Qed.

Lemma close_same w fd : same_files w (sys_close fd w).2.
Proof. split; auto. simpl. lia. Qed.

Lemma fdatasync_same w fd : same_files w (sys_fdatasync fd w).2.
Proof.
  rw /sys_fdatasync. pose proof (pop_ctl_same w) as Hp. destruct (pop_ctl w) as [[|e] w1]; simpl in *.
  - destruct (w_fds w1 !! fd); [done|]. eapply same_files_trans; [exact Hp|apply set_errno_same].
  - eapply same_files_trans; [exact Hp|apply set_errno_same].
Qed.

(** Opening without creating or truncating. *)
Lemma open_same w path : same_files w (sys_open path (mkFlags false false false) w).2.
Proof.
  rw /sys_open. pose proof (pop_ctl_same w) as Hp. destruct (pop_ctl w) as [[|e] w1]; simpl in *.
  - destruct (w_dir w1 !! path); simpl.
    + eapply same_files_trans; [exact Hp|]. split; auto. simpl. lia.
    + eapply same_files_trans; [exact Hp|apply set_errno_same].
  - eapply same_files_trans; [exact Hp|apply set_errno_same].
Qed.

Lemma tmp_neq dbname : tmp_current dbname <> CurrentFileName dbname.
Proof. rw /tmp_current. intros E. apply (f_equal length) in E. rw length_app /= in E. lia. Qed.

(** Creating or emptying a file: the descriptor is at its start, and the other names
    show what they did. *)
Lemma open_trunc_run w path :
  fs_wf w ->
  let '(fd, w1) := sys_open path (mkFlags true true false) w in
  (fd = -1 /\ same_files w w1) \/
  (0 <= fd /\ fs_wf w1 /\ (exists ino, w_dir w1 !! path = Some ino /\ file_content w1 ino = [] /\ at_end w1 fd ino /\
     forall p i, p <> path -> w_dir w1 !! p = Some i -> i <> ino) /\
   forall p, p <> path -> w_dir w1 !! p = w_dir w !! p /\ content_at w1 p = content_at w p).
Proof.
  intros Hw. rw /sys_open. pose proof (pop_ctl_same w) as Hp. destruct (pop_ctl w) as [[|e] w0]; simpl in Hp.
  2:{ left. split; [done|]. eapply same_files_trans; [exact Hp|apply set_errno_same]. }
  pose proof (same_files_wf _ _ Hp Hw) as [F1 F2 F3]. cbn [o_creat o_trunc o_append].
  destruct (w_dir w0 !! path) as [ino|] eqn:Ed; simpl; right.
  - split; [done|]. split; [split; simpl; auto; lia|]. split.
    + exists ino. split; [done|]. split; [by rw /file_content /= lookup_insert_eq|]. split.
      * eexists. split; [simpl; by rw lookup_insert_eq|]. split; [done|]. right. by rw /file_content /= lookup_insert_eq.
      * intros p i Hne Hi ->. by eapply Hne, F1.
    + intros p Hne. rw -(same_files_content _ _ p Hp) /content_at /= -(sf_dir _ _ Hp). split; [done|].
      destruct (w_dir w0 !! p) as [i|] eqn:Ei; [|done]. simpl. f_equal.
      rw /file_content /= lookup_insert_ne //. intros <-. by eapply Hne, F1.
  - split; [done|]. split.
    { split; simpl; [..|lia].
      - intros p q i. rw !lookup_insert_Some. intros [[<- <-]|[Hp1 Hp2]] [[<- E]|[Hq1 Hq2]]; auto.
        + apply F2 in Hq2. lia.
        + apply F2 in Hp2. lia.
        + by eapply F1.
      - intros p i. rw lookup_insert_Some. intros [[<- <-]|[_ Hp2]]; [lia|]. apply F2 in Hp2. lia. }
    split.
    + exists (w_fresh_ino w0). split; [by rw lookup_insert_eq|]. split; [by rw /file_content /= lookup_insert_eq|]. split.
      * eexists. split; [simpl; by rw lookup_insert_eq|]. split; [done|]. right. by rw /file_content /= lookup_insert_eq.
      * intros p i Hne. rw lookup_insert_ne //. intros Hi%F2. lia.
    + intros p Hne. rw -(same_files_content _ _ p Hp) /content_at /= -(sf_dir _ _ Hp) lookup_insert_ne //. split; [done|].
      destruct (w_dir w0 !! p) as [i|] eqn:Ei; [|done]. simpl. f_equal.
      rw /file_content /= lookup_insert_ne //. apply F2 in Ei. lia.
Qed.

Lemma FsyncFile_run w fd : exists s w', FsyncFile fd w = Some (s, w') /\ same_files w w'.
Proof.
  rw /FsyncFile. destruct (fd <? 0); [exists (Status.IOError [Status.Lit "Invalid fd"]), w; split; [done|apply same_files_refl]|].
  rw /mbind /SM_bind /sys. pose proof (fdatasync_same w fd). destruct (sys_fdatasync fd w) as [r w1]. simpl in *.
  destruct (r <? 0); by do 2 eexists.
Qed.

Lemma SyncDirectory_run w d : exists s w', SyncDirectory d w = Some (s, w') /\ same_files w w'.
Proof.
  rw /SyncDirectory /mbind /SM_bind /sys. pose proof (open_same w d) as H1. destruct (sys_open d _ w) as [fd w1]. simpl in *.
  destruct (fd <? 0); [by do 2 eexists|]. pose proof (fdatasync_same w1 fd) as H2. rw /sys_fsync.
  destruct (sys_fdatasync fd w1) as [r w2]. simpl in *. do 2 eexists. split; [done|].
  eapply same_files_trans; [exact H1|]. eapply same_files_trans; [exact H2|apply close_same].
Qed.

(** Renaming the temporary file over CURRENT. *)
Lemma rename_run w from to ino :
  fs_wf w -> from <> to -> w_dir w !! from = Some ino ->
  let '(r, w1) := sys_rename from to w in
  (r = -1 /\ same_files w w1) \/
  (r = 0 /\ fs_wf w1 /\ content_at w1 to = Some (file_content w ino) /\
   forall p, p <> from -> p <> to -> content_at w1 p = content_at w p).
Proof.
  intros Hw Hne Hf. rw /sys_rename. pose proof (pop_ctl_same w) as Hp. destruct (pop_ctl w) as [[|e] w0]; simpl in Hp.
  2:{ left. split; [done|]. eapply same_files_trans; [exact Hp|apply set_errno_same]. }
  pose proof (same_files_wf _ _ Hp Hw) as [F1 F2 F3]. rw (sf_dir _ _ Hp) Hf. right. split; [done|].
  rw -(sf_dir _ _ Hp) in Hf. rw -(sf_dir _ _ Hp).
  split; [|split].
  - split; simpl; [..|lia].
    + intros p q i. rw !lookup_insert_Some !lookup_delete_Some.
      intros [[<- <-]|(Hp1 & Hp2 & Hp3)] [[<- E]|(Hq1 & Hq2 & Hq3)]; auto.
      * destruct Hq2. by eapply F1.
      * subst i. destruct Hp2. by eapply F1.
      * by eapply F1.
    + intros p i. rw lookup_insert_Some lookup_delete_Some. intros [[<- <-]|(_ & _ & Hi)]; by eapply F2.
  - rw /content_at /= lookup_insert_eq /=. f_equal. apply (sf_data _ _ Hp).
  - intros p H1 H2. rw -(same_files_content _ _ p Hp) /content_at /= lookup_insert_ne // lookup_delete_ne //.
Qed.

(** Writing to the temporary file changes nothing else. *)
Lemma write_tmp_run w fd ino path d :
  fs_wf w -> w_dir w !! path = Some ino -> file_content w ino = [] -> at_end w fd ino -> d <> [] ->
  (forall p i, p <> path -> w_dir w !! p = Some i -> i <> ino) ->
  let '(n, w1) := sys_write fd d w in
  fs_wf w1 /\ w_dir w1 = w_dir w /\ (n = size_of d -> file_content w1 ino = d) /\
  forall p, p <> path -> content_at w1 p = content_at w p.
Proof.
  intros Hw Hd Hc He Hne Hoth. destruct (sys_write_cases w fd ino d He Hne) as (n & w1 & -> & F & _ & Hc1 & _).
  destruct F as [D1 _ _ D4 [D5 D5'] _]. split; [|split; [done|]].
  - destruct Hw as [F1 F2 F3]. split; rw ?D1 ?D5 ?D5' //.
  - split.
    + intros ->. by rw Hc1 Hc /size_of Nat2Z.id firstn_all.
    + intros p Hp. rw /content_at D1. destruct (w_dir w !! p) as [i|] eqn:Ei; [|done]. simpl. f_equal.
      apply D4. by eapply Hoth.
Qed.

Lemma manifest_line_nonempty n : manifest_line n <> [].
Proof. done. Qed.

(** ** The claim *)

(** C19: [SetCurrentFile] replaces CURRENT atomically.  Whatever system call fails,
    is cut short or is interrupted, it returns, and CURRENT then shows exactly what
    it showed before or the complete new manifest name, never anything else; if it
    returns [OK] CURRENT shows the new name; every other file but the temporary one
    is untouched. *)
Theorem set_current_atomic (dbname : bytes) (manifest_number : Z) (w : World) :
  fs_wf w ->
  exists st w', SetCurrentFile dbname manifest_number w = Some (st, w') /\ fs_wf w' /\
    (content_at w' (CurrentFileName dbname) = Some (manifest_line manifest_number) \/
     content_at w' (CurrentFileName dbname) = content_at w (CurrentFileName dbname) /\ Status.ok st = false) /\
    forall p, p <> tmp_current dbname -> p <> CurrentFileName dbname -> content_at w' p = content_at w p.
Proof.
  intros Hw. set (cur := CurrentFileName dbname). set (tmp := tmp_current dbname). set (line := manifest_line manifest_number).
  assert (Hct : cur <> tmp) by (intros E; by destruct (tmp_neq dbname)).
  assert (Hkeep : forall w' st, fs_wf w' -> Status.ok st = false -> (forall p, p <> tmp -> content_at w' p = content_at w p) ->
    fs_wf w' /\ (content_at w' cur = Some line \/ content_at w' cur = content_at w cur /\ Status.ok st = false) /\
    forall p, p <> tmp -> p <> cur -> content_at w' p = content_at w p) by (intros; split_and!; auto).
  rw /SetCurrentFile /mbind /SM_bind /sys /get_errno -/tmp -/cur -/line.
  pose proof (open_trunc_run w tmp Hw) as Hopen. destruct (sys_open tmp _ w) as [fd w1].
  destruct Hopen as [[-> Hs]|(Hfd & Hw1 & (ino & Hd1 & Hc1 & He1 & Hoth) & Hk1)]; simpl.
  { do 2 eexists. split; [done|]. apply Hkeep; [by eapply same_files_wf|done|].
    intros p _. by rw (same_files_content _ _ p Hs). }
  destruct (Z.ltb_spec fd 0); [lia|].
  pose proof (write_tmp_run w1 fd ino tmp line Hw1 Hd1 Hc1 He1 (manifest_line_nonempty _) Hoth) as Hwr.
  destruct (sys_write fd line w1) as [n w2]. destruct Hwr as (Hw2 & Hdir2 & Hfull & Hk2).
  assert (Hk : forall p, p <> tmp -> content_at w2 p = content_at w p) by (intros p Hp; rw Hk2 //; by apply Hk1).
  destruct (Z.eqb_spec n (size_of line)) as [En|]; simpl.
  2:{ do 2 eexists. split; [done|]. pose proof (close_same w2 fd) as Hs. apply Hkeep; [by eapply same_files_wf|done|].
      intros p Hp. rw (same_files_content _ _ p Hs). auto. }
  destruct (FsyncFile_run w2 fd) as (s & w3 & -> & Hs3).
  set (w4 := set_fds (delete fd (w_fds w3)) w3).
  assert (Hs4 : same_files w2 w4) by (eapply same_files_trans; [exact Hs3|apply (close_same w3 fd)]).
  pose proof (same_files_wf _ _ Hs4 Hw2) as Hw4.
  destruct (Status.ok s) eqn:Es; simpl.
  2:{ do 2 eexists. split; [done|]. apply Hkeep; auto. intros p Hp. rw (same_files_content _ _ p Hs4). auto. }
  assert (Hd4 : w_dir w4 !! tmp = Some ino) by rw (sf_dir _ _ Hs4) Hdir2 //.
  pose proof (rename_run w4 tmp cur ino Hw4 (not_eq_sym Hct) Hd4) as Hren. destruct (sys_rename tmp cur w4) as [r w5].
  destruct Hren as [[-> Hs5]|(-> & Hw5 & Hc5 & Hk5)]; simpl.
  { do 2 eexists. split; [done|]. apply Hkeep; [by eapply same_files_wf|done|].
    intros p Hp. rw (same_files_content _ _ p Hs5) (same_files_content _ _ p Hs4). auto. }
  destruct (SyncDirectory_run w5 dbname) as (st & w6 & -> & Hs6). do 2 eexists. split; [done|].
  split; [by eapply same_files_wf|]. split.
  - left. rw (same_files_content _ _ cur Hs6) Hc5 (sf_data _ _ Hs4) Hfull //.
  - intros p H1 H2. rw (same_files_content _ _ p Hs6) Hk5 // (same_files_content _ _ p Hs4). auto.
Qed.

(** A database directory whose CURRENT points to the first manifest, in which the
    first write is cut short. *)
Definition sample_world : World :=
  mkWorld {[ str "db/CURRENT" := 1%nat ]} {[ 1%nat := manifest_line 1 ]} ∅ 2 3 0 [IoPartial 4] [].

Lemma set_current_atomic_witness :
  exists st w', SetCurrentFile (str "db") 5 sample_world = Some (st, w') /\ Status.ok st = false /\
    content_at w' (str "db/CURRENT") = Some (manifest_line 1).
Proof.
  destruct (set_current_atomic (str "db") 5 sample_world) as (st & w' & E & _ & H & _).
  - split; simpl; [..|lia].
    + intros p q i. rw !lookup_singleton_Some. naive_solver.
    + intros p i. rw lookup_singleton_Some. intros [_ <-]. lia.
  - exists st, w'. split; [done|]. destruct H as [H|[H Hst]].
    + exfalso. vm_compute in E. injection E as <- <-. vm_compute in H. done.
    + split; [done|]. rw H. by vm_compute.
Defined.
