(* ===== verification/Options.v ===== *)
(** * Options: the settings of a database

    Models [include/strata/options.h] with its default values. *)

From S2P Require Import Prelude.

Record Options := mkOptions {
  create_if_missing : bool;
  error_if_exists : bool;
  write_buffer_size : Z;
  sync : bool;
  block_size : Z;
  bloom_bits_per_key : Z;
  block_cache_capacity_bytes : Z;
  max_level0_files : Z;
  max_file_size : Z;
}.

Definition default_options : Options :=
  mkOptions true false (4 * 1024 * 1024) false 4096 10 (8 * 1024 * 1024) 4 (2 * 1024 * 1024).
