(* ===== verification/SSTableBuilder.v ===== *)
(** * SSTableBuilder: writing a sorted table

    Models [src/sstable_builder.h] and [src/sstable_builder.cc].  Entries go to a
    data block; a block that has reached [block_size] is written with its checksum
    and indexed by its last key; [Finish] writes the filter, the index and the
    footer.  [table_bytes] is the layout of a finished file, and [Finish_run] shows
    that the builder produces it whenever the writes succeed (interrupted and short
    writes included). *)

From S2P Require Import Prelude Status Slice Coding Format Crc32 Posix Env Entry Block BloomFilter Options.

#[local] Open Scope Z_scope.

Definition kTableMagicNumber : Z := 0x5354524154413031.

Module SSTableBuilder.

Record t := mk {
  options_ : Options;
  filename_ : bytes;
  fd_ : Z;
  offset_ : Z;
  num_entries_ : Z;
  data_block_ : BlockBuilder;
  index_block_ : BlockBuilder;
  keys_for_filter_ : list bytes;
  last_key_in_block_ : bytes;
  smallest_key_ : bytes;
  largest_key_ : bytes;
  status_ : Status.t;
  closed_ : bool;
}.

Definition set_offset (o : Z) (b : t) : t :=
  mk (options_ b) (filename_ b) (fd_ b) o (num_entries_ b) (data_block_ b) (index_block_ b) (keys_for_filter_ b)
    (last_key_in_block_ b) (smallest_key_ b) (largest_key_ b) (status_ b) (closed_ b).
Definition set_status (s : Status.t) (b : t) : t :=
  mk (options_ b) (filename_ b) (fd_ b) (offset_ b) (num_entries_ b) (data_block_ b) (index_block_ b) (keys_for_filter_ b)
    (last_key_in_block_ b) (smallest_key_ b) (largest_key_ b) s (closed_ b).
Definition set_blocks (data index : BlockBuilder) (b : t) : t :=
  mk (options_ b) (filename_ b) (fd_ b) (offset_ b) (num_entries_ b) data index (keys_for_filter_ b)
    (last_key_in_block_ b) (smallest_key_ b) (largest_key_ b) (status_ b) (closed_ b).
Definition set_closed (b : t) : t :=
  mk (options_ b) (filename_ b) (fd_ b) (offset_ b) (num_entries_ b) (data_block_ b) (index_block_ b) (keys_for_filter_ b)
    (last_key_in_block_ b) (smallest_key_ b) (largest_key_ b) (status_ b) true.

(** The constructor. *)
Definition New (options : Options) (filename : bytes) : M t :=
  fd ← sys (sys_open filename (mkFlags true true false));
  e ← get_errno;
  mret (mk options filename fd 0 0 (NewBlockBuilder 16) (NewBlockBuilder 1) [] [] [] []
          (if fd <? 0
           then Status.IOError [Status.Lit "Failed to create file: "; Status.Str filename; Status.Lit " (";
                                Status.Errno e; Status.Lit ")"]
           else Status.OK) false).

(** The destructor. *)
Definition Destroy (b : t) : M unit :=
  if negb (closed_ b) && (fd_ b >=? 0) then _ ← sys (sys_close (fd_ b)); mret tt else mret tt.

(** [WriteRawBlock(contents, handle)]: the status, the handle and the builder. *)
Definition WriteRawBlock (b : t) (block_contents : bytes) : M (Status.t * BlockHandle * t) :=
  let handle := mkHandle (offset_ b) (size_of block_contents) in
  (* Write block contents *)
  '(s, o) ← with_fuel (write_all (fd_ b) "Failed to write block: " block_contents (offset_ b));
  let b := set_offset o b in
  if negb (Status.ok s) then mret (s, handle, b)
  else
    (* Write 4-byte CRC32 trailer *)
    let crc := Crc32 block_contents 0 in
    '(s, o) ← with_fuel (write_all (fd_ b) "Failed to write block trailer: " (EncodeFixed32 crc) (offset_ b));
    mret (s, handle, set_offset o b).

Definition FlushBlock (b : t) : M t :=
  if BlockBuilder_Empty (data_block_ b) then mret b
  else
    let '(raw, data) := BlockBuilder_Finish (data_block_ b) in
    '(s, handle, b) ← WriteRawBlock (set_blocks data (index_block_ b) b) raw;
    let b := set_status s b in
    if negb (Status.ok (status_ b)) then mret b
    else
      let handle_encoding := BlockHandle_EncodeTo handle [] in
      index ← mem (BlockBuilder_Add (index_block_ b) 0 kTypeValue (last_key_in_block_ b) handle_encoding);
      mret (set_blocks (BlockBuilder_Reset (data_block_ b)) index b).

(** The fields [Add] updates: key bounds, filter keys, data block and count. *)
Definition note_entry (key : bytes) (data : BlockBuilder) (b : t) : t :=
  mk (options_ b) (filename_ b) (fd_ b) (offset_ b) (u64 (num_entries_ b + 1)) data (index_block_ b)
    (keys_for_filter_ b ++ [key]) key (if num_entries_ b =? 0 then key else smallest_key_ b) key
    (status_ b) (closed_ b).

Definition Add (b : t) (seq : SequenceNumber) (type : ValueType) (key value : bytes) : M t :=
  if negb (Status.ok (status_ b)) then mret b
  else
    data ← mem (BlockBuilder_Add (data_block_ b) seq type key value);
    let b := note_entry key data b in
    if BlockBuilder_CurrentSizeEstimate (data_block_ b) >=? block_size (options_ b) then FlushBlock b else mret b.

(** The 48 bytes of the footer. *)
Definition footer (filter_handle index_handle : BlockHandle) : bytes :=
  BlockHandle_EncodeTo filter_handle [] ++ BlockHandle_EncodeTo index_handle [] ++ replicate 8 x00 ++
  EncodeFixed64 kTableMagicNumber.

(** [Finish] after the last data block: the filter, the index and the footer. *)
Definition Finish_rest (b : t) : M (Status.t * t) :=
  filter_data ← mem (CreateFilter (keys_for_filter_ b) (bloom_bits_per_key (options_ b)) []);
  '(s, filter_handle, b) ← WriteRawBlock b filter_data;
  let b := set_status s b in
  if negb (Status.ok (status_ b)) then mret (status_ b, b)
  else
    let '(index_raw, index) := BlockBuilder_Finish (index_block_ b) in
    '(s, index_handle, b) ← WriteRawBlock (set_blocks (data_block_ b) index b) index_raw;
    let b := set_status s b in
    if negb (Status.ok (status_ b)) then mret (status_ b, b)
    else
      '(s, o) ← with_fuel (write_all (fd_ b) "Failed to write footer: " (footer filter_handle index_handle) (offset_ b));
      let b := set_offset o b in
      if negb (Status.ok s) then mret (s, b)
      else
        s ← FsyncFile (fd_ b);
        _ ← sys (sys_close (fd_ b));
        mret (s, set_closed (set_status s b)).

Definition Finish (b : t) : M (Status.t * t) :=
  if negb (Status.ok (status_ b)) then
    if fd_ b >=? 0 then _ ← sys (sys_close (fd_ b)); mret (status_ b, set_closed b)
    else mret (status_ b, b)
  else
    b ← FlushBlock b;
    Finish_rest b.

Definition NumEntries (b : t) : Z := num_entries_ b.
Definition FileSize (b : t) : Z := offset_ b.
Definition SmallestKey (b : t) : bytes := smallest_key_ b.
Definition LargestKey (b : t) : bytes := largest_key_ b.
End SSTableBuilder.

(** [Add] for each entry in order. *)
Fixpoint SSTableBuilder_AddAll (b : SSTableBuilder.t) (es : list MemtableEntry) : M SSTableBuilder.t :=
  match es with
  | [] => mret b
  | e :: es' =>
      b ← SSTableBuilder.Add b (seq e) (type e) (user_key e) (value e);
      SSTableBuilder_AddAll b es'
  end.

(** A table of the entries [es]: what a flush does with a memtable. *)
Definition BuildTable (options : Options) (filename : bytes) (es : list MemtableEntry) :
    M (Status.t * SSTableBuilder.t) :=
  b ← SSTableBuilder.New options filename;
  b ← SSTableBuilder_AddAll b es;
  SSTableBuilder.Finish b.

(** ** The layout of a table *)

(** The bytes of the block of some entries. *)
Definition block_bytes (restart_interval : Z) (es : list MemtableEntry) : bytes :=
  match BlockBuilder_AddAll (NewBlockBuilder restart_interval) es with
  | Some b => (BlockBuilder_Finish b).1
  | None => []
  end.

(** A block followed by its checksum. *)
Definition framed (raw : bytes) : bytes := raw ++ EncodeFixed32 (Crc32 raw 0).

Definition data_area (blocks : list (list MemtableEntry)) : bytes :=
  concat ((fun es => framed (block_bytes 16 es)) <$> blocks).

Definition last_key (es : list MemtableEntry) : bytes := from_option user_key [] (last es).

(** The index entry of a data block. *)
Definition index_entry (offset : Z) (es : list MemtableEntry) : MemtableEntry :=
  mkEntry (last_key es) 0 kTypeValue (BlockHandle_EncodeTo (mkHandle offset (size_of (block_bytes 16 es))) []).

Fixpoint index_entries (offset : Z) (blocks : list (list MemtableEntry)) : list MemtableEntry :=
  match blocks with
  | [] => []
  | es :: blocks' =>
      index_entry offset es :: index_entries (offset + size_of (framed (block_bytes 16 es))) blocks'
  end.

Definition index_bytes (blocks : list (list MemtableEntry)) : bytes := block_bytes 1 (index_entries 0 blocks).

Definition filter_handle_of (blocks : list (list MemtableEntry)) (filter : bytes) : BlockHandle :=
  mkHandle (size_of (data_area blocks)) (size_of filter).
Definition index_handle_of (blocks : list (list MemtableEntry)) (filter : bytes) : BlockHandle :=
  mkHandle (size_of (data_area blocks ++ framed filter)) (size_of (index_bytes blocks)).

Definition table_bytes (blocks : list (list MemtableEntry)) (filter : bytes) : bytes :=
  data_area blocks ++ framed filter ++ framed (index_bytes blocks) ++
  SSTableBuilder.footer (filter_handle_of blocks filter) (index_handle_of blocks filter).

(** [content] is a table of the entries [es], cut into the data blocks [blocks]. *)
Record is_table (bits_per_key : Z) (content : bytes) (es : list MemtableEntry)
    (blocks : list (list MemtableEntry)) (filter : bytes) : Prop := {
  tbl_entries : concat blocks = es;
  tbl_nonempty : Forall (fun b => b <> []) blocks;
  tbl_filter : CreateFilter (user_key <$> es) bits_per_key [] = Some filter;
  tbl_content : content = table_bytes blocks filter;
}.

(** Tables of up to 16 MiB of encoded entries and 256 Mi filter bits: every block
    of such a table is within the reader's limit of 64 MiB. *)
Record table_small (bits_per_key : Z) (es : list MemtableEntry) : Prop := {
  ts_body : size_of (body es) <= 2 ^ 24;
  ts_bits : 0 <= bits_per_key < 2 ^ 31;
  ts_filter : Z.of_nat (length es) * bits_per_key <= 2 ^ 28;
  ts_entries : Forall entry_ok es;
}.

(** ** Blocks as byte strings *)

Lemma BlockBuilder_AddAll_snoc b es e :
  BlockBuilder_AddAll b (es ++ [e]) =
    (b ← BlockBuilder_AddAll b es; BlockBuilder_Add b (seq e) (type e) (user_key e) (value e)).
Proof.
  revert b; induction es as [|x es IH]; intros b; simpl.
  - by destruct (BlockBuilder_Add b _ _ _ _).
  - destruct (BlockBuilder_Add b _ _ _ _); [apply IH|done].
Qed.

Lemma BlockBuilder_AddAll_interval b es b' :
  BlockBuilder_AddAll b es = Some b' -> restart_interval_ b' = restart_interval_ b.
Proof.
  revert b; induction es as [|x es IH]; intros b; simpl; [by intros [= ->]|].
  rw {1}/BlockBuilder_Add. destruct (finished_ b); [done|]. case_match. simpl. intros E%IH. done.
Qed.

Lemma block_bytes_run ri es :
  size_of (body es) < 2 ^ 32 ->
  exists b rs, BlockBuilder_AddAll (NewBlockBuilder ri) es = Some b /\ building b es rs /\ restart_interval_ b = ri /\
    block_bytes ri es = body es ++ trailer (off es <$> rs).
Proof.
  intros Hsz. destruct (building_all es _ [] _ (building_new ri) Hsz) as (b & rs & E & B).
  exists b, rs. split_and!; auto.
  - by apply BlockBuilder_AddAll_interval in E.
  - rw /block_bytes E. by apply Finish_bytes.
Qed.

Lemma size_block_bytes ri es :
  size_of (body es) < 2 ^ 32 ->
  size_of (body es) + 4 <= size_of (block_bytes ri es) <= size_of (body es) + 4 * Z.of_nat (length es) + 8.
Proof.
  intros Hsz. destruct (block_bytes_run ri es Hsz) as (b & rs & _ & B & _ & ->).
  pose proof (bd_few _ _ _ B). rw size_of_app size_trailer length_fmap. lia.
Qed.

Lemma size_framed raw : size_of (framed raw) = size_of raw + 4.
Proof. rw /framed. size_tac. Qed.

(** A framed data block is at most twice as long as its entries. *)
Lemma size_framed_block es :
  size_of (body es) < 2 ^ 32 -> es <> [] ->
  size_of (body es) < size_of (framed (block_bytes 16 es)) <= 2 * size_of (body es).
Proof.
  intros Hsz Hne. pose proof (size_block_bytes 16 es Hsz). pose proof (length_body_17 es). rw size_framed.
  destruct es; [done|]. simpl length in *. lia.
Qed.

Lemma size_data_area_app a b : size_of (data_area (a ++ b)) = size_of (data_area a) + size_of (data_area b).
Proof. rw /data_area fmap_app concat_app. size_tac. Qed.

Lemma size_data_area blocks :
  size_of (body (concat blocks)) < 2 ^ 32 -> Forall (fun b => b <> []) blocks ->
  size_of (data_area blocks) <= 2 * size_of (body (concat blocks)).
Proof.
  intros Hsz Hne. induction Hne as [|b blocks Hb Hne IH]; [done|]. simpl in Hsz |- *. rw body_app size_of_app in Hsz *.
  rw /data_area fmap_cons /= -/(data_area blocks) size_of_app.
  pose proof (size_of_nonneg (body b)). pose proof (size_of_nonneg (body (concat blocks))).
  pose proof (size_framed_block b ltac:(lia) Hb). specialize (IH ltac:(lia)). lia.
Qed.

Lemma index_entries_app offset a b :
  index_entries offset (a ++ b) = index_entries offset a ++ index_entries (offset + size_of (data_area a)) b.
Proof.
  revert offset; induction a as [|x a IH]; intros offset; simpl.
  - f_equal. rw /data_area /=. change (size_of []) with 0. lia.
  - rw IH. do 3 f_equal. rw /data_area fmap_cons /= -/(data_area a) size_of_app. lia.
Qed.

Lemma size_BlockHandle h : size_of (BlockHandle_EncodeTo h []) = 16.
Proof. rw /BlockHandle_EncodeTo /PutFixed64 /=. size_tac. Qed.

Lemma size_footer fh ih : size_of (SSTableBuilder.footer fh ih) = 48.
Proof.
  rw /SSTableBuilder.footer. pose proof (size_BlockHandle fh) as Hf. pose proof (size_BlockHandle ih) as Hi.
  generalize dependent (BlockHandle_EncodeTo fh []). generalize dependent (BlockHandle_EncodeTo ih []).
  intros a Ha b Hb. rw !size_of_app Ha Hb size_EncodeFixed64 //.
Qed.

Lemma last_key_size es : es <> [] -> 17 + size_of (last_key es) <= size_of (body es).
Proof.
  intros Hne. destruct (exists_last Hne) as (l & e & ->). rw /last_key last_snoc /= body_app body_cons app_nil_r.
  pose proof (size_of_nonneg (value e)). pose proof (size_of_nonneg (body l)).
  rw (size_of_app (body l)) size_encode_entry. lia.
Qed.

Lemma size_index_body offset blocks :
  Forall (fun b => b <> []) blocks ->
  size_of (body (index_entries offset blocks)) <= 2 * size_of (body (concat blocks)).
Proof.
  intros Hne. revert offset; induction Hne as [|b blocks Hb Hne IH]; intros offset; [done|]. simpl.
  rw body_cons body_app (size_of_app (encode_entry _)) (size_of_app (body b)) size_encode_entry.
  cbn [user_key value index_entry]. rw size_BlockHandle.
  pose proof (last_key_size b Hb). pose proof (size_of_nonneg (last_key b)).
  specialize (IH (offset + size_of (framed (block_bytes 16 b)))). lia.
Qed.

Lemma length_index_entries offset blocks : length (index_entries offset blocks) = length blocks.
Proof. revert offset; induction blocks as [|b blocks IH]; intros offset; simpl; [done|]. by rw IH. Qed.

Lemma length_blocks (blocks : list (list MemtableEntry)) :
  Forall (fun b => b <> []) blocks -> (length blocks <= length (concat blocks))%nat.
Proof. induction 1 as [|b blocks Hb _ IH]; [done|]. rw /= length_app. destruct b; [done|simpl; lia]. Qed.

(** The index block is at most three times as long as the entries. *)
Lemma size_index_bytes blocks :
  Forall (fun b => b <> []) blocks -> size_of (body (concat blocks)) < 2 ^ 31 ->
  size_of (body (index_entries 0 blocks)) < 2 ^ 32 /\
  size_of (index_bytes blocks) <= 3 * size_of (body (concat blocks)) + 8.
Proof.
  intros Hne Hsz. pose proof (size_index_body 0 blocks Hne). split; [lia|].
  pose proof (size_block_bytes 1 (index_entries 0 blocks) ltac:(lia)) as Hb. rw length_index_entries in Hb.
  pose proof (length_blocks blocks Hne). pose proof (length_body_17 (concat blocks)). rw /index_bytes. lia.
Qed.

(** ** Building, step by step *)

Import SSTableBuilder.
#[local] Arguments BlockBuilder_Finish : simpl never.

(** The builder [b] has written the data blocks [blocks] to [ino] and holds the
    entries [cur]; nothing has failed. *)
Record table_building (opts : Options) (b : t) (blocks : list (list MemtableEntry)) (cur : list MemtableEntry)
    (ino : nat) (w : World) : Prop := {
  tb_options : options_ b = opts;
  tb_status : Status.ok (status_ b) = true;
  tb_fd : 0 <= fd_ b;
  tb_data : BlockBuilder_AddAll (NewBlockBuilder 16) cur = Some (data_block_ b);
  tb_index : BlockBuilder_AddAll (NewBlockBuilder 1) (index_entries 0 blocks) = Some (index_block_ b);
  tb_nonempty : Forall (fun es => es <> []) blocks;
  tb_keys : keys_for_filter_ b = user_key <$> (concat blocks ++ cur);
  tb_last : cur <> [] -> last_key_in_block_ b = last_key cur;
  tb_num : num_entries_ b = Z.of_nat (length (concat blocks ++ cur));
  tb_smallest : smallest_key_ b = from_option user_key [] (head (concat blocks ++ cur));
  tb_largest : largest_key_ b = last_key (concat blocks ++ cur);
  tb_offset : offset_ b = size_of (data_area blocks);
  tb_content : file_content w ino = data_area blocks;
  tb_end : at_end w (fd_ b) ino;
  tb_benign : benign w;
}.

Lemma WriteRawBlock_run b raw ino w :
  at_end w (fd_ b) ino -> benign w -> 0 <= offset_ b -> offset_ b + size_of (framed raw) < 2 ^ 64 ->
  exists st w', WriteRawBlock b raw w =
      Some ((st, mkHandle (offset_ b) (size_of raw), set_offset (offset_ b + size_of (framed raw)) b), w') /\
    Status.ok st = true /\ appended (fd_ b) ino (framed raw) w w'.
Proof.
  intros He Hb H0 H1. rw size_framed in H1 *. pose proof (size_of_nonneg raw).
  destruct (write_all_benign (fd_ b) ino "Failed to write block: " raw (offset_ b) w) as (s1 & w1 & E1 & O1 & A1); auto; [lia|].
  destruct (write_all_benign (fd_ b) ino "Failed to write block trailer: " (EncodeFixed32 (Crc32 raw 0))
    (offset_ b + size_of raw) w1) as (s2 & w2 & E2 & O2 & A2); [apply A1|apply A1|lia|rw size_EncodeFixed32; lia|].
  exists s2, w2. rw /WriteRawBlock (bind_run _ _ _ _ _ E1) O1 /=. rw (bind_run _ _ _ _ _ E2) size_EncodeFixed32 /=.
  split_and!; auto; [|by eapply appended_trans]. by rw /set_offset /= Z.add_assoc.
Qed.

Lemma BlockBuilder_Empty_run ri es b :
  size_of (body es) < 2 ^ 32 -> BlockBuilder_AddAll (NewBlockBuilder ri) es = Some b ->
  BlockBuilder_Empty b = bool_decide (es = []).
Proof.
  intros Hsz E. destruct (block_bytes_run ri es Hsz) as (b' & rs & E' & B & _). rw E' in E. injection E as ->.
  rw /BlockBuilder_Empty (bd_buffer _ _ _ B). apply bool_decide_ext. split; [|by intros ->].
  intros Hb. pose proof (length_le_body es) as Hl. rw Hb /= in Hl. by destruct es; [|simpl in Hl; lia].
Qed.

Lemma FlushBlock_empty opts b blocks ino w :
  table_building opts b blocks [] ino w -> FlushBlock b w = Some (b, w).
Proof. intros B. rw /FlushBlock (BlockBuilder_Empty_run 16 [] (data_block_ b)) //. by apply B. Qed.

Lemma FlushBlock_run opts b blocks cur ino w :
  table_building opts b blocks cur ino w -> cur <> [] ->
  size_of (body (concat blocks ++ cur)) <= 2 ^ 24 ->
  exists b' w', FlushBlock b w = Some (b', w') /\ table_building opts b' (blocks ++ [cur]) [] ino w' /\
    fd_ b' = fd_ b /\ io_frame (fd_ b) ino w w'.
Proof.
  intros B Hne Hsz. destruct B as [B1 B2 B3 B4 B5 B6 B7 B8 B9 B10 B11 B12 B13 B14 B15].
  rw body_app size_of_app in Hsz. pose proof (size_of_nonneg (body (concat blocks))). pose proof (size_of_nonneg (body cur)).
  destruct (block_bytes_run 16 cur ltac:(lia)) as (bb & rs & E & BB & Eri & _). assert (bb = data_block_ b) as -> by congruence.
  assert (Hraw : (BlockBuilder_Finish (data_block_ b)).1 = block_bytes 16 cur) by rw /block_bytes E //.
  pose proof (size_data_area blocks ltac:(lia) B6). pose proof (size_framed_block cur ltac:(lia) Hne) as Hfr.
  rw /FlushBlock (BlockBuilder_Empty_run 16 cur) //; [lia|]. rw bool_decide_false //.
  destruct (BlockBuilder_Finish (data_block_ b)) as [raw data] eqn:Ef. simpl in Hraw. subst raw.
  destruct (WriteRawBlock_run (set_blocks data (index_block_ b) b) (block_bytes 16 cur) ino w) as (st & w' & Ew & Hok & Ha);
    cbn [set_blocks offset_ fd_]; rw ?B12; [done|done|apply size_of_nonneg|lia|].
  rw (bind_run _ _ _ _ _ Ew). cbn [set_status set_offset set_blocks status_ index_block_ last_key_in_block_ data_block_]. rw Hok /=.
  assert (Ei : index_entries 0 (blocks ++ [cur]) = index_entries 0 blocks ++ [index_entry (size_of (data_area blocks)) cur])
    by rw index_entries_app //=.
  pose proof (size_index_body 0 blocks B6).
  destruct (block_bytes_run 1 (index_entries 0 blocks) ltac:(lia)) as (ib & irs & Eib & IB & _).
  assert (ib = index_block_ b) as -> by congruence.
  destruct (building_add (index_block_ b) (index_entries 0 blocks) irs (index_entry (size_of (data_area blocks)) cur) IB ltac:(lia))
    as (ib' & irs' & Eadd & _).
  cbn [index_entry seq type user_key value] in Eadd. rw (B8 Hne) B12 Eadd. cbn [mbind SM_bind lift].
  eexists _, w'. split; [done|].
  split; [|split; [done|apply Ha]].
  assert (Hcat : concat (blocks ++ [cur]) ++ [] = concat blocks ++ cur) by rw concat_app /= !app_nil_r //.
  split; cbn; rw ?Hcat; try done.
  - rw /BlockBuilder_Reset. assert (restart_interval_ data = 16) as ->; [|done].
    rw /BlockBuilder_Finish in Ef. by injection Ef as _ <-.
  - by rw Ei BlockBuilder_AddAll_snoc Eib.
  - apply Forall_app; split; [done|]. by constructor.
  - rw size_data_area_app /data_area /= app_nil_r //.
  - rw (ap_content _ _ _ _ _ Ha) B13 /data_area fmap_app concat_app /= app_nil_r //.
  - apply Ha.
  - apply Ha.
Qed.

Lemma last_key_snoc es e : last_key (es ++ [e]) = user_key e.
Proof. by rw /last_key last_snoc. Qed.

Lemma table_Add_run opts b blocks cur ino w e :
  table_building opts b blocks cur ino w -> size_of (body (concat blocks ++ cur ++ [e])) <= 2 ^ 24 ->
  exists b' blocks' cur' w', Add b (seq e) (type e) (user_key e) (value e) w = Some (b', w') /\
    table_building opts b' blocks' cur' ino w' /\ concat blocks' ++ cur' = concat blocks ++ cur ++ [e] /\
    fd_ b' = fd_ b /\ io_frame (fd_ b) ino w w' /\ (cur' = [] \/ size_of (body cur') < block_size opts).
Proof.
  intros B Hsz. pose proof B as [B1 B2 B3 B4 B5 B6 B7 B8 B9 B10 B11 B12 B13 B14 B15].
  assert (Hcur : size_of (body cur) < 2 ^ 32).
  { rw (body_app (concat blocks)) (body_app cur) (size_of_app (body (concat blocks))) (size_of_app (body cur)) in Hsz. pose proof (size_of_nonneg (body (concat blocks))).
    pose proof (size_of_nonneg (body [e])). pose proof (size_of_nonneg (body cur)). lia. }
  destruct (block_bytes_run 16 cur Hcur) as (bb & rs & E & BB & _ & _). assert (bb = data_block_ b) as -> by congruence.
  destruct (building_add (data_block_ b) cur rs e BB Hcur) as (bb' & rs' & Eadd & BB').
  rw /Add B2 /= (bind_lift _ _ _ _ Eadd).
  set (b1 := note_entry (user_key e) bb' b).
  assert (B' : table_building opts b1 blocks (cur ++ [e]) ino w).
  { split; try done; cbn; rw ?app_assoc.
    - by rw BlockBuilder_AddAll_snoc E.
    - by rw B7 (fmap_app _ (concat blocks ++ cur)).
    - intros _. rw last_key_snoc //.
    - rw B9 !length_app /=. pose proof (length_body_17 (concat blocks ++ cur ++ [e])) as H17. rw !length_app /= in H17.
      rw u64_small; lia.
    - rw B9 B10. destruct (concat blocks ++ cur) as [|x l] eqn:El; [done|]. cbn [length]. destruct (Z.eqb_spec (Z.of_nat (S (length l))) 0); [lia|done].
    - by rw last_key_snoc. }
  match goal with |- context [if ?c then FlushBlock _ else _] => destruct c eqn:Ec end.
  - destruct (FlushBlock_run opts b1 blocks (cur ++ [e]) ino w B') as (b' & w' & Ef & Hb' & Efd & F); [by destruct cur|done|].
    exists b', (blocks ++ [cur ++ [e]]), [], w'. split_and!; auto. by rw concat_app /= !app_nil_r.
  - exists b1, blocks, (cur ++ [e]), w. split_and!; auto; [apply io_frame_refl|]. right.
    rw /BlockBuilder_CurrentSizeEstimate /= (bd_buffer _ _ _ BB') B1 Z.geb_leb in Ec. apply Z.leb_gt in Ec. lia.
Qed.

Lemma AddAll_table_run opts es b blocks cur ino w :
  table_building opts b blocks cur ino w -> size_of (body (concat blocks ++ cur ++ es)) <= 2 ^ 24 ->
  exists b' blocks' cur' w', SSTableBuilder_AddAll b es w = Some (b', w') /\
    table_building opts b' blocks' cur' ino w' /\ concat blocks' ++ cur' = concat blocks ++ cur ++ es /\
    fd_ b' = fd_ b /\ io_frame (fd_ b) ino w w'.
Proof.
  revert b blocks cur w; induction es as [|e es IH]; intros b blocks cur w B Hsz; simpl.
  - exists b, blocks, cur, w. rw app_nil_r. split_and!; auto. apply io_frame_refl.
  - assert (Hsz1 : size_of (body (concat blocks ++ cur ++ [e])) <= 2 ^ 24).
    { replace (concat blocks ++ cur ++ e :: es) with ((concat blocks ++ cur ++ [e]) ++ es) in Hsz by rw -!app_assoc //.
      rw (body_app _ es) (size_of_app _ (body es)) in Hsz. pose proof (size_of_nonneg (body es)). lia. }
    destruct (table_Add_run opts b blocks cur ino w e B Hsz1) as (b1 & bl1 & c1 & w1 & E1 & B1 & Ec1 & Ef1 & F1 & _).
    rw (bind_run _ _ _ _ _ E1).
    assert (Ec : concat bl1 ++ c1 ++ es = concat blocks ++ cur ++ e :: es) by rw app_assoc Ec1 -!app_assoc //.
    destruct (IH b1 bl1 c1 w1 B1) as (b2 & bl2 & c2 & w2 & E2 & B2 & Ec2 & Ef2 & F2); [by rw Ec|].
    exists b2, bl2, c2, w2. rw Ef1 in Ef2 F2. split_and!; auto; [congruence|]. by eapply io_frame_trans.
Qed.

(** [fdatasync] and [close] of the finished file. *)
Lemma FsyncFile_ok w fd f :
  w_fds w !! fd = Some f -> 0 <= fd -> w_ctl w = [] -> FsyncFile fd w = Some (Status.OK, w).
Proof.
  intros Hf H0 Hc. rw /FsyncFile. destruct (Z.ltb_spec fd 0); [lia|].
  by rw /mbind /SM_bind /sys /sys_fdatasync /pop_ctl Hc Hf.
Qed.

(** What a finished builder reports of its entries. *)
Record table_result (b : t) (es : list MemtableEntry) (content : bytes) : Prop := {
  tr_num : NumEntries b = Z.of_nat (length es);
  tr_size : FileSize b = size_of content;
  tr_smallest : SmallestKey b = from_option user_key [] (head es);
  tr_largest : LargestKey b = last_key es;
  tr_closed : closed_ b = true;
}.

(** The file [path] has been written, with the contents [content], through a
    descriptor that is closed again: what else the world has is as it was. *)
Record file_written (path content : bytes) (w w' : World) : Prop := {
  fwr_ino : exists ino, w_dir w' !! path = Some ino /\ file_content w' ino = content /\
    (w_dir w !! path = None -> ino = w_fresh_ino w) /\ (forall i, w_dir w !! path = Some i -> ino = i) /\
    forall i, i <> ino -> file_content w' i = file_content w i;
  fwr_dir : forall p, p <> path -> w_dir w' !! p = w_dir w !! p;
  fwr_fds : forall fd, fd <> w_fresh_fd w -> w_fds w' !! fd = w_fds w !! fd;
  fwr_fresh : w_fresh_fd w' = w_fresh_fd w + 1 /\ (w_fresh_ino w <= w_fresh_ino w')%nat;
  fwr_wf : fs_wf w';
  fwr_benign : benign w';
  fwr_io : exists l, w_io w = l ++ w_io w';
}.

(** A world in which [path] has just been created or emptied. *)
Record file_opened (path : bytes) (ino : nat) (w w1 : World) : Prop := {
  fo_path : w_dir w1 !! path = Some ino;
  fo_empty : file_content w1 ino = [];
  fo_new : w_dir w !! path = None -> ino = w_fresh_ino w;
  fo_old : forall i, w_dir w !! path = Some i -> ino = i;
  fo_data : forall i, i <> ino -> file_content w1 i = file_content w i;
  fo_dir : forall p, p <> path -> w_dir w1 !! p = w_dir w !! p;
  fo_fds : forall fd, fd <> w_fresh_fd w -> w_fds w1 !! fd = w_fds w !! fd;
  fo_fresh : w_fresh_fd w1 = w_fresh_fd w + 1 /\ (w_fresh_ino w <= w_fresh_ino w1)%nat;
  fo_wf : fs_wf w1;
  fo_benign : benign w1;
  fo_io : w_io w1 = w_io w;
}.

Lemma sys_open_create w path :
  fs_wf w -> benign w ->
  exists ino w1, sys_open path (mkFlags true true false) w = (w_fresh_fd w, w1) /\ at_end w1 (w_fresh_fd w) ino /\
    file_opened path ino w w1.
Proof.
  intros Hw [Hio Hc]. pose proof (open_trunc_run w path Hw) as Ho. rw /sys_open /pop_ctl Hc in Ho *.
  cbn [o_creat o_trunc o_append] in Ho |- *. destruct (w_dir w !! path) as [ino|] eqn:Ed.
  - exists ino. eexists. split; [done|]. simpl in Ho. destruct Ho as [[Hneg _]|(_ & Hwf & _)]; [pose proof (fw_fd _ Hw); lia|].
    split; [|split; simpl].
    + eexists. simpl. rw lookup_insert_eq. split_and!; [done..|]. right. by rw /file_content /= lookup_insert_eq.
    + done.
    + by rw /file_content /= lookup_insert_eq.
    + congruence.
    + congruence.
    + intros i Hi. by rw /file_content /= lookup_insert_ne.
    + done.
    + intros fd Hfd. by rw lookup_insert_ne.
    + done.
    + done.
    + done.
    + done.
  - exists (w_fresh_ino w). eexists. split; [done|]. simpl in Ho.
    destruct Ho as [[Hneg _]|(_ & Hwf & _)]; [pose proof (fw_fd _ Hw); lia|].
    split; [|split; simpl].
    + eexists. simpl. rw lookup_insert_eq. split_and!; [done..|]. right. by rw /file_content /= lookup_insert_eq.
    + by rw lookup_insert_eq.
    + by rw /file_content /= lookup_insert_eq.
    + done.
    + congruence.
    + intros i Hi. by rw /file_content /= lookup_insert_ne.
    + intros p Hp. by rw lookup_insert_ne.
    + intros fd Hfd. by rw lookup_insert_ne.
    + split; [done|lia].
    + done.
    + done.
    + done.
Qed.

Lemma New_run opts path w :
  fs_wf w -> benign w ->
  exists b ino w1, New opts path w = Some (b, w1) /\ fd_ b = w_fresh_fd w /\ file_opened path ino w w1 /\
    table_building opts b [] [] ino w1.
Proof.
  intros Hw Hb. destruct (sys_open_create w path Hw Hb) as (ino & w1 & E & He & Ho). pose proof (fw_fd _ Hw).
  rw /New /mbind /SM_bind /sys E /get_errno /mret /SM_ret. destruct (Z.ltb_spec (w_fresh_fd w) 0); [lia|].
  do 3 eexists. split; [done|]. split; [done|]. split; [exact Ho|]. split; simpl; auto; try done; apply Ho.
Qed.

Lemma table_footer_eq (b : t) blocks filter :
  footer (mkHandle (size_of (data_area blocks)) (size_of filter))
    (mkHandle (size_of (data_area blocks) + size_of (framed filter)) (size_of (index_bytes blocks))) =
  footer (filter_handle_of blocks filter) (index_handle_of blocks filter).
Proof. by rw /index_handle_of size_of_app. Qed.

Lemma Finish_unfold b w :
  Status.ok (status_ b) = true -> Finish b w = (b ← FlushBlock b; Finish_rest b) w.
Proof. intros Hok. by rw /Finish Hok. Qed.

(** What the rest of [Finish] leaves alone. *)
Record closed_file (fd : Z) (ino : nat) (w w' : World) : Prop := {
  cf_dir : w_dir w' = w_dir w;
  cf_data : forall i, i <> ino -> file_content w' i = file_content w i;
  cf_fds : forall fd', fd' <> fd -> w_fds w' !! fd' = w_fds w !! fd';
  cf_fresh : w_fresh_ino w' = w_fresh_ino w /\ w_fresh_fd w' = w_fresh_fd w;
  cf_benign : benign w';
  cf_io : exists l, w_io w = l ++ w_io w';
}.

Lemma close_run fd ino d w w' :
  appended fd ino d w w' -> closed_file fd ino w (sys_close fd w').2 /\
  file_content (sys_close fd w').2 ino = file_content w ino ++ d.
Proof.
  intros [H1 [F1 F2 F3 F4 F5 F6] H3 H4]. split; [|done]. split; simpl; auto.
  intros fd' Hne. rw lookup_delete_ne //. auto.
Qed.

(** The data blocks [blocks] have been written; [keys] are to go to the filter. *)
Record rest_ready (b : t) (blocks : list (list MemtableEntry)) (keys : list bytes) (ino : nat) (w : World) : Prop := {
  rq_fd : 0 <= fd_ b;
  rq_index : BlockBuilder_AddAll (NewBlockBuilder 1) (index_entries 0 blocks) = Some (index_block_ b);
  rq_nonempty : Forall (fun es => es <> []) blocks;
  rq_keys : keys_for_filter_ b = keys;
  rq_offset : offset_ b = size_of (data_area blocks);
  rq_content : file_content w ino = data_area blocks;
  rq_end : at_end w (fd_ b) ino;
  rq_benign : benign w;
}.

Lemma Finish_rest_bytes b blocks keys ino w :
  rest_ready b blocks keys ino w -> size_of (body (concat blocks)) <= 2 ^ 24 ->
  0 <= bloom_bits_per_key (options_ b) < 2 ^ 31 -> Z.of_nat (length keys) * bloom_bits_per_key (options_ b) <= 2 ^ 28 ->
  exists b' filter w', Finish_rest b w = Some ((Status.OK, b'), w') /\
    CreateFilter keys (bloom_bits_per_key (options_ b)) [] = Some filter /\ file_content w' ino = table_bytes blocks filter /\
    FileSize b' = size_of (table_bytes blocks filter) /\ NumEntries b' = NumEntries b /\ SmallestKey b' = SmallestKey b /\
    LargestKey b' = LargestKey b /\ closed_ b' = true /\ closed_file (fd_ b) ino w w'.
Proof.
  intros [B3 B5 B6 B7 B12 B13 B14 B15] S1 S2 S3.
  destruct (CreateFilter_run keys (bloom_bits_per_key (options_ b)) []) as (filter & Ef & _ & Hfs); [done|lia|]. simpl in Ef.
  pose proof (filter_bytes_bound (Z.of_nat (length keys)) (bloom_bits_per_key (options_ b)) ltac:(lia) S2 S3) as Hfb.
  pose proof (size_of_nonneg (data_area blocks)) as Hd0. pose proof (size_data_area blocks ltac:(lia) B6) as Hd1.
  destruct (size_index_bytes blocks B6 ltac:(lia)) as [_ Hi].
  pose proof (size_framed filter). pose proof (size_framed (index_bytes blocks)). pose proof (size_of_nonneg (index_bytes blocks)).
  rw /Finish_rest (bind_lift _ _ _ filter); [by rw B7|].
  destruct (WriteRawBlock_run b filter ino w) as (s1 & w1 & E1 & O1 & A1); [done|done|lia|lia|].
  rw (bind_run _ _ _ _ _ E1). cbn [set_status set_offset status_]. rw O1. cbn [negb].
  change (index_block_ (set_status s1 (set_offset (offset_ b + size_of (framed filter)) b))) with (index_block_ b).
  assert (Eidx : (BlockBuilder_Finish (index_block_ b)).1 = index_bytes blocks) by rw /index_bytes /block_bytes B5 //.
  destruct (BlockBuilder_Finish (index_block_ b)) as [iraw index] eqn:Eib.
  simpl in Eidx. subst iraw. cbn iota beta.
  match goal with |- context [WriteRawBlock ?b2] => set (b2' := b2) end.
  destruct (WriteRawBlock_run b2' (index_bytes blocks) ino w1) as (s2 & w2 & E2 & O2 & A2);
    [apply A1|apply A1|simpl; lia|simpl; lia|].
  rw (bind_run _ _ _ _ _ E2). cbn [set_status set_offset status_]. rw O2 /=.
  rw B12 table_footer_eq //. set (ft := footer _ _).
  assert (size_of ft = 48) as Hft by apply size_footer.
  destruct (write_all_benign (fd_ b) ino "Failed to write footer: " ft
    (size_of (data_area blocks) + size_of (framed filter) + size_of (framed (index_bytes blocks))) w2)
    as (s3 & w3 & E3 & O3 & A3); [apply A2|apply A2|lia|lia|].
  rw (bind_run _ _ _ _ _ E3). rw O3 /=.
  pose proof (appended_trans _ _ _ _ _ _ _ (appended_trans _ _ _ _ _ _ _ A1 A2) A3) as A.
  destruct (at_end_fd _ _ _ (ap_end _ _ _ _ _ A)) as (f & Hf & _).
  rw (bind_run _ _ _ _ _ (FsyncFile_ok w3 (fd_ b) f Hf B3 ltac:(apply A))).
  destruct (close_run _ _ _ _ _ A) as [Hcl Hct]. eexists _, filter, _. split; [done|].
  split; [done|]. split; [rw Hct B13 /table_bytes -!app_assoc //|]. split; [|split_and!; auto].
  rw /table_bytes /FileSize /=.
  rw (size_of_app (data_area blocks)) (size_of_app (framed filter)) (size_of_app (framed (index_bytes blocks))). rw Hft. lia.
Qed.

Lemma Finish_rest_run opts b blocks ino w :
  table_building opts b blocks [] ino w -> table_small (bloom_bits_per_key opts) (concat blocks) ->
  exists b' filter w', Finish_rest b w = Some ((Status.OK, b'), w') /\
    is_table (bloom_bits_per_key opts) (file_content w' ino) (concat blocks) blocks filter /\
    table_result b' (concat blocks) (file_content w' ino) /\ closed_file (fd_ b) ino w w'.
Proof.
  intros B [S1 S2 S3 S4]. destruct B as [B1 B2 B3 B4 B5 B6 B7 B8 B9 B10 B11 B12 B13 B14 B15]. rw app_nil_r in B7 B9 B10 B11.
  destruct (Finish_rest_bytes b blocks (user_key <$> concat blocks) ino w) as (b' & filter & w' & E & Ef & Hc & Hz & Hn & Hsm & Hla & Hcl & Hfile);
    rw ?B1 ?length_fmap; [by split|done..|]. rw B1 in Ef.
  exists b', filter, w'. split; [done|]. split; [by split|]. split; [|done]. split; [by rw Hn|by rw Hc|by rw Hsm|by rw Hla|done].
Qed.

Lemma closed_file_frame fd ino w w1 w2 :
  io_frame fd ino w w1 -> closed_file fd ino w1 w2 -> closed_file fd ino w w2.
Proof.
  intros [F1 F2 F3 F4 [F5 F5'] [l F6]] [C1 C2 C3 [C4 C4'] C5 [l' C6]]. split; auto; try congruence.
  - intros i Hi. by rw C2 // F4.
  - intros fd' Hfd. by rw C3 // F3.
  - split; congruence.
  - exists (l ++ l'). by rw F6 C6 app_assoc.
Qed.

Lemma Finish_run opts b blocks cur ino w :
  table_building opts b blocks cur ino w -> table_small (bloom_bits_per_key opts) (concat blocks ++ cur) ->
  exists b' blocks' filter w', Finish b w = Some ((Status.OK, b'), w') /\
    is_table (bloom_bits_per_key opts) (file_content w' ino) (concat blocks ++ cur) blocks' filter /\
    table_result b' (concat blocks ++ cur) (file_content w' ino) /\ closed_file (fd_ b) ino w w'.
Proof.
  intros B S. rw (Finish_unfold _ _ (tb_status _ _ _ _ _ _ B)). destruct (decide (cur = [])) as [->|Hne].
  - rw (bind_run _ _ _ _ _ (FlushBlock_empty _ _ _ _ _ B)). rw app_nil_r in S *.
    destruct (Finish_rest_run opts b blocks ino w B S) as (b' & filter & w' & E & T). by exists b', blocks, filter, w'.
  - destruct (FlushBlock_run opts b blocks cur ino w B Hne) as (b1 & w1 & E1 & B1 & Efd & F); [apply S|].
    rw (bind_run _ _ _ _ _ E1).
    assert (Hcat : concat (blocks ++ [cur]) = concat blocks ++ cur) by rw concat_app /= app_nil_r //.
    destruct (Finish_rest_run opts b1 (blocks ++ [cur]) ino w1 B1) as (b' & filter & w' & E & T & R & C); [by rw Hcat|].
    rw Hcat in T R. rw Efd in C. exists b', (blocks ++ [cur]), filter, w'. split_and!; auto. by eapply closed_file_frame.
Qed.

(** Building a table from start to end. *)
Lemma BuildTable_run opts path es w :
  fs_wf w -> benign w -> table_small (bloom_bits_per_key opts) es ->
  exists b blocks filter content w', BuildTable opts path es w = Some ((Status.OK, b), w') /\
    is_table (bloom_bits_per_key opts) content es blocks filter /\
    table_result b es content /\ file_written path content w w'.
Proof.
  intros Hw Hb Hs. destruct (New_run opts path w Hw Hb) as (b0 & ino & w0 & E0 & Efd & Ho & B0).
  rw /BuildTable (bind_run _ _ _ _ _ E0).
  destruct (AddAll_table_run opts es b0 [] [] ino w0 B0) as (b1 & blocks1 & cur1 & w1 & E1 & B1 & Ec & Ef1 & F1); [apply Hs|].
  simpl in Ec. rw (bind_run _ _ _ _ _ E1).
  destruct (Finish_run opts b1 blocks1 cur1 ino w1 B1) as (b2 & blocks & filter & w2 & E2 & T & R & C); [by rw Ec|].
  rw Ec in T R. rw Ef1 Efd in C. rw Efd in F1. pose proof (closed_file_frame _ _ _ _ _ F1 C) as C'. clear C.
  exists b2, blocks, filter, (file_content w2 ino), w2. split_and!; auto.
  destruct C' as [C1 C2 C3 [C4 C4'] C5 C6], Ho as [O1 O2 O3 O3' O4 O5 O6 [O7 O7'] O8 O9 O10]. split; auto; [..|by rw -O10].
  - exists ino. rw C1. split_and!; auto. intros i Hi. by rw C2 // O4.
  - intros p Hp. by rw C1 O5.
  - intros fd Hfd. by rw C3 // O6.
  - split; [congruence|lia].
  - destruct O8 as [W1 W2 W3]. split; rw ?C1 ?C4 ?C4'; auto.
Qed.

(** ** The claim *)

(** The next transfer fails. *)
Definition fail_next (errno : Z) (w : World) : World := set_io (IoFail errno :: w_io w) w.

Lemma write_all_fails fd what p counter w errno :
  p <> [] -> errno <> EINTR ->
  write_all fd what p counter (fail_next errno w) = Some (Some (Status.IOError [Status.Lit what; Status.Errno errno], counter), set_errno errno w).
Proof.
  intros Hp He. destruct p as [|x p]; [done|]. rw /write_all /=. rw /mbind /SM_bind /sys /sys_write /pop_io /=.
  destruct (Z.eqb_spec errno EINTR); [done|]. done.
Qed.

Lemma FlushBlock_fails opts b blocks cur ino w errno :
  table_building opts b blocks cur ino w -> cur <> [] -> size_of (body (concat blocks ++ cur)) <= 2 ^ 24 -> errno <> EINTR ->
  exists b', FlushBlock b (fail_next errno w) = Some (b', set_errno errno w) /\ Status.ok (status_ b') = false /\
    options_ b' = opts /\ NumEntries b' = NumEntries b /\ LargestKey b' = LargestKey b /\
    rest_ready b' blocks (user_key <$> (concat blocks ++ cur)) ino (set_errno errno w).
Proof.
  intros B Hne Hsz He. destruct B as [B1 B2 B3 B4 B5 B6 B7 B8 B9 B10 B11 B12 B13 B14 B15].
  rw body_app size_of_app in Hsz. pose proof (size_of_nonneg (body (concat blocks))). pose proof (size_of_nonneg (body cur)).
  rw /FlushBlock (BlockBuilder_Empty_run 16 cur) //; [lia|]. rw bool_decide_false //.
  assert (Hraw : (BlockBuilder_Finish (data_block_ b)).1 = block_bytes 16 cur) by rw /block_bytes B4 //.
  destruct (BlockBuilder_Finish (data_block_ b)) as [raw data] eqn:Ef. simpl in Hraw. subst raw.
  assert (Hraw : block_bytes 16 cur <> []).
  { intros E. pose proof (size_block_bytes 16 cur ltac:(lia)) as Hs. rw E size_of_nil in Hs. lia. }
  eexists. split.
  { rw /WriteRawBlock /with_fuel /mbind /SM_bind (write_all_fails _ _ _ _ _ _ Hraw He) /=. done. }
  split; [done|]. split; [done|]. split; [done|]. split; [done|]. split; auto.
Qed.

(** C34: [Finish] loses the error of its last data block.  Whatever entries have been added
    (up to 16 MiB), if there are some in the last data block and the write of this block
    fails, [FlushBlock] records the failure in [status_], but [Finish] goes on and
    overwrites it with the status of the filter block.  When the later writes succeed,
    [Finish] returns [OK], for a table that counts all entries, while the file it leaves
    is a table without the entries of the last block. *)
Theorem sstable_finish_loses_flush_error opts path es w errno :
  fs_wf w -> benign w -> table_small (bloom_bits_per_key opts) es -> errno <> EINTR ->
  exists b w1, (b ← New opts path; SSTableBuilder_AddAll b es) w = Some (b, w1) /\
    (BlockBuilder_Empty (data_block_ b) = false ->
     (exists b1 w2, FlushBlock b (fail_next errno w1) = Some (b1, w2) /\ Status.ok (status_ b1) = false) /\
     exists b' blocks lost filter w', Finish b (fail_next errno w1) = Some ((Status.OK, b'), w') /\
       NumEntries b' = Z.of_nat (length es) /\ LargestKey b' = last_key es /\
       es = concat blocks ++ lost /\ lost <> [] /\ content_at w' path = Some (table_bytes blocks filter)).
Proof.
  intros Hw Hb Hs He. destruct (New_run opts path w Hw Hb) as (b0 & ino & w0 & E0 & Efd & Ho & B0).
  destruct (AddAll_table_run opts es b0 [] [] ino w0 B0) as (b & blocks & cur & w1 & E1 & B & Ec & Ef1 & F1); [apply Hs|].
  simpl in Ec. exists b, w1. rw (bind_run _ _ _ _ _ E0) E1. split; [done|]. destruct Hs as [S1 S2 S3 S4]. intros Hnonempty.
  assert (Hne : cur <> []).
  { intros ->. rw (BlockBuilder_Empty_run 16 [] (data_block_ b)) // in Hnonempty. by apply B. }
  destruct (FlushBlock_fails opts b blocks cur ino w1 errno B Hne) as (b1 & E2 & Hst & Hopt & Hnum & Hla & Hr); [by rw Ec|done|].
  split; [by eauto|]. rw Ec in Hr.
  assert (Hcat : size_of (body (concat blocks)) <= 2 ^ 24).
  { rw -Ec body_app size_of_app in S1. pose proof (size_of_nonneg (body cur)). lia. }
  destruct (Finish_rest_bytes b1 blocks (user_key <$> es) ino (set_errno errno w1) Hr Hcat) as
    (b' & filter & w' & E3 & _ & Hc & _ & Hn & _ & Hl & _ & Hfile); rw ?Hopt ?length_fmap; [done..|].
  exists b', blocks, cur, filter, w'. rw (Finish_unfold _ _ (tb_status _ _ _ _ _ _ B)) (bind_run _ _ _ _ _ E2). split; [done|].
  rw Hn Hl Hnum Hla /NumEntries /LargestKey (tb_num _ _ _ _ _ _ B) (tb_largest _ _ _ _ _ _ B) Ec. split_and!; auto.
  rw /content_at (cf_dir _ _ _ _ Hfile) /= (fr_dir _ _ _ _ F1) (fo_path _ _ _ _ Ho) /= Hc //.
Qed.

Definition sample_table_entry : MemtableEntry := mkEntry (str "k") 1 kTypeValue (str "v").

(** A single entry, and a write that fails with [EIO]. *)
Lemma sstable_finish_loses_flush_error_witness :
  exists b w1 b' blocks lost filter w', (b ← New default_options (str "t"); SSTableBuilder_AddAll b [sample_table_entry])
      (mkWorld ∅ ∅ ∅ 0 3 0 [] []) = Some (b, w1) /\
    Finish b (fail_next 5 w1) = Some ((Status.OK, b'), w') /\ NumEntries b' = 1 /\
    [sample_table_entry] = concat blocks ++ lost /\ lost <> [] /\ content_at w' (str "t") = Some (table_bytes blocks filter).
Proof.
  destruct (sstable_finish_loses_flush_error default_options (str "t") [sample_table_entry] (mkWorld ∅ ∅ ∅ 0 3 0 [] []) 5)
    as (b & w1 & E & Hfin).
  - split; simpl; [by intros p q i ?%lookup_empty_Some|by intros p i ?%lookup_empty_Some|done].
  - split; [constructor|done].
  - split; [by vm_compute|done|done|]. repeat (constructor; [by split|]). constructor.
  - done.
  - assert (Hb : BlockBuilder_Empty (data_block_ b) = false).
    { assert (H : (fun r => BlockBuilder_Empty (data_block_ r.1)) <$> (b ← New default_options (str "t"); SSTableBuilder_AddAll b [sample_table_entry])
        (mkWorld ∅ ∅ ∅ 0 3 0 [] []) = Some false) by (vm_compute; reflexivity). rw E in H. by injection H. }
    destruct (Hfin Hb) as (_ & b' & blocks & lost & filter & w' & E' & Hn & _ & He & Hl & Hc).
    exists b, w1, b', blocks, lost, filter, w'. split_and!; auto.
Defined.
