(* ===== verification/SSTableReader.v ===== *)
(** * SSTableReader: reading a sorted table

    Models [src/sstable_reader.h] and, of [src/sstable_reader.cc], [SSTableReader] with
    [Open], [ReadBlock] and [Get] ([TwoLevelIterator] has a file of its own).  Readers
    share the operating system and the block cache: their operations are computations
    on a [TableEnv].  A reader owns its descriptor; [Destroy] is the destructor, called
    where the last [shared_ptr] to a reader goes away.

    A [registry] records which table every file number and every descriptor stands
    for; [env_inv] says that the files and the cached blocks agree with it.  Against
    it, [Get] is the reference lookup [newest]. *)

From S2P Require Import Prelude Status Slice Coding Format Crc32 Posix Env Entry Iterator Block BlockCache.
From S2P Require Import BloomFilter Options SSTableBuilder.

#[local] Open Scope Z_scope.

(** ** The shared state *)

Record TableEnv := mkEnv {
  e_world : World;
  e_cache : BlockCache Block;
}.

(** System calls, and calls of the cache. *)
Definition on_world {A} (m : M A) : SM TableEnv A := fun e =>
  match m (e_world e) with Some (x, w) => Some (x, mkEnv w (e_cache e)) | None => None end.
Definition on_cache {A} (f : BlockCache Block -> option (A * BlockCache Block)) : SM TableEnv A := fun e =>
  match f (e_cache e) with Some (x, c) => Some (x, mkEnv (e_world e) c) | None => None end.

(** ** Reading at an offset *)

(** The loop [while (bytes_read < total_to_read)] over [pread] of [ReadBlock]: the
    bytes, or nothing when a call fails.  The offset is not wrapped to 64 bits: an
    offset that does not fit [off_t] delivers nothing, as one beyond the end of the
    file does. *)
Fixpoint pread_loop (fuel : nat) (fd total off : Z) (buf : bytes) : M (option (option bytes)) :=
  if size_of buf <? total then
    match fuel with
    | O => mret None
    | S fuel' =>
        '(n, d) ← sys (sys_pread fd (total - size_of buf) (off + size_of buf));
        if n <=? 0 then
          e ← get_errno;
          if (n <? 0) && (e =? EINTR) then pread_loop fuel' fd total off buf else mret (Some None)
        else pread_loop fuel' fd total off (buf ++ d)
    end
  else mret (Some (Some buf)).

(** A turn takes an outcome from the schedule or reads all there is. *)
Definition pread_all (fd total off : Z) : M (option (option bytes)) :=
  fun w => pread_loop (2 + length (w_io w)) fd total off [] w.

(** What reading leaves alone: everything but the schedule and [errno]. *)
Record only_read (w w' : World) : Prop := {
  or_dir : w_dir w' = w_dir w;
  or_data : w_data w' = w_data w;
  or_fds : w_fds w' = w_fds w;
  or_fresh : w_fresh_ino w' = w_fresh_ino w /\ w_fresh_fd w' = w_fresh_fd w;
  or_ctl : w_ctl w' = w_ctl w;
  or_io : exists l, w_io w = l ++ w_io w';
}.

Lemma only_read_refl w : only_read w w.
Proof. split; try done. by exists []. Qed.

Lemma only_read_trans w1 w2 w3 : only_read w1 w2 -> only_read w2 w3 -> only_read w1 w3.
Proof.
  intros [H1 H2 H3 [H4 H4'] H5 [l1 H6]] [G1 G2 G3 [G4 G4'] G5 [l2 G6]]. split; try congruence.
  - split; congruence.
  - exists (l1 ++ l2). by rw H6 G6 app_assoc.
Qed.

Lemma only_read_benign w w' : only_read w w' -> benign w -> benign w'.
Proof.
  intros [_ _ _ _ H5 [l H6]] [H1 H2]. split; [|congruence]. rw H6 in H1. by apply Forall_app in H1 as [_ ?].
Qed.

Lemma only_read_content w w' i : only_read w w' -> file_content w' i = file_content w i.
Proof. intros [_ H2 _ _ _ _]. by rw /file_content H2. Qed.

Lemma set_errno_only_read w r l e : w_io w = r :: l -> only_read w (set_errno e (set_io l w)).
Proof. intros E. split; try done. by exists [r]. Qed.

Lemma set_io_only_read w r l : w_io w = r :: l -> only_read w (set_io l w).
Proof. intros E. split; try done. by exists [r]. Qed.

(** What the operations of readers leave alone, opening files included: all files and
    the descriptors that were there. *)
Record files_kept (w w' : World) : Prop := {
  fk_dir : w_dir w' = w_dir w;
  fk_data : forall i, file_content w' i = file_content w i;
  fk_fds : forall fd, fd < w_fresh_fd w -> w_fds w' !! fd = w_fds w !! fd;
  fk_fresh : w_fresh_ino w' = w_fresh_ino w /\ w_fresh_fd w <= w_fresh_fd w';
  fk_ctl : exists l, w_ctl w = l ++ w_ctl w';
  fk_io : exists l, w_io w = l ++ w_io w';
}.

Lemma files_kept_refl w : files_kept w w.
Proof. split; try done; by exists []. Qed.

Lemma files_kept_trans w1 w2 w3 : files_kept w1 w2 -> files_kept w2 w3 -> files_kept w1 w3.
Proof.
  intros [H1 H2 H3 [H4 H4'] [k1 H5] [l1 H6]] [G1 G2 G3 [G4 G4'] [k2 G5] [l2 G6]]. split; try congruence.
  - intros fd Hfd. rw G3; [lia|auto].
  - split; [congruence|lia].
  - exists (k1 ++ k2). by rw H5 G5 app_assoc.
  - exists (l1 ++ l2). by rw H6 G6 app_assoc.
Qed.

Lemma only_read_kept w w' : only_read w w' -> files_kept w w'.
Proof. intros [H1 H2 H3 [H4 H4'] H5 H6]. split; auto; [intros i; by rw /file_content H2|by rw H3|split; [done|lia]|by exists []; rw H5]. Qed.

Lemma files_kept_quiet w w' : files_kept w w' -> w_io w = [] -> w_io w' = [].
Proof. intros [_ _ _ _ _ [l E]] H. rw H in E. by destruct l. Qed.

(** A [pread] inside the file in a world where reads are at most interrupted or
    short. *)
Lemma sys_pread_benign w fd f want off :
  benign w -> w_fds w !! fd = Some f -> 0 < want -> 0 <= off -> off + want <= size_of (file_content w (f_ino f)) ->
  exists n d w', sys_pread fd want off w = (n, d, w') /\ only_read w w' /\
    ((n = -1 /\ w_errno w' = EINTR /\ (length (w_io w') < length (w_io w))%nat) \/
     (0 < n <= want /\ d = sub_bytes (file_content w (f_ino f)) off n /\
      (n = want \/ (length (w_io w') < length (w_io w))%nat))).
Proof.
  intros [Hio Hc] Hf Hw Ho Hin. rw /sys_pread /pop_io. destruct (w_io w) as [|r l] eqn:El.
  - rw Hf. do 3 eexists. split; [done|]. split; [apply only_read_refl|]. right. rw /read_count. split; [lia|]. split; [done|]. left. lia.
  - apply Forall_cons in Hio as [Hr _]. destruct r as [e|m]; simpl in Hr.
    + do 3 eexists. split; [done|]. split; [by eapply set_errno_only_read|]. left. simpl. split_and!; auto.
    + simpl. rw Hf. do 3 eexists. split; [done|]. split; [by eapply set_io_only_read|]. right.
      change (file_content (set_io l w) (f_ino f)) with (file_content w (f_ino f)).
      rw /read_count. split; [lia|]. split; [done|]. right. simpl. lia.
Qed.

Lemma sub_bytes_split s off a b :
  0 <= off -> 0 <= a -> 0 <= b -> off + a + b <= size_of s ->
  sub_bytes s off a ++ sub_bytes s (off + a) b = sub_bytes s off (a + b).
Proof.
  intros Ho Ha Hb Hs. rw !sub_bytes_eq Z2Nat.inj_add // Z2Nat.inj_add //.
  rw -drop_drop take_take_drop //.
Qed.

Lemma pread_loop_run fuel fd f total off buf w :
  benign w -> w_fds w !! fd = Some f -> 0 <= off -> 0 <= total ->
  off + total <= size_of (file_content w (f_ino f)) ->
  size_of buf <= total -> buf = sub_bytes (file_content w (f_ino f)) off (size_of buf) ->
  (length (w_io w) + (if (size_of buf <? total)%Z then 1 else 0) <= fuel)%nat ->
  exists w', pread_loop fuel fd total off buf w = Some (Some (Some (sub_bytes (file_content w (f_ino f)) off total)), w') /\
    only_read w w'.
Proof.
  revert buf w; induction fuel as [|fuel IH]; intros buf w Hb Hf Ho Ht Hin Hle Hbuf Hfuel; simpl.
  - destruct (Z.ltb_spec (size_of buf) total); [lia|]. exists w. split; [|apply only_read_refl].
    assert (size_of buf = total) as E by lia. by rw -E -Hbuf.
  - destruct (Z.ltb_spec (size_of buf) total) as [Hlt|Hge].
    2:{ exists w. split; [|apply only_read_refl]. assert (size_of buf = total) as E by lia. by rw -E -Hbuf. }
    pose proof (size_of_nonneg buf) as Hb0.
    destruct (sys_pread_benign w fd f (total - size_of buf) (off + size_of buf) Hb Hf) as (n & d & w1 & E & R & Hn); [lia..|].
    rw /mbind /SM_bind /sys E. pose proof (only_read_content _ _ (f_ino f) R) as Ec.
    assert (Hf1 : w_fds w1 !! fd = Some f) by rw (or_fds _ _ R) //.
    destruct Hn as [(-> & Ee & Hl)|(Hn & -> & Hl)].
    + rw /get_errno /= Ee /=. destruct (IH buf w1) as (w2 & E2 & R2); rw ?Ec; auto.
      * by eapply only_read_benign.
      * destruct (Z.ltb_spec (size_of buf) total); lia.
      * exists w2. rw Ec in E2. split; [exact E2|]. by eapply only_read_trans.
    + destruct (Z.leb_spec n 0); [lia|].
      assert (Hs : size_of (sub_bytes (file_content w (f_ino f)) (off + size_of buf) n) = n).
      { apply size_of_sub_bytes; lia. }
      destruct (IH (buf ++ sub_bytes (file_content w (f_ino f)) (off + size_of buf) n) w1) as (w2 & E2 & R2); rw ?Ec; auto.
      * by eapply only_read_benign.
      * rw size_of_app Hs. lia.
      * rw size_of_app Hs {1}Hbuf sub_bytes_split //; lia.
      * destruct (or_io _ _ R) as [l El]. apply (f_equal length) in El. rw length_app in El.
        rw size_of_app Hs. destruct (Z.ltb_spec (size_of buf + n) total); lia.
      * exists w2. rw Ec in E2. split; [exact E2|]. by eapply only_read_trans.
Qed.

Lemma pread_all_run fd f total off w :
  benign w -> w_fds w !! fd = Some f -> 0 <= off -> 0 <= total ->
  off + total <= size_of (file_content w (f_ino f)) ->
  exists w', with_fuel (pread_all fd total off) w = Some (Some (sub_bytes (file_content w (f_ino f)) off total), w') /\
    only_read w w'.
Proof.
  intros Hb Hf Ho Ht Hin.
  destruct (pread_loop_run (2 + length (w_io w)) fd f total off [] w) as (w' & E & R); auto.
  - by rw sub_bytes_eq take_0.
  - destruct (_ <? _); lia.
  - exists w'. split; [|done]. rw /with_fuel. erewrite bind_run; [|exact E]. done.
Qed.

Definition kMaxBlockSize : Z := 64 * 1024 * 1024.

Module SSTableReader.

Record t := mk {
  options_ : Options;
  filename_ : bytes;
  file_number_ : Z;
  file_size_ : Z;
  fd_ : Z;
  index_block_ : option Block;
  filter_data_ : bytes;
}.

Definition Destroy (r : t) : M unit :=
  if fd_ r >=? 0 then _ ← sys (sys_close (fd_ r)); mret tt else mret tt.

(** [handle.offset + handle.size + 4 > file_size], in 64 bits. *)
Definition beyond (h : BlockHandle) (file_size : Z) : bool :=
  u64 (u64 (handle_offset h + handle_size h) + 4) >? file_size.

(** [ReadBlock(handle, &result)]: the status, and the block where it is set. *)
Definition ReadBlock (r : t) (handle : BlockHandle) : M (Status.t * option Block) :=
  if (handle_size handle >? kMaxBlockSize) || beyond handle (file_size_ r) then
    mret (Status.Corruption [Status.Lit "Invalid block handle bounds in "; Status.Str (filename_ r)], None)
  else
    res ← with_fuel (pread_all (fd_ r) (handle_size handle + 4) (handle_offset handle));
    match res with
    | None => mret (Status.IOError [Status.Lit "Failed to read block from file: "; Status.Str (filename_ r)], None)
    | Some buf =>
        expected_crc ← mem (DecodeFixed32 buf (handle_size handle));
        let contents := sub_bytes buf 0 (handle_size handle) in
        let actual_crc := Crc32 contents 0 in
        if negb (actual_crc =? expected_crc) then
          mret (Status.Corruption [Status.Lit "Block checksum mismatch in "; Status.Str (filename_ r)], None)
        else
          block ← mem (NewBlock contents);
          mret (Status.OK, Some block)
    end.

Definition set_index (b : option Block) (r : t) : t :=
  mk (options_ r) (filename_ r) (file_number_ r) (file_size_ r) (fd_ r) b (filter_data_ r).
Definition set_filter (f : bytes) (r : t) : t :=
  mk (options_ r) (filename_ r) (file_number_ r) (file_size_ r) (fd_ r) (index_block_ r) f.

(** The filter block, read by one call: a short read or a bad checksum leaves the
    reader without a filter. *)
Definition ReadFilter (r : t) (filter_handle : BlockHandle) : M (Status.t * option t) :=
  if handle_size filter_handle >? 0 then
    if (handle_size filter_handle >? kMaxBlockSize) || beyond filter_handle (file_size_ r) then
      _ ← sys (sys_close (fd_ r));
      _ ← Destroy r;
      mret (Status.Corruption [Status.Lit "Invalid filter handle bounds: "; Status.Str (filename_ r)], None)
    else
      '(fn, buf) ← sys (sys_pread (fd_ r) (handle_size filter_handle + 4) (handle_offset filter_handle));
      if fn =? handle_size filter_handle + 4 then
        expected_crc ← mem (DecodeFixed32 buf (handle_size filter_handle));
        let contents := sub_bytes buf 0 (handle_size filter_handle) in
        let actual_crc := Crc32 contents 0 in
        mret (Status.OK, Some (if actual_crc =? expected_crc then set_filter contents r else r))
      else mret (Status.OK, Some r)
  else mret (Status.OK, Some r).

(** [Open] once the file is open: the footer, the index and the filter. *)
Definition ReadFooter (options : Options) (filename : bytes) (file_number file_size fd : Z) : M (Status.t * option t) :=
  '(n, footer) ← sys (sys_pread fd 48 (file_size - 48));
  if negb (n =? 48) then
    _ ← sys (sys_close fd);
    mret (Status.IOError [Status.Lit "Failed to read SSTable footer: "; Status.Str filename], None)
  else
    magic ← mem (DecodeFixed64 footer 40);
    if negb (magic =? kTableMagicNumber) then
      _ ← sys (sys_close fd);
      mret (Status.Corruption [Status.Lit "Bad SSTable magic number: "; Status.Str filename], None)
    else
      '(s, filter_handle, _) ← mem (BlockHandle_DecodeFrom (mkHandle 0 0) (sub_bytes footer 0 16));
      if negb (Status.ok s) then _ ← sys (sys_close fd); mret (s, None)
      else
        '(s, index_handle, _) ← mem (BlockHandle_DecodeFrom (mkHandle 0 0) (sub_bytes footer 16 16));
        if negb (Status.ok s) then _ ← sys (sys_close fd); mret (s, None)
        else
          let r := mk options filename file_number file_size fd None [] in
          (* Read index block *)
          '(s, idx_blk) ← ReadBlock r index_handle;
          if negb (Status.ok s) then _ ← Destroy r; mret (s, None)
          else
            (* Read filter block *)
            ReadFilter (set_index idx_blk r) filter_handle.

Definition Open (options : Options) (filename : bytes) (file_number file_size : Z) : M (Status.t * option t) :=
  if file_size <? 48 then
    mret (Status.Corruption [Status.Lit "File too short for SSTable: "; Status.Str filename], None)
  else
    fd ← sys (sys_open filename (mkFlags false false false));
    if fd <? 0 then
      e ← get_errno;
      mret (Status.IOError [Status.Lit "Failed to open SSTable: "; Status.Str filename; Status.Lit " (";
                            Status.Errno e; Status.Lit ")"], None)
    else ReadFooter options filename file_number file_size fd.

(** The data block of a handle, from the cache or from the file; [cache] tells
    whether a cache was given. *)
Definition FetchBlock (cache : bool) (r : t) (handle : BlockHandle) : SM TableEnv (Status.t * option Block) :=
  cached ← (if cache then on_cache (fun c => Lookup c (file_number_ r, handle_offset handle)) else mret None);
  match cached with
  | Some b => mret (Status.OK, Some b)
  | None =>
      '(s, b) ← on_world (ReadBlock r handle);
      if negb (Status.ok s) then mret (s, None)
      else
        block ← lift b;
        _ ← (if cache
             then on_cache (fun c => c ← Insert c (file_number_ r, handle_offset handle) block (size_of (data_ block)); Some (tt, c))
             else mret tt);
        mret (Status.OK, Some block)
  end.

(** The loop over the versions of the key in the data block. *)
Fixpoint get_loop (fuel : nat) (user_key : bytes) (seq : SequenceNumber) (value : option bytes) (s : Status.t)
    (it : BlockIter) : option (bool * option bytes * Status.t) :=
  match fuel with
  | O => None
  | S fuel' =>
      k ← blk_Key it;
      if blk_Valid it && Slice.eqb k user_key then
        q ← blk_Seq it;
        t ← blk_Type it;
        if (q <=? seq) && (t =? kTypeValue) then
          v ← blk_Value it; Some (true, (fun _ => v) <$> value, Status.OK)
        else if (q <=? seq) && (t =? kTypeDeletion) then Some (true, value, Status.NotFound [])
        else it ← blk_Next it; get_loop fuel' user_key seq value s it
      else Some (false, value, s)
  end.

(** [Get(user_key, seq, value, s, cache)]: the result, [*value] and [*s]. *)
Definition Get (r : t) (user_key : bytes) (seq : SequenceNumber) (value : option bytes) (s : Status.t) (cache : bool) :
    SM TableEnv (bool * option bytes * Status.t) :=
  may ← lift (if bool_decide (filter_data_ r = []) then Some true else KeyMayMatch user_key (filter_data_ r));
  if negb may then mret (false, value, s)
  else
    index ← lift (index_block_ r);
    index_iter ← lift (blk_Seek user_key (NewBlockIter index));
    if negb (blk_Valid index_iter) then mret (false, value, s)
    else
      handle_str ← lift (blk_Value index_iter);
      '(decode_s, handle, _) ← lift (BlockHandle_DecodeFrom (mkHandle 0 0) handle_str);
      if negb (Status.ok decode_s) then mret (true, value, decode_s)
      else
        '(read_s, b) ← FetchBlock cache r handle;
        if negb (Status.ok read_s) then mret (true, value, read_s)
        else
          data_block ← lift b;
          data_iter ← lift (blk_Seek user_key (NewBlockIter data_block));
          lift (get_loop (scan_fuel data_iter) user_key seq value s data_iter).
End SSTableReader.

(** ** The geometry of a table *)

Definition block_offset (blocks : list (list MemtableEntry)) (j : nat) : Z := size_of (data_area (take j blocks)).

(** The handle of the [j]-th data block. *)
Definition block_handle (blocks : list (list MemtableEntry)) (j : nat) (blk : list MemtableEntry) : BlockHandle :=
  mkHandle (block_offset blocks j) (size_of (block_bytes 16 blk)).

Lemma block_built ri es :
  size_of (body es) < 2 ^ 32 -> Forall entry_ok es ->
  exists b rs, NewBlock (block_bytes ri es) = Some b /\ built b es rs.
Proof.
  intros Hsz Hok. destruct (block_bytes_run ri es Hsz) as (bb & rs & _ & B & _ & ->).
  destruct (NewBlock_built es rs Hsz Hok (bd_first _ _ _ B) (bd_range _ _ _ B) (bd_few _ _ _ B)) as (b & E & Hb). eauto.
Qed.

Lemma index_entries_lookup offset blocks j blk :
  blocks !! j = Some blk ->
  index_entries offset blocks !! j = Some (index_entry (offset + block_offset blocks j) blk).
Proof.
  revert offset j; induction blocks as [|b blocks IH]; intros offset [|j] Hj; simplify_eq/=.
  - by rw /block_offset take_0 /data_area size_of_nil Z.add_0_r.
  - rw (IH _ _ Hj) /block_offset firstn_cons. do 2 f_equal. rw /data_area fmap_cons concat_cons size_of_app. lia.
Qed.

Lemma data_area_split blocks j blk :
  blocks !! j = Some blk ->
  exists post, data_area blocks = data_area (take j blocks) ++ framed (block_bytes 16 blk) ++ post.
Proof.
  intros Hj. exists (data_area (drop (S j) blocks)).
  rw -{1}(take_drop j blocks) (drop_S _ _ _ Hj) /data_area fmap_app concat_app fmap_cons //.
Qed.

Lemma BlockHandle_roundtrip h h' :
  0 <= handle_offset h < 2 ^ 64 -> 0 <= handle_size h < 2 ^ 64 ->
  BlockHandle_DecodeFrom h' (BlockHandle_EncodeTo h []) = Some (Status.OK, h, []).
Proof.
  intros Ho Hs. rw /BlockHandle_DecodeFrom size_BlockHandle. rw /BlockHandle_EncodeTo /PutFixed64 app_nil_l.
  pose proof (DecodeFixed64_Encode [] (handle_offset h) (EncodeFixed64 (handle_size h)) 0 eq_refl) as E1.
  pose proof (DecodeFixed64_Encode (EncodeFixed64 (handle_offset h)) (handle_size h) [] 8) as E2.
  rw app_nil_l in E1. rw app_nil_r in E2. rw E1 E2; [by rw size_EncodeFixed64|].
  rw (u64_small _ Ho) (u64_small _ Hs) /= /Slice.remove_prefix size_of_app !size_EncodeFixed64 /=.
  rw drop_ge; [|by destruct h]. pose proof (size_EncodeFixed64 (handle_offset h)) as L1.
  pose proof (size_EncodeFixed64 (handle_size h)) as L2. rw /size_of in L1 L2. rw length_app. lia.
Qed.

(** The fields of the footer, read back. *)
Lemma footer_fields fh ih :
  0 <= handle_offset fh < 2 ^ 64 -> 0 <= handle_size fh < 2 ^ 64 ->
  0 <= handle_offset ih < 2 ^ 64 -> 0 <= handle_size ih < 2 ^ 64 ->
  let ft := SSTableBuilder.footer fh ih in
  DecodeFixed64 ft 40 = Some kTableMagicNumber /\
  BlockHandle_DecodeFrom (mkHandle 0 0) (sub_bytes ft 0 16) = Some (Status.OK, fh, []) /\
  BlockHandle_DecodeFrom (mkHandle 0 0) (sub_bytes ft 16 16) = Some (Status.OK, ih, []).
Proof.
  intros F1 F2 I1 I2 ft. pose proof (size_BlockHandle fh) as Hf. pose proof (size_BlockHandle ih) as Hi.
  pose proof (BlockHandle_roundtrip fh (mkHandle 0 0) F1 F2) as Rf. pose proof (BlockHandle_roundtrip ih (mkHandle 0 0) I1 I2) as Ri.
  rw /ft /SSTableBuilder.footer. generalize dependent (BlockHandle_EncodeTo fh []). intros a Ha Ra.
  generalize dependent (BlockHandle_EncodeTo ih []). intros b Hb Rb. split_and!.
  - rewrite -> (app_assoc a), (app_assoc (a ++ b)). rw -{1}(app_nil_r (EncodeFixed64 kTableMagicNumber)) DecodeFixed64_Encode //.
    rw !size_of_app Ha Hb //.
  - rw (sub_bytes_app_exact a) //.
  - rw (sub_bytes_mid a b) //.
Qed.

(** ** Reading a block of a known file *)

(** A block that lies in the file where its handle says. *)
Lemma ReadBlock_run r raw pre post b f w :
  benign w -> w_fds w !! SSTableReader.fd_ r = Some f -> file_content w (f_ino f) = pre ++ framed raw ++ post ->
  SSTableReader.file_size_ r = size_of (pre ++ framed raw ++ post) -> size_of (pre ++ framed raw ++ post) < 2 ^ 63 ->
  size_of raw <= kMaxBlockSize -> NewBlock raw = Some b ->
  exists w', SSTableReader.ReadBlock r (mkHandle (size_of pre) (size_of raw)) w = Some ((Status.OK, Some b), w') /\
    only_read w w'.
Proof.
  intros Hb Hf Hc Hfs H63 Hmax Hn.
  assert (Hsz : size_of (pre ++ framed raw ++ post) = size_of pre + (size_of raw + 4) + size_of post).
  { rewrite -> !size_of_app, size_framed. lia. }
  pose proof (size_of_nonneg pre). pose proof (size_of_nonneg raw). pose proof (size_of_nonneg post).
  rw /SSTableReader.ReadBlock /SSTableReader.beyond. cbn [handle_size handle_offset].
  rw (u64_small (size_of pre + size_of raw)); [lia|]. rw u64_small; [lia|]. rw Hfs Hsz !Z.gtb_ltb.
  destruct (Z.ltb_spec kMaxBlockSize (size_of raw)); [lia|]. rw orb_false_l.
  destruct (Z.ltb_spec (size_of pre + (size_of raw + 4) + size_of post) (size_of pre + size_of raw + 4)); [lia|].
  destruct (pread_all_run (SSTableReader.fd_ r) f (size_of raw + 4) (size_of pre) w Hb Hf) as (w' & E & R);
    [lia|lia|rw Hc Hsz; lia|].
  rw Hc (sub_bytes_mid pre) in E; [done|by rw size_framed|].
  rw (bind_run _ _ _ _ _ E). rw /framed. rw (bind_lift _ _ _ (Crc32 raw 0)).
  { rw -{1}(app_nil_r (EncodeFixed32 _)) DecodeFixed32_Encode // u32_small //. by apply Crc32_range. }
  rw sub_bytes_app_exact // Z.eqb_refl. cbn [negb]. rw (bind_lift _ _ _ b Hn). by exists w'.
Qed.

(** ** The registry *)

(** A table file: its number, data blocks and filter. *)
Record table_info := mkTable {
  ti_blocks : list (list MemtableEntry);
  ti_filter : bytes;
}.

Definition ti_entries (ti : table_info) : list MemtableEntry := concat (ti_blocks ti).
Definition ti_content (ti : table_info) : bytes := table_bytes (ti_blocks ti) (ti_filter ti).

(** What a table built by [SSTableBuilder] from sorted entries satisfies. *)
Record table_ok (ti : table_info) : Prop := {
  to_nonempty : Forall (fun b => b <> []) (ti_blocks ti);
  to_sorted : entries_sorted (ti_entries ti);
  to_body : size_of (body (ti_entries ti)) <= 2 ^ 24;
  to_entries : Forall entry_ok (ti_entries ti);
  to_filter : forall e, e ∈ ti_entries ti -> KeyMayMatch (user_key e) (ti_filter ti) = Some true;
  to_filter_size : 0 < size_of (ti_filter ti) <= 2 ^ 26;
}.

(** The tables of the file numbers in use and the inodes that hold them, the numbers of
    the open descriptors and of the table files in the directory, and a world whose
    files are as they were. *)
Record registry := mkRegistry {
  rg_base : World;
  rg_files : gmap Z table_info;
  rg_inos : gmap Z nat;
  rg_fds : gmap Z Z;
  rg_paths : gmap bytes Z;
}.

(** A cached block is the block its key names. *)
Definition cached_ok (R : registry) (e : CacheEntry Block) : Prop :=
  exists ti j blk, rg_files R !! (ce_key e).1 = Some ti /\ ti_blocks ti !! j = Some blk /\
    (ce_key e).2 = block_offset (ti_blocks ti) j /\ NewBlock (block_bytes 16 blk) = Some (ce_block e).

(** The descriptor [fd] of the table [ti]. *)
Definition fd_shows (w : World) (fd : Z) (ti : table_info) : Prop :=
  exists f, w_fds w !! fd = Some f /\ file_content w (f_ino f) = ti_content ti /\
    0 <= fd < w_fresh_fd w /\ (f_ino f < w_fresh_ino w)%nat.

Record env_inv (R : registry) (e : TableEnv) : Prop := {
  ei_benign : benign (e_world e);
  ei_wf : fs_wf (e_world e);
  ei_base : files_kept (rg_base R) (e_world e);
  ei_files : forall n ti, rg_files R !! n = Some ti -> table_ok ti;
  ei_fds : forall fd n, rg_fds R !! fd = Some n -> exists ti, rg_files R !! n = Some ti /\ fd_shows (e_world e) fd ti;
  ei_paths : forall p n, rg_paths R !! p = Some n -> exists ti, rg_files R !! n = Some ti /\
    content_at (e_world e) p = Some (ti_content ti);
  ei_inos : (forall fd n f, rg_fds R !! fd = Some n -> w_fds (e_world e) !! fd = Some f -> rg_inos R !! n = Some (f_ino f)) /\
    (forall p n ino, rg_paths R !! p = Some n -> w_dir (e_world e) !! p = Some ino -> rg_inos R !! n = Some ino);
  ei_cache : cache_inv (e_cache e);
  ei_cached : forall c, c ∈ entries (e_cache e) -> cached_ok R c;
}.

(** The reader of the table [ti].  The filter is missing when it could not be read. *)
Record reader_rep (R : registry) (r : SSTableReader.t) (ti : table_info) : Prop := {
  rr_fd : rg_fds R !! SSTableReader.fd_ r = Some (SSTableReader.file_number_ r);
  rr_file : rg_files R !! SSTableReader.file_number_ r = Some ti;
  rr_ok : table_ok ti;
  rr_size : SSTableReader.file_size_ r = size_of (ti_content ti);
  rr_index : SSTableReader.index_block_ r = NewBlock (index_bytes (ti_blocks ti));
  rr_filter : SSTableReader.filter_data_ r = [] \/ SSTableReader.filter_data_ r = ti_filter ti;
}.

Lemma only_read_content_at w w' p : only_read w w' -> content_at w' p = content_at w p.
Proof. intros [H1 H2 _ _ _ _]. by rw /content_at /file_content H1 H2. Qed.

Lemma only_read_wf w w' : only_read w w' -> fs_wf w -> fs_wf w'.
Proof. intros [H1 _ _ [H2 H3] _ _] [W1 W2 W3]. split; rw ?H1 ?H2 ?H3; auto. Qed.

Lemma env_inv_read R e w' :
  env_inv R e -> only_read (e_world e) w' -> env_inv R (mkEnv w' (e_cache e)).
Proof.
  intros [H1 Hw Hk H2 H3 Hp Hi H4 H5] Ho. split; auto; simpl.
  - by eapply only_read_benign.
  - by eapply only_read_wf.
  - by eapply files_kept_trans; [|apply only_read_kept].
  - intros fd n Hn. destruct (H3 fd n Hn) as (ti & Ht & f & Hf & Hc). exists ti. split; [done|]. exists f.
    destruct (or_fresh _ _ Ho) as [-> ->]. rw (or_fds _ _ Ho) (only_read_content _ _ _ Ho). auto.
  - intros p n Hn. destruct (Hp p n Hn) as (ti & Ht & Hc). exists ti. by rw (only_read_content_at _ _ _ Ho).
  - by rw (or_fds _ _ Ho) (or_dir _ _ Ho).
Qed.

(** ** Blocks of a table *)

Section table.
Context (ti : table_info) (Hok : table_ok ti).
Local Abbreviation blocks := (ti_blocks ti).

Lemma table_block_entries j blk : blocks !! j = Some blk -> exists pre post, ti_entries ti = pre ++ blk ++ post.
Proof.
  intros Hj. exists (concat (take j blocks)), (concat (drop (S j) blocks)).
  rw /ti_entries -{1}(take_drop j blocks) (drop_S _ _ _ Hj) concat_app concat_cons //.
Qed.

Lemma table_block_body j blk : blocks !! j = Some blk -> size_of (body blk) <= 2 ^ 24 /\ blk <> [] /\
  Forall entry_ok blk /\ entries_sorted blk.
Proof.
  intros Hj. destruct (table_block_entries j blk Hj) as (pre & post & E).
  pose proof (to_body _ Hok) as Hb. pose proof (to_entries _ Hok) as He. pose proof (to_sorted _ Hok) as Hs.
  rw E in Hb He Hs. rewrite -> !body_app, !size_of_app in Hb. apply Forall_app in He as [_ [He _]%Forall_app].
  apply StronglySorted_app_1_r in Hs. apply StronglySorted_app_1_l in Hs.
  pose proof (size_of_nonneg (body pre)). pose proof (size_of_nonneg (body post)).
  split_and!; [lia| |done..]. eapply Forall_lookup_1 in Hj; [exact Hj|apply Hok].
Qed.

(** A table of up to 16 MiB of entries, with its index and its filter, stays far below
    the limits of the reader. *)
Lemma table_sizes :
  size_of (ti_content ti) <= 2 ^ 28 /\ size_of (data_area blocks) <= 2 ^ 25 /\
  size_of (index_bytes blocks) <= 2 ^ 26 /\ size_of (body (index_entries 0 blocks)) < 2 ^ 32.
Proof.
  destruct Hok as [H1 H2 H3 H4 H5 H6]. rw /ti_entries in H3.
  pose proof (size_data_area blocks ltac:(lia) H1). destruct (size_index_bytes blocks H1 ltac:(lia)) as [Hi Hi'].
  rw /ti_content /table_bytes. rewrite -> !size_of_app, !size_framed, size_footer. split_and!; lia.
Qed.

Lemma table_block j blk :
  blocks !! j = Some blk ->
  exists b rs pre post, NewBlock (block_bytes 16 blk) = Some b /\ built b blk rs /\
    size_of (block_bytes 16 blk) <= 2 ^ 25 /\ data_ b = block_bytes 16 blk /\
    ti_content ti = pre ++ framed (block_bytes 16 blk) ++ post /\ size_of pre = block_offset blocks j.
Proof.
  intros Hj. destruct (table_block_body j blk Hj) as (Hb & Hne & He & Hs).
  destruct (block_built 16 blk ltac:(lia) He) as (b & rs & Hn & Hbt).
  destruct (data_area_split blocks j blk Hj) as [post E].
  pose proof (size_framed_block blk ltac:(lia) Hne) as Hsz. rw size_framed in Hsz.
  eexists b, rs, _, _. split_and!; [done|done|lia|by apply NewBlock_bounds in Hn as [? _]| |reflexivity].
  rw /ti_content /table_bytes E -!app_assoc //.
Qed.

Lemma table_index : exists b rs, NewBlock (index_bytes blocks) = Some b /\ built b (index_entries 0 blocks) rs.
Proof.
  apply block_built; [apply table_sizes|]. generalize 0 at 1. induction blocks as [|x l IH]; intros o; constructor; [|apply IH].
  split; simpl; rw /kTypeValue; lia.
Qed.

(** The offsets of the blocks differ. *)
Lemma block_offset_S j blk :
  blocks !! j = Some blk -> block_offset blocks (S j) = block_offset blocks j + size_of (framed (block_bytes 16 blk)).
Proof.
  intros Hj. rw /block_offset (take_S_r _ _ _ Hj) size_data_area_app. rw /data_area /= app_nil_r //.
Qed.

Lemma block_offset_lt i j : (i < j <= length blocks)%nat -> block_offset blocks i < block_offset blocks j.
Proof.
  induction j as [|j IH]; [lia|]. intros Hij. destruct (lookup_lt_is_Some_2 blocks j ltac:(lia)) as [blk Hj].
  rw (block_offset_S j blk Hj) size_framed. pose proof (size_of_nonneg (block_bytes 16 blk)).
  destruct (decide (i = j)) as [->|]; [lia|]. specialize (IH ltac:(lia)). lia.
Qed.

Lemma block_offset_inj i j bi bj :
  blocks !! i = Some bi -> blocks !! j = Some bj -> block_offset blocks i = block_offset blocks j -> i = j.
Proof.
  intros Hi%lookup_lt_Some Hj%lookup_lt_Some E. destruct (Nat.lt_trichotomy i j) as [H|[H|H]]; [|done|].
  - pose proof (block_offset_lt i j ltac:(lia)). lia.
  - pose proof (block_offset_lt j i ltac:(lia)). lia.
Qed.

(** The handle the index holds for a block, decoded. *)
Lemma block_handle_decode j blk h :
  blocks !! j = Some blk ->
  BlockHandle_DecodeFrom h (value (index_entry (0 + block_offset blocks j) blk)) =
    Some (Status.OK, block_handle blocks j blk, []).
Proof.
  intros Hj. destruct (table_block j blk Hj) as (b & rs & pre & post & _ & _ & Hsz & _ & Hc & Hp).
  destruct table_sizes as [Ht _]. rw Hc (size_of_app pre) (size_of_app (framed _)) in Ht.
  pose proof (size_of_nonneg pre). pose proof (size_of_nonneg post). pose proof (size_of_nonneg (block_bytes 16 blk)).
  pose proof (size_of_nonneg (framed (block_bytes 16 blk))).
  cbn [value index_entry]. rw Z.add_0_l. apply (BlockHandle_roundtrip (block_handle blocks j blk));
    cbn [block_handle handle_offset handle_size]; lia.
Qed.
End table.

(** ** Fetching a data block *)

Lemma runs_on_world R {A} (m : M A) (P : A -> Prop) :
  (forall e, env_inv R e -> exists x w', m (e_world e) = Some (x, w') /\ only_read (e_world e) w' /\ P x) ->
  runs (env_inv R) (on_world m) P.
Proof.
  intros H e He. destruct (H e He) as (x & w' & E & Ho & Hx). exists x, (mkEnv w' (e_cache e)).
  rw /on_world E. split_and!; auto. by eapply env_inv_read.
Qed.

Lemma runs_on_cache R {A} (f : BlockCache Block -> option (A * BlockCache Block)) (P : A -> Prop) :
  (forall c, cache_inv c -> (forall x, x ∈ entries c -> cached_ok R x) ->
    exists x c', f c = Some (x, c') /\ cache_inv c' /\ (forall x, x ∈ entries c' -> cached_ok R x) /\ P x) ->
  runs (env_inv R) (on_cache f) P.
Proof.
  intros H [w c] [H1 Hw Hk H2 H3 Hp Hi H4 H5]. destruct (H c H4 H5) as (x & c' & E & Hc & Hc' & Hx).
  exists x, (mkEnv w c'). rw /on_cache E. split_and!; auto. by split.
Qed.

(** A lookup under a block's key finds nothing or that block. *)
Lemma Lookup_block_run R n j ti blk b :
  rg_files R !! n = Some ti -> ti_blocks ti !! j = Some blk -> NewBlock (block_bytes 16 blk) = Some b ->
  runs (env_inv R) (on_cache (fun c => Lookup c (n, block_offset (ti_blocks ti) j))) (fun r => r = None \/ r = Some b).
Proof.
  intros Hn Hj Hb. apply runs_on_cache. intros c Hc Hok.
  destruct (Lookup_run c (n, block_offset (ti_blocks ti) j) Hc) as (c' & E & Hc' & _ & Ee).
  eexists _, c'. split; [exact E|]. split; [done|]. rw Ee /spec_lookup.
  destruct (spec_find _ (entries c)) as [x|] eqn:Ef; [|by auto].
  apply spec_find_elem in Ef as [Hx Hk]. split.
  - intros y [->|[Hy _]%spec_erase_elem]%elem_of_cons; auto.
  - right. destruct (Hok x Hx) as (ti' & j' & blk' & H1 & H2 & H3 & H4). rw Hk /= in H1 H3.
    assert (ti' = ti) as -> by congruence. apply (block_offset_inj ti j j' blk blk' Hj H2) in H3 as <-. simplify_eq/=. congruence.
Qed.

Lemma Insert_block_run R n j ti blk b :
  rg_files R !! n = Some ti -> ti_blocks ti !! j = Some blk -> NewBlock (block_bytes 16 blk) = Some b ->
  small (size_of (data_ b)) ->
  runs (env_inv R)
    (on_cache (fun c => c ← Insert c (n, block_offset (ti_blocks ti) j) b (size_of (data_ b)); Some (tt, c)))
    (fun _ => True).
Proof.
  intros Hn Hj Hb Hs. apply runs_on_cache. intros c Hc Hok.
  destruct (cache_Insert_run c (n, block_offset (ti_blocks ti) j) b _ Hc Hs) as (c' & E & Hc' & _ & Ee).
  exists tt, c'. rw E. split_and!; auto. rw Ee /spec_insert.
  intros x [->|[Hx _]%spec_evict_elem%spec_erase_elem]%elem_of_cons; [|auto]. exists ti, j, blk. auto.
Qed.

(** The data block of a handle of the index, whether or not it is cached. *)
Lemma FetchBlock_run R r ti j blk b cache :
  reader_rep R r ti -> ti_blocks ti !! j = Some blk -> NewBlock (block_bytes 16 blk) = Some b ->
  runs (env_inv R) (SSTableReader.FetchBlock cache r (block_handle (ti_blocks ti) j blk))
    (fun x => x = (Status.OK, Some b)).
Proof.
  intros [Hfd Hf Hok Hsz Hi Hfl] Hj Hb.
  destruct (table_block ti Hok j blk Hj) as (b' & rs & pre & post & Hb' & _ & Hbs & Hd & Hc & Hp).
  simplify_eq. rw /SSTableReader.FetchBlock. eapply runs_bind.
  { instantiate (1 := fun x => x = None \/ x = Some b). destruct cache; [|by apply runs_ret; left].
    by eapply Lookup_block_run. }
  intros x [-> | ->]; [|by apply runs_ret].
  eapply (runs_bind _ _ _ (fun x => x = (Status.OK, Some b))).
  { apply runs_on_world. intros e He. destruct (ei_fds _ _ He _ _ Hfd) as (ti' & Ht & f & Hw & Hcont & _).
    assert (ti' = ti) as -> by congruence. destruct (table_sizes ti Hok) as [Hts _]. rw Hc in Hcont Hsz Hts.
    destruct (ReadBlock_run r (block_bytes 16 blk) pre post b f (e_world e)) as (w' & E & Ho);
      [apply He|done|done|done|lia|rw /kMaxBlockSize; lia|done|].
    rw /block_handle -Hp. eauto. }
  intros x ->. simpl. eapply runs_bind_lift; [done|]. eapply (runs_bind _ _ _ (fun _ => True)); [|intros; by apply runs_ret].
  destruct cache; [|by apply runs_ret]. eapply Insert_block_run; eauto.
  rw Hd. pose proof (size_of_nonneg (block_bytes 16 blk)). split; lia.
Qed.

(** ** The index *)

Lemma index_entries_elem o blocks x :
  x ∈ index_entries o blocks -> exists b, b ∈ blocks /\ user_key x = last_key b.
Proof.
  revert o; induction blocks as [|b blocks IH]; intros o; simpl; [by intros ?%elem_of_nil|].
  intros [->|(b' & Hb & E)%IH]%elem_of_cons; [exists b|exists b']; split; auto; by constructor.
Qed.

(** The last key of a block that is not empty is the key of one of its entries. *)
Lemma last_key_elem b : b <> [] -> exists e, last b = Some e /\ e ∈ b /\ last_key b = user_key e.
Proof.
  intros Hne. destruct (exists_last Hne) as (l & e & ->). exists e. rw /last_key last_snoc. split_and!; auto.
  apply elem_of_app. right. by left.
Qed.

Lemma index_sorted o blocks :
  Forall (fun b => b <> []) blocks -> entries_sorted (concat blocks) -> keys_sorted (index_entries o blocks).
Proof.
  intros Hne. revert o; induction Hne as [|b blocks Hb Hne IH]; intros o Hs; [constructor|]. simpl in Hs |- *.
  constructor; [apply IH; by apply StronglySorted_app_1_r in Hs|]. apply Forall_forall.
  intros x (b' & Hb' & ->)%index_entries_elem. destruct (last_key_elem b Hb) as (e & _ & He & Ee). simpl. rw Ee.
  rewrite -> Forall_forall in Hne. destruct (last_key_elem b' (Hne b' Hb')) as (e' & _ & He' & ->).
  apply entry_lt_key. eapply StronglySorted_app_1_elem_of; eauto. apply list_elem_of_In, in_concat.
  exists b'. by rw -!list_elem_of_In.
Qed.

(** ** Looking a key up *)

(** No later version of a key after an entry of a greater key. *)
Lemma newest_past e es k s :
  entries_sorted (e :: es) -> 0 <= Slice.compare (user_key e) k -> user_key e <> k -> newest (e :: es) k s = None.
Proof.
  intros [_ Hs]%StronglySorted_inv Hge Hne. assert (Hgt : 0 < Slice.compare (user_key e) k).
  { destruct (Z.eq_dec (Slice.compare (user_key e) k) 0) as [H0|]; [by apply Slice.compare_eq in H0|lia]. }
  apply newest_other_keys. constructor; [done|]. eapply Forall_impl; [exact Hs|]. intros x Hx%entry_lt_key Ek. simpl in Hx.
  rw Ek in Hx. lia.
Qed.

Lemma get_loop_run fuel key s v st it es i :
  block_at it es i -> entries_sorted es -> Forall known_type es ->
  Forall (fun e => 0 <= Slice.compare (user_key e) key) (drop i es) -> (length es - i < fuel)%nat ->
  SSTableReader.get_loop fuel key s v st it = Some (lookup_result (newest (drop i es) key s) v st).
Proof.
  revert it i; induction fuel as [|fuel IH]; intros it i Hat Hs Hk Hge Hf; [lia|]. simpl.
  destruct (block_at_view _ _ _ Hat) as (-> & _ & Hv). destruct (Nat.ltb_spec i (length es)) as [Hi|Hi].
  2:{ by rw drop_ge. }
  destruct (lookup_lt_is_Some_2 es i Hi) as [e He]. destruct (Hv e He) as (-> & -> & -> & ->). simpl.
  pose proof (drop_S _ _ _ He) as Ed. rw Ed in Hge *. apply Forall_cons in Hge as [Hge1 Hge].
  assert (Hsd : entries_sorted (e :: drop (S i) es)).
  { rw -Ed. rw -{1}(take_drop i es) in Hs. by apply StronglySorted_app_1_r in Hs. }
  destruct (Slice.eqb_spec (user_key e) key) as [Ek|Ek].
  2:{ by rw newest_past. }
  rw (newest_sorted_cons e) // /sees Ek Slice.eqb_refl andb_true_l. destruct (Z.leb_spec (seq e) s) as [Hq|Hq]; simpl.
  - rewrite -> Forall_lookup in Hk. by destruct (Hk i e He) as [-> | ->].
  - destruct (block_next_run it es i Hat Hi) as (it' & -> & Hat'). simpl. apply IH; auto. lia.
Qed.

(** The block a lookup of [key] goes to: the first one whose last key is not less. *)
Definition home_block (ti : table_info) (key : bytes) : nat := seek_pos (index_entries 0 (ti_blocks ti)) key.

(** [Get] in full: the newest version not newer than [s] among those in one block. *)
Lemma table_Get_run R r ti key s v st cache :
  reader_rep R r ti -> Forall known_type (ti_entries ti) ->
  runs (env_inv R) (SSTableReader.Get r key s v st cache)
    (fun x => x = lookup_result
      (match ti_blocks ti !! home_block ti key with Some blk => newest blk key s | None => None end) v st).
Proof.
  intros Hr Hk. pose proof Hr as [Hfd Hf Hok Hsz Hi Hfl]. rw /SSTableReader.Get.
  set (res := match ti_blocks ti !! home_block ti key with Some blk => newest blk key s | None => None end).
  assert (Hmay : exists may, (if bool_decide (SSTableReader.filter_data_ r = []) then Some true
      else KeyMayMatch key (SSTableReader.filter_data_ r)) = Some may /\ (may = false -> res = None)).
  { case_bool_decide as Hd; [by exists true|]. destruct Hfl as [?|E]; [done|]. rw E.
    destruct (KeyMayMatch_total key (ti_filter ti)) as [may Em]. exists may. split; [done|]. intros ->. rw /res.
    destruct (ti_blocks ti !! home_block ti key) as [blk|] eqn:Ej; [|done]. apply newest_other_keys, Forall_forall.
    intros e He Ek. destruct (table_block_entries ti _ _ Ej) as (pre & post & Ee).
    assert (KeyMayMatch (user_key e) (ti_filter ti) = Some true) as Hm.
    { apply Hok. rw Ee !elem_of_app. auto. }
    rw Ek Em in Hm. done. }
  destruct Hmay as (may & Em & Hmay). eapply runs_bind_lift; [exact Em|]. destruct may; simpl.
  2:{ apply runs_ret. by rw Hmay. }
  destruct (table_index ti Hok) as (ib & irs & Eib & Hib). rw Hi Eib. eapply runs_bind_lift; [done|].
  pose proof (NewBlockIter_at ib _ irs Hib (index_sorted 0 _ (to_nonempty _ Hok) (to_sorted _ Hok))) as Hit.
  destruct (block_seek_run _ _ _ key Hit) as (it & Es & Hat). eapply runs_bind_lift; [exact Es|].
  destruct (block_at_view _ _ _ Hat) as (-> & _ & Hview). rw -/(home_block ti key) length_index_entries in Hview *.
  destruct (Nat.ltb_spec (home_block ti key) (length (ti_blocks ti))) as [Hlt|Hge]; simpl.
  2:{ apply runs_ret. by rw /res lookup_ge_None_2. }
  destruct (lookup_lt_is_Some_2 _ _ Hlt) as [blk Hj]. pose proof (index_entries_lookup 0 _ _ _ Hj) as Hent.
  destruct (Hview _ Hent) as (_ & Ev & _). eapply runs_bind_lift; [by rw /blk_Value Ev|].
  eapply runs_bind_lift; [by eapply (block_handle_decode ti Hok)|]. simpl.
  destruct (table_block ti Hok _ blk Hj) as (b & rs & pre & post & Hb & Hbt & _).
  eapply runs_bind; [by eapply (FetchBlock_run R r ti _ blk b)|]. intros x ->. simpl. eapply runs_bind_lift; [done|].
  destruct (table_block_body ti Hok _ blk Hj) as (_ & _ & _ & Hsb).
  destruct (block_seek_run _ _ _ key (NewBlockIter_at b blk rs Hbt (entries_sorted_keys _ Hsb))) as (dit & Ed & Hdat).
  eapply runs_bind_lift; [exact Ed|]. eapply runs_lift; [|reflexivity].
  destruct Hdat as (rs' & Hbt' & Hrest). etrans; [apply (get_loop_run (scan_fuel dit) key s v st dit blk (seek_pos blk key))|].
  - by exists rs'.
  - done.
  - destruct (table_block_entries ti _ _ Hj) as (p & q & Ee). rw Ee in Hk. by apply Forall_app in Hk as [_ [? _]%Forall_app].
  - by apply seek_pos_drop, entries_sorted_keys.
  - pose proof (scan_fuel_enough dit blk rs' Hbt'). lia.
  - rw /res Hj. pose proof (newest_sorted_app (take (seek_pos blk key) blk) (drop (seek_pos blk key) blk) key s) as En.
    rw take_drop in En. rw (En Hsb) (newest_other_keys (take _ _)) //. eapply Forall_impl; [apply seek_pos_take|]. intros e He Ek. simpl in He.
    rw Ek cmp_refl in He. lia.
Qed.

(** ** Opening a table *)

(** The world after [open(path, O_RDONLY)] on the inode [ino]. *)
Definition open_ro (ino : nat) (w : World) : World :=
  bump_fd (set_fds (<[w_fresh_fd w := mkOpenFile ino 0 false]> (w_fds w)) w).

Definition with_fd (R : registry) (fd n : Z) : registry :=
  mkRegistry (rg_base R) (rg_files R) (rg_inos R) (<[fd := n]> (rg_fds R)) (rg_paths R).

Lemma open_ro_kept ino w : files_kept w (open_ro ino w).
Proof.
  split; try done; [|split; simpl; [done|lia]|by exists []..].
  intros fd Hfd. simpl. rw lookup_insert_ne //. lia.
Qed.

Lemma path_inode R e p n :
  env_inv R e -> rg_paths R !! p = Some n -> exists ino ti, w_dir (e_world e) !! p = Some ino /\
    rg_files R !! n = Some ti /\ file_content (e_world e) ino = ti_content ti /\ (ino < w_fresh_ino (e_world e))%nat.
Proof.
  intros He Hp. destruct (ei_paths _ _ He _ _ Hp) as (ti & Ht & Hc). rw /content_at in Hc.
  destruct (w_dir (e_world e) !! p) as [ino|] eqn:Ed; [|done]. simplify_eq/=. exists ino, ti. split_and!; auto.
  by eapply (fw_fresh _ (ei_wf _ _ He)).
Qed.

Lemma fd_fresh R e : env_inv R e -> rg_fds R !! w_fresh_fd (e_world e) = None.
Proof.
  intros He. destruct (rg_fds R !! w_fresh_fd (e_world e)) as [n|] eqn:E; [|done].
  destruct (ei_fds _ _ He _ _ E) as (ti & _ & f & _ & _ & ? & _). lia.
Qed.

Lemma env_inv_open R e p n ino :
  env_inv R e -> rg_paths R !! p = Some n -> w_dir (e_world e) !! p = Some ino ->
  env_inv (with_fd R (w_fresh_fd (e_world e)) n) (mkEnv (open_ro ino (e_world e)) (e_cache e)).
Proof.
  intros He Hp Hd. destruct (path_inode R e p n He Hp) as (ino' & ti & Hd' & Ht & Hc & Hlt). simplify_eq.
  destruct He as [H1 [W1 W2 W3] Hk H2 H3 Hps [Hi1 Hi2] H4 H5]. split; auto; simpl.
  - split; simpl; auto. lia.
  - eapply files_kept_trans; [exact Hk|apply open_ro_kept].
  - intros fd m [[<- <-]|[Hne Hm]]%lookup_insert_Some.
    + exists ti. split; [done|]. eexists. simpl. rw lookup_insert_eq. split_and!; [done..|lia|done].
    + destruct (H3 fd m Hm) as (t' & Ht' & f & Hf & Hcf & Hfr & Hi). exists t'. split; [done|]. exists f. simpl.
      rw lookup_insert_ne //. split_and!; auto; lia.
  - split; [|done]. intros fd m f [[<- <-]|[Hne Hm]]%lookup_insert_Some.
    + rw lookup_insert_eq. intros [= <-]. by eapply Hi2.
    + rw lookup_insert_ne //. by apply Hi1.
Qed.

(** Closing a descriptor that was opened for the attempt. *)
Lemma env_inv_close R e fd n :
  env_inv (with_fd R fd n) e -> rg_fds R !! fd = None -> w_fresh_fd (rg_base R) <= fd ->
  env_inv R (mkEnv (sys_close fd (e_world e)).2 (e_cache e)).
Proof.
  intros [H1 [W1 W2 W3] [K1 K2 K3 K4 K5 K6] H2 H3 Hps [Hi1 Hi2] H4 H5] Hn Hfd. split; auto; simpl.
  - by split.
  - split; simpl; auto. intros fd' Hlt. rw lookup_delete_ne; [lia|]. by apply K3.
  - intros fd' m Hm. destruct (decide (fd' = fd)) as [->|Hne]; [congruence|].
    destruct (H3 fd' m) as (ti & Ht & f & Hf & Hr); [by rw /= lookup_insert_ne|]. exists ti. split; [done|].
    exists f. simpl. by rw lookup_delete_ne.
  - split; [|done]. intros fd' m f Hm Hf. destruct (decide (fd' = fd)) as [->|Hne]; [congruence|].
    apply (Hi1 fd'); [by rw /= lookup_insert_ne|]. by rw lookup_delete_ne in Hf.
Qed.

(** ** The home block has the newest version *)

Lemma block_key_le_last b e :
  entries_sorted b -> e ∈ b -> Slice.compare (user_key e) (last_key b) <= 0.
Proof.
  intros Hs He. destruct (exists_last (l := b)) as (l & x & ->); [by intros ->; apply elem_of_nil in He|].
  rw /last_key last_snoc /=. apply elem_of_app in He as [He|He]; [|apply list_elem_of_singleton in He as ->; by rw cmp_refl].
  apply entry_lt_key. eapply StronglySorted_app_1_elem_of; [exact Hs|done|by left].
Qed.

Lemma before_home ti key :
  table_ok ti ->
  Forall (fun e => Slice.compare (user_key e) key < 0) (concat (take (home_block ti key) (ti_blocks ti))).
Proof.
  intros Hok. apply Forall_forall. intros e He. apply list_elem_of_In, in_concat in He as (b & Hb & He).
  apply list_elem_of_In in Hb, He. apply list_elem_of_lookup_1 in Hb as [i Hi]. apply lookup_take_Some in Hi as [Hi Hlt].
  pose proof (seek_pos_take (index_entries 0 (ti_blocks ti)) key) as Hpos. rw -/(home_block ti key) in Hpos.
  rewrite -> Forall_lookup in Hpos. specialize (Hpos i (index_entry (0 + block_offset (ti_blocks ti) i) b)).
  rw lookup_take_lt // (index_entries_lookup 0 _ _ _ Hi) in Hpos. specialize (Hpos eq_refl). simpl in Hpos.
  destruct (table_block_body ti Hok i b Hi) as (_ & _ & _ & Hsb).
  pose proof (block_key_le_last b e Hsb He) as Hle. by eapply (cmp_le_lt_trans Slice.compare).
Qed.

(** The last key of the home block is not less than the key. *)
Lemma home_last_key ti key blk :
  table_ok ti -> ti_blocks ti !! home_block ti key = Some blk -> 0 <= Slice.compare (last_key blk) key.
Proof.
  intros Hok Ej.
  pose proof (seek_pos_drop (index_entries 0 (ti_blocks ti)) key (index_sorted 0 _ (to_nonempty _ Hok) (to_sorted _ Hok))) as Hd.
  rw -/(home_block ti key) (drop_S _ _ _ (index_entries_lookup 0 _ _ _ Ej)) in Hd. by apply Forall_cons in Hd as [Hd _].
Qed.

Lemma table_split ti j blk :
  ti_blocks ti !! j = Some blk ->
  ti_entries ti = concat (take j (ti_blocks ti)) ++ blk ++ concat (drop (S j) (ti_blocks ti)).
Proof. intros Ej. rw /ti_entries -{1}(take_drop j (ti_blocks ti)) (drop_S _ _ _ Ej) concat_app concat_cons //. Qed.

Lemma less_keys_differ es key :
  Forall (fun e => Slice.compare (user_key e) key < 0) es -> Forall (fun e => user_key e <> key) es.
Proof. intros H. eapply Forall_impl; [exact H|]. intros e He Ek. simpl in He. rw Ek cmp_refl in He. lia. Qed.

Lemma home_block_newest ti key s :
  table_ok ti -> (forall e, e ∈ ti_entries ti -> user_key e = key -> seq e <= s) ->
  match ti_blocks ti !! home_block ti key with Some blk => newest blk key s | None => None end =
  newest (ti_entries ti) key s.
Proof.
  intros Hok Hvis. pose proof (less_keys_differ _ _ (before_home ti key Hok)) as Hbefore. pose proof (to_sorted _ Hok) as Hs.
  destruct (ti_blocks ti !! home_block ti key) as [blk|] eqn:Ej.
  2:{ apply lookup_ge_None_1 in Ej. rw take_ge // in Hbefore. by rw newest_other_keys. }
  destruct (table_block_body ti Hok _ blk Ej) as (_ & Hne & _ & Hsb).
  pose proof (table_split ti _ _ Ej) as Ee. rw Ee in Hs Hvis *. rw (newest_sorted_app _ _ _ _ Hs) (newest_other_keys (concat (take _ _))) //.
  apply StronglySorted_app_1_r in Hs. rw (newest_sorted_app _ _ _ _ Hs). destruct (newest blk key s) eqn:En; [done|].
  symmetry. apply newest_None in En. rewrite -> Forall_forall in En.
  destruct (last_key_elem blk Hne) as (l & _ & Hl & El).
  assert (Hlk : user_key l <> key).
  { intros Ek. assert (sees key s l = true) as Ht; [|by rw (En l Hl) in Ht]. apply sees_true. split; [done|].
    apply Hvis; [|done]. rw !elem_of_app. auto. }
  assert (Hge : 0 <= Slice.compare (user_key l) key) by (rewrite <- El; eapply home_last_key; eauto).
  eapply newest_other_keys, Forall_forall. intros e He Ek.
  assert (entry_lt l e) as Hlt%entry_lt_key by by eapply StronglySorted_app_1_elem_of.
  rw Ek in Hlt. assert (Slice.compare (user_key l) key = 0) as H0%Slice.compare_eq by lia. done.
Qed.

(** ** [Open] on a table of the registry *)

(** The filter of a table is read, or the reader goes without it. *)
Lemma ReadFilter_run r ti w f :
  table_ok ti -> benign w -> w_fds w !! SSTableReader.fd_ r = Some f -> file_content w (f_ino f) = ti_content ti ->
  SSTableReader.file_size_ r = size_of (ti_content ti) ->
  exists r' w', SSTableReader.ReadFilter r (filter_handle_of (ti_blocks ti) (ti_filter ti)) w = Some ((Status.OK, Some r'), w') /\
    only_read w w' /\ (r' = r \/ r' = SSTableReader.set_filter (ti_filter ti) r).
Proof.
  intros Hok Hb Hf Hc Hsz. pose proof (table_sizes ti Hok) as (Hts & _). pose proof (to_filter_size _ Hok) as Hfs.
  set (pre := data_area (ti_blocks ti)). set (post := framed (index_bytes (ti_blocks ti)) ++
    SSTableBuilder.footer (filter_handle_of (ti_blocks ti) (ti_filter ti)) (index_handle_of (ti_blocks ti) (ti_filter ti))).
  assert (Ec : ti_content ti = pre ++ framed (ti_filter ti) ++ post) by done.
  pose proof (size_of_nonneg pre). pose proof (size_of_nonneg post).
  assert (Hs : size_of (ti_content ti) = size_of pre + (size_of (ti_filter ti) + 4) + size_of post).
  { rewrite -> Ec, !size_of_app, size_framed. lia. }
  rw /SSTableReader.ReadFilter /filter_handle_of -/pre /SSTableReader.beyond. cbn [handle_size handle_offset].
  rw (u64_small (size_of pre + size_of (ti_filter ti))); [lia|]. rw u64_small; [lia|]. rw Hsz !Z.gtb_ltb.
  destruct (Z.ltb_spec 0 (size_of (ti_filter ti))); [|lia].
  destruct (Z.ltb_spec kMaxBlockSize (size_of (ti_filter ti))); [rw /kMaxBlockSize in H2; lia|]. rw orb_false_l.
  destruct (Z.ltb_spec (size_of (ti_content ti)) (size_of pre + size_of (ti_filter ti) + 4)); [lia|].
  destruct (sys_pread_benign w (SSTableReader.fd_ r) f (size_of (ti_filter ti) + 4) (size_of pre) Hb Hf)
    as (n & d & w1 & E & R & Hn); [lia|lia|rw Hc; lia|].
  rw (bind_run _ _ w (n, d) w1); [by rw /sys E|]. cbn iota beta.
  destruct (Z.eqb_spec n (size_of (ti_filter ti) + 4)) as [->|Hne]; [|by exists r, w1; auto].
  destruct Hn as [(? & _)|(_ & -> & _)]; [lia|]. rw Hc Ec (sub_bytes_mid pre) //; [by rw size_framed|].
  rw /framed (bind_lift _ _ _ (Crc32 (ti_filter ti) 0)).
  { rw -{1}(app_nil_r (EncodeFixed32 _)) DecodeFixed32_Encode // u32_small //. by apply Crc32_range. }
  rw sub_bytes_app_exact // Z.eqb_refl. eexists _, w1. split; [done|]. auto.
Qed.

(** The outcome of opening a table under its number: a reader on a new descriptor, or
    an error because the footer was not read in one call. *)
Definition open_outcome (R : registry) (e e' : TableEnv) (n : Z) (ti : table_info) (res : Status.t * option SSTableReader.t) : Prop :=
  match res with
  | (s, Some r) => s = Status.OK /\ SSTableReader.file_number_ r = n /\
      exists fd, rg_fds R !! fd = None /\ env_inv (with_fd R fd n) e' /\ reader_rep (with_fd R fd n) r ti
  | (s, None) => Status.ok s = false /\ env_inv R e' /\ w_io (e_world e) <> []
  end.

Lemma Open_run R e opts p n ti :
  env_inv R e -> rg_paths R !! p = Some n -> rg_files R !! n = Some ti ->
  exists res e', on_world (SSTableReader.Open opts p n (size_of (ti_content ti))) e = Some (res, e') /\
    open_outcome R e e' n ti res.
Proof.
  intros He Hp Ht. destruct (path_inode R e p n He Hp) as (ino & ti' & Hd & Ht' & Hc & Hlt). simplify_eq.
  pose proof (env_inv_open R e p n ino He Hp Hd) as He1. pose proof (fd_fresh R e He) as Hfd.
  pose proof (ei_files _ _ He _ _ Ht) as Hok. pose proof (table_sizes ti Hok) as (Hts & Hda & Hix & _).
  destruct (ei_benign _ _ He) as [_ Hctl]. pose proof (fw_fd _ (ei_wf _ _ He)) as Hfd0.
  set (fd := w_fresh_fd (e_world e)) in *. set (w1 := open_ro ino (e_world e)) in *.
  set (blocks := ti_blocks ti) in *. set (filter := ti_filter ti) in *.
  set (fh := filter_handle_of blocks filter). set (ih := index_handle_of blocks filter).
  set (pre := data_area blocks ++ framed filter).
  assert (Ec : ti_content ti = pre ++ framed (index_bytes blocks) ++ SSTableBuilder.footer fh ih)
    by rw /pre -app_assoc //.
  assert (Ec2 : ti_content ti = (pre ++ framed (index_bytes blocks)) ++ SSTableBuilder.footer fh ih) by rw Ec app_assoc //.
  pose proof (size_footer fh ih) as Hft. pose proof (size_of_nonneg pre). pose proof (size_of_nonneg (index_bytes blocks)).
  assert (Hs : size_of (ti_content ti) = size_of pre + (size_of (index_bytes blocks) + 4) + 48).
  { rewrite -> Ec, !size_of_app, size_framed, Hft. lia. }
  rw /on_world /SSTableReader.Open. destruct (Z.ltb_spec (size_of (ti_content ti)) 48); [lia|].
  rw (bind_run _ _ (e_world e) fd w1); [by rw /sys /sys_open /pop_ctl Hctl Hd|].
  destruct (Z.ltb_spec fd 0); [lia|]. rw /SSTableReader.ReadFooter.
  assert (Hf1 : w_fds w1 !! fd = Some (mkOpenFile ino 0 false)) by rw /w1 /= lookup_insert_eq //.
  assert (Hc1 : file_content w1 (f_ino (mkOpenFile ino 0 false)) = ti_content ti) by exact Hc.
  destruct (sys_pread_benign w1 fd _ 48 (size_of (ti_content ti) - 48) (ei_benign _ _ He1) Hf1) as (n48 & d & w2 & E & R2 & Hn);
    [lia|lia|rw Hc1; lia|]. rw Hc1 in Hn.
  rw (bind_run _ _ w1 (n48, d) w2); [by rw /sys E|]. cbn iota beta.
  pose proof (env_inv_read _ _ _ He1 R2) as He2. simpl in He2.
  destruct (Z.eqb_spec n48 48) as [->|Hne]; cbn [negb].
  2:{ eexists _, _. split; [done|]. split_and!; [done| |].
      - apply (env_inv_close R (mkEnv w2 (e_cache e)) fd n He2 Hfd). apply (ei_base _ _ He).
      - intros Hq. destruct Hn as [(_ & _ & Hl)|(_ & _ & [?|Hl])]; [|done|];
          change (w_io w1) with (w_io (e_world e)) in Hl; rw Hq /= in Hl; lia. }
  destruct Hn as [(? & _)|(_ & -> & _)]; [lia|]. 
  rw (_ : sub_bytes (ti_content ti) (size_of (ti_content ti) - 48) 48 = SSTableBuilder.footer fh ih).
  { rewrite -> Ec2 at 1. apply sub_bytes_end; [|done]. rw size_of_app size_framed. lia. }
  pose proof (size_of_nonneg (data_area blocks)). pose proof (to_filter_size _ Hok) as Hfs. fold filter in Hfs.
  assert (Hpre : size_of pre = size_of (data_area blocks) + (size_of filter + 4)) by rw /pre size_of_app size_framed //.
  assert (Hih : handle_offset ih = size_of pre) by done. assert (Hfh : handle_offset fh = size_of (data_area blocks)) by done.
  assert (Hih' : handle_size ih = size_of (index_bytes blocks)) by done. assert (Hfh' : handle_size fh = size_of filter) by done.
  destruct (footer_fields fh ih) as (F1 & F2 & F3); [lia..|].
  rw (bind_lift _ _ _ _ F1) Z.eqb_refl. cbn [negb]. rw (bind_lift _ _ _ _ F2).
  change (negb (Status.ok Status.OK)) with false. cbn iota beta.
  rw (bind_lift _ _ _ _ F3). change (negb (Status.ok Status.OK)) with false. cbn iota beta.
  set (r := SSTableReader.mk opts p n (size_of (ti_content ti)) fd None []).
  destruct (table_index ti Hok) as (ib & irs & Eib & Hib).
  assert (Hf2 : w_fds w2 !! fd = Some (mkOpenFile ino 0 false)) by rw (or_fds _ _ R2) //.
  assert (Hc2 : file_content w2 ino = ti_content ti) by rw (only_read_content _ _ _ R2) //.
  destruct (ReadBlock_run r (index_bytes blocks) pre (SSTableBuilder.footer fh ih) ib (mkOpenFile ino 0 false) w2) as (w3 & E3 & R3);
    [apply He2|exact Hf2|by rw Hc2|by rw -Ec|rw -Ec; lia|rw /kMaxBlockSize; lia|done|].
  rw (bind_run _ _ _ _ _ E3). change (negb (Status.ok Status.OK)) with false. cbn iota beta. pose proof (env_inv_read _ _ _ He2 R3) as He3. simpl in He3.
  destruct (ReadFilter_run (SSTableReader.set_index (Some ib) r) ti w3 (mkOpenFile ino 0 false)) as (r' & w4 & E4 & R4 & Hr');
    [done|apply He3|by rw (or_fds _ _ R3)|by rw (only_read_content _ _ _ R3)|done|].
  rw E4. eexists _, _. split; [done|]. pose proof (env_inv_read _ _ _ He3 R4) as He4. simpl in He4.
  split; [done|]. split; [by destruct Hr' as [-> | ->]|]. exists fd. split; [done|]. split; [done|].
  destruct Hr' as [-> | ->]; split; simpl; auto; by rw lookup_insert_eq.
Qed.

(** ** Any file, any schedule *)

Lemma read_count_le r want avail : 0 <= avail -> 0 <= want -> 0 <= read_count r want avail <= Z.min want avail.
Proof. intros Ha Hw. rw /read_count. destruct r as [[?|m]|]; lia. Qed.

(** How a [pread] helps a loop along: a scheduled outcome is used up, or it fails for
    good, or all bytes asked for are there, or the file ends. *)
Definition pread_progress (w w' : World) (fd want off n : Z) : Prop :=
  (length (w_io w') < length (w_io w))%nat \/
  w_io w' = [] /\ (n < 0 /\ w_errno w' <> EINTR \/ n = 0 \/ n = want \/
    0 < n /\ forall f, w_fds w !! fd = Some f -> size_of (file_content w (f_ino f)) <= off + n).

(** [pread] on anything: at most the bytes asked for, and as many as it says. *)
Lemma sys_pread_any w fd want off :
  0 < want -> 0 <= off ->
  exists n d w', sys_pread fd want off w = (n, d, w') /\ only_read w w' /\ n <= want /\ (0 < n -> size_of d = n) /\
    (0 < n -> exists f, w_fds w !! fd = Some f /\ off + n <= size_of (file_content w (f_ino f))) /\
    pread_progress w w' fd want off n.
Proof.
  intros Hw Ho. rw /sys_pread /pop_io /pread_progress.
  assert (Hd : forall f r, let c := file_content w (f_ino f) in let n := read_count r want (Z.max 0 (size_of c - off)) in
    n <= want /\ (0 < n -> size_of (sub_bytes c off n) = n) /\ (0 < n -> off + n <= size_of c)).
  { intros f r c n. pose proof (read_count_le r want (Z.max 0 (size_of c - off))) as H. fold n in H.
    split_and!; [lia| |lia]. intros Hn. apply size_of_sub_bytes; lia. }
  destruct (w_io w) as [|[e|m] l] eqn:El.
  - destruct (w_fds w !! fd) as [f|] eqn:Ef.
    + destruct (Hd f None) as (H1 & H2 & H3). do 3 eexists. split; [done|]. split; [apply only_read_refl|].
      split_and!; [done|done|by eauto|]. right. split; [done|]. rw /read_count.
      set (c := file_content w (f_ino f)) in *. destruct (Z.le_gt_cases want (Z.max 0 (size_of c - off))); [right; right; left; lia|].
      destruct (Z.le_gt_cases (size_of c) off); [right; left; lia|].
      right; right; right. split; [lia|]. intros f' [= <-]. fold c. lia.
    + do 3 eexists. split; [done|]. split; [by split; try done; exists []|]. split_and!; [lia|lia|lia|]. right.
      split; [done|]. left. split; [lia|done].
  - do 3 eexists. split; [done|]. split; [by eapply set_errno_only_read|]. split_and!; [lia|lia|lia|]. left. simpl. lia.
  - simpl. destruct (w_fds w !! fd) as [f|] eqn:Ef.
    + destruct (Hd f (Some (IoPartial m))) as (H1 & H2 & H3).
      change (file_content (set_io l w) (f_ino f)) with (file_content w (f_ino f)).
      do 3 eexists. split; [done|]. split; [by eapply set_io_only_read|].
      split_and!; [done|done|by eauto|]. left. simpl. lia.
    + do 3 eexists. split; [done|]. split; [by eapply set_errno_only_read|]. split_and!; [lia|lia|lia|]. left. simpl. lia.
Qed.

(** The descriptor is at the end of its file. *)
Definition no_more (w : World) (fd off : Z) : Prop :=
  w_io w = [] /\ forall f, w_fds w !! fd = Some f -> size_of (file_content w (f_ino f)) <= off.

Lemma pread_loop_any fuel fd total off buf w :
  0 <= off -> size_of buf <= total ->
  (size_of buf = total \/ 2 + length (w_io w) <= fuel \/ no_more w fd (off + size_of buf) /\ 1 <= fuel)%nat ->
  exists r w', pread_loop fuel fd total off buf w = Some (Some r, w') /\ only_read w w' /\
    forall b, r = Some b -> size_of b = total.
Proof.
  revert buf w; induction fuel as [|fuel IH]; intros buf w Ho Hle Hf; simpl;
    (destruct (Z.ltb_spec (size_of buf) total) as [Hlt|Hge];
     [|by do 2 eexists; split; [done|]; split; [apply only_read_refl|]; intros b [= <-]; lia]).
  { destruct Hf as [?|[?|[_ ?]]]; lia. }
  destruct Hf as [?|Hf]; [lia|].
  pose proof (size_of_nonneg buf).
  destruct (sys_pread_any w fd (total - size_of buf) (off + size_of buf)) as (n & d & w1 & E & R & Hn & Hd & Hin & Hp); [lia..|].
  rw (bind_run _ _ w (n, d) w1); [by rw /sys E|]. cbn iota beta. destruct (Z.leb_spec n 0) as [Hn0|Hn0].
  - rw (bind_run _ _ w1 (w_errno w1) w1); [done|].
    destruct ((n <? 0) && (w_errno w1 =? EINTR)) eqn:Eb.
    2:{ do 2 eexists. split; [done|]. split; [done|]. done. }
    apply andb_true_iff in Eb as [Eb1%Z.ltb_lt Eb2%Z.eqb_eq].
    destruct Hp as [Hlen|[_ [[_ ?]|[?|[?|[? _]]]]]]; try done; try lia.
    destruct (IH buf w1 Ho Hle) as (r & w2 & E2 & R2 & Hr).
    { right; left. destruct Hf as [?|[[Hio _] _]]; [lia|]. rw Hio /= in Hlen. lia. }
    exists r, w2. split; [done|]. split; [by eapply only_read_trans|done].
  - assert (Hs : size_of (buf ++ d) = size_of buf + n) by rw size_of_app Hd //.
    destruct (IH (buf ++ d) w1 Ho ltac:(lia)) as (r & w2 & E2 & R2 & Hr).
    { destruct Hf as [Hf|[[Hio Hend] _]].
      - destruct Hp as [Hlen|[Hio [[? _]|[?|[?|[_ Hend]]]]]]; [right; left; lia|lia|lia|left; lia|].
        + right; right. split; [|lia]. split; [done|]. intros f. rw (or_fds _ _ R) (only_read_content _ _ _ R) Hs. intros Hf'.
          specialize (Hend f Hf'). lia.
      - destruct (Hin Hn0) as (f & Hf & ?). specialize (Hend f Hf). lia. }
    exists r, w2. split; [done|]. split; [by eapply only_read_trans|done].
Qed.

Lemma pread_all_any fd total off w :
  0 <= off -> 0 <= total ->
  exists r w', with_fuel (pread_all fd total off) w = Some (r, w') /\ only_read w w' /\ forall b, r = Some b -> size_of b = total.
Proof.
  intros Ho Ht. destruct (pread_loop_any (2 + length (w_io w)) fd total off [] w Ho Ht) as (r & w' & E & R & Hr); [by auto|].
  exists r, w'. split; [|done]. rw /with_fuel. erewrite bind_run; [|exact E]. done.
Qed.

Lemma NewBlock_total data : is_Some (NewBlock data).
Proof.
  rw /NewBlock Z.geb_leb. destruct (Z.leb_spec 4 (size_of data)); [|eauto].
  destruct (DecodeFixed32_Some data (size_of data - 4)) as [n ->]; [lia..|]. simpl. case_match; eauto.
Qed.

Lemma ReadBlock_any r h w :
  0 <= handle_offset h -> 0 <= handle_size h ->
  exists s b w', SSTableReader.ReadBlock r h w = Some ((s, b), w') /\ only_read w w' /\ (Status.ok s = true -> is_Some b).
Proof.
  intros Ho Hs. rw /SSTableReader.ReadBlock. destruct (_ || _).
  { do 3 eexists. split; [done|]. split; [apply only_read_refl|done]. }
  destruct (pread_all_any (SSTableReader.fd_ r) (handle_size h + 4) (handle_offset h) w) as (res & w' & E & R & Hr); [lia..|].
  rw (bind_run _ _ _ _ _ E). destruct res as [buf|].
  2:{ do 3 eexists. split; [done|]. split; [done|done]. }
  specialize (Hr buf eq_refl). destruct (DecodeFixed32_Some buf (handle_size h)) as [crc Ec]; [lia..|].
  rw (bind_lift _ _ _ _ Ec). destruct (negb _).
  { do 3 eexists. split; [done|]. split; [done|done]. }
  destruct (NewBlock_total (sub_bytes buf 0 (handle_size h))) as [b Eb]. rw (bind_lift _ _ _ _ Eb).
  do 3 eexists. split; [done|]. split; [done|eauto].
Qed.

(** Nothing changed but the descriptor [fd]. *)
Record only_fd (fd : Z) (w w' : World) : Prop := {
  od_dir : w_dir w' = w_dir w;
  od_data : forall i, file_content w' i = file_content w i;
  od_fds : forall fd', fd' <> fd -> w_fds w' !! fd' = w_fds w !! fd';
  od_fresh : w_fresh_ino w' = w_fresh_ino w /\ w_fresh_fd w' = w_fresh_fd w;
  od_ctl : exists l, w_ctl w = l ++ w_ctl w';
  od_io : exists l, w_io w = l ++ w_io w';
}.

Lemma only_fd_trans fd w1 w2 w3 : only_fd fd w1 w2 -> only_fd fd w2 w3 -> only_fd fd w1 w3.
Proof.
  intros [H1 H2 H3 [H4 H4'] [k1 H5] [l1 H6]] [G1 G2 G3 [G4 G4'] [k2 G5] [l2 G6]]. split; try congruence.
  - intros fd' Hne. by rw G3 // H3.
  - split; congruence.
  - exists (k1 ++ k2). by rw H5 G5 app_assoc.
  - exists (l1 ++ l2). by rw H6 G6 app_assoc.
Qed.

Lemma only_read_fd fd w w' : only_read w w' -> only_fd fd w w'.
Proof. intros [H1 H2 H3 H4 H5 H6]. split; auto; [intros i; by rw /file_content H2|by rw H3|by exists []; rw H5]. Qed.

Lemma close_only_fd fd w : only_fd fd w (sys_close fd w).2.
Proof. split; try done; [|by exists []..]. intros fd' Hne. simpl. by rw lookup_delete_ne. Qed.

Lemma only_fd_opened ino w0 w w' :
  files_kept w0 w -> w_fresh_fd w = w_fresh_fd w0 -> only_fd (w_fresh_fd w0) (open_ro ino w) w' -> files_kept w0 w'.
Proof.
  intros [K1 K2 K3 [K4 K4'] [k K5] [l K6]] Hf [H1 H2 H3 [H4 H4'] [k' H5] [l' H6]]. simpl in *. split; try congruence.
  - intros i. rw H2. apply K2.
  - intros fd Hfd. rw H3; [lia|]. rw lookup_insert_ne; [lia|auto].
  - split; [congruence|lia].
  - exists (k ++ k'). by rw K5 H5 app_assoc.
  - exists (l ++ l'). by rw K6 H6 app_assoc.
Qed.

(** Opening for reading: refused, or a new descriptor. *)
Lemma sys_open_any path w :
  exists fd w1, sys_open path (mkFlags false false false) w = (fd, w1) /\
    ((fd = -1 /\ files_kept w w1 /\ w_fds w1 = w_fds w) \/
     (fd = w_fresh_fd w /\ exists ino w0, w1 = open_ro ino w0 /\ files_kept w w0 /\ w_fresh_fd w0 = w_fresh_fd w /\ w_fds w0 = w_fds w)).
Proof.
  assert (Hp : forall l r e, w_ctl w = r :: l -> files_kept w (set_ctl l w) /\ files_kept w (set_errno e (set_ctl l w))).
  { intros l r e El. split; split; simpl; try done; try lia; try (by exists []); by exists [r]. }
  assert (He : forall w0 e, files_kept w w0 -> files_kept w (set_errno e w0)) by (intros w0 e [H1 H2 H3 H4 H5 H6]; by split).
  rw /sys_open /pop_ctl. destruct (w_ctl w) as [|[|e] l] eqn:El.
  - destruct (w_dir w !! path) as [ino|]; do 2 eexists; (split; [done|]).
    + right. split; [done|]. exists ino, w. split_and!; auto. apply files_kept_refl.
    + left. split; [done|]. split; [apply He, files_kept_refl|done].
  - destruct (Hp l CtlOk 0 eq_refl) as [H1 H2]. simpl.
    destruct (w_dir w !! path) as [ino|]; do 2 eexists; (split; [done|]).
    + right. split; [done|]. by exists ino, (set_ctl l w).
    + left. split; [done|]. split; [by apply He|done].
  - do 2 eexists. split; [done|]. left. split; [done|]. split; [by apply (Hp l (CtlFail e) e)|done].
Qed.

Lemma BlockHandle_decode_any h input :
  size_of input = 16 ->
  exists h', BlockHandle_DecodeFrom h input = Some (Status.OK, h', []) /\ 0 <= handle_offset h' /\ 0 <= handle_size h'.
Proof.
  intros Hs. rw /BlockHandle_DecodeFrom Hs. simpl.
  destruct (DecodeFixed64_Some input 0) as [o Eo]; [lia..|]. destruct (DecodeFixed64_Some input 8) as [z Ez]; [lia..|].
  rw Eo Ez /Slice.remove_prefix Hs /=. rw drop_ge; [rw /size_of in Hs; lia|]. eexists. split; [done|].
  split; by eapply DecodeFixed64_nonneg.
Qed.

(** Who has the descriptor [fd] when [Open] returns: the reader, or nobody. *)
Definition fd_owner (fd : Z) (w w' : World) (s : Status.t) (r : option SSTableReader.t) : Prop :=
  match r with
  | None => Status.ok s = false /\ w_fds w' !! fd = None
  | Some rd => s = Status.OK /\ SSTableReader.fd_ rd = fd /\ w_fds w' !! fd = w_fds w !! fd
  end.

Lemma closed_owner fd w s : Status.ok s = false -> forall w0, fd_owner fd w0 (sys_close fd w).2 s None.
Proof. intros Hs w0. split; [done|]. by rw /= lookup_delete_eq. Qed.

(** A descriptor that is gone stays gone when it is closed again. *)
Lemma Destroy_closed r w : 0 <= SSTableReader.fd_ r \/ w_fds w !! SSTableReader.fd_ r = None ->
  exists w', SSTableReader.Destroy r w = Some (tt, w') /\ only_fd (SSTableReader.fd_ r) w w' /\ w_fds w' !! SSTableReader.fd_ r = None.
Proof.
  intros H. rw /SSTableReader.Destroy. destruct (Z.geb_spec (SSTableReader.fd_ r) 0); eexists; (split; [done|]).
  - split; [apply close_only_fd|]. by rw /= lookup_delete_eq.
  - split; [apply only_read_fd, only_read_refl|]. destruct H; [lia|done].
Qed.

Lemma ReadFilter_any r h w :
  0 <= handle_offset h ->
  exists s r' w', SSTableReader.ReadFilter r h w = Some ((s, r'), w') /\ only_fd (SSTableReader.fd_ r) w w' /\
    fd_owner (SSTableReader.fd_ r) w w' s r'.
Proof.
  intros Ho. rw /SSTableReader.ReadFilter Z.gtb_ltb. destruct (Z.ltb_spec 0 (handle_size h)) as [Hs|Hs].
  2:{ do 3 eexists. split; [done|]. split; [apply only_read_fd, only_read_refl|done]. }
  destruct (_ || _).
  { destruct (Destroy_closed r (sys_close (SSTableReader.fd_ r) w).2) as (w' & E & D & Hn); [right; by rw /= lookup_delete_eq|].
    do 3 eexists. rw (bind_run _ _ w 0 (sys_close (SSTableReader.fd_ r) w).2); [done|]. rw (bind_run _ _ _ _ _ E). split; [done|].
    split; [|done]. eapply only_fd_trans; [apply close_only_fd|done]. }
  destruct (sys_pread_any w (SSTableReader.fd_ r) (handle_size h + 4) (handle_offset h)) as (n & d & w1 & E & R & _ & Hd & _); [lia..|].
  rw (bind_run _ _ w (n, d) w1); [by rw /sys E|]. cbn iota beta. pose proof (only_read_fd (SSTableReader.fd_ r) _ _ R).
  assert (Hown : forall r', SSTableReader.fd_ r' = SSTableReader.fd_ r -> fd_owner (SSTableReader.fd_ r) w w1 Status.OK (Some r')).
  { intros r' Hr'. split; [done|]. split; [done|]. by rw (or_fds _ _ R). }
  destruct (Z.eqb_spec n (handle_size h + 4)) as [->|]; [|do 3 eexists; split; [done|]; split; [done|by apply Hown]].
  destruct (DecodeFixed32_Some d (handle_size h)) as [crc Ec]; [lia|rw Hd; lia|]. rw (bind_lift _ _ _ _ Ec).
  do 3 eexists. split; [done|]. split; [done|]. apply Hown. by case_match.
Qed.

Lemma ReadFooter_any opts path n size fd w :
  48 <= size -> 0 <= fd ->
  exists s r w', SSTableReader.ReadFooter opts path n size fd w = Some ((s, r), w') /\ only_fd fd w w' /\ fd_owner fd w w' s r.
Proof.
  intros Hsz Hfd. rw /SSTableReader.ReadFooter.
  destruct (sys_pread_any w fd 48 (size - 48)) as (n0 & ft & w1 & E & R & _ & Hd & _); [lia..|].
  rw (bind_run _ _ w (n0, ft) w1); [by rw /sys E|]. cbn iota beta. pose proof (only_read_fd fd _ _ R) as D1.
  pose proof (only_fd_trans fd _ _ _ D1 (close_only_fd fd w1)) as Dc.
  destruct (Z.eqb_spec n0 48) as [->|]; cbn [negb]; [|do 3 eexists; split; [done|]; split; [done|by apply closed_owner]]. specialize (Hd ltac:(lia)).
  destruct (DecodeFixed64_Some ft 40) as [magic Em]; [lia..|]. rw (bind_lift _ _ _ _ Em).
  destruct (negb (magic =? _)); [do 3 eexists; split; [done|]; split; [done|by apply closed_owner]|].
  destruct (BlockHandle_decode_any (mkHandle 0 0) (sub_bytes ft 0 16)) as (fh & Ef & Hfo & Hfs); [apply size_of_sub_bytes; lia|].
  destruct (BlockHandle_decode_any (mkHandle 0 0) (sub_bytes ft 16 16)) as (ih & Ei & Hio & His); [apply size_of_sub_bytes; lia|].
  rw (bind_lift _ _ _ _ Ef). change (negb (Status.ok Status.OK)) with false. cbn iota beta.
  rw (bind_lift _ _ _ _ Ei). change (negb (Status.ok Status.OK)) with false. cbn iota beta.
  set (r := SSTableReader.mk opts path n size fd None []).
  destruct (ReadBlock_any r ih w1 Hio His) as (s & b & w2 & E2 & R2 & _). rw (bind_run _ _ _ _ _ E2). cbn iota beta.
  pose proof (only_fd_trans fd _ _ _ D1 (only_read_fd fd _ _ R2)) as D2. destruct (Status.ok s) eqn:Es; cbn [negb].
  - destruct (ReadFilter_any (SSTableReader.set_index b r) fh w2 Hfo) as (s' & r' & w3 & E3 & D3 & H3).
    exists s', r', w3. split; [done|]. split; [by eapply only_fd_trans|]. simpl in H3.
    rw /fd_owner (or_fds _ _ R2) (or_fds _ _ R) in H3. exact H3.
  - destruct (Destroy_closed r w2) as (w3 & E3 & D3 & H3); [by left|]. rw (bind_run _ _ _ _ _ E3). do 3 eexists. split; [done|].
    split; [by eapply only_fd_trans|done].
Qed.

(** [Open] returns on any file, with any outcome of its calls, and changes no file; the
    only descriptor it may leave behind is the reader's. *)
Lemma Open_any opts path n size w :
  exists s r w', SSTableReader.Open opts path n size w = Some ((s, r), w') /\ files_kept w w' /\
    (0 <= w_fresh_fd w ->
     (Status.ok s = true <-> is_Some r) /\
     (forall fd f, w_fds w' !! fd = Some f -> w_fds w !! fd = Some f \/ exists rd, r = Some rd /\ SSTableReader.fd_ rd = fd) /\
     (forall rd, r = Some rd -> SSTableReader.fd_ rd = w_fresh_fd w /\ is_Some (w_fds w' !! SSTableReader.fd_ rd))).
Proof.
  rw /SSTableReader.Open. destruct (Z.ltb_spec size 48).
  { do 3 eexists. split; [done|]. split; [apply files_kept_refl|]. intros _. split; [split; [done|by intros []]|]. by split; [left|]. }
  destruct (sys_open_any path w) as (fd & w1 & Eo & Ho). rw (bind_run _ _ w fd w1); [by rw /sys Eo|].
  destruct (Z.ltb_spec fd 0) as [Hfd|Hfd].
  - rw (bind_run _ _ w1 (w_errno w1) w1); [done|]. do 3 eexists. split; [done|].
    destruct Ho as [(_ & K & Hfds)|(Efd & ino & w0 & -> & K & F & _)].
    + split; [done|]. intros _. split; [split; [done|by intros []]|]. split; [intros fd' f; rw Hfds; by left|done].
    + split; [|lia]. eapply (only_fd_opened ino w w0); eauto. apply only_read_fd, only_read_refl.
  - destruct Ho as [(-> & _)|(Efd & ino & w0 & -> & K & F & Hfds)]; [lia|].
    destruct (ReadFooter_any opts path n size fd (open_ro ino w0)) as (s & r & w' & E & D & O); [done|done|].
    exists s, r, w'. split; [exact E|]. subst fd. split; [by eapply only_fd_opened|]. intros _. rw /fd_owner in O.
    assert (Hother : forall fd', fd' <> w_fresh_fd w -> w_fds w' !! fd' = w_fds w !! fd').
    { intros fd' Hne. rw (od_fds _ _ _ D) //= lookup_insert_ne; [congruence|by rw Hfds]. }
    destruct r as [rd|].
    + destruct O as (-> & Erd & Hsome). split; [split; [eauto|done]|]. split.
      * intros fd f Hf. destruct (decide (fd = w_fresh_fd w)) as [->|Hne]; [right; eauto|left]. by rw -Hother.
      * intros rd' [= <-]. split; [done|]. rw Erd Hsome /= F lookup_insert_eq. eauto.
    + destruct O as (Hs & Hnone). split; [split; [congruence|by intros []]|]. split; [|done].
      intros fd f Hf. left. rw -Hother //. intros ->. congruence.
Qed.

(** ** A table that was just built *)

Lemma is_table_ok bits content es blocks filter :
  is_table bits content es blocks filter -> table_small bits es -> entries_sorted es ->
  table_ok (mkTable blocks filter) /\ ti_entries (mkTable blocks filter) = es /\ ti_content (mkTable blocks filter) = content.
Proof.
  intros [E1 E2 E3 E4] [S1 S2 S3 S4] Hs. rw /ti_entries /ti_content /=. split_and!; [|done..].
  destruct (CreateFilter_run (user_key <$> es) bits []) as (filter' & Ef & Hm & Hsz); [done|rw length_fmap; lia|].
  simpl in Ef. assert (filter' = filter) as -> by congruence. rw length_fmap in Hsz.
  pose proof (filter_bytes_bound (Z.of_nat (length es)) bits ltac:(lia) S2 S3) as Hb.
  split; rw /ti_entries /= ?E1; auto; [|lia]. intros e He. apply Hm. apply list_elem_of_fmap. eauto.
Qed.

(** The registry of one table. *)
Definition single_table (w : World) (path : bytes) (n : Z) (ti : table_info) : registry :=
  mkRegistry w {[n := ti]} (from_option (fun ino => {[n := ino]}) ∅ (w_dir w !! path)) ∅ {[path := n]}.

Lemma single_table_inv w path n ti c :
  benign w -> fs_wf w -> table_ok ti -> content_at w path = Some (ti_content ti) -> cache_inv c -> entries c = [] ->
  env_inv (single_table w path n ti) (mkEnv w c).
Proof.
  intros Hb Hw Hok Hc Hci Hce. split; simpl; auto.
  - apply files_kept_refl.
  - by intros m t [_ <-]%lookup_singleton_Some.
  - by intros fd m ?%lookup_empty_Some.
  - intros p m [<- <-]%lookup_singleton_Some. exists ti. by rw lookup_singleton_eq.
  - split; [by intros fd m f ?%lookup_empty_Some|]. intros p m ino [<- <-]%lookup_singleton_Some ->. by rw /= lookup_singleton_eq.
  - rw Hce. by intros x ?%elem_of_nil.
Qed.

(** Building a table and opening it. *)
Lemma build_open_run (opts : Options) (path : bytes) (n : Z) (es : list MemtableEntry) (w : World) (cap : Z) :
  fs_wf w -> w_io w = [] -> w_ctl w = [] -> entries_sorted es ->
  table_small (bloom_bits_per_key opts) es -> small cap ->
  exists b w1, BuildTable opts path es w = Some ((Status.OK, b), w1) /\
    exists r e2, on_world (SSTableReader.Open opts path n (SSTableBuilder.FileSize b)) (mkEnv w1 (NewBlockCache cap))
      = Some ((Status.OK, Some r), e2) /\
    exists R ti, env_inv R e2 /\ reader_rep R r ti /\ ti_entries ti = es.
Proof.
  intros Hw Hio Hctl Hs Hsm Hcap.
  destruct (BuildTable_run opts path es w Hw) as (b & blocks & filter & content & w1 & Eb & Ht & Hr & Hfw);
    [by rw /benign Hio|done|].
  exists b, w1. split; [done|]. destruct (is_table_ok _ _ _ _ _ Ht Hsm Hs) as (Hok & Ee & Ec).
  set (ti := mkTable blocks filter) in *.
  pose proof (single_table_inv w1 path n ti (NewBlockCache cap)) as He.
  destruct (fwr_ino _ _ _ _ Hfw) as (ino & Hd & Hcont & _).
  specialize (He (fwr_benign _ _ _ _ Hfw) (fwr_wf _ _ _ _ Hfw) Hok).
  rw /content_at Hd /= Hcont Ec in He. specialize (He eq_refl (NewBlockCache_inv cap Hcap) eq_refl).
  destruct (Open_run (single_table w1 path n ti) _ opts path n ti He) as (res & e2 & Eo & Ho);
    [by rw /= lookup_singleton_eq..|].
  rw Ec in Eo. rw (tr_size _ _ _ Hr). destruct res as [s [r|]].
  2:{ destruct Ho as (_ & _ & []). destruct (fwr_io _ _ _ _ Hfw) as [l El]. rw Hio in El. by destruct l. }
  destruct Ho as (-> & _ & fd & _ & He2 & Hrr). exists r, e2. split; [exact Eo|]. eauto.
Qed.

(** ** The claims *)

(** C14: reading back a table.  Sorted entries (up to 16 MiB, with values and
    tombstones) are built into a table file with [SSTableBuilder] in a file system
    whose calls do not fail, and the file is opened under the size the builder
    reports.  Then [Open] succeeds, and from then on [Get] of any key, with or without
    the block cache, in any order and whatever the cache holds by then, returns what
    the entries say: the newest version up to the sequence number asked for, [NotFound]
    for a tombstone, and [false] with the caller's value and status untouched when
    there is none.  The sequence number must not be older than a version of the key. *)
Theorem sstable_roundtrip (opts : Options) (path : bytes) (n : Z) (es : list MemtableEntry) (w : World) (cap : Z) :
  fs_wf w -> w_io w = [] -> w_ctl w = [] -> entries_sorted es -> Forall known_type es ->
  table_small (bloom_bits_per_key opts) es -> small cap ->
  exists b w1, BuildTable opts path es w = Some ((Status.OK, b), w1) /\
    exists r e2, on_world (SSTableReader.Open opts path n (SSTableBuilder.FileSize b)) (mkEnv w1 (NewBlockCache cap))
      = Some ((Status.OK, Some r), e2) /\
    exists R, env_inv R e2 /\
    forall key s v st cache, (forall e, e ∈ es -> user_key e = key -> seq e <= s) ->
      runs (env_inv R) (SSTableReader.Get r key s v st cache) (fun x => x = lookup_result (newest es key s) v st).
Proof.
  intros Hw Hio Hctl Hs Hk Hsm Hcap.
  destruct (build_open_run opts path n es w cap Hw Hio Hctl Hs Hsm Hcap) as (b & w1 & Eb & r & e2 & Eo & R & ti & He & Hr & Ee).
  exists b, w1. split; [done|]. exists r, e2. split; [done|]. exists R. split; [done|]. intros key s v st cache Hvis.
  eapply runs_mono; [eapply table_Get_run; [done|by rw Ee]|]. intros x ->.
  pose proof (rr_ok _ _ _ Hr). rw home_block_newest //; by rw Ee.
Qed.

(** C28: [Open] is safe on any file.  Whatever bytes the file has (not a table at all, a
    corrupt footer, handles that point anywhere), whatever size is claimed for it and
    however its system calls turn out, [Open] returns: it never reads outside a
    buffer and its read loops end.  It changes no file and no descriptor that was
    open before; it returns a reader exactly if it returns [OK], the reader's descriptor
    is open, and no other descriptor is left open. *)
Theorem sstable_open_any_file (opts : Options) (path : bytes) (n size : Z) (w : World) :
  0 <= w_fresh_fd w ->
  exists s r w', SSTableReader.Open opts path n size w = Some ((s, r), w') /\
    w_dir w' = w_dir w /\ (forall i, file_content w' i = file_content w i) /\
    (forall fd, fd < w_fresh_fd w -> w_fds w' !! fd = w_fds w !! fd) /\
    (Status.ok s = true <-> is_Some r) /\
    (forall fd f, w_fds w' !! fd = Some f -> w_fds w !! fd = Some f \/ exists rd, r = Some rd /\ SSTableReader.fd_ rd = fd) /\
    (forall rd, r = Some rd -> is_Some (w_fds w' !! SSTableReader.fd_ rd)).
Proof.
  intros Hw. destruct (Open_any opts path n size w) as (s & r & w' & E & [K1 K2 K3 _ _ _] & H). destruct (H Hw) as (H1 & H2 & H3).
  exists s, r, w'. split_and!; auto. intros rd Hrd. apply (H3 rd Hrd).
Qed.

(** A file that is no table. *)
Lemma sstable_open_any_file_witness :
  let w := mkWorld {[str "t" := 0%nat]} {[0%nat := replicate 60 x00]} ∅ 1 3 0 [] [] in
  exists s w', SSTableReader.Open default_options (str "t") 5 60 w = Some ((s, None), w') /\ Status.ok s = false /\
    forall fd, w_fds w' !! fd = None.
Proof.
  intros w. destruct (sstable_open_any_file default_options (str "t") 5 60 w) as (s & r & w' & E & _ & _ & _ & Hok & Hfds & _); [simpl; lia|].
  assert (H : (fun x => Status.ok x.1.1) <$> SSTableReader.Open default_options (str "t") 5 60 w = Some false) by (vm_compute; reflexivity).
  rw E in H. injection H as H. assert (r = None) as ->.
  { destruct r as [rd|]; [|done]. cbn in H. rw (proj2 Hok) in H; [eauto|done]. }
  exists s, w'. split; [done|]. split; [done|]. intros fd. destruct (w_fds w' !! fd) as [f|] eqn:Ef; [|done].
  by destruct (Hfds fd f Ef) as [H'|(rd & H' & _)].
Defined.

Definition empty_world : World := mkWorld ∅ ∅ ∅ 0 3 0 [] [].

Lemma empty_world_wf : fs_wf empty_world.
Proof. split; simpl; [by intros p q i ?%lookup_empty_Some|by intros p i ?%lookup_empty_Some|done]. Qed.

(** Every entry fills a block. *)
Definition tiny_block_options : Options :=
  mkOptions true false (4 * 1024 * 1024) false 1 10 (8 * 1024 * 1024) 4 (2 * 1024 * 1024).

Lemma sample_table_small : table_small (bloom_bits_per_key tiny_block_options) sample_block_entries.
Proof. split; [by vm_compute|done|done|]. repeat (constructor; [by split|]). constructor. Qed.

Lemma sample_known_types : Forall known_type sample_block_entries.
Proof. by repeat (constructor; [by (left + right)|]). Qed.

Lemma sample_seqs : Forall (fun e => seq e <= 9) sample_block_entries.
Proof. by repeat constructor. Qed.

Lemma sstable_roundtrip_witness :
  exists b w1 r e2 e3 e4,
    BuildTable tiny_block_options (str "t") sample_block_entries empty_world = Some ((Status.OK, b), w1) /\
    on_world (SSTableReader.Open tiny_block_options (str "t") 5 (SSTableBuilder.FileSize b)) (mkEnv w1 (NewBlockCache 100))
      = Some ((Status.OK, Some r), e2) /\
    SSTableReader.Get r (str "a") 9 (Some []) Status.OK true e2 = Some ((true, Some (str "1"), Status.OK), e3) /\
    SSTableReader.Get r (str "c") 9 (Some []) Status.OK true e3 = Some ((false, Some [], Status.OK), e4).
Proof.
  destruct (sstable_roundtrip tiny_block_options (str "t") 5 sample_block_entries empty_world 100)
    as (b & w1 & Eb & r & e2 & Eo & R & He & Hg);
    [apply empty_world_wf|done|done|repeat constructor|apply sample_known_types|apply sample_table_small|done|].
  assert (Hvis : forall key e, e ∈ sample_block_entries -> user_key e = key -> seq e <= 9).
  { intros key e He' _. revert e He'. apply Forall_forall, sample_seqs. }
  destruct (Hg (str "a") 9 (Some []) Status.OK true (Hvis _) e2 He) as (x & e3 & E3 & He3 & ->).
  destruct (Hg (str "c") 9 (Some []) Status.OK true (Hvis _) e3 He3) as (x & e4 & E4 & _ & ->).
  exists b, w1, r, e2, e3, e4. auto.
Defined.

(** ** Versions of a key in several blocks *)



(** Two versions of a key. *)
Definition split_versions : list MemtableEntry :=
  [mkEntry (str "k") 2 kTypeValue (str "new"); mkEntry (str "k") 1 kTypeValue (str "old")].


(** When the versions straddle two blocks, the older one is missed. *)
Example older_version_missed :
  exists b w1 r e2 e3,
    BuildTable tiny_block_options (str "t") split_versions empty_world = Some ((Status.OK, b), w1) /\
    on_world (SSTableReader.Open tiny_block_options (str "t") 5 (SSTableBuilder.FileSize b)) (mkEnv w1 (NewBlockCache 100))
      = Some ((Status.OK, Some r), e2) /\
    SSTableReader.Get r (str "k") 1 (Some []) Status.OK false e2 = Some ((false, Some [], Status.OK), e3) /\
    newest split_versions (str "k") 1 = Some (mkEntry (str "k") 1 kTypeValue (str "old")).
Proof.
  assert (H : match BuildTable tiny_block_options (str "t") split_versions empty_world with
    | Some ((s, b), w1) =>
        match on_world (SSTableReader.Open tiny_block_options (str "t") 5 (SSTableBuilder.FileSize b)) (mkEnv w1 (NewBlockCache 100)) with
        | Some ((s', Some r), e2) =>
            match SSTableReader.Get r (str "k") 1 (Some []) Status.OK false e2 with
            | Some (x, e3) => s = Status.OK /\ s' = Status.OK /\ x = (false, Some [], Status.OK)
            | None => False
            end
        | _ => False
        end
    | None => False
    end) by (vm_compute; split_and!; reflexivity).
  destruct (BuildTable _ _ _ _) as [[[s b] w1]|] eqn:Eb; [|destruct H].
  destruct (on_world _ _) as [[[s' [r|]] e2]|] eqn:Eo; [|destruct H..].
  destruct (SSTableReader.Get _ _ _ _ _ _ _) as [[x e3]|] eqn:Eg; [|destruct H].
  destruct H as (-> & -> & ->). exists b, w1, r, e2, e3. split; [reflexivity|]. split; [exact Eo|]. split; [exact Eg|reflexivity].
Qed.
