(* ===== verification/TwoLevelIterator.v ===== *)
(** * TwoLevelIterator: iterating over a table

    Models [TwoLevelIterator] of [src/sstable_reader.cc]: an iterator of the index
    block and, for the block it stands on, an iterator of the data block.  The
    [shared_ptr] that keeps a data block alive is the block inside the data iterator.
    The iterator of a table in the registry keeps the forward and the backward
    contract over the table's entries. *)

From S2P Require Import Prelude Status Slice Coding Format Posix Env Entry Iterator Block BlockCache Options SSTableBuilder.
From S2P Require Import SSTableReader.

#[local] Open Scope Z_scope.

(** ** [TwoLevelIterator] *)

Module TwoLevelIterator.

Record t := mk {
  reader_ : SSTableReader.t;
  cache_ : bool;
  index_iter_ : BlockIter;
  data_iter_ : option BlockIter;
  status_ : Status.t;
}.

Definition set_index (i : BlockIter) (it : t) : t := mk (reader_ it) (cache_ it) i (data_iter_ it) (status_ it).
Definition set_data (d : option BlockIter) (it : t) : t := mk (reader_ it) (cache_ it) (index_iter_ it) d (status_ it).
Definition set_status (s : Status.t) (it : t) : t := mk (reader_ it) (cache_ it) (index_iter_ it) (data_iter_ it) s.

(** The constructor. *)
Definition New (r : SSTableReader.t) (cache : bool) : option t :=
  index ← SSTableReader.index_block_ r; Some (mk r cache (NewBlockIter index) None Status.OK).

Definition Valid (it : t) : bool := match data_iter_ it with Some d => blk_Valid d | None => false end.

Definition InitDataBlock (it : t) : SM TableEnv t :=
  let it := set_data None it in
  if negb (blk_Valid (index_iter_ it)) then mret it
  else
    handle_str ← lift (blk_Value (index_iter_ it));
    '(s, handle, _) ← lift (BlockHandle_DecodeFrom (mkHandle 0 0) handle_str);
    if negb (Status.ok s) then mret (set_status s it)
    else
      '(s, b) ← SSTableReader.FetchBlock (cache_ it) (reader_ it) handle;
      if negb (Status.ok s) then mret (set_status s it)
      else block ← lift b; mret (set_data (Some (NewBlockIter block)) it).

(** [if (data_iter_ != nullptr) data_iter_->move()]. *)
Definition move_data (move : BlockIter -> option BlockIter) (it : t) : SM TableEnv t :=
  match data_iter_ it with
  | Some d => d ← lift (move d); mret (set_data (Some d) it)
  | None => mret it
  end.

(** The loops [SkipEmptyDataBlocksForward] and [SkipEmptyDataBlocksBackward]: [step]
    moves the index iterator and [land] the new data iterator. *)
Fixpoint SkipEmptyDataBlocks (step land : BlockIter -> option BlockIter) (fuel : nat) (it : t) : SM TableEnv t :=
  match fuel with
  | O => lift None
  | S fuel' =>
      if Valid it then mret it
      else if negb (blk_Valid (index_iter_ it)) then mret (set_data None it)
      else
        i ← lift (step (index_iter_ it));
        it ← InitDataBlock (set_index i it);
        it ← move_data land it;
        SkipEmptyDataBlocks step land fuel' it
  end.

(** Every turn but the last moves the index iterator to another entry. *)
Definition skip_fuel (it : t) : nat := S (scan_fuel (index_iter_ it)).

Definition SkipEmptyDataBlocksForward (it : t) : SM TableEnv t :=
  SkipEmptyDataBlocks blk_Next blk_SeekToFirst (skip_fuel it) it.
Definition SkipEmptyDataBlocksBackward (it : t) : SM TableEnv t :=
  SkipEmptyDataBlocks blk_Prev blk_SeekToLast (skip_fuel it) it.

Definition SeekToFirst (it : t) : SM TableEnv t :=
  i ← lift (blk_SeekToFirst (index_iter_ it));
  it ← InitDataBlock (set_index i it);
  it ← move_data blk_SeekToFirst it;
  SkipEmptyDataBlocksForward it.

Definition SeekToLast (it : t) : SM TableEnv t :=
  i ← lift (blk_SeekToLast (index_iter_ it));
  it ← InitDataBlock (set_index i it);
  it ← move_data blk_SeekToLast it;
  SkipEmptyDataBlocksBackward it.

Definition Seek (target : bytes) (it : t) : SM TableEnv t :=
  i ← lift (blk_Seek target (index_iter_ it));
  it ← InitDataBlock (set_index i it);
  it ← move_data (blk_Seek target) it;
  SkipEmptyDataBlocksForward it.

Definition Next (it : t) : SM TableEnv t :=
  if Valid it then it ← move_data blk_Next it; SkipEmptyDataBlocksForward it else lift None.

Definition Prev (it : t) : SM TableEnv t :=
  if Valid it then it ← move_data blk_Prev it; SkipEmptyDataBlocksBackward it else lift None.

(** [assert(Valid()); return data_iter_->get()]. *)
Definition shown {A} (get : BlockIter -> option A) (it : t) : option A :=
  if Valid it then d ← data_iter_ it; get d else None.

Definition Key (it : t) : option bytes := shown blk_Key it.
Definition Value (it : t) : option bytes := shown blk_Value it.
Definition Seq (it : t) : option SequenceNumber := shown blk_Seq it.
Definition Type_ (it : t) : option ValueType := shown blk_Type it.

Definition status (it : t) : Status.t :=
  if negb (Status.ok (status_ it)) then status_ it
  else match data_iter_ it with
       | Some d => if negb (Status.ok (blk_status d)) then blk_status d else Status.OK
       | None => Status.OK
       end.
End TwoLevelIterator.

#[global] Instance two_level_view : It.View TwoLevelIterator.t := {
  It.Valid := TwoLevelIterator.Valid;
  It.Key := TwoLevelIterator.Key;
  It.Value := TwoLevelIterator.Value;
  It.Seq := TwoLevelIterator.Seq;
  It.Type_ := TwoLevelIterator.Type_;
  It.status := TwoLevelIterator.status;
}.

#[global] Instance two_level_iterator : It.Internal TableEnv TwoLevelIterator.t := {
  It.SeekToFirst := TwoLevelIterator.SeekToFirst;
  It.SeekToLast := TwoLevelIterator.SeekToLast;
  It.Seek := TwoLevelIterator.Seek;
  It.Next := TwoLevelIterator.Next;
  It.Prev := TwoLevelIterator.Prev;
}.


(** ** Where the iterator stands *)

Section two_level.
Context (R : registry).

(** The iterator of the table [ti], its index iterator on the [j]-th block. *)
Record on_table (it : TwoLevelIterator.t) (ti : table_info) (j : nat) : Prop := {
  ot_reader : reader_rep R (TwoLevelIterator.reader_ it) ti;
  ot_index : block_at (TwoLevelIterator.index_iter_ it) (index_entries 0 (ti_blocks ti)) j;
  ot_status : TwoLevelIterator.status_ it = Status.OK;
}.

(** The data iterator on the [p]-th entry of that block, or none past the end. *)
Definition at_pos (it : TwoLevelIterator.t) (ti : table_info) (j p : nat) : Prop :=
  on_table it ti j /\
  match ti_blocks ti !! j with
  | Some blk => exists d, TwoLevelIterator.data_iter_ it = Some d /\ block_at d blk p /\ (p < length blk)%nat
  | None => TwoLevelIterator.data_iter_ it = None
  end.

(** The number of entries before the [j]-th block. *)
Definition entries_before (ti : table_info) (j : nat) : nat := length (concat (take j (ti_blocks ti))).

(** Without a data iterator the iterator is not valid, wherever the index stands. *)
Definition two_rep (it : TwoLevelIterator.t) (es : list MemtableEntry) (i : nat) : Prop :=
  exists ti j, es = ti_entries ti /\ on_table it ti j /\
    match TwoLevelIterator.data_iter_ it with
    | Some d => exists blk p, ti_blocks ti !! j = Some blk /\ block_at d blk p /\ (p < length blk)%nat /\
        i = (entries_before ti j + p)%nat
    | None => i = length es
    end.

Lemma entries_before_S ti j blk :
  ti_blocks ti !! j = Some blk -> entries_before ti (S j) = (entries_before ti j + length blk)%nat.
Proof. intros Hj. rw /entries_before (take_S_r _ _ _ Hj) concat_app length_app /= app_nil_r //. Qed.

Lemma entries_before_all ti j : (length (ti_blocks ti) <= j)%nat -> entries_before ti j = length (ti_entries ti).
Proof. intros H. by rw /entries_before take_ge. Qed.

Lemma entry_in_block ti j blk p :
  ti_blocks ti !! j = Some blk -> (p < length blk)%nat ->
  ti_entries ti !! (entries_before ti j + p)%nat = blk !! p /\ (entries_before ti j + p < length (ti_entries ti))%nat.
Proof.
  intros Hj Hp. rw (table_split ti j blk Hj) /entries_before. split.
  - rw lookup_app_r; [lia|]. rw lookup_app_l; [lia|]. f_equal. lia.
  - rw !length_app. lia.
Qed.

Lemma at_pos_rep it ti j p :
  at_pos it ti j p -> two_rep it (ti_entries ti)
    (match ti_blocks ti !! j with Some _ => entries_before ti j + p | None => length (ti_entries ti) end)%nat.
Proof.
  intros [Ho Hd]. exists ti, j. split; [done|]. split; [done|].
  destruct (ti_blocks ti !! j) as [blk|] eqn:Ej; [|by rw Hd]. destruct Hd as (d & -> & Hat & Hp). by exists blk, p.
Qed.

(** ** Entering a block *)

Lemma InitDataBlock_run it ti j :
  on_table it ti j ->
  runs (env_inv R) (TwoLevelIterator.InitDataBlock it) (fun it' => on_table it' ti j /\
    match ti_blocks ti !! j with
    | Some blk => exists d, TwoLevelIterator.data_iter_ it' = Some d /\ block_at d blk (length blk)
    | None => TwoLevelIterator.data_iter_ it' = None
    end).
Proof.
  intros [Hr Hi Hs]. rw /TwoLevelIterator.InitDataBlock. pose proof (rr_ok _ _ _ Hr) as Hok.
  destruct (block_at_view _ _ _ Hi) as (Hv & _ & He). simpl. rw Hv length_index_entries.
  destruct (Nat.ltb_spec j (length (ti_blocks ti))) as [Hj|Hj]; simpl.
  2:{ apply runs_ret. split; [by split|]. by rw lookup_ge_None_2. }
  destruct (lookup_lt_is_Some_2 _ _ Hj) as [blk Ej]. destruct (He _ (index_entries_lookup 0 _ _ _ Ej)) as (_ & Ev & _).
  eapply runs_bind_lift; [by rw /blk_Value Ev|]. eapply runs_bind_lift; [by apply (block_handle_decode ti Hok)|]. simpl.
  destruct (table_block ti Hok j blk Ej) as (b & rs & pre & post & Hb & Hbt & _).
  eapply runs_bind; [by eapply (FetchBlock_run R _ ti j blk b)|]. intros x ->. simpl. eapply runs_bind_lift; [done|].
  apply runs_ret. split; [by split|]. rw Ej. eexists. split; [done|].
  eapply NewBlockIter_at; [exact Hbt|]. apply entries_sorted_keys. by eapply (table_block_body ti Hok).
Qed.

(** The data iterator of the block the index stands on, moved to the entry [p]. *)
Lemma enter_block it ti j land p :
  on_table it ti j ->
  (forall blk d, ti_blocks ti !! j = Some blk -> block_at d blk (length blk) ->
    exists d', land d = Some d' /\ block_at d' blk p /\ (p < length blk)%nat) ->
  runs (env_inv R) (it ← TwoLevelIterator.InitDataBlock it; TwoLevelIterator.move_data land it)
    (fun it' => at_pos it' ti j p).
Proof.
  intros Ho Hl. eapply runs_bind; [by apply InitDataBlock_run|]. intros it' [[Hr Hi Hs] Hd].
  rw /TwoLevelIterator.move_data /at_pos. destruct (ti_blocks ti !! j) as [blk|] eqn:Ej.
  - destruct Hd as (d & Ed & Hat). rw Ed. destruct (Hl blk d eq_refl Hat) as (d' & El & Hd' & Hp).
    eapply runs_bind_lift; [exact El|]. apply runs_ret. split; [by split|]. by exists d'.
  - rw Hd. apply runs_ret. by split.
Qed.

Lemma at_pos_Valid it ti j p :
  at_pos it ti j p -> TwoLevelIterator.Valid it = (j <? length (ti_blocks ti))%nat.
Proof.
  intros [_ Hd]. rw /TwoLevelIterator.Valid. destruct (ti_blocks ti !! j) as [blk|] eqn:Ej.
  - destruct Hd as (d & -> & Hat & Hp). destruct (block_at_view _ _ _ Hat) as (-> & _).
    apply lookup_lt_Some in Ej. by rw !(proj2 (Nat.ltb_lt _ _)).
  - rw Hd. apply lookup_ge_None_1 in Ej. by rw (proj2 (Nat.ltb_ge _ _)).
Qed.

Lemma set_data_id it : TwoLevelIterator.set_data (TwoLevelIterator.data_iter_ it) it = it.
Proof. by destruct it. Qed.

(** The skip loop stops on an entry and at the end. *)
Lemma Skip_stop step land fuel it ti j p :
  at_pos it ti j p ->
  runs (env_inv R) (TwoLevelIterator.SkipEmptyDataBlocks step land (S fuel) it) (fun it' => at_pos it' ti j p).
Proof.
  intros Hp. simpl. rw (at_pos_Valid _ _ _ _ Hp). destruct (Nat.ltb_spec j (length (ti_blocks ti))) as [Hj|Hj]; [by apply runs_ret|].
  pose proof Hp as [[Hr Hi Hs] Hd]. destruct (block_at_view _ _ _ Hi) as (-> & _ & _). rw length_index_entries.
  rw (proj2 (Nat.ltb_ge _ _)) //=. apply runs_ret. rw lookup_ge_None_2 // in Hd. by rw -Hd set_data_id.
Qed.

(** From the end of a block it goes on with the block the index moves to. *)
Lemma Skip_step step land fuel it ti j j' p' :
  on_table it ti j -> (j < length (ti_blocks ti))%nat -> TwoLevelIterator.Valid it = false ->
  (exists i', step (TwoLevelIterator.index_iter_ it) = Some i' /\ block_at i' (index_entries 0 (ti_blocks ti)) j') ->
  (forall blk d, ti_blocks ti !! j' = Some blk -> block_at d blk (length blk) ->
    exists d', land d = Some d' /\ block_at d' blk p' /\ (p' < length blk)%nat) ->
  runs (env_inv R) (TwoLevelIterator.SkipEmptyDataBlocks step land (S (S fuel)) it) (fun it' => at_pos it' ti j' p').
Proof.
  intros [Hr Hi Hs] Hj Hv (i' & Ei & Hi') Hl. cbn [TwoLevelIterator.SkipEmptyDataBlocks].
  rw Hv. destruct (block_at_view _ _ _ Hi) as (-> & _ & _). rw length_index_entries (proj2 (Nat.ltb_lt _ _)) //=.
  eapply runs_bind_lift; [exact Ei|].
  assert (Ho : on_table (TwoLevelIterator.set_index i' it) ti j') by by split.
  pose proof (enter_block _ ti j' land p' Ho Hl) as He. intros s Hinv. destruct (He s Hinv) as (it2 & s2 & E2 & Hs2 & H2).
  destruct (Skip_stop step land fuel it2 ti j' p' H2 s2 Hs2) as (it3 & s3 & E3 & Hs3 & H3).
  exists it3, s3. split; [|done]. rw /mbind /SM_bind in E2 |- *.
  destruct (TwoLevelIterator.InitDataBlock _ s) as [[it1 s1]|]; [|done]. by rw E2.
Qed.

(** ** Moving *)

(** A seek of the index, then of the block it leads to. *)
Lemma seek_run it ti j0 j p move land step land' :
  on_table it ti j0 ->
  (exists i', move (TwoLevelIterator.index_iter_ it) = Some i' /\ block_at i' (index_entries 0 (ti_blocks ti)) j) ->
  (forall blk d, ti_blocks ti !! j = Some blk -> block_at d blk (length blk) ->
    exists d', land d = Some d' /\ block_at d' blk p /\ (p < length blk)%nat) ->
  runs (env_inv R) (i ← lift (move (TwoLevelIterator.index_iter_ it));
    it ← TwoLevelIterator.InitDataBlock (TwoLevelIterator.set_index i it);
    it ← TwoLevelIterator.move_data land it;
    TwoLevelIterator.SkipEmptyDataBlocks step land' (TwoLevelIterator.skip_fuel it) it) (fun it' => at_pos it' ti j p).
Proof.
  intros [Hr Hi Hs] (i' & Ei & Hi') Hl. eapply runs_bind_lift; [exact Ei|].
  assert (Ho : on_table (TwoLevelIterator.set_index i' it) ti j) by by split.
  pose proof (enter_block _ ti j land p Ho Hl) as He. intros s Hinv. destruct (He s Hinv) as (it2 & s2 & E2 & Hs2 & H2).
  destruct (Skip_stop step land' (scan_fuel (TwoLevelIterator.index_iter_ it2)) it2 ti j p H2 s2 Hs2) as (it3 & s3 & E3 & Hs3 & H3).
  exists it3, s3. split; [|done]. rw /mbind /SM_bind in E2 |- *.
  destruct (TwoLevelIterator.InitDataBlock _ s) as [[it1 s1]|]; [|done]. by rw E2.
Qed.

(** A move of the data iterator that stays in its block, or leaves it for the block
    [j'] at the entry [p']. *)
Lemma move_run it ti j blk d q move step land j' p' :
  on_table it ti j -> ti_blocks ti !! j = Some blk -> TwoLevelIterator.data_iter_ it = Some d ->
  (exists d', move d = Some d' /\ block_at d' blk q) ->
  ((q < length blk)%nat -> j' = j /\ p' = q) ->
  ((length blk <= q)%nat -> exists i', step (TwoLevelIterator.index_iter_ it) = Some i' /\
    block_at i' (index_entries 0 (ti_blocks ti)) j') ->
  ((length blk <= q)%nat -> forall blk' d, ti_blocks ti !! j' = Some blk' -> block_at d blk' (length blk') ->
    exists d', land d = Some d' /\ block_at d' blk' p' /\ (p' < length blk')%nat) ->
  runs (env_inv R) (it ← TwoLevelIterator.move_data move it;
    TwoLevelIterator.SkipEmptyDataBlocks step land (TwoLevelIterator.skip_fuel it) it) (fun it' => at_pos it' ti j' p').
Proof.
  intros [Hr Hi Hs] Ej Ed (d' & Em & Hd') Hin Hstep Hland. rw /TwoLevelIterator.move_data Ed.
  intros s Hinv. rw /mbind /SM_bind (lift_run _ _ _ Em) /mret /SM_ret.
  assert (Ho : on_table (TwoLevelIterator.set_data (Some d') it) ti j) by by split.
  destruct (decide (q < length blk)%nat) as [Hq|Hq].
  - destruct (Hin Hq) as [-> ->]. apply Skip_stop; [|done]. split; [done|]. rw Ej. by exists d'.
  - eapply (Skip_step step land _ _ ti j j' p'); [done|by eapply lookup_lt_Some| | | |done].
    + rw /TwoLevelIterator.Valid /=. destruct (block_at_view _ _ _ Hd') as (-> & _). by apply Nat.ltb_ge, Nat.nlt_ge.
    + apply Hstep. lia.
    + apply Hland. lia.
Qed.

(** [Seek] lands in the home block of the target. *)
Lemma seek_pos_table ti t :
  table_ok ti ->
  seek_pos (ti_entries ti) t =
    match ti_blocks ti !! home_block ti t with
    | Some blk => entries_before ti (home_block ti t) + seek_pos blk t
    | None => length (ti_entries ti)
    end%nat.
Proof.
  intros Hok. pose proof (before_home ti t Hok) as Hb. symmetry. destruct (ti_blocks ti !! home_block ti t) as [blk|] eqn:Ej.
  2:{ apply lookup_ge_None_1 in Ej. rw take_ge // in Hb. apply seek_pos_unique; [done|by rw take_ge|by rw drop_ge]. }
  destruct (table_block_body ti Hok _ blk Ej) as (_ & Hne & _ & Hsb). pose proof (to_sorted _ Hok) as Hs.
  pose proof (seek_pos_le blk t). rw (table_split ti _ blk Ej) in Hs |- *. rw /entries_before. apply seek_pos_unique.
  - rw !length_app. lia.
  - rw take_app_add take_app_le //. apply Forall_app. split; [done|]. apply seek_pos_take.
  - rw drop_app_add drop_app_le //. apply Forall_app. split; [by apply seek_pos_drop, entries_sorted_keys|].
    apply StronglySorted_app_1_r in Hs. pose proof (home_last_key ti t blk Hok Ej) as Hl.
    destruct (last_key_elem blk Hne) as (l & _ & Hlb & El). rw El in Hl. apply Forall_forall. intros e He.
    assert (entry_lt l e) as Hlt%entry_lt_key by by eapply StronglySorted_app_1_elem_of.
    apply cmp_ge_le in Hl; [|apply _]. apply cmp_ge_le; [apply _|]. by eapply (cmp_le_trans Slice.compare).
Qed.

Lemma home_seek_lt ti t blk :
  table_ok ti -> ti_blocks ti !! home_block ti t = Some blk -> (seek_pos blk t < length blk)%nat.
Proof.
  intros Hok Ej. destruct (table_block_body ti Hok _ blk Ej) as (_ & Hne & _ & Hsb).
  pose proof (home_last_key ti t blk Hok Ej) as Hl. destruct (last_key_elem blk Hne) as (l & _ & Hlb & El). rw El in Hl.
  destruct (decide (seek_pos blk t < length blk)%nat) as [|Hge]; [done|]. pose proof (seek_pos_take blk t) as Ht.
  rw take_ge in Ht; [lia|]. rewrite -> Forall_forall in Ht. specialize (Ht l Hlb). simpl in Ht. lia.
Qed.

(** ** The contracts *)

#[global] Instance two_level_iterator_view : IteratorView TwoLevelIterator.t two_rep.
Proof.
  assert (Hlt : forall it es i e, two_rep it es i -> es !! i = Some e -> exists ti j d blk p,
    TwoLevelIterator.data_iter_ it = Some d /\ block_at d blk p /\ blk !! p = Some e /\ (p < length blk)%nat /\ on_table it ti j).
  { intros it es i e (ti & j & -> & Ho & Hd) He. destruct (TwoLevelIterator.data_iter_ it) as [d|].
    - destruct Hd as (blk & p & Ej & Hat & Hp & ->). destruct (entry_in_block ti j blk p Ej Hp) as [E _]. rw E in He.
      by exists ti, j, d, blk, p.
    - subst i. rw lookup_ge_None_2 // in He. }
  assert (Hsh : forall it es i e, two_rep it es i -> es !! i = Some e ->
    It.Key it = Some (user_key e) /\ It.Value it = Some (value e) /\ It.Seq it = Some (seq e) /\ It.Type_ it = Some (type e)).
  { intros it es i e Hr He. destruct (Hlt it es i e Hr He) as (ti & j & d & blk & p & Ed & Hat & Hp & Hlen & _).
    destruct (block_at_view _ _ _ Hat) as (Hv & _ & Hs). destruct (Hs e Hp) as (Hk & Hval & Hq & Ht).
    rw /= /TwoLevelIterator.Key /TwoLevelIterator.Value /TwoLevelIterator.Seq /TwoLevelIterator.Type_ /TwoLevelIterator.shown.
    rw /TwoLevelIterator.Valid Ed Hv (proj2 (Nat.ltb_lt _ _)) //=.
    rw /blk_Key /blk_Value /blk_Seq /blk_Type Hk Hval Hq Ht //. }
  split; try (intros it es i e Hr He; by apply (Hsh it es i e Hr He)).
  - intros it es i (ti & j & -> & Ho & _). apply (rr_ok _ _ _ (ot_reader _ _ _ Ho)).
  - intros it es i (ti & j & -> & Ho & Hd). destruct (TwoLevelIterator.data_iter_ it); [|by subst].
    destruct Hd as (blk & p & Ej & _ & Hp & ->). destruct (entry_in_block ti j blk p Ej Hp) as [_ ?]. lia.
  - intros it es i (ti & j & -> & Ho & Hd). rw /= /TwoLevelIterator.Valid. destruct (TwoLevelIterator.data_iter_ it) as [d|].
    + destruct Hd as (blk & p & Ej & Hat & Hp & ->). destruct (block_at_view _ _ _ Hat) as (-> & _).
      destruct (entry_in_block ti j blk p Ej Hp) as [_ ?]. by rw !(proj2 (Nat.ltb_lt _ _)).
    + subst. symmetry. by apply Nat.ltb_ge.
  - intros it es i (ti & j & _ & Ho & Hd). rw /= /TwoLevelIterator.status (ot_status _ _ _ Ho) /=.
    destruct (TwoLevelIterator.data_iter_ it) as [d|]; [|done]. destruct Hd as (blk & p & _ & Hat & _).
    destruct (block_at_view _ _ _ Hat) as (_ & Hs & _). by rw /blk_status Hs.
Qed.

(** Two positions for the same entry. *)
Lemma at_pos_rep' it ti j p i :
  at_pos it ti j p ->
  i = (match ti_blocks ti !! j with Some _ => entries_before ti j + p | None => length (ti_entries ti) end)%nat ->
  two_rep it (ti_entries ti) i.
Proof. intros H ->. by apply at_pos_rep. Qed.

Lemma first_block_pos ti : table_ok ti ->
  0%nat = (match ti_blocks ti !! 0%nat with Some _ => entries_before ti 0 + 0 | None => length (ti_entries ti) end)%nat.
Proof. intros _. rw /ti_entries. by destruct (ti_blocks ti). Qed.

#[global] Instance two_level_forward : ForwardIterator TableEnv TwoLevelIterator.t (env_inv R) two_rep.
Proof.
  split; [apply _|..].
  - intros it es i (ti & j & -> & Ho & _). pose proof (rr_ok _ _ _ (ot_reader _ _ _ Ho)) as Hok.
    eapply runs_mono; [eapply (seek_run it ti j 0 0 blk_SeekToFirst blk_SeekToFirst); [done|..]|].
    + eapply block_first_run, Ho.
    + intros blk d Ej Hat. destruct (block_first_run _ _ _ Hat) as (d' & E & Hd'). exists d'. split_and!; auto.
      destruct (table_block_body ti Hok _ blk Ej) as (_ & Hne & _). by destruct blk; [|simpl; lia].
    + intros it' Hp. eapply at_pos_rep'; [exact Hp|]. by apply first_block_pos.
  - intros it es i t (ti & j & -> & Ho & _). pose proof (rr_ok _ _ _ (ot_reader _ _ _ Ho)) as Hok.
    eapply runs_mono; [eapply (seek_run it ti j (home_block ti t)
      (match ti_blocks ti !! home_block ti t with Some blk => seek_pos blk t | None => 0%nat end) (blk_Seek t) (blk_Seek t)); [done|..]|].
    + eapply block_seek_run, Ho.
    + intros blk d Ej Hat. rw Ej. destruct (block_seek_run _ _ _ t Hat) as (d' & E & Hd'). exists d'. split_and!; auto.
      eapply home_seek_lt; eauto.
    + intros it' Hp. eapply at_pos_rep'; [exact Hp|]. rw seek_pos_table //. by destruct (ti_blocks ti !! home_block ti t).
  - intros it es i (ti & j & -> & Ho & Hd) Hi. pose proof (rr_ok _ _ _ (ot_reader _ _ _ Ho)) as Hok.
    destruct (TwoLevelIterator.data_iter_ it) as [d|] eqn:Ed; [|subst; lia]. destruct Hd as (blk & p & Ej & Hat & Hp & ->).
    cbn [It.Next two_level_iterator]. rw /TwoLevelIterator.Next /TwoLevelIterator.Valid Ed.
    destruct (block_at_view _ _ _ Hat) as (-> & _). rw (proj2 (Nat.ltb_lt _ _)) //.
    pose proof (lookup_lt_Some _ _ _ Ej) as Hj.
    set (j' := if (S p <? length blk)%nat then j else S j). set (p' := if (S p <? length blk)%nat then S p else 0%nat).
    assert (Hpos : (entries_before ti j' + p' = S (entries_before ti j + p))%nat).
    { rw /j' /p'. destruct (Nat.ltb_spec (S p) (length blk)); [lia|]. rw (entries_before_S ti j blk Ej). lia. }
    eapply runs_mono; [eapply (move_run it ti j blk d (S p) blk_Next blk_Next blk_SeekToFirst j' p' Ho Ej Ed)|].
    + by apply block_next_run.
    + intros Hq. by rw /j' /p' (proj2 (Nat.ltb_lt _ _)).
    + intros Hq. rw /j' (proj2 (Nat.ltb_ge _ _)) //. eapply block_next_run; [apply Ho|]. by rw length_index_entries.
    + intros Hq blk' d' Ej' Hat'. destruct (block_first_run _ _ _ Hat') as (d2 & E & Hd2). exists d2.
      rw /p' (proj2 (Nat.ltb_ge _ _)) //. split_and!; auto.
      destruct (table_block_body ti Hok _ blk' Ej') as (_ & Hne & _). by destruct blk'; [|simpl; lia].
    + intros it' Hp'. eapply at_pos_rep'; [exact Hp'|]. rw -Hpos. destruct (ti_blocks ti !! j') as [|] eqn:Ej'; [done|].
      apply lookup_ge_None_1 in Ej'. rw -(entries_before_all ti j') //. rw /p'. rw /j' in Ej'.
      destruct (Nat.ltb_spec (S p) (length blk)); lia.
Qed.

#[global] Instance two_level_backward : BackwardIterator TableEnv TwoLevelIterator.t (env_inv R) two_rep.
Proof.
  split.
  - intros it es i (ti & j & -> & Ho & _). pose proof (rr_ok _ _ _ (ot_reader _ _ _ Ho)) as Hok.
    set (jl := pred (length (ti_blocks ti))).
    eapply runs_mono; [eapply (seek_run it ti j jl
      (match ti_blocks ti !! jl with Some blk => pred (length blk) | None => 0%nat end) blk_SeekToLast blk_SeekToLast); [done|..]|].
    + rw /jl -(length_index_entries 0 (ti_blocks ti)). eapply block_last_run, Ho.
    + intros blk d Ej Hat. rw Ej. destruct (block_last_run _ _ _ Hat) as (d' & E & Hd'). exists d'. split_and!; auto.
      destruct (table_block_body ti Hok _ blk Ej) as (_ & Hne & _). by destruct blk; [|simpl; lia].
    + intros it' Hp. eapply at_pos_rep'; [exact Hp|]. destruct (ti_blocks ti !! jl) as [blk|] eqn:Ej.
      * destruct (table_block_body ti Hok _ blk Ej) as (_ & Hne & _). pose proof (entries_before_S ti jl blk Ej) as Es.
        rw entries_before_all in Es; [rw /jl; lia|]. rw Es. destruct blk; [done|simpl; lia].
      * apply lookup_ge_None_1 in Ej. rw /jl in Ej. rw /ti_entries. destruct (ti_blocks ti); [done|simpl in Ej; lia].
  - intros it es i (ti & j & -> & Ho & Hd) Hi. pose proof (rr_ok _ _ _ (ot_reader _ _ _ Ho)) as Hok.
    destruct (TwoLevelIterator.data_iter_ it) as [d|] eqn:Ed; [|subst; lia]. destruct Hd as (blk & p & Ej & Hat & Hp & ->).
    cbn [It.Prev two_level_iterator]. rw /TwoLevelIterator.Prev /TwoLevelIterator.Valid Ed.
    destruct (block_at_view _ _ _ Hat) as (-> & _). rw (proj2 (Nat.ltb_lt _ _)) //.
    pose proof (lookup_lt_Some _ _ _ Ej) as Hj. set (q := match p with O => length blk | S p0 => p0 end).
    set (jp := match j with O => length (ti_blocks ti) | S j0 => j0 end).
    set (j' := match p with O => jp | S _ => j end).
    set (p' := match p with O => match ti_blocks ti !! jp with Some b => pred (length b) | None => 0%nat end | S p0 => p0 end).
    eapply runs_mono; [eapply (move_run it ti j blk d q blk_Prev blk_Prev blk_SeekToLast j' p' Ho Ej Ed)|].
    + by apply block_prev_run.
    + intros Hq. rw /j' /p' /q in Hq |- *. destruct p; [lia|done].
    + intros Hq. rw /j' /jp /q in Hq |- *. destruct p; [|lia]. rw -(length_index_entries 0 (ti_blocks ti)).
      eapply block_prev_run; [apply Ho|]. by rw length_index_entries.
    + intros Hq blk' d' Ej' Hat'. rw /j' /q in Hq Ej'. destruct p; [|lia]. rw /p' Ej'.
      destruct (block_last_run _ _ _ Hat') as (d2 & E & Hd2). exists d2. split_and!; auto.
      destruct (table_block_body ti Hok _ blk' Ej') as (_ & Hne & _). by destruct blk'; [|simpl; lia].
    + intros it' Hp'. eapply at_pos_rep'; [exact Hp'|]. rw /j' /p'. destruct p as [|p0].
      * rw Nat.add_0_r. destruct j as [|j0]; rw /jp; [by rw lookup_ge_None_2|].
        destruct (lookup_lt_is_Some_2 (ti_blocks ti) j0 ltac:(lia)) as [b Eb]. rw Eb (entries_before_S ti j0 b Eb).
        destruct (table_block_body ti Hok _ b Eb) as (_ & Hne & _). destruct b; [done|]. by rw /= Nat.add_succ_r.
      * by rw Ej Nat.add_succ_r.
Qed.
End two_level.

Lemma New_two_rep R r ti cache :
  reader_rep R r ti -> exists it, TwoLevelIterator.New r cache = Some it /\ two_rep R it (ti_entries ti) (length (ti_entries ti)).
Proof.
  intros Hr. pose proof (rr_ok _ _ _ Hr) as Hok. destruct (table_index ti Hok) as (ib & irs & Eib & Hib).
  rw /TwoLevelIterator.New (rr_index _ _ _ Hr) Eib. eexists. split; [done|].
  exists ti, (length (index_entries 0 (ti_blocks ti))). split; [done|]. split; [|done]. split; [done| |done].
  eapply NewBlockIter_at; [exact Hib|]. apply index_sorted; apply Hok.
Qed.

(** ** The claim *)

(** C15: the iterator of a table.  Sorted entries (up to 16 MiB) are built into a table
    file in a file system whose calls do not fail and the file is opened.  Then the
    iterator over the table, with or without the block cache, keeps the forward and the
    backward contract over exactly those entries, reading data blocks as it goes: a
    scan from [SeekToFirst] returns them all, in order, and every move ends. *)
Theorem sstable_iterator_roundtrip (opts : Options) (path : bytes) (n : Z) (es : list MemtableEntry) (w : World) (cap : Z)
    (cache : bool) :
  fs_wf w -> w_io w = [] -> w_ctl w = [] -> entries_sorted es -> table_small (bloom_bits_per_key opts) es -> small cap ->
  exists b w1, BuildTable opts path es w = Some ((Status.OK, b), w1) /\
    exists r e2, on_world (SSTableReader.Open opts path n (SSTableBuilder.FileSize b)) (mkEnv w1 (NewBlockCache cap))
      = Some ((Status.OK, Some r), e2) /\
    exists R it, env_inv R e2 /\ TwoLevelIterator.New r cache = Some it /\
      two_rep R it es (length es) /\
      ForwardIterator TableEnv TwoLevelIterator.t (env_inv R) (two_rep R) /\
      BackwardIterator TableEnv TwoLevelIterator.t (env_inv R) (two_rep R) /\
      runs (env_inv R) (it ← TwoLevelIterator.SeekToFirst it; collect (S (length es)) it) (fun l => l = es).
Proof.
  intros Hw Hio Hctl Hs Hsm Hcap.
  destruct (build_open_run opts path n es w cap Hw Hio Hctl Hs Hsm Hcap) as (b & w1 & Eb & r & e2 & Eo & R & ti & He & Hr & Ee).
  exists b, w1. split; [done|]. exists r, e2. split; [done|]. destruct (New_two_rep R r ti cache Hr) as (it & En & Hit).
  rw Ee in Hit. exists R, it. split_and!; auto; [apply _..|].
  eapply runs_bind; [exact (fwd_first (St := TableEnv) (inv := env_inv R) it es _ Hit)|]. intros it' Hit'. eapply runs_mono.
  - eapply (collect_run (env_inv R) (two_rep R) it' es 0); [exact Hit'|lia].
  - by intros l ->.
Qed.

(** Three entries in three blocks. *)
Lemma sstable_iterator_roundtrip_witness :
  exists b w1 r e2 it e3,
    BuildTable tiny_block_options (str "t") sample_block_entries empty_world = Some ((Status.OK, b), w1) /\
    on_world (SSTableReader.Open tiny_block_options (str "t") 5 (SSTableBuilder.FileSize b)) (mkEnv w1 (NewBlockCache 100))
      = Some ((Status.OK, Some r), e2) /\
    TwoLevelIterator.New r true = Some it /\
    (it ← TwoLevelIterator.SeekToFirst it; collect 4 it) e2 = Some (sample_block_entries, e3).
Proof.
  destruct (sstable_iterator_roundtrip tiny_block_options (str "t") 5 sample_block_entries empty_world 100 true)
    as (b & w1 & Eb & r & e2 & Eo & R & it & He & En & _ & _ & _ & Hc);
    [apply empty_world_wf|done|done|repeat constructor|apply sample_table_small|done|].
  destruct (Hc e2 He) as (l & e3 & Ec & _ & ->). exists b, w1, r, e2, it, e3. auto.
Defined.
