(* ===== verification/VersionEdit.v ===== *)
(** * VersionEdit: the records of the manifest

    Models [FileMetaData] and [VersionEdit] of [src/version_set.h] and their coding in
    [src/version_set.cc].  The [reader] of [FileMetaData] is a pointer to an open table,
    or null; it is no part of the record on disk.  [deleted_files_] is a
    [std::set] of pairs: a strictly sorted list.  [DecodeFrom] returns its status
    and the edit as it leaves it; [None] is a read outside the input. *)

From S2P Require Import Prelude Status Slice Coding SSTableReader.

Definition kNumLevels : Z := 7.

Record FileMetaData := mkFile {
  number : Z;
  file_size : Z;
  smallest_key : bytes;
  largest_key : bytes;
  reader : option SSTableReader.t;
}.

Definition set_reader (r : option SSTableReader.t) (f : FileMetaData) : FileMetaData :=
  mkFile (number f) (file_size f) (smallest_key f) (largest_key f) r.

Record VersionEdit := mkEdit {
  has_comparator_ : bool;
  comparator_name_ : bytes;
  has_log_number_ : bool;
  log_number_ : Z;
  has_next_file_number_ : bool;
  next_file_number_ : Z;
  has_last_sequence_ : bool;
  last_sequence_ : Z;
  deleted_files_ : list (Z * Z);
  new_files_ : list (Z * FileMetaData);
}.

Definition NewVersionEdit : VersionEdit := mkEdit false [] false 0 false 0 false 0 [] [].

(** [Clear] resets every field. *)
Definition Clear (e : VersionEdit) : VersionEdit := NewVersionEdit.

Definition SetComparatorName (e : VersionEdit) (name : bytes) : VersionEdit :=
  mkEdit true name (has_log_number_ e) (log_number_ e) (has_next_file_number_ e) (next_file_number_ e)
    (has_last_sequence_ e) (last_sequence_ e) (deleted_files_ e) (new_files_ e).
Definition SetLogNumber (e : VersionEdit) (num : Z) : VersionEdit :=
  mkEdit (has_comparator_ e) (comparator_name_ e) true num (has_next_file_number_ e) (next_file_number_ e)
    (has_last_sequence_ e) (last_sequence_ e) (deleted_files_ e) (new_files_ e).
Definition SetNextFile (e : VersionEdit) (num : Z) : VersionEdit :=
  mkEdit (has_comparator_ e) (comparator_name_ e) (has_log_number_ e) (log_number_ e) true num
    (has_last_sequence_ e) (last_sequence_ e) (deleted_files_ e) (new_files_ e).
Definition SetLastSequence (e : VersionEdit) (s : Z) : VersionEdit :=
  mkEdit (has_comparator_ e) (comparator_name_ e) (has_log_number_ e) (log_number_ e)
    (has_next_file_number_ e) (next_file_number_ e) true s (deleted_files_ e) (new_files_ e).

(** [operator<] of [std::pair<int, uint64_t>]. *)
Definition pair_ltb (a b : Z * Z) : bool := (a.1 <? b.1) || ((a.1 =? b.1) && (a.2 <? b.2)).

(** [std::set::insert]. *)
Fixpoint set_insert (p : Z * Z) (s : list (Z * Z)) : list (Z * Z) :=
  match s with
  | [] => [p]
  | q :: s' => if pair_ltb p q then p :: s else if pair_ltb q p then q :: set_insert p s' else s
  end.

Definition DeleteFile (e : VersionEdit) (level file : Z) : VersionEdit :=
  mkEdit (has_comparator_ e) (comparator_name_ e) (has_log_number_ e) (log_number_ e)
    (has_next_file_number_ e) (next_file_number_ e) (has_last_sequence_ e) (last_sequence_ e)
    (set_insert (level, file) (deleted_files_ e)) (new_files_ e).

(** [new_files_.push_back({level, meta})]. *)
Definition PushFile (e : VersionEdit) (level : Z) (meta : FileMetaData) : VersionEdit :=
  mkEdit (has_comparator_ e) (comparator_name_ e) (has_log_number_ e) (log_number_ e)
    (has_next_file_number_ e) (next_file_number_ e) (has_last_sequence_ e) (last_sequence_ e)
    (deleted_files_ e) (new_files_ e ++ [(level, meta)]).

Definition AddFile (e : VersionEdit) (level file size : Z) (smallest largest : bytes) (r : option SSTableReader.t) :
    VersionEdit :=
  PushFile e level (mkFile file size smallest largest r).

(** ** Coding *)

Definition kTagComparator : Z := 1.
Definition kTagLogNumber : Z := 2.
Definition kTagNextFileNumber : Z := 3.
Definition kTagLastSequence : Z := 4.
Definition kTagDeletedFile : Z := 5.
Definition kTagNewFile : Z := 6.

(** A length-prefixed string. *)
Definition put_string (dst s : bytes) : bytes := PutFixed32 dst (u32 (size_of s)) ++ s.

Definition put_deleted (dst : bytes) (d : Z * Z) : bytes :=
  PutFixed64 (PutFixed32 (dst ++ [byte_of_Z kTagDeletedFile]) (u32 d.1)) d.2.

Definition put_new_file (dst : bytes) (n : Z * FileMetaData) : bytes :=
  let dst := PutFixed32 (dst ++ [byte_of_Z kTagNewFile]) (u32 n.1) in
  let dst := PutFixed64 (PutFixed64 dst (number n.2)) (file_size n.2) in
  put_string (put_string dst (smallest_key n.2)) (largest_key n.2).

Definition EncodeTo (e : VersionEdit) (dst : bytes) : bytes :=
  let dst := if has_comparator_ e then put_string (dst ++ [byte_of_Z kTagComparator]) (comparator_name_ e) else dst in
  let dst := if has_log_number_ e then PutFixed64 (dst ++ [byte_of_Z kTagLogNumber]) (log_number_ e) else dst in
  let dst := if has_next_file_number_ e then PutFixed64 (dst ++ [byte_of_Z kTagNextFileNumber]) (next_file_number_ e) else dst in
  let dst := if has_last_sequence_ e then PutFixed64 (dst ++ [byte_of_Z kTagLastSequence]) (last_sequence_ e) else dst in
  foldl put_new_file (foldl put_deleted dst (deleted_files_ e)) (new_files_ e).

(** The reads of [DecodeFrom] off the front of [input]: a length-prefixed string with
    its two errors, and a 64-bit number. *)
Definition get_string (input : bytes) (bad_len truncated : Status.t) : option (Status.t + bytes * bytes) :=
  if size_of input <? 4 then Some (inl bad_len) else
  len ← DecodeFixed32 input 0;
  input ← Slice.remove_prefix input 4;
  if size_of input <? len then Some (inl truncated) else
  let s := sub_bytes input 0 len in
  input ← Slice.remove_prefix input len;
  Some (inr (s, input)).

Definition get_fixed64 (input : bytes) (bad : Status.t) : option (Status.t + Z * bytes) :=
  if size_of input <? 8 then Some (inl bad) else
  v ← DecodeFixed64 input 0;
  input ← Slice.remove_prefix input 8;
  Some (inr (v, input)).

Definition err (msg : string) : Status.t := Status.Corruption [Status.Lit msg].

(** One turn of the loop: an error, or the edit and the rest of the input. *)
Definition decode_tag (e : VersionEdit) (tag : Z) (input : bytes) : option (Status.t + VersionEdit * bytes) :=
  if tag =? kTagComparator then
    r ← get_string input (err "Bad comparator in edit") (err "Truncated comparator");
    Some (match r with inl s => inl s | inr (name, input) => inr (SetComparatorName e name, input) end)
  else if tag =? kTagLogNumber then
    r ← get_fixed64 input (err "Bad log number in edit");
    Some (match r with inl s => inl s | inr (v, input) => inr (SetLogNumber e v, input) end)
  else if tag =? kTagNextFileNumber then
    r ← get_fixed64 input (err "Bad next file in edit");
    Some (match r with inl s => inl s | inr (v, input) => inr (SetNextFile e v, input) end)
  else if tag =? kTagLastSequence then
    r ← get_fixed64 input (err "Bad last sequence in edit");
    Some (match r with inl s => inl s | inr (v, input) => inr (SetLastSequence e v, input) end)
  else if tag =? kTagDeletedFile then
    if size_of input <? 12 then Some (inl (err "Bad deleted file in edit")) else
    level ← DecodeFixed32 input 0;
    file ← DecodeFixed64 input 4;
    input ← Slice.remove_prefix input 12;
    Some (inr (DeleteFile e (to_int level) file, input))
  else if tag =? kTagNewFile then
    if size_of input <? 20 then Some (inl (err "Bad new file in edit")) else
    level ← DecodeFixed32 input 0;
    num ← DecodeFixed64 input 4;
    size ← DecodeFixed64 input 12;
    input ← Slice.remove_prefix input 20;
    r ← get_string input (err "Bad smallest key len") (err "Truncated smallest key");
    match r with
    | inl s => Some (inl s)
    | inr (smallest, input) =>
        r ← get_string input (err "Bad largest key len") (err "Truncated largest key");
        Some (match r with
              | inl s => inl s
              | inr (largest, input) => inr (PushFile e (to_int level) (mkFile num size smallest largest None), input)
              end)
    end
  else Some (inl (err "Unknown tag in VersionEdit")).

(** The loop: every turn consumes at least the tag. *)
Fixpoint decode_loop (fuel : nat) (e : VersionEdit) (input : bytes) : option (Status.t * VersionEdit) :=
  match input with
  | [] => Some (Status.OK, e)
  | _ =>
      match fuel with
      | O => None
      | S fuel' =>
          tag ← Slice.at_index input 0;
          input ← Slice.remove_prefix input 1;
          r ← decode_tag e (Z_of_byte tag) input;
          match r with
          | inl s => Some (s, e)
          | inr (e, input) => decode_loop fuel' e input
          end
      end
  end.

Definition DecodeFrom (e : VersionEdit) (src : bytes) : option (Status.t * VersionEdit) :=
  decode_loop (length src) (Clear e) src.

(** ** Reading back what was written *)

Lemma remove_prefix_app a b n : n = size_of a -> Slice.remove_prefix (a ++ b) n = Some b.
Proof.
  intros ->. rw /Slice.remove_prefix size_of_app. pose proof (size_of_nonneg b).
  rw (proj2 (Z.leb_le _ _)); [lia|]. f_equal. rw /size_of Nat2Z.id. apply drop_app_length.
Qed.

Lemma get_string_app s rest e1 e2 :
  size_of s < 2 ^ 32 -> get_string (put_string [] s ++ rest) e1 e2 = Some (inr (s, rest)).
Proof.
  intros Hs. pose proof (size_of_nonneg s). pose proof (size_of_nonneg rest).
  rw /get_string /put_string /PutFixed32 app_nil_l -app_assoc.
  destruct (Z.ltb_spec (size_of (EncodeFixed32 (u32 (size_of s)) ++ s ++ rest)) 4); [size_tac|].
  rw (DecodeFixed32_Encode []) // (u32_small (u32 _)); [apply u32_range|]. rw u32_small; [lia|].
  rw /= remove_prefix_app //=.
  destruct (Z.ltb_spec (size_of (s ++ rest)) (size_of s)); [size_tac|].
  rw sub_bytes_app_exact // remove_prefix_app //.
Qed.

Lemma get_fixed64_app v rest e1 :
  0 <= v < 2 ^ 64 -> get_fixed64 (EncodeFixed64 v ++ rest) e1 = Some (inr (v, rest)).
Proof.
  intros Hv. rw /get_fixed64. destruct (Z.ltb_spec (size_of (EncodeFixed64 v ++ rest)) 8); [size_tac|].
  rw (DecodeFixed64_Encode []) // u64_small // /= remove_prefix_app //.
Qed.

(** ** The loop, tag by tag *)

(** Decoding [input] into [e] ends with [r], whatever the fuel above its length. *)
Definition decodes (e : VersionEdit) (input : bytes) (r : Status.t * VersionEdit) : Prop :=
  forall fuel, (length input <= fuel)%nat -> decode_loop fuel e input = Some r.

Lemma decodes_nil e : decodes e [] (Status.OK, e).
Proof. intros [|fuel] _; done. Qed.

Lemma decodes_step e e' tag payload rest r :
  0 <= tag < 256 -> decode_tag e tag (payload ++ rest) = Some (inr (e', rest)) ->
  decodes e' rest r -> decodes e (byte_of_Z tag :: payload ++ rest) r.
Proof.
  intros Ht Hd Hr [|fuel] Hf; simpl in Hf; [lia|]. cbn [decode_loop].
  assert (Slice.at_index (byte_of_Z tag :: payload ++ rest) 0 = Some (byte_of_Z tag)) as ->.
  { rw /Slice.at_index size_of_cons. pose proof (size_of_nonneg (payload ++ rest)). by destruct (Z.ltb_spec 0 (1 + size_of (payload ++ rest))); [|lia]. }
  cbn [mbind option_bind]. rw (remove_prefix_app [byte_of_Z tag] (payload ++ rest)) //. cbn [mbind option_bind].
  rw Z_of_byte_of_Z Z.mod_small // Hd. cbn [mbind option_bind]. apply Hr. rw length_app in Hf. lia.
Qed.

Lemma decodes_deleted e d rest r :
  - 2 ^ 31 <= d.1 < 2 ^ 31 -> 0 <= d.2 < 2 ^ 64 ->
  decodes (DeleteFile e d.1 d.2) rest r -> decodes e (put_deleted [] d ++ rest) r.
Proof.
  intros Hl Hn. rw /put_deleted /PutFixed32 /PutFixed64 app_nil_l -!app_assoc.
  apply (decodes_step _ _ kTagDeletedFile (EncodeFixed32 (u32 d.1) ++ EncodeFixed64 d.2)); [done|].
  rw /decode_tag. cbn [Z.eqb kTagDeletedFile kTagComparator kTagLogNumber kTagNextFileNumber kTagLastSequence Pos.eqb].
  set (input := (EncodeFixed32 (u32 d.1) ++ EncodeFixed64 d.2) ++ rest).
  assert (size_of input = 12 + size_of rest) as Hs by (rw /input; size_tac).
  destruct (Z.ltb_spec (size_of input) 12); [size_tac|].
  assert (DecodeFixed32 input 0 = Some (u32 d.1)) as ->.
  { rw /input -app_assoc (DecodeFixed32_Encode []) // u32_small //. apply u32_range. }
  assert (DecodeFixed64 input 4 = Some d.2) as -> by rw /input -app_assoc DecodeFixed64_Encode // u64_small //.
  assert (Slice.remove_prefix input 12 = Some rest) as -> by by apply remove_prefix_app.
  cbn [mbind option_bind]. by rw to_int_u32.
Qed.

(** A file record within the widths of the format. *)
Record file_ok (f : FileMetaData) : Prop := {
  fo_number : 0 <= number f < 2 ^ 64;
  fo_size : 0 <= file_size f < 2 ^ 64;
  fo_smallest : size_of (smallest_key f) < 2 ^ 32;
  fo_largest : size_of (largest_key f) < 2 ^ 32;
}.

(** What a file record keeps on disk. *)
Definition forget_reader : FileMetaData -> FileMetaData := set_reader None.

Definition forget_readers (e : VersionEdit) : VersionEdit :=
  mkEdit (has_comparator_ e) (comparator_name_ e) (has_log_number_ e) (log_number_ e) (has_next_file_number_ e)
    (next_file_number_ e) (has_last_sequence_ e) (last_sequence_ e) (deleted_files_ e)
    ((fun n => (n.1, forget_reader n.2)) <$> new_files_ e).

Lemma decodes_new_file e n rest r :
  - 2 ^ 31 <= n.1 < 2 ^ 31 -> file_ok n.2 ->
  decodes (PushFile e n.1 (forget_reader n.2)) rest r -> decodes e (put_new_file [] n ++ rest) r.
Proof.
  destruct n as [level [num size sm la rd]]. intros Hl [Hn Hs Hsm Hla].
  cbn [fst snd number file_size smallest_key largest_key] in *.
  set (head := EncodeFixed32 (u32 level) ++ EncodeFixed64 num ++ EncodeFixed64 size).
  assert (E : put_new_file [] (level, mkFile num size sm la rd) ++ rest =
    byte_of_Z kTagNewFile :: (head ++ put_string [] sm ++ put_string [] la) ++ rest).
  { rw /put_new_file /put_string /PutFixed32 /PutFixed64 /head /= -!app_assoc //. }
  rw E. apply decodes_step; [done|].
  rw /decode_tag. cbn [Z.eqb kTagNewFile kTagDeletedFile kTagComparator kTagLogNumber kTagNextFileNumber kTagLastSequence Pos.eqb].
  set (tail := put_string [] sm ++ put_string [] la ++ rest).
  replace ((head ++ put_string [] sm ++ put_string [] la) ++ rest) with (head ++ tail) by rw /tail -!app_assoc //.
  assert (Hh : size_of head = 20) by (rw /head; size_tac).
  destruct (Z.ltb_spec (size_of (head ++ tail)) 20); [rw size_of_app in H; pose proof (size_of_nonneg tail); lia|].
  assert (DecodeFixed32 (head ++ tail) 0 = Some (u32 level)) as ->.
  { rw /head -!app_assoc (DecodeFixed32_Encode []) // u32_small //. apply u32_range. }
  assert (DecodeFixed64 (head ++ tail) 4 = Some num) as ->.
  { rw /head -!app_assoc DecodeFixed64_Encode // u64_small //. }
  assert (DecodeFixed64 (head ++ tail) 12 = Some size) as ->.
  { rw /head -!app_assoc app_assoc DecodeFixed64_Encode // u64_small //. }
  rw remove_prefix_app //. cbn [mbind option_bind]. rw /tail get_string_app //. cbn [mbind option_bind].
  rw get_string_app //. cbn [mbind option_bind]. by rw to_int_u32.
Qed.

Lemma foldl_append {A} (f : bytes -> A -> bytes) l dst :
  (forall dst x, f dst x = dst ++ f [] x) -> foldl f dst l = dst ++ concat (f [] <$> l).
Proof.
  intros Hf. revert dst; induction l as [|x l IH]; intros dst; simpl; [by rw app_nil_r|].
  rw IH Hf -app_assoc //.
Qed.

Lemma put_deleted_append dst d : put_deleted dst d = dst ++ put_deleted [] d.
Proof. rw /put_deleted /PutFixed32 /PutFixed64 /= -!app_assoc //. Qed.

Lemma put_new_file_append dst n : put_new_file dst n = dst ++ put_new_file [] n.
Proof. rw /put_new_file /put_string /PutFixed32 /PutFixed64 /= -!app_assoc //. Qed.

(** Elements in increasing order are inserted at the end of the set. *)
Abbreviation pair_sorted := (StronglySorted (fun a b => pair_ltb a b = true)).

Lemma pair_ltb_asym a b : pair_ltb a b = true -> pair_ltb b a = false.
Proof. rw /pair_ltb. repeat case_bool; simpl; try done; lia. Qed.

Lemma set_insert_last p s : Forall (fun q => pair_ltb q p = true) s -> set_insert p s = s ++ [p].
Proof.
  induction 1 as [|q s Hq Hs IH]; simpl; [done|]. by rw (pair_ltb_asym _ _ Hq) Hq IH.
Qed.

Lemma decodes_all_deleted ds e rest r :
  Forall (fun d : Z * Z => - 2 ^ 31 <= d.1 < 2 ^ 31 /\ 0 <= d.2 < 2 ^ 64) ds -> pair_sorted (deleted_files_ e ++ ds) ->
  decodes (mkEdit (has_comparator_ e) (comparator_name_ e) (has_log_number_ e) (log_number_ e)
             (has_next_file_number_ e) (next_file_number_ e) (has_last_sequence_ e) (last_sequence_ e)
             (deleted_files_ e ++ ds) (new_files_ e)) rest r ->
  decodes e (concat (put_deleted [] <$> ds) ++ rest) r.
Proof.
  revert e; induction ds as [|d ds IH]; intros e Hok Hs Hd; cbn [fmap list_fmap concat].
  - rw app_nil_r in Hd. by destruct e.
  - apply Forall_cons in Hok as [[H1 H2] Hok]. rw -app_assoc. apply decodes_deleted; [done..|].
    assert (Hlast : set_insert (d.1, d.2) (deleted_files_ e) = deleted_files_ e ++ [d]).
    { rw -surjective_pairing. apply set_insert_last, Forall_forall. intros q Hq.
      apply (StronglySorted_app_1_elem_of _ _ _ q d Hs); [done|by left]. }
    rw /DeleteFile Hlast. apply IH; [done|..];
      cbn [has_comparator_ comparator_name_ has_log_number_ log_number_ has_next_file_number_ next_file_number_
           has_last_sequence_ last_sequence_ deleted_files_ new_files_]; rw -app_assoc //.
Qed.

Lemma decodes_all_new ns e rest r :
  Forall (fun n : Z * FileMetaData => - 2 ^ 31 <= n.1 < 2 ^ 31 /\ file_ok n.2) ns ->
  decodes (mkEdit (has_comparator_ e) (comparator_name_ e) (has_log_number_ e) (log_number_ e)
             (has_next_file_number_ e) (next_file_number_ e) (has_last_sequence_ e) (last_sequence_ e)
             (deleted_files_ e) (new_files_ e ++ ((fun n => (n.1, forget_reader n.2)) <$> ns))) rest r ->
  decodes e (concat (put_new_file [] <$> ns) ++ rest) r.
Proof.
  revert e; induction ns as [|n ns IH]; intros e Hok Hd; cbn [fmap list_fmap concat].
  - rw app_nil_r in Hd. by destruct e.
  - apply Forall_cons in Hok as [[H1 H2] Hok]. rw -app_assoc. apply decodes_new_file; [done..|].
    apply IH; [done|]. rw /PushFile /= -app_assoc. by destruct n.
Qed.

(** An edit as the setters build it: fields within their widths, and a field that is
    not set at its default. *)
Record edit_ok (e : VersionEdit) : Prop := {
  eo_name : size_of (comparator_name_ e) < 2 ^ 32 /\ (has_comparator_ e = false -> comparator_name_ e = []);
  eo_log : 0 <= log_number_ e < 2 ^ 64 /\ (has_log_number_ e = false -> log_number_ e = 0);
  eo_next : 0 <= next_file_number_ e < 2 ^ 64 /\ (has_next_file_number_ e = false -> next_file_number_ e = 0);
  eo_seq : 0 <= last_sequence_ e < 2 ^ 64 /\ (has_last_sequence_ e = false -> last_sequence_ e = 0);
  eo_deleted : Forall (fun d : Z * Z => - 2 ^ 31 <= d.1 < 2 ^ 31 /\ 0 <= d.2 < 2 ^ 64) (deleted_files_ e) /\
               pair_sorted (deleted_files_ e);
  eo_new : Forall (fun n : Z * FileMetaData => - 2 ^ 31 <= n.1 < 2 ^ 31 /\ file_ok n.2) (new_files_ e);
}.

(** The optional fields as segments. *)
Definition seg (b : bool) (s : bytes) : bytes := if b then s else [].

Lemma EncodeTo_segments e :
  EncodeTo e [] =
    seg (has_comparator_ e) (byte_of_Z kTagComparator :: put_string [] (comparator_name_ e)) ++
    seg (has_log_number_ e) (byte_of_Z kTagLogNumber :: EncodeFixed64 (log_number_ e)) ++
    seg (has_next_file_number_ e) (byte_of_Z kTagNextFileNumber :: EncodeFixed64 (next_file_number_ e)) ++
    seg (has_last_sequence_ e) (byte_of_Z kTagLastSequence :: EncodeFixed64 (last_sequence_ e)) ++
    concat (put_deleted [] <$> deleted_files_ e) ++ concat (put_new_file [] <$> new_files_ e).
Proof.
  rw /EncodeTo (foldl_append put_new_file); [apply put_new_file_append|].
  rw (foldl_append put_deleted); [apply put_deleted_append|]. rw -!app_assoc.
  rw /seg /put_string /PutFixed32 /PutFixed64.
  destruct (has_comparator_ e), (has_log_number_ e), (has_next_file_number_ e), (has_last_sequence_ e);
    rw /= -?app_assoc //.
Qed.

Lemma decodes_seg64 (b : bool) (tag v : Z) (set : VersionEdit -> Z -> VersionEdit) e rest r msg :
  0 <= tag < 256 -> 0 <= v < 2 ^ 64 ->
  (forall e input, decode_tag e tag input =
     (r ← get_fixed64 input msg; Some (match r with inl s => inl s | inr (v, input) => inr (set e v, input) end))) ->
  decodes (if b then set e v else e) rest r -> decodes e (seg b (byte_of_Z tag :: EncodeFixed64 v) ++ rest) r.
Proof.
  intros Ht Hv Hd Hr. destruct b; [|done]. apply (decodes_step _ (set e v) tag (EncodeFixed64 v)); auto.
  by rw Hd get_fixed64_app.
Qed.

Lemma decode_encode e : edit_ok e -> decodes NewVersionEdit (EncodeTo e []) (Status.OK, forget_readers e).
Proof.
  destruct e as [hc name hl ln hn nf hs ls del new]. intros [[Hn Hn'] [Hl Hl'] [Hf Hf'] [Hs Hs'] [Hd Hd'] Hw]. simpl in *.
  rw EncodeTo_segments. cbn [has_comparator_ comparator_name_ has_log_number_ log_number_ has_next_file_number_
    next_file_number_ has_last_sequence_ last_sequence_ deleted_files_ new_files_].
  assert (Hc : forall rest r, decodes (if hc then SetComparatorName NewVersionEdit name else NewVersionEdit) rest r ->
    decodes NewVersionEdit (seg hc (byte_of_Z kTagComparator :: put_string [] name) ++ rest) r).
  { intros rest r Hr. destruct hc; [|done]. eapply (decodes_step _ _ kTagComparator (put_string [] name)); [done| |exact Hr].
    rw /decode_tag. cbn [Z.eqb kTagComparator Pos.eqb]. by rw get_string_app. }
  apply Hc. apply (decodes_seg64 _ kTagLogNumber _ SetLogNumber _ _ _ (err "Bad log number in edit")); [done..|].
  apply (decodes_seg64 _ kTagNextFileNumber _ SetNextFile _ _ _ (err "Bad next file in edit")); [done..|].
  apply (decodes_seg64 _ kTagLastSequence _ SetLastSequence _ _ _ (err "Bad last sequence in edit")); [done..|].
  set (e1 := if hs then SetLastSequence _ _ else _).
  assert (He1 : e1 = mkEdit hc name hl ln hn nf hs ls [] []).
  { rw /e1. destruct hc, hl, hn, hs; rw /SetLastSequence /SetNextFile /SetLogNumber /SetComparatorName /=;
      f_equal; symmetry; auto. }
  rw He1 -(app_nil_r (concat (put_new_file [] <$> new))). apply decodes_all_deleted; [done..|].
  apply decodes_all_new; [done|]. apply decodes_nil.
Qed.

(** ** Arbitrary input *)

Lemma remove_prefix_le input n :
  0 <= n <= size_of input ->
  exists rest, Slice.remove_prefix input n = Some rest /\ (length rest <= length input)%nat /\ size_of rest = size_of input - n.
Proof.
  intros Hn. rw /Slice.remove_prefix (proj2 (Z.leb_le _ _)); [lia|]. eexists. split; [done|].
  rw /size_of in Hn *. rw length_drop. lia.
Qed.

(** A result of a read: an error that is a corruption, or a rest no longer than the input. *)
Definition read_ok {A} (input : bytes) (r : Status.t + A * bytes) : Prop :=
  match r with
  | inl s => Status.IsCorruption s = true
  | inr (_, rest) => (length rest <= length input)%nat
  end.

Lemma get_string_total input m1 m2 :
  Status.IsCorruption m1 = true -> Status.IsCorruption m2 = true ->
  exists r, get_string input m1 m2 = Some r /\ read_ok input r.
Proof.
  intros H1 H2. rw /get_string. destruct (Z.ltb_spec (size_of input) 4); [by eexists|].
  destruct (DecodeFixed32_Some input 0) as [len El]; [lia..|]. rw El. cbn [mbind option_bind].
  pose proof (DecodeFixed32_range _ _ _ El) as Hl.
  destruct (remove_prefix_le input 4) as (rest & -> & Hr & Hs); [lia|]. cbn [mbind option_bind].
  destruct (Z.ltb_spec (size_of rest) len); [by eexists|].
  destruct (remove_prefix_le rest len) as (rest' & -> & Hr' & _); [lia|]. eexists. split; [done|]. simpl. lia.
Qed.

Lemma get_fixed64_total input m :
  Status.IsCorruption m = true -> exists r, get_fixed64 input m = Some r /\ read_ok input r.
Proof.
  intros H1. rw /get_fixed64. destruct (Z.ltb_spec (size_of input) 8); [by eexists|].
  destruct (DecodeFixed64_Some input 0) as [v ->]; [lia..|]. cbn [mbind option_bind].
  destruct (remove_prefix_le input 8) as (rest & -> & Hr & _); [lia|]. by eexists.
Qed.

Lemma decode_tag_total e tag input : exists r, decode_tag e tag input = Some r /\ read_ok input r.
Proof.
  rw /decode_tag. destruct (tag =? kTagComparator).
  { edestruct get_string_total as (r & -> & Hr); [done..|]. destruct r as [s|[x rest]]; by eexists. }
  destruct (tag =? kTagLogNumber); [edestruct get_fixed64_total as (r & -> & Hr); [done|]; destruct r as [s|[x rest]]; by eexists|].
  destruct (tag =? kTagNextFileNumber); [edestruct get_fixed64_total as (r & -> & Hr); [done|]; destruct r as [s|[x rest]]; by eexists|].
  destruct (tag =? kTagLastSequence); [edestruct get_fixed64_total as (r & -> & Hr); [done|]; destruct r as [s|[x rest]]; by eexists|].
  destruct (tag =? kTagDeletedFile).
  { destruct (Z.ltb_spec (size_of input) 12); [by eexists|].
    destruct (DecodeFixed32_Some input 0) as [l ->]; [lia..|]. destruct (DecodeFixed64_Some input 4) as [f ->]; [lia..|].
    destruct (remove_prefix_le input 12) as (rest & -> & Hr & _); [lia|]. by eexists. }
  destruct (tag =? kTagNewFile); [|by eexists].
  destruct (Z.ltb_spec (size_of input) 20); [by eexists|].
  destruct (DecodeFixed32_Some input 0) as [l ->]; [lia..|]. destruct (DecodeFixed64_Some input 4) as [f ->]; [lia..|].
  destruct (DecodeFixed64_Some input 12) as [sz ->]; [lia..|].
  destruct (remove_prefix_le input 20) as (rest & -> & Hr & _); [lia|]. cbn [mbind option_bind].
  destruct (get_string_total rest (err "Bad smallest key len") (err "Truncated smallest key")) as (r & -> & Hr1); [done..|].
  cbn [mbind option_bind]. destruct r as [s|[sm rest1]]; [by eexists|]. simpl in Hr1.
  destruct (get_string_total rest1 (err "Bad largest key len") (err "Truncated largest key")) as (r & -> & Hr2); [done..|].
  cbn [mbind option_bind]. destruct r as [s|[la rest2]]; [by eexists|]. simpl in Hr2. eexists. split; [done|]. simpl. lia.
Qed.

Lemma decode_loop_total fuel e input :
  (length input <= fuel)%nat ->
  exists s e', decode_loop fuel e input = Some (s, e') /\ (s = Status.OK \/ Status.IsCorruption s = true).
Proof.
  revert e input; induction fuel as [|fuel IH]; intros e [|b input] Hf; simpl in Hf; try lia; [by do 2 eexists; split; [|left]..|].
  cbn [decode_loop]. rw /Slice.at_index size_of_cons. pose proof (size_of_nonneg input).
  destruct (Z.ltb_spec 0 (1 + size_of input)); [|lia]. simpl lookup. cbn [andb Z.leb Z.compare mbind option_bind].
  rw (remove_prefix_app [b] input) //. cbn [mbind option_bind].
  destruct (decode_tag_total e (Z_of_byte b) input) as (r & -> & Hr). cbn [mbind option_bind].
  destruct r as [s|[e' rest]]; simpl in Hr; [by do 2 eexists; split; [|right]|]. apply IH. lia.
Qed.

(** ** The claims *)

(** C18: the manifest record of an edit reads back as the same edit: whatever edit is
    encoded, and whatever the decoder's object held before, [DecodeFrom] returns
    [OK] and every field is the one that was written, deleted files as a set and new
    files in order, without their open readers. *)
Theorem version_edit_roundtrip (e e0 : VersionEdit) :
  edit_ok e -> DecodeFrom e0 (EncodeTo e []) = Some (Status.OK, forget_readers e).
Proof. intros He. by apply decode_encode. Qed.

Definition sample_edit : VersionEdit :=
  AddFile (DeleteFile (DeleteFile (SetNextFile (SetComparatorName NewVersionEdit (str "bytewise")) 12) 1 7) 0 5)
    1 11 4096 (str "a") (str "m") None.

Lemma version_edit_roundtrip_witness :
  DecodeFrom NewVersionEdit (EncodeTo sample_edit []) = Some (Status.OK, sample_edit) /\
  deleted_files_ sample_edit = [(0, 5); (1, 7)].
Proof.
  split; [|by vm_compute]. apply (version_edit_roundtrip sample_edit NewVersionEdit).
  split; simpl; split_and?; try done; repeat (constructor; try done).
Defined.

(** C29: [DecodeFrom] returns on every input, without reading outside it, and its
    status is [OK] or [Corruption]. *)
Theorem version_edit_decode_total (e0 : VersionEdit) (src : bytes) :
  exists s e, DecodeFrom e0 src = Some (s, e) /\ (s = Status.OK \/ Status.IsCorruption s = true).
Proof. apply decode_loop_total. done. Qed.
