(* ===== verification/Version.v ===== *)
(** * Version: the tables of a database at one moment

    Models [Version] of [src/version_set.h] and [src/version_set.cc].  [files_] is the
    array of the levels' files; an index outside it is [None].  The [reader] of a file
    is opened when it is first needed and stored in the version ([mutable] in the
    source), under a mutex, so an operation returns the version it leaves. *)

From S2P Require Import Prelude Status Slice Format Posix Env Filename Entry Iterator Block BlockCache Options.
From S2P Require Import SSTableBuilder SSTableReader TwoLevelIterator VersionEdit.

#[local] Open Scope Z_scope.

Module Version.

Record t := mk {
  dbname_ : bytes;
  files_ : list (list FileMetaData);
}.

Definition New (dbname : bytes) : t := mk dbname (replicate (Z.to_nat kNumLevels) []).

(** [files_[level]]. *)
Definition Files (v : t) (level : Z) : option (list FileMetaData) :=
  if level <? 0 then None else files_ v !! Z.to_nat level.

Definition NumLevelFiles (v : t) (level : Z) : option Z :=
  fs ← Files v level; Some (Z.of_nat (length fs)).

Definition LevelBytes (v : t) (level : Z) : option Z :=
  fs ← Files v level; Some (foldl (fun total f => u64 (total + file_size f)) 0 fs).

(** [if (f.reader == nullptr) Open(..., &f.reader)]: the status and the file. *)
Definition OpenReader (options : Options) (dbname : bytes) (f : FileMetaData) : SM TableEnv (Status.t * FileMetaData) :=
  match reader f with
  | Some _ => mret (Status.OK, f)
  | None =>
      let path := TableFileName dbname (number f) in
      '(st, r) ← on_world (SSTableReader.Open options path (number f) (file_size f));
      mret (st, if Status.ok st then set_reader r f else f)
  end.

(** The look into one file: whether the search is over, [*value], [*s] and the file. *)
Definition GetFile (options : Options) (dbname user_key : bytes) (seq : SequenceNumber) (value : option bytes) (s : Status.t)
    (cache : bool) (f : FileMetaData) : SM TableEnv (bool * option bytes * Status.t * FileMetaData) :=
  '(st, f) ← OpenReader options dbname f;
  if negb (Status.ok st) then mret (true, value, st, f)
  else
    match reader f with
    | Some r => x ← SSTableReader.Get r user_key seq value s cache; mret (x, f)
    | None => mret (false, value, s, f)
    end.

(** Level 0: every file whose range has the key. *)
Fixpoint GetLevel0 (options : Options) (dbname user_key : bytes) (seq : SequenceNumber) (value : option bytes) (s : Status.t)
    (cache : bool) (fs : list FileMetaData) : SM TableEnv (bool * option bytes * Status.t * list FileMetaData) :=
  match fs with
  | [] => mret (false, value, s, [])
  | f :: fs' =>
      if Slice.ltb user_key (smallest_key f) || Slice.gtb user_key (largest_key f) then
        '(x, fs') ← GetLevel0 options dbname user_key seq value s cache fs';
        mret (x, f :: fs')
      else
        '(found, value, s, f) ← GetFile options dbname user_key seq value s cache f;
        if (found : bool) then mret (found, value, s, f :: fs')
        else
          '(x, fs') ← GetLevel0 options dbname user_key seq value s cache fs';
          mret (x, f :: fs')
  end.

(** The binary search for the file whose range has the key; it halves the range, so as
    many turns as there are files are enough. *)
Fixpoint find_file (fuel : nat) (fs : list FileMetaData) (user_key : bytes) (left right : Z) : option Z :=
  if left <=? right then
    match fuel with
    | O => None
    | S fuel' =>
        let mid := left + (right - left) / 2 in
        f ← fs !! Z.to_nat mid;
        if Slice.ltb (largest_key f) user_key then find_file fuel' fs user_key (mid + 1) right
        else if Slice.gtb (smallest_key f) user_key then find_file fuel' fs user_key left (mid - 1)
        else Some mid
    end
  else Some (-1).

(** A level from 1 on: at most one file. *)
Definition GetLevel (options : Options) (dbname user_key : bytes) (seq : SequenceNumber) (value : option bytes) (s : Status.t)
    (cache : bool) (fs : list FileMetaData) : SM TableEnv (bool * option bytes * Status.t * list FileMetaData) :=
  candidate ← lift (find_file (length fs) fs user_key 0 (Z.of_nat (length fs) - 1));
  if candidate >=? 0 then
    f ← lift (fs !! Z.to_nat candidate);
    '(x, f) ← GetFile options dbname user_key seq value s cache f;
    mret (x, <[Z.to_nat candidate := f]> fs)
  else mret (false, value, s, fs).

(** The levels from 1 on, in order. *)
Fixpoint GetLevels (options : Options) (dbname user_key : bytes) (seq : SequenceNumber) (value : option bytes) (s : Status.t)
    (cache : bool) (levels : list (list FileMetaData)) :
    SM TableEnv (bool * option bytes * Status.t * list (list FileMetaData)) :=
  match levels with
  | [] => mret (false, value, s, [])
  | fs :: levels' =>
      '(found, value, s, fs) ← GetLevel options dbname user_key seq value s cache fs;
      if (found : bool) then mret (found, value, s, fs :: levels')
      else
        '(x, levels') ← GetLevels options dbname user_key seq value s cache levels';
        mret (x, fs :: levels')
  end.

Definition Get (v : t) (options : Options) (user_key : bytes) (seq : SequenceNumber) (value : option bytes) (s : Status.t)
    (cache : bool) : SM TableEnv (bool * option bytes * Status.t * t) :=
  match files_ v with
  | [] => lift None
  | fs0 :: levels =>
      '(found, value, s, fs0) ← GetLevel0 options (dbname_ v) user_key seq value s cache fs0;
      if (found : bool) then mret (found, value, s, mk (dbname_ v) (fs0 :: levels))
      else
        '(x, levels) ← GetLevels options (dbname_ v) user_key seq value s cache levels;
        mret (x, mk (dbname_ v) (fs0 :: levels))
  end.

(** [AddIterators]: an iterator for every file that can be opened. *)
Fixpoint AddFileIterators (options : Options) (dbname : bytes) (cache : bool) (fs : list FileMetaData) :
    SM TableEnv (list TwoLevelIterator.t * list FileMetaData) :=
  match fs with
  | [] => mret ([], [])
  | f :: fs' =>
      '(st, f) ← OpenReader options dbname f;
      it ← (if negb (Status.ok st) then mret []
            else match reader f with
                 | Some r => it ← lift (TwoLevelIterator.New r cache); mret [it]
                 | None => mret []
                 end);
      '(its, fs') ← AddFileIterators options dbname cache fs';
      mret (it ++ its, f :: fs')
  end.

Fixpoint AddLevelIterators (options : Options) (dbname : bytes) (cache : bool) (levels : list (list FileMetaData)) :
    SM TableEnv (list TwoLevelIterator.t * list (list FileMetaData)) :=
  match levels with
  | [] => mret ([], [])
  | fs :: levels' =>
      '(its, fs) ← AddFileIterators options dbname cache fs;
      '(its', levels') ← AddLevelIterators options dbname cache levels';
      mret (its ++ its', fs :: levels')
  end.

Definition AddIterators (v : t) (options : Options) (cache : bool) : SM TableEnv (list TwoLevelIterator.t * t) :=
  '(its, levels) ← AddLevelIterators options (dbname_ v) cache (files_ v);
  mret (its, mk (dbname_ v) levels).
End Version.

(** ** Registries that grow *)

(** More descriptors are open. *)
Record extends (R R' : registry) : Prop := {
  ex_base : rg_base R' = rg_base R;
  ex_files : rg_files R' = rg_files R;
  ex_inos : rg_inos R' = rg_inos R;
  ex_paths : rg_paths R' = rg_paths R;
  ex_fds : rg_fds R ⊆ rg_fds R';
}.

#[global] Instance extends_preorder : PreOrder extends.
Proof.
  split; [by intros R|]. intros R1 R2 R3 [A1 A2 A3 A4 A5] [B1 B2 B3 B4 B5]. split; try congruence. by transitivity (rg_fds R2).
Qed.

Lemma with_fd_extends R fd n : rg_fds R !! fd = None -> extends R (with_fd R fd n).
Proof. intros H. split; try done. by apply insert_subseteq. Qed.

Lemma reader_rep_mono R R' r ti : extends R R' -> reader_rep R r ti -> reader_rep R' r ti.
Proof. intros [_ E1 _ _ E2] [H1 H2 H3 H4 H5 H6]. split; auto; [by eapply lookup_weaken|by rw E1]. Qed.

(** [m] returns, having opened more tables at most. *)
Definition grows {A} (R : registry) (m : SM TableEnv A) (P : registry -> A -> Prop) : Prop :=
  forall e, env_inv R e -> exists x R' e', m e = Some (x, e') /\ extends R R' /\ env_inv R' e' /\ P R' x.

Lemma grows_ret {A} R (x : A) P : P R x -> grows R (mret x) P.
Proof. intros H e He. by exists x, R, e. Qed.

Lemma grows_runs {A} R (m : SM TableEnv A) P : runs (env_inv R) m P -> grows R m (fun R' x => R' = R /\ P x).
Proof. intros H e He. destruct (H e He) as (x & e' & E & He' & Hx). by exists x, R, e'. Qed.

Lemma grows_bind {A B} R (m : SM TableEnv A) (f : A -> SM TableEnv B) P Q :
  grows R m P -> (forall R' x, extends R R' -> P R' x -> grows R' (f x) Q) -> grows R (m ≫= f) Q.
Proof.
  intros Hm Hf e He. destruct (Hm e He) as (x & R1 & e1 & E1 & X1 & He1 & Hx).
  destruct (Hf R1 x X1 Hx e1 He1) as (y & R2 & e2 & E2 & X2 & He2 & Hy).
  exists y, R2, e2. rw (bind_run _ _ _ _ _ E1). split_and!; auto. by etrans.
Qed.

Lemma grows_bind_lift {A B} R (o : option A) (f : A -> SM TableEnv B) Q x :
  o = Some x -> grows R (f x) Q -> grows R (lift o ≫= f) Q.
Proof. intros E H e He. destruct (H e He) as (y & R' & e' & Ey & Hr). exists y, R', e'. by rw (bind_lift _ _ _ _ E). Qed.

Lemma grows_mono {A} R (m : SM TableEnv A) (P Q : registry -> A -> Prop) :
  grows R m P -> (forall R' x, extends R R' -> P R' x -> Q R' x) -> grows R m Q.
Proof. intros Hm H e He. destruct (Hm e He) as (x & R' & e' & E & X & He' & Hx). exists x, R', e'. auto. Qed.

(** ** Files and their tables *)

(** The file record [f] of the table [ti]. *)
Record file_rep (R : registry) (dbname : bytes) (f : FileMetaData) (ti : table_info) : Prop := {
  fr_table : rg_files R !! number f = Some ti;
  fr_path : rg_paths R !! TableFileName dbname (number f) = Some (number f);
  fr_size : file_size f = size_of (ti_content ti);
  fr_nonempty : ti_entries ti <> [];
  fr_smallest : smallest_key f = from_option user_key [] (head (ti_entries ti));
  fr_largest : largest_key f = last_key (ti_entries ti);
  fr_reader : match reader f with Some r => reader_rep R r ti | None => True end;
}.

Lemma file_rep_mono R R' db f ti : extends R R' -> file_rep R db f ti -> file_rep R' db f ti.
Proof.
  intros X [H1 H2 H3 H4 H5 H6 H7]. pose proof X as [_ E1 _ E2 _]. split; rw ?E1 ?E2; auto.
  destruct (reader f); [|done]. by eapply reader_rep_mono.
Qed.

Lemma file_reps_mono R R' db fs tis : extends R R' -> Forall2 (file_rep R db) fs tis -> Forall2 (file_rep R' db) fs tis.
Proof. intros X H. eapply Forall2_impl; [exact H|]. intros f ti. by apply file_rep_mono. Qed.

(** The range of a file has every key of its table. *)
Lemma file_range R db f ti e :
  file_rep R db f ti -> table_ok ti -> e ∈ ti_entries ti ->
  Slice.compare (smallest_key f) (user_key e) <= 0 /\ Slice.compare (user_key e) (largest_key f) <= 0.
Proof.
  intros [_ _ _ Hne Hs Hl _] Hok He. pose proof (to_sorted _ Hok) as Hsort. split.
  - rw Hs. destruct (ti_entries ti) as [|x es]; [done|]. simpl. apply elem_of_cons in He as [->|He]; [by rw cmp_refl|].
    apply entry_lt_key. apply StronglySorted_inv in Hsort as [_ Hf]. rewrite -> Forall_forall in Hf. auto.
  - rw Hl. by apply block_key_le_last.
Qed.

(** Outside the range there is no version of the key. *)
Definition in_range (key : bytes) (f : FileMetaData) : Prop :=
  Slice.compare (smallest_key f) key <= 0 /\ Slice.compare key (largest_key f) <= 0.

Lemma out_of_range R db f ti key s :
  file_rep R db f ti -> table_ok ti -> ~ in_range key f -> newest (ti_entries ti) key s = None.
Proof.
  intros Hf Hok Hn. apply newest_other_keys, Forall_forall. intros e He <-. apply Hn. by eapply file_range.
Qed.

(** The tables of a level from 1 on: ranges in order that do not meet. *)
Abbreviation level_sorted := (StronglySorted (fun t t' =>
  Slice.compare (last_key (ti_entries t)) (from_option user_key [] (head (ti_entries t'))) < 0)).

(** Every version of a key in the first table is newer than those in the second. *)
Definition newer_table (t t' : table_info) : Prop := newer_versions (ti_entries t) (ti_entries t').

(** The world's calls do not fail. *)
Definition quiet (R : registry) : Prop := w_io (rg_base R) = [].

Lemma quiet_mono R R' : extends R R' -> quiet R -> quiet R'.
Proof. intros [E _ _ _ _]. by rw /quiet E. Qed.

Lemma OpenReader_run R opts db f ti :
  quiet R -> file_rep R db f ti ->
  grows R (Version.OpenReader opts db f) (fun R' x => x.1 = Status.OK /\ file_rep R' db x.2 ti /\
    number x.2 = number f /\ exists r, reader x.2 = Some r /\ reader_rep R' r ti).
Proof.
  intros Hq Hf. rw /Version.OpenReader. destruct (reader f) as [r|] eqn:Er.
  { apply grows_ret. split_and!; auto. exists r. split; [done|]. pose proof (fr_reader _ _ _ _ Hf) as H. by rw Er in H. }
  intros e He. pose proof Hf as [H1 H2 H3 H4 H5 H6 H7].
  destruct (Open_run R e opts _ (number f) ti He H2 H1) as (res & e' & Eo & Ho). rw -H3 in Eo.
  rw (bind_run _ _ _ _ _ Eo). destruct res as [st [r|]].
  2:{ destruct Ho as (_ & _ & []). by eapply files_kept_quiet; [apply He|]. }
  destruct Ho as (-> & _ & fd & Hn & He' & Hr). eexists _, _, e'. split; [done|].
  pose proof (with_fd_extends R fd (number f) Hn) as X. split; [exact X|]. split; [done|]. split_and!; auto.
  - pose proof (file_rep_mono _ _ _ _ _ X Hf) as [G1 G2 G3 G4 G5 G6 G7]. by split.
  - by exists r.
Qed.

(** ** The binary search *)

(** Files whose ranges are in order and do not meet. *)
Abbreviation files_sorted := (StronglySorted (fun f f' => Slice.compare (largest_key f) (smallest_key f') < 0)).

Definition range_ok (f : FileMetaData) : Prop := Slice.compare (smallest_key f) (largest_key f) <= 0.

(** A file before one that is not above the key, or after one that is not below it,
    does not have the key. *)
Lemma sorted_below fs key i j f g :
  files_sorted fs -> Forall range_ok fs -> fs !! i = Some f -> fs !! j = Some g -> (i < j)%nat ->
  Slice.compare (largest_key g) key < 0 -> Slice.compare (largest_key f) key < 0.
Proof.
  intros Hs Hr Hi Hj Hij Hg. pose proof (StronglySorted_lookup_lt _ _ _ _ _ _ Hs Hi Hj Hij) as H. simpl in H.
  rewrite -> Forall_lookup in Hr. pose proof (Hr j g Hj) as Hgr. rw /range_ok in Hgr.
  eapply (cmp_trans (cmp := Slice.compare)); [|exact Hg]. by eapply (cmp_lt_le_trans Slice.compare).
Qed.

Lemma sorted_above fs key i j f g :
  files_sorted fs -> Forall range_ok fs -> fs !! i = Some f -> fs !! j = Some g -> (i < j)%nat ->
  Slice.compare key (smallest_key f) < 0 -> Slice.compare key (smallest_key g) < 0.
Proof.
  intros Hs Hr Hi Hj Hij Hf. pose proof (StronglySorted_lookup_lt _ _ _ _ _ _ Hs Hi Hj Hij) as H. simpl in H.
  rewrite -> Forall_lookup in Hr. pose proof (Hr i f Hi) as Hfr. rw /range_ok in Hfr.
  eapply (cmp_trans (cmp := Slice.compare)); [exact Hf|]. by eapply (cmp_le_lt_trans Slice.compare).
Qed.

(** The search finds the file whose range has the key, if there is one. *)
Lemma find_file_run fuel fs key left right :
  files_sorted fs -> Forall range_ok fs -> 0 <= left -> right < Z.of_nat (length fs) -> right - left < Z.of_nat fuel ->
  (forall i f, fs !! i = Some f -> Z.of_nat i < left -> Slice.compare (largest_key f) key < 0) ->
  (forall i f, fs !! i = Some f -> right < Z.of_nat i -> Slice.compare key (smallest_key f) < 0) ->
  exists c, Version.find_file fuel fs key left right = Some c /\
    ((exists i f, c = Z.of_nat i /\ fs !! i = Some f /\ in_range key f) \/
     (c = -1 /\ forall i f, fs !! i = Some f -> ~ in_range key f)).
Proof.
  intros Hs Hr. revert left right; induction fuel as [|fuel IH]; intros left right Hl Hrt Hf Hbelow Habove; simpl;
    destruct (Z.leb_spec left right) as [Hle|Hgt]; try lia.
  1,3: exists (-1); split; [done|]; right; split; [done|]; intros i f Hi [H1 H2];
    destruct (decide (Z.of_nat i < left)) as [Hlt|Hnlt];
    [pose proof (Hbelow i f Hi Hlt) as H; apply cmp_lt_gt in H|pose proof (Habove i f Hi ltac:(lia)) as H; apply cmp_lt_gt in H]; lia.
  set (mid := left + (right - left) / 2).
  assert (Hmid : left <= mid <= right).
  { pose proof (Z.div_pos (right - left) 2). pose proof (Z.div_le_upper_bound (right - left) 2 (right - left)). lia. }
  destruct (lookup_lt_is_Some_2 fs (Z.to_nat mid)) as [f Hm]; [lia|]. rw Hm. cbn [mbind option_bind].
  rw /Slice.ltb /Slice.gtb Z.gtb_ltb. destruct (Z.ltb_spec (Slice.compare (largest_key f) key) 0) as [H1|H1].
  { apply IH; [lia..| |done]. intros i g Hi Hlt. destruct (decide (i = Z.to_nat mid)) as [->|Hne]; [congruence|].
    eapply (sorted_below fs key i (Z.to_nat mid)); eauto; lia. }
  destruct (Z.ltb_spec 0 (Slice.compare (smallest_key f) key)) as [H2|H2].
  { apply cmp_lt_gt in H2. apply IH; [lia..|done|]. intros i g Hi Hlt. destruct (decide (i = Z.to_nat mid)) as [->|Hne]; [congruence|].
    eapply (sorted_above fs key (Z.to_nat mid) i); eauto; lia. }
  exists mid. split; [done|]. left. exists (Z.to_nat mid), f. split_and!; [lia|done|split; [lia|]].
  by apply cmp_ge_le in H1; [|apply _].
Qed.

(** ** Looking a key up in one file *)

Section get.
Context (opts : Options) (db key : bytes) (s : SequenceNumber) (cache : bool).

(** The tables a lookup at [s] may read: known types, no version newer than [s]. *)
Definition readable (ti : table_info) : Prop :=
  Forall known_type (ti_entries ti) /\ forall e, e ∈ ti_entries ti -> user_key e = key -> seq e <= s.

(** The newest version in the first table that has one. *)
Fixpoint first_newest (tis : list table_info) : option MemtableEntry :=
  match tis with
  | [] => None
  | ti :: tis' => match newest (ti_entries ti) key s with Some e => Some e | None => first_newest tis' end
  end.

Lemma GetFile_run R f ti v st :
  quiet R -> file_rep R db f ti -> readable ti ->
  grows R (Version.GetFile opts db key s v st cache f)
    (fun R' x => x.1 = lookup_result (newest (ti_entries ti) key s) v st /\ file_rep R' db x.2 ti).
Proof.
  intros Hq Hf [Hk Hv]. rw /Version.GetFile. eapply grows_bind; [by eapply OpenReader_run|].
  intros R' [st' f'] X (E & Hf' & En & r & Er & Hr). simpl in *. subst st'. simpl. rw Er.
  eapply grows_bind; [apply grows_runs; by eapply (table_Get_run R' r ti key s v st cache)|].
  intros R2 x X2 (-> & ->). apply grows_ret. simpl. split; [|done].
  by rw home_block_newest; [apply Hr|..].
Qed.

Lemma GetLevel0_run R fs tis v st :
  quiet R -> Forall2 (file_rep R db) fs tis -> Forall table_ok tis -> Forall readable tis ->
  grows R (Version.GetLevel0 opts db key s v st cache fs)
    (fun R' x => x.1 = lookup_result (first_newest tis) v st /\ Forall2 (file_rep R' db) x.2 tis).
Proof.
  intros Hq Hf. revert R Hq Hf; induction fs as [|f fs IH] in tis |- *; intros R Hq Hf Hok Hrd.
  { apply Forall2_nil_inv_l in Hf as ->. by apply grows_ret. }
  apply Forall2_cons_inv_l in Hf as (ti & tis' & Hft & Hfs & ->). apply Forall_cons in Hok as [Hok Hoks], Hrd as [Hrd Hrds].
  cbn [Version.GetLevel0 first_newest].
  destruct (Slice.ltb key (smallest_key f) || Slice.gtb key (largest_key f)) eqn:Eo.
  - rw (out_of_range R db f ti key s Hft Hok).
    { intros [H1 H2]. rw /Slice.ltb /Slice.gtb Z.gtb_ltb in Eo. apply orb_true_iff in Eo as [Eo|Eo]; apply Z.ltb_lt in Eo.
      - apply cmp_lt_gt in Eo. lia.
      - lia. }
    eapply grows_bind; [by apply IH|]. intros R' [x fs'] X [E H]. simpl in *. apply grows_ret. simpl. split; [done|].
    constructor; [by eapply file_rep_mono|done].
  - eapply grows_bind; [by eapply GetFile_run|]. intros R' [[[found v'] st'] f'] X [E Hf']. simpl in E, Hf'.
    destruct (newest (ti_entries ti) key s) as [e|] eqn:En.
    + assert (found = true) as -> by (rw /lookup_result in E; case_match; congruence).
      apply grows_ret. simpl. split; [done|]. constructor; [done|]. by eapply file_reps_mono.
    + simpl in E. injection E as -> -> ->. eapply grows_bind; [apply (IH tis' R'); [by eapply quiet_mono|by eapply file_reps_mono|done|done]|].
      intros R2 [x fs'] X2 [E2 H2]. apply grows_ret. simpl in *. split; [done|]. constructor; [by eapply file_rep_mono|done].
Qed.

Lemma first_newest_out R fs tis :
  Forall2 (file_rep R db) fs tis -> Forall table_ok tis -> (forall i f, fs !! i = Some f -> ~ in_range key f) ->
  first_newest tis = None.
Proof.
  intros Hf. induction Hf as [|f ti fs tis Hf Hfs IH]; intros Hok Hn; [done|]. apply Forall_cons in Hok as [Hok Hoks].
  simpl. rw (out_of_range R db f ti key s Hf Hok (Hn 0%nat f eq_refl)). apply IH; [done|]. intros i g Hi. by apply (Hn (S i)).
Qed.

(** With at most one file in range, that file decides. *)
Lemma first_newest_one R fs tis i f ti :
  Forall2 (file_rep R db) fs tis -> Forall table_ok tis -> fs !! i = Some f -> tis !! i = Some ti ->
  (forall j g, fs !! j = Some g -> j <> i -> ~ in_range key g) ->
  first_newest tis = newest (ti_entries ti) key s.
Proof.
  intros Hf. revert i; induction Hf as [|g tj fs tis Hg Hfs IH]; intros i Hok Hi Ht Hn; [done|].
  apply Forall_cons in Hok as [Hok Hoks]. destruct i as [|i]; simplify_eq/=.
  - rw (first_newest_out R fs tis Hfs Hoks); [|by destruct (newest (ti_entries ti) key s)].
    intros j h Hj. by apply (Hn (S j) h).
  - rw (out_of_range R db g tj key s Hg Hok (Hn 0%nat g eq_refl ltac:(done))). apply (IH i); auto. intros j h Hj Hne.
    apply (Hn (S j) h); [done|congruence].
Qed.

Lemma sorted_one_in_range fs i j f g :
  files_sorted fs -> fs !! i = Some f -> fs !! j = Some g -> i <> j -> in_range key f -> ~ in_range key g.
Proof.
  intros Hs Hi Hj Hne [F1 F2] [G1 G2]. destruct (decide (i < j)%nat) as [Hlt|Hge].
  - pose proof (StronglySorted_lookup_lt _ _ _ _ _ _ Hs Hi Hj Hlt) as H. simpl in H.
    assert (Slice.compare (largest_key f) key < 0) as H2 by by eapply (cmp_lt_le_trans Slice.compare). apply cmp_lt_gt in H2. lia.
  - pose proof (StronglySorted_lookup_lt _ _ _ _ _ _ Hs Hj Hi ltac:(lia)) as H. simpl in H.
    assert (Slice.compare (largest_key g) key < 0) as H2 by by eapply (cmp_lt_le_trans Slice.compare). apply cmp_lt_gt in H2. lia.
Qed.

Lemma files_range_ok R fs tis : Forall2 (file_rep R db) fs tis -> Forall table_ok tis -> Forall range_ok fs.
Proof.
  induction 1 as [|f ti fs tis Hf Hfs IH]; intros Hok; [constructor|]. apply Forall_cons in Hok as [Hok Hoks].
  constructor; [|auto]. destruct (ti_entries ti) as [|e es] eqn:E; [by destruct (fr_nonempty _ _ _ _ Hf)|].
  destruct (file_range R db f ti e Hf Hok) as [H1 H2]; [rw E; by left|]. by eapply (cmp_le_trans Slice.compare).
Qed.

(** Tables whose key ranges are in order and do not meet. *)
Lemma files_sorted_tables R fs tis :
  Forall2 (file_rep R db) fs tis -> level_sorted tis -> files_sorted fs.
Proof.
  induction 1 as [|f ti fs tis Hf Hfs IH]; intros Hs; [constructor|]. apply StronglySorted_inv in Hs as [Hs Ht].
  constructor; [auto|]. rewrite -> Forall_forall in Ht. apply Forall_forall. intros g Hg.
  apply list_elem_of_lookup_1 in Hg as [j Hj]. destruct (Forall2_lookup_l _ _ _ _ _ Hfs Hj) as (tj & Etj & Hgj).
  specialize (Ht tj ltac:(by eapply list_elem_of_lookup_2)). rw (fr_largest _ _ _ _ Hf) (fr_smallest _ _ _ _ Hgj). exact Ht.
Qed.

Lemma GetLevel_run R fs tis v st :
  quiet R -> Forall2 (file_rep R db) fs tis -> Forall table_ok tis -> Forall readable tis -> level_sorted tis ->
  grows R (Version.GetLevel opts db key s v st cache fs)
    (fun R' x => x.1 = lookup_result (first_newest tis) v st /\ Forall2 (file_rep R' db) x.2 tis).
Proof.
  intros Hq Hf Hok Hrd Hls. pose proof (files_sorted_tables R fs tis Hf Hls) as Hs.
  rw /Version.GetLevel. pose proof (files_range_ok R fs tis Hf Hok) as Hro.
  destruct (find_file_run (length fs) fs key 0 (Z.of_nat (length fs) - 1) Hs Hro) as (c & Ec & Hc); [lia..| | |].
  { intros i f _ Hi. lia. }
  { intros i f Hi%lookup_lt_Some Hlt. lia. }
  eapply grows_bind_lift; [exact Ec|]. destruct Hc as [(i & f & -> & Hi & Hin)|[-> Hn]].
  2:{ apply grows_ret. simpl. by rw (first_newest_out R fs tis Hf Hok Hn). }
  rw Z.geb_leb (proj2 (Z.leb_le _ _)); [lia|]. rw Nat2Z.id. eapply grows_bind_lift; [exact Hi|].
  destruct (Forall2_lookup_l _ _ _ _ _ Hf Hi) as (ti & Ht & Hft).
  rw (first_newest_one R fs tis i f ti Hf Hok Hi Ht). { intros j g Hj Hne. by eapply (sorted_one_in_range fs i j f g). }
  eapply grows_bind; [eapply GetFile_run; [done|exact Hft|by eapply Forall_lookup_1]|].
  intros R' [x f'] X [E Hf']. apply grows_ret. simpl in *. split; [done|].
  rw -(list_insert_id tis i ti Ht). apply Forall2_insert; [by eapply file_reps_mono|done].
Qed.

Lemma first_newest_app a b :
  first_newest (a ++ b) = match first_newest a with Some e => Some e | None => first_newest b end.
Proof. induction a as [|t a IH]; simpl; [done|]. by destruct (newest (ti_entries t) key s). Qed.

Lemma levels_mono R R' levels tiss :
  extends R R' -> Forall2 (Forall2 (file_rep R db)) levels tiss -> Forall2 (Forall2 (file_rep R' db)) levels tiss.
Proof. intros X H. eapply Forall2_impl; [exact H|]. intros fs tis. by apply file_reps_mono. Qed.

Lemma GetLevels_run R levels tiss v st :
  quiet R -> Forall2 (Forall2 (file_rep R db)) levels tiss -> Forall (Forall table_ok) tiss -> Forall (Forall readable) tiss ->
  Forall level_sorted tiss ->
  grows R (Version.GetLevels opts db key s v st cache levels)
    (fun R' x => x.1 = lookup_result (first_newest (concat tiss)) v st /\ Forall2 (Forall2 (file_rep R' db)) x.2 tiss).
Proof.
  intros Hq Hf. revert R Hq Hf; induction levels as [|fs levels IH] in tiss |- *; intros R Hq Hf Hok Hrd Hs.
  { apply Forall2_nil_inv_l in Hf as ->. by apply grows_ret. }
  apply Forall2_cons_inv_l in Hf as (tis & tiss' & Hft & Hfs & ->).
  apply Forall_cons in Hok as [Hok Hoks], Hrd as [Hrd Hrds], Hs as [Hs Hss]. simpl. rw first_newest_app.
  eapply grows_bind; [by eapply GetLevel_run|]. intros R' [[[found v'] st'] fs'] X [E Hf']. simpl in E, Hf'.
  destruct (first_newest tis) as [e|] eqn:En.
  - assert (found = true) as -> by (rw /lookup_result in E; case_match; congruence).
    apply grows_ret. simpl. split; [done|]. constructor; [done|]. by eapply levels_mono.
  - simpl in E. injection E as -> -> ->.
    eapply grows_bind; [apply (IH tiss' R'); [by eapply quiet_mono|by eapply levels_mono|done..]|].
    intros R2 [x fs2] X2 [E2 H2]. apply grows_ret. simpl in *. split; [done|]. constructor; [by eapply file_reps_mono|done].
Qed.

(** In the order of the search, newer tables come first. *)
Lemma first_newest_all tis :
  StronglySorted newer_table tis -> first_newest tis = newest (concat (ti_entries <$> tis)) key s.
Proof.
  induction tis as [|t tis IH]; [done|]. intros [Hs Ht]%StronglySorted_inv. simpl. rw newest_app_newer.
  - intros e e' He He' Ek. apply list_elem_of_In, in_concat in He' as (l & Hl & He').
    apply list_elem_of_In in Hl, He'. apply list_elem_of_fmap in Hl as (t' & -> & Ht'). rewrite -> Forall_forall in Ht.
    by eapply (Ht t' Ht').
  - by rw IH.
Qed.
End get.

(** ** A version and its tables *)

(** The levels of a version as tables: level 0 newest first, the other levels sorted
    and disjoint, and every version of a key newer than those searched later. *)
Record version_rep (R : registry) (v : Version.t) (tiss : list (list table_info)) : Prop := {
  vr_files : Forall2 (Forall2 (file_rep R (Version.dbname_ v))) (Version.files_ v) tiss;
  vr_levels : length tiss = Z.to_nat kNumLevels;
  vr_sorted : Forall level_sorted (tail tiss);
  vr_newer : StronglySorted newer_table (concat tiss);
}.

Definition version_entries (tiss : list (list table_info)) : list MemtableEntry := concat (ti_entries <$> concat tiss).

Lemma version_rep_mono R R' v tiss : extends R R' -> version_rep R v tiss -> version_rep R' v tiss.
Proof. intros X [H1 H2 H3 H4]. split; auto. by eapply levels_mono. Qed.

(** The tables of a version are well-formed. *)
Lemma version_tables_ok R e v tiss : env_inv R e -> version_rep R v tiss -> Forall (Forall table_ok) tiss.
Proof.
  intros He [H _ _ _]. induction H as [|fs tis levels tiss Hf _ IH]; constructor; [|done].
  induction Hf as [|f ti fs tis Hf _ IH']; constructor; [|done]. eapply (ei_files _ _ He), Hf.
Qed.

Lemma Version_Get_run R v tiss opts key s val st cache :
  quiet R -> version_rep R v tiss -> Forall known_type (version_entries tiss) ->
  (forall e, e ∈ version_entries tiss -> user_key e = key -> seq e <= s) ->
  grows R (Version.Get v opts key s val st cache)
    (fun R' x => x.1 = lookup_result (newest (version_entries tiss) key s) val st /\ version_rep R' x.2 tiss).
Proof.
  intros Hq Hv Hk Hvis e He. pose proof (version_tables_ok R e v tiss He Hv) as Hok. revert e He.
  change (grows R (Version.Get v opts key s val st cache)
    (fun R' x => x.1 = lookup_result (newest (version_entries tiss) key s) val st /\ version_rep R' x.2 tiss)).
  assert (Hrd : Forall (Forall (readable key s)) tiss).
  { apply Forall_forall. intros tis Htis. apply Forall_forall. intros ti Hti.
    assert (Hin : forall e, e ∈ ti_entries ti -> e ∈ version_entries tiss).
    { intros e He. apply list_elem_of_In, in_concat. exists (ti_entries ti). rw -!list_elem_of_In. split; [|done].
      apply list_elem_of_fmap. exists ti. split; [done|]. apply list_elem_of_In, in_concat. exists tis. by rw -!list_elem_of_In. }
    rewrite -> Forall_forall in Hk. split; [apply Forall_forall; intros e He; by apply Hk, Hin|].
    intros e He. apply Hvis. by apply Hin. }
  pose proof Hv as [H1 H2 H3 H4]. rw -(first_newest_all key s (concat tiss) H4). rw /Version.Get.
  destruct H1 as [|fs0 tis0 levels tiss' Hf0 Hfs]; [done|]. simpl in H3.
  apply Forall_cons in Hok as [Hok0 Hoks], Hrd as [Hrd0 Hrds].
  cbn [concat]. rw first_newest_app. eapply grows_bind; [by eapply GetLevel0_run|].
  intros R' [[[found v'] st'] fs'] X [E Hf']. simpl in E, Hf'. destruct (first_newest key s tis0) as [x|] eqn:En.
  - assert (found = true) as -> by (rw /lookup_result in E; case_match; congruence).
    apply grows_ret. simpl. split; [done|]. split; auto. simpl. constructor; [done|]. by eapply levels_mono.
  - simpl in E. injection E as -> -> ->.
    eapply grows_bind; [eapply GetLevels_run; [by eapply quiet_mono|by eapply levels_mono|done..]|].
    intros R2 [x lv2] X2 [E2 G2]. apply grows_ret. simpl in *. split; [done|]. split; auto. simpl.
    constructor; [by eapply file_reps_mono|done].
Qed.

(** ** The iterators of a version *)

Lemma two_rep_mono R R' it es i : extends R R' -> two_rep R it es i -> two_rep R' it es i.
Proof.
  intros X (ti & j & E & [Hr Hi Hs] & Hd). exists ti, j. split_and!; auto. split; auto. by eapply reader_rep_mono.
Qed.

(** Iterators that have not been positioned yet, one for each table. *)
Definition iterators_of (R : registry) (its : list TwoLevelIterator.t) (tis : list table_info) : Prop :=
  Forall2 (fun it ti => two_rep R it (ti_entries ti) (length (ti_entries ti))) its tis.

Lemma iterators_of_mono R R' its tis : extends R R' -> iterators_of R its tis -> iterators_of R' its tis.
Proof. intros X H. eapply Forall2_impl; [exact H|]. intros it ti. by apply two_rep_mono. Qed.

Lemma AddFileIterators_run R opts db cache fs tis :
  quiet R -> Forall2 (file_rep R db) fs tis ->
  grows R (Version.AddFileIterators opts db cache fs)
    (fun R' x => iterators_of R' x.1 tis /\ Forall2 (file_rep R' db) x.2 tis).
Proof.
  intros Hq Hf. revert R Hq Hf; induction fs as [|f fs IH] in tis |- *; intros R Hq Hf.
  { apply Forall2_nil_inv_l in Hf as ->. apply grows_ret. split; constructor. }
  apply Forall2_cons_inv_l in Hf as (ti & tis' & Hft & Hfs & ->). cbn [Version.AddFileIterators].
  eapply grows_bind; [by eapply OpenReader_run|]. intros R1 [st f1] X1 (E & Hf1 & _ & r & Er & Hr). simpl in E, Hf1, Er. subst st.
  simpl. rw Er. destruct (New_two_rep R1 r ti cache Hr) as (it & En & Hit).
  eapply (grows_bind _ _ _ (fun R' x => R' = R1 /\ x = [it])).
  { eapply grows_bind_lift; [exact En|]. by apply grows_ret. }
  intros R' x _ (-> & ->).
  eapply grows_bind; [apply (IH tis' R1); [exact (quiet_mono _ _ X1 Hq)|exact (file_reps_mono _ _ _ _ _ X1 Hfs)]|].
  intros R2 [its fs2] X2 [Hits Hfs2]. apply grows_ret. simpl in *. split; (constructor; [|done]).
  - by eapply two_rep_mono.
  - by eapply file_rep_mono.
Qed.

Lemma AddLevelIterators_run R opts db cache levels tiss :
  quiet R -> Forall2 (Forall2 (file_rep R db)) levels tiss ->
  grows R (Version.AddLevelIterators opts db cache levels)
    (fun R' x => iterators_of R' x.1 (concat tiss) /\ Forall2 (Forall2 (file_rep R' db)) x.2 tiss).
Proof.
  intros Hq Hf. revert R Hq Hf; induction levels as [|fs levels IH] in tiss |- *; intros R Hq Hf.
  { apply Forall2_nil_inv_l in Hf as ->. apply grows_ret. split; constructor. }
  apply Forall2_cons_inv_l in Hf as (tis & tiss' & Hft & Hfs & ->). cbn [Version.AddLevelIterators].
  eapply grows_bind; [by eapply AddFileIterators_run|]. intros R1 [its fs1] X1 (Hits & Hfs1). simpl in Hits, Hfs1.
  eapply grows_bind; [apply (IH tiss' R1); [by eapply quiet_mono|by eapply levels_mono]|].
  intros R2 [its2 lv2] X2 [Hits2 Hlv2]. apply grows_ret. simpl in *. split.
  - apply Forall2_app; [by eapply iterators_of_mono|done].
  - constructor; [by eapply file_reps_mono|done].
Qed.

(** One iterator for each table of the version, in the order of the search. *)
Lemma AddIterators_run R v tiss opts cache :
  quiet R -> version_rep R v tiss ->
  grows R (Version.AddIterators v opts cache)
    (fun R' x => iterators_of R' x.1 (concat tiss) /\ version_rep R' x.2 tiss).
Proof.
  intros Hq [H1 H2 H3 H4]. rw /Version.AddIterators. eapply grows_bind; [by eapply AddLevelIterators_run|].
  intros R1 [its lv] X1 [Hits Hlv]. apply grows_ret. simpl in *. by split.
Qed.

(** ** Only readers change *)

Abbreviation forget_files := (fmap (M := list) forget_reader).

Lemma OpenReader_forget opts db f e st f' e' :
  Version.OpenReader opts db f e = Some ((st, f'), e') -> forget_reader f' = forget_reader f.
Proof.
  rw /Version.OpenReader. destruct (reader f); [by intros [= _ <- _]|].
  intros ([s r] & e1 & _ & E)%bind_inv. injection E as _ <- _. by destruct (Status.ok s).
Qed.

Lemma GetFile_forget opts db key s v st cache f e x f' e' :
  Version.GetFile opts db key s v st cache f e = Some ((x, f'), e') -> forget_reader f' = forget_reader f.
Proof.
  rw /Version.GetFile. intros ([s1 f1] & e1 & E1%OpenReader_forget & E)%bind_inv. rw -E1.
  destruct (negb _); [by injection E as _ <- _|]. destruct (reader f1); [|by injection E as _ <- _].
  apply bind_inv in E as (y & e2 & _ & E). by injection E as _ <- _.
Qed.

Lemma GetLevel0_forget opts db key s v st cache fs e x fs' e' :
  Version.GetLevel0 opts db key s v st cache fs e = Some ((x, fs'), e') -> forget_files fs' = forget_files fs.
Proof.
  revert v st e x fs' e'; induction fs as [|f fs IH]; intros v st e x fs' e'; cbn [Version.GetLevel0]; [by intros [= _ <- _]|].
  destruct (_ || _).
  - intros ([y fs1] & e1 & E1%IH & E)%bind_inv. injection E as _ <- _. by rw !fmap_cons E1.
  - intros ([[[found v1] st1] f1] & e1 & E1%GetFile_forget & E)%bind_inv. destruct found.
    + injection E as _ <- _. by rw !fmap_cons E1.
    + apply bind_inv in E as ([y fs1] & e2 & E2%IH & E). injection E as _ <- _. by rw !fmap_cons E1 E2.
Qed.

Lemma GetLevel_forget opts db key s v st cache fs e x fs' e' :
  Version.GetLevel opts db key s v st cache fs e = Some ((x, fs'), e') -> forget_files fs' = forget_files fs.
Proof.
  rw /Version.GetLevel. intros (c & e1 & _ & E)%bind_inv. destruct (c >=? 0); [|by injection E as _ <- _].
  rw /mbind /SM_bind /lift in E. destruct (fs !! Z.to_nat c) as [f|] eqn:Ef; [|done].
  destruct (Version.GetFile _ _ _ _ _ _ _ f e1) as [[[y f1] e2]|] eqn:E1; [|done]. apply GetFile_forget in E1.
  injection E as _ <- _. rw list_fmap_insert E1. apply list_insert_id. by rw list_lookup_fmap Ef.
Qed.

Lemma GetLevels_forget opts db key s v st cache levels e x levels' e' :
  Version.GetLevels opts db key s v st cache levels e = Some ((x, levels'), e') -> (forget_files <$> levels') = (forget_files <$> levels).
Proof.
  revert v st e x levels' e'; induction levels as [|fs levels IH]; intros v st e x levels' e'; cbn [Version.GetLevels];
    [by intros [= _ <- _]|].
  intros ([[[found v1] st1] fs1] & e1 & E1%GetLevel_forget & E)%bind_inv. destruct found.
  - injection E as _ <- _. by rw !fmap_cons E1.
  - apply bind_inv in E as ([y lv1] & e2 & E2%IH & E). injection E as _ <- _. by rw !fmap_cons E1 E2.
Qed.

(** A lookup leaves the same files. *)
Lemma Version_Get_forget v opts key s val st cache e x v' e' :
  Version.Get v opts key s val st cache e = Some ((x, v'), e') ->
  Version.dbname_ v' = Version.dbname_ v /\ (forget_files <$> Version.files_ v') = (forget_files <$> Version.files_ v).
Proof.
  rw /Version.Get. destruct (Version.files_ v) as [|fs0 levels] eqn:Ev; [done|].
  intros ([[[found v1] st1] fs1] & e1 & E1%GetLevel0_forget & E)%bind_inv. destruct found.
  - injection E as _ <- _. split; [done|]. by rw /= E1.
  - apply bind_inv in E as ([y lv1] & e2 & E2%GetLevels_forget & E). injection E as _ <- _. split; [done|]. by rw !fmap_cons E1 E2.
Qed.

(** ** The claim *)

(** C13: a lookup in a version.  The tables of the version are at any levels, level 0
    newest first, the others with disjoint ranges in order, every version of a key
    newer than those in the tables searched later; any of the readers may be open
    already.  In a file system whose calls do not fail, [Version::Get] (which opens
    tables as it needs them, prunes by key range and searches the sorted levels
    by bisection) returns the newest version of the key in all tables taken together,
    [NotFound] for a tombstone and [false] when no table has it; the version it leaves
    has the same tables, so the next lookup does the same. *)
Theorem version_get_newest (R : registry) (v : Version.t) (tiss : list (list table_info)) (opts : Options) (key : bytes)
    (s : SequenceNumber) (val : option bytes) (st : Status.t) (cache : bool) (e : TableEnv) :
  env_inv R e -> quiet R -> version_rep R v tiss -> Forall known_type (version_entries tiss) ->
  (forall x, x ∈ version_entries tiss -> user_key x = key -> seq x <= s) ->
  exists v' R' e', Version.Get v opts key s val st cache e =
      Some ((lookup_result (newest (version_entries tiss) key s) val st, v'), e') /\
    env_inv R' e' /\ extends R R' /\ version_rep R' v' tiss.
Proof.
  intros He Hq Hv Hk Hvis.
  destruct (Version_Get_run R v tiss opts key s val st cache Hq Hv Hk Hvis e He) as ([x v'] & R' & e' & E & X & He' & Ex & Hv').
  simpl in Ex, Hv'. subst x. by exists v', R', e'.
Qed.

(** A version with one table, at level 0. *)
Definition single_version (db : bytes) (n : Z) (ti : table_info) : Version.t :=
  Version.mk db ([mkFile n (size_of (ti_content ti)) (from_option user_key [] (head (ti_entries ti)))
                    (last_key (ti_entries ti)) None] :: replicate 6 []).

Lemma single_version_rep w db n ti :
  ti_entries ti <> [] ->
  version_rep (single_table w (TableFileName db n) n ti) (single_version db n ti) ([ti] :: replicate 6 []).
Proof.
  intros Hne. split; try done; simpl.
  - repeat constructor; simpl; by rw ?lookup_singleton_eq.
  - repeat constructor.
  - repeat constructor.
Qed.

Lemma version_get_newest_witness :
  exists b w1 v, BuildTable tiny_block_options (TableFileName (str "db") 5) sample_block_entries empty_world
      = Some ((Status.OK, b), w1) /\
    Version.NumLevelFiles v 0 = Some 1 /\
    exists v' e', Version.Get v tiny_block_options (str "a") 9 (Some []) Status.OK true (mkEnv w1 (NewBlockCache 100)) =
      Some ((true, Some (str "1"), Status.OK, v'), e').
Proof.
  destruct (BuildTable_run tiny_block_options (TableFileName (str "db") 5) sample_block_entries empty_world empty_world_wf)
    as (b & blocks & filter & content & w1 & Eb & Ht & Hr & Hfw); [by split; [constructor|]|apply sample_table_small|].
  destruct (is_table_ok _ _ _ _ _ Ht sample_table_small) as (Hok & Ee & Ec); [repeat constructor|].
  destruct (fwr_ino _ _ _ _ Hfw) as (ino & Hd & Hcont & _). destruct (fwr_io _ _ _ _ Hfw) as [l El].
  exists b, w1. rewrite -> Eb. clear Eb. revert Ee Ec Hok. generalize (mkTable blocks filter). intros ti Ee Ec Hok.
  exists (single_version (str "db") 5 ti). split; [reflexivity|]. split; [reflexivity|].
  destruct (version_get_newest (single_table w1 (TableFileName (str "db") 5) 5 ti) (single_version (str "db") 5 ti)
    ([ti] :: replicate 6 []) tiny_block_options (str "a") 9 (Some []) Status.OK true (mkEnv w1 (NewBlockCache 100)))
    as (v' & R' & e' & E & _).
  - apply single_table_inv; [apply Hfw|apply Hfw|exact Hok| |by apply NewBlockCache_inv|reflexivity].
    rw /content_at Hd. change (Some (file_content w1 ino) = Some (ti_content ti)). rw Hcont Ec. reflexivity.
  - rw /quiet /=. destruct l; [by destruct (w_io w1)|discriminate El].
  - apply single_version_rep. rw Ee. discriminate.
  - rw /version_entries /= Ee app_nil_r. apply sample_known_types.
  - rw /version_entries /= Ee app_nil_r. intros x Hx _. revert x Hx. apply Forall_forall, sample_seqs.
  - exists v', e'. rw E /version_entries /= Ee. reflexivity.
Defined.
