(* ===== verification/Storage.v ===== *)
(** * Storage: the files of a database beside each other

    The database writes its log, its manifest and new tables while tables are being
    read.  [changes paths fds w w'] says that between [w] and [w'] only the names
    [paths] and the open descriptors [fds] were affected, and of the inodes that existed
    only those behind these names.  The invariant of the tables ([env_inv]) survives
    changes to names and descriptors that are none of theirs. *)

From S2P Require Import Prelude Status Slice Coding Format Posix Env Filename Wal Entry Iterator Block BlockCache Options.
From S2P Require Import SSTableBuilder SSTableReader TwoLevelIterator VersionEdit Version.

#[local] Open Scope Z_scope.

Lemma on_world_run {A} (m : M A) e x w' : m (e_world e) = Some (x, w') -> on_world m e = Some (x, mkEnv w' (e_cache e)).
Proof. intros E. by rw /on_world E. Qed.

(** No call fails. *)
Definition calm (w : World) : Prop := w_io w = [] /\ w_ctl w = [].

Lemma calm_benign w : calm w -> benign w.
Proof. intros [H1 H2]. split; [by rw H1|done]. Qed.

Lemma calm_suffix w w' l k : calm w -> w_io w = l ++ w_io w' -> w_ctl w = k ++ w_ctl w' -> calm w'.
Proof. intros [H1 H2] El Ek. rw H1 in El. rw H2 in Ek. symmetry in El, Ek. apply app_nil in El as [_ ?], Ek as [_ ?]. by split. Qed.

Record changes (paths : list bytes) (fds : list Z) (w w' : World) : Prop := {
  ch_dir : forall p, p ∉ paths -> w_dir w' !! p = w_dir w !! p;
  ch_link : forall p i, p ∈ paths -> w_dir w' !! p = Some i ->
    (w_fresh_ino w <= i)%nat \/ exists q, q ∈ paths /\ w_dir w !! q = Some i;
  ch_fds : forall fd, fd < w_fresh_fd w -> fd ∉ fds -> w_fds w' !! fd = w_fds w !! fd;
  ch_data : forall i, (i < w_fresh_ino w)%nat -> (forall p, p ∈ paths -> w_dir w !! p <> Some i) ->
    file_content w' i = file_content w i;
  ch_fresh : (w_fresh_ino w <= w_fresh_ino w')%nat /\ w_fresh_fd w <= w_fresh_fd w';
  ch_wf : fs_wf w -> fs_wf w';
  ch_calm : calm w -> calm w';
}.

Lemma changes_mono paths fds paths' fds' w w' :
  paths ⊆ paths' -> fds ⊆ fds' -> changes paths fds w w' -> changes paths' fds' w w'.
Proof.
  intros Hp Hf [C1 C2 C3 C4 C5 C6 C7]. split; auto.
  - intros p i Hin Hi. destruct (decide (p ∈ paths)) as [H|H].
    + destruct (C2 p i H Hi) as [?|(q & Hq & ?)]; [by left|]. right. exists q. auto.
    + right. exists p. by rw C1 in Hi.
Qed.

Lemma changes_refl paths fds w : changes paths fds w w.
Proof. split; auto; [|lia]. intros p i Hp Hi. right. eauto. Qed.

Lemma changes_trans paths fds w1 w2 w3 : changes paths fds w1 w2 -> changes paths fds w2 w3 -> changes paths fds w1 w3.
Proof.
  intros [C1 C2 C3 C4 [C5 C5'] C6 C7] [D1 D2 D3 D4 [D5 D5'] D6 D7]. split; auto; try lia.
  - intros p Hp. by rw D1 // C1.
  - intros p i Hp Hi. destruct (D2 p i Hp Hi) as [?|(q & Hq & Hqi)]; [left; lia|]. by eapply C2.
  - intros fd Hfd Hn. rw D3 //; [lia|auto].
  - intros i Hi Hn. rw D4; [lia| |by apply C4]. intros p Hp Hpi. destruct (C2 p i Hp Hpi) as [?|(q & Hq & Hqi)]; [lia|].
    by eapply Hn.
Qed.

(** Opening for reading, closing what was opened. *)
Lemma files_kept_changes paths fds w w' : files_kept w w' -> changes paths fds w w'.
Proof.
  intros [K1 K2 K3 [K4 K4'] [l K5] [k K6]]. split; auto; try lia.
  - intros p _. by rw K1.
  - intros p i Hp. rw K1. eauto.
  - intros [W1 W2 W3]. split; rw ?K1 ?K4; auto. lia.
  - intros Hc. by eapply calm_suffix.
Qed.

(** Appending to a file. *)
Lemma io_frame_changes fd ino w w' path :
  w_dir w !! path = Some ino -> io_frame fd ino w w' -> changes [path] [fd] w w'.
Proof.
  intros Hp [F1 [k F2] F3 F4 [F5 F5'] [l F6]]. split; try lia.
  - intros p _. by rw F1.
  - intros p i Hin. rw F1. eauto.
  - intros fd' _ Hn. apply F3. intros ->. apply Hn. by left.
  - intros i _ Hn. apply F4. intros ->. by eapply Hn; [left|].
  - intros [W1 W2 W3]. split; rw ?F1 ?F5 ?F5'; auto.
  - intros Hc. by eapply calm_suffix.
Qed.

(** Creating or emptying a file, and writing a whole one. *)
Lemma file_opened_changes path ino w w' : file_opened path ino w w' -> changes [path] [] w w'.
Proof.
  intros [O1 O2 O3 O3' O4 O5 O6 [O7 O7'] O8 [O9 O9'] O10].
  assert (Hold : (w_fresh_ino w <= ino)%nat \/ w_dir w !! path = Some ino).
  { destruct (w_dir w !! path) as [i|]; [right; f_equal; symmetry; auto|left]. rw O3 //. }
  split; auto; try lia.
  - intros p Hp. apply O5. intros ->. apply Hp. by left.
  - intros p i ->%list_elem_of_singleton Hi. assert (i = ino) as -> by congruence. destruct Hold; [by left|right]. exists path.
    split; [by left|done].
  - intros fd Hfd _. apply O6. lia.
  - intros i Hi Hn. apply O4. intros ->. destruct Hold as [?|E]; [lia|]. eapply Hn; [left|exact E].
  - intros [Hc _]. split; [congruence|done].
Qed.

Lemma file_written_changes path content w w' : file_written path content w w' -> changes [path] [] w w'.
Proof.
  intros [(ino & O1 & O2 & O3 & O3' & O4) O5 O6 [O7 O7'] O8 [O9 O9'] [l O10]].
  assert (Hold : (w_fresh_ino w <= ino)%nat \/ w_dir w !! path = Some ino).
  { destruct (w_dir w !! path) as [i|]; [right; f_equal; symmetry; auto|left]. rw O3 //. }
  split; auto; try lia.
  - intros p Hp. apply O5. intros ->. apply Hp. by left.
  - intros p i ->%list_elem_of_singleton Hi. assert (i = ino) as -> by congruence. destruct Hold; [by left|right]. exists path.
    split; [by left|done].
  - intros fd Hfd _. apply O6. lia.
  - intros i Hi Hn. apply O4. intros ->. destruct Hold as [?|E]; [lia|]. eapply Hn; [left|exact E].
  - intros [Hc _]. rw Hc in O10. symmetry in O10. apply app_nil in O10 as [_ ?]. by split.
Qed.

Lemma files_kept_content_at w w' p : files_kept w w' -> content_at w' p = content_at w p.
Proof. intros K. rw /content_at (fk_dir _ _ K). destruct (w_dir w !! p); [|done]. by rw /= (fk_data _ _ K). Qed.

(** Names outside the changed ones show what they did. *)
Lemma changes_content_at paths fds w w' p :
  fs_wf w -> changes paths fds w w' -> p ∉ paths -> content_at w' p = content_at w p.
Proof.
  intros [W1 W2 W3] [C1 C2 C3 C4 C5 C6 C7] Hp. rw /content_at C1 //. destruct (w_dir w !! p) as [i|] eqn:Ei; [|done].
  simpl. f_equal. apply C4; [by eapply W2|]. intros q Hq Hqi. by assert (p = q) as -> by by eapply W1.
Qed.

(** ** The registry after a change *)

Definition rebase (R : registry) (w : World) : registry := mkRegistry w (rg_files R) (rg_inos R) (rg_fds R) (rg_paths R).

(** Where the tables are: under their own names, and linked under no other. *)
Record layout (db : bytes) (R : registry) : Prop := {
  ly_paths : forall p n, rg_paths R !! p = Some n -> p = TableFileName db n;
  ly_numbers : forall p n, rg_paths R !! p = Some n -> 0 <= n < 2 ^ 64;
  ly_inos : forall n i, rg_inos R !! n = Some i -> (i < w_fresh_ino (rg_base R))%nat;
  ly_linked : forall p n i, w_dir (rg_base R) !! p = Some i -> rg_inos R !! n = Some i -> rg_paths R !! p = Some n;
}.

Lemma layout_extends db R R' : extends R R' -> layout db R -> layout db R'.
Proof. intros [E1 E2 E3 E4 E5] [L1 L0 L2 L3]. split; rw ?E1 ?E3 ?E4; auto. Qed.

Lemma env_inv_kept R e w' : env_inv R e -> files_kept (e_world e) w' -> env_inv R (mkEnv w' (e_cache e)).
Proof.
  intros [H1 [W1 W2 W3] Hk H2 H3 Hp [Hi1 Hi2] H4 H5] K. pose proof K as [K1 K2 K3 [K4 K4'] [k K5] [l K6]]. split; auto; simpl.
  - destruct H1 as [Hio Hctl]. split; [rw K6 in Hio; by apply Forall_app in Hio as [_ ?]|].
    rw Hctl in K5. symmetry in K5. by apply app_nil in K5 as [_ ?].
  - split; rw ?K1 ?K4; auto. lia.
  - by eapply files_kept_trans.
  - intros fd n Hn. destruct (H3 fd n Hn) as (ti & Ht & f & Hf & Hc & Hlt & Hi). exists ti. split; [done|]. exists f.
    rw K3; [lia|]. rw K2 K4. split_and!; auto; lia.
  - intros p n Hn. destruct (Hp p n Hn) as (ti & Ht & Hc). exists ti. split; [done|]. rw -Hc /content_at K1.
    destruct (w_dir (e_world e) !! p); [|done]. simpl. by rw K2.
  - split; [|by rw K1]. intros fd n f Hn Hf. destruct (H3 fd n Hn) as (ti & Ht & f' & Hf' & Hc & Hlt & Hi).
    rw K3 in Hf; [lia|]. by eapply Hi1.
Qed.

Lemma env_inv_changes db R e w' paths fds :
  env_inv R e -> layout db R -> calm (e_world e) -> changes paths fds (e_world e) w' ->
  (forall p, p ∈ paths -> rg_paths R !! p = None) -> (forall fd, fd ∈ fds -> rg_fds R !! fd = None) ->
  env_inv (rebase R w') (mkEnv w' (e_cache e)) /\ layout db (rebase R w').
Proof.
  intros [H1 Hw Hk H2 H3 Hp [Hi1 Hi2] H4 H5] [L1 L0 L2 L3] Hcalm [C1 C2 C3 C4 [C5 C5'] C6 C7] Hpaths Hfds.
  pose proof (fk_dir _ _ Hk) as Kd. pose proof (fk_fresh _ _ Hk) as [Kf _].
  assert (Hdata : forall n i, rg_inos R !! n = Some i -> file_content w' i = file_content (e_world e) i).
  { intros n i Hn. apply C4; [rw Kf; by eapply L2|]. intros p Hpp Hpi. rw Kd in Hpi. specialize (L3 p n i Hpi Hn).
    by rw Hpaths in L3. }
  split.
  - split; simpl; auto.
    + by apply calm_benign, C7.
    + apply files_kept_refl.
    + intros fd n Hn. destruct (H3 fd n Hn) as (ti & Ht & f & Hf & Hc & Hlt & Hi). exists ti. split; [done|]. exists f.
      rw C3; [lia|intros Hin; by rw Hfds in Hn|]. rw (Hdata n); [by eapply Hi1|]. split_and!; auto; lia.
    + intros p n Hn. destruct (Hp p n Hn) as (ti & Ht & Hc). exists ti. split; [done|]. rw -Hc /content_at C1.
      { intros Hin. by rw Hpaths in Hn. }
      destruct (w_dir (e_world e) !! p) as [i|] eqn:Ei; [|done]. simpl. f_equal. by eapply Hdata, Hi2.
    + split.
      * intros fd n f Hn Hf. destruct (H3 fd n Hn) as (ti & Ht & f' & Hf' & Hc & Hlt & Hi).
        rw C3 in Hf; [lia|intros Hin; by rw Hfds in Hn|]. by eapply Hi1.
      * intros p n i Hn. rw C1; [intros Hin; by rw Hpaths in Hn|]. by eapply Hi2.
  - split; simpl; auto.
    + intros n i Hn. specialize (L2 n i Hn). lia.
    + intros p n i Hpi Hn. destruct (decide (p ∈ paths)) as [Hin|Hin].
      * destruct (C2 p i Hin Hpi) as [?|(q & Hq & Hqi)]; [specialize (L2 n i Hn); lia|].
        rw Kd in Hqi. specialize (L3 q n i Hqi Hn). by rw Hpaths in L3.
      * rw C1 // Kd in Hpi. by eapply L3.
Qed.

(** ** New tables *)

(** Tables and descriptors are there for good. *)
Record evolves (R R' : registry) : Prop := {
  ev_files : rg_files R ⊆ rg_files R';
  ev_fds : rg_fds R ⊆ rg_fds R';
}.

#[global] Instance evolves_preorder : PreOrder evolves.
Proof.
  split; [by intros R|]. intros R1 R2 R3 [A1 A2] [B1 B2]. split; [by transitivity (rg_files R2)|by transitivity (rg_fds R2)].
Qed.

Lemma extends_evolves R R' : extends R R' -> evolves R R'.
Proof. intros [_ E _ _ F]. split; [by rw E|done]. Qed.

Lemma rebase_evolves R w : evolves R (rebase R w).
Proof. by split. Qed.

Lemma reader_rep_evolves R R' r ti : evolves R R' -> reader_rep R r ti -> reader_rep R' r ti.
Proof. intros [E1 E2] [H1 H2 H3 H4 H5 H6]. split; auto; by eapply lookup_weaken. Qed.

Lemma file_rep_evolves R R' db f ti :
  evolves R R' -> rg_paths R' !! TableFileName db (number f) = Some (number f) -> file_rep R db f ti -> file_rep R' db f ti.
Proof.
  intros X Hp [H1 H2 H3 H4 H5 H6 H7]. pose proof X as [E1 E2]. split; auto; [by eapply lookup_weaken|].
  destruct (reader f); [|done]. by eapply reader_rep_evolves.
Qed.

Lemma file_rep_rebase R w db f ti : file_rep R db f ti -> file_rep (rebase R w) db f ti.
Proof. intros Hf. eapply file_rep_evolves; [apply rebase_evolves| |exact Hf]. apply Hf. Qed.

Lemma version_rep_evolves R R' v tiss :
  evolves R R' -> rg_paths R ⊆ rg_paths R' -> version_rep R v tiss -> version_rep R' v tiss.
Proof.
  intros X Hp [V1 V2 V3 V4]. split; auto. eapply Forall2_impl; [exact V1|]. intros fs tis Hf.
  eapply Forall2_impl; [exact Hf|]. intros f ti Hft. eapply file_rep_evolves; [done| |done].
  eapply lookup_weaken; [apply Hft|done].
Qed.

Lemma numbered_inj db n m suffix :
  0 <= n < 2 ^ 64 -> 0 <= m < 2 ^ 64 -> length suffix = 3%nat ->
  MakeFileName db n (str "") suffix = MakeFileName db m (str "") suffix -> n = m.
Proof.
  intros Hn Hm Hs. rw !MakeFileName_entry; [done|lia|done|lia|]. intros E%app_inv_head%app_inv_head.
  destruct (entry_number_roundtrip n (str "." ++ suffix) Hn) as [_ E1]; [simpl; lia|].
  destruct (entry_number_roundtrip m (str "." ++ suffix) Hm) as [_ E2]; [simpl; lia|]. rw E in E1. congruence.
Qed.

Lemma TableFileName_inj db n m : 0 <= n < 2 ^ 64 -> 0 <= m < 2 ^ 64 -> TableFileName db n = TableFileName db m -> n = m.
Proof. intros Hn Hm. by apply numbered_inj. Qed.

Lemma LogFileName_inj db n m : 0 <= n < 2 ^ 64 -> 0 <= m < 2 ^ 64 -> LogFileName db n = LogFileName db m -> n = m.
Proof. intros Hn Hm. by apply numbered_inj. Qed.

Lemma ManifestFileName_inj db n m : 0 <= n < 2 ^ 64 -> 0 <= m < 2 ^ 64 -> ManifestFileName db n = ManifestFileName db m -> n = m.
Proof.
  intros Hn Hm. destruct (format_06llu_spec n Hn) as (_ & _ & Ln & En), (format_06llu_spec m Hm) as (_ & _ & Lm & Em).
  rw /ManifestFileName /snprintf64. revert En Em Ln Lm. generalize (format_06llu n), (format_06llu m). intros a b En Em Ln Lm.
  intros E. apply app_inv_head in E. rw !take_ge in E; [simpl; rw ?length_app /=; lia..|]. simpl in E. congruence.
Qed.

(** The name of a table that does not exist yet. *)
Lemma new_table_path db R e n :
  env_inv R e -> layout db R -> 0 <= n < 2 ^ 64 -> rg_files R !! n = None -> rg_paths R !! TableFileName db n = None.
Proof.
  intros He [L1 L0 _ _] Hn Hf. destruct (rg_paths R !! TableFileName db n) as [m|] eqn:E; [|done].
  pose proof (L1 _ _ E) as En. apply TableFileName_inj in En; [|done|by eapply L0]. subst m.
  destruct (ei_paths _ _ He _ _ E) as (ti & Ht & _). congruence.
Qed.

Definition add_table (R : registry) (db : bytes) (n : Z) (ti : table_info) (ino : nat) : registry :=
  mkRegistry (rg_base R) (<[n := ti]> (rg_files R)) (<[n := ino]> (rg_inos R)) (rg_fds R) (<[TableFileName db n := n]> (rg_paths R)).

Lemma add_table_evolves R db n ti ino : rg_files R !! n = None -> evolves R (add_table R db n ti ino).
Proof. intros H. split; [by apply insert_subseteq|done]. Qed.

Lemma env_inv_add_table db R e n ti ino :
  env_inv R e -> layout db R -> 0 <= n < 2 ^ 64 -> rg_files R !! n = None -> table_ok ti ->
  w_dir (e_world e) !! TableFileName db n = Some ino -> file_content (e_world e) ino = ti_content ti ->
  (forall m, rg_inos R !! m <> Some ino) ->
  env_inv (add_table R db n ti ino) e /\ layout db (add_table R db n ti ino).
Proof.
  intros [H1 Hw Hk H2 H3 Hp [Hi1 Hi2] H4 H5] [L1 L0 L2 L3] Hn Hf Hok Hd Hc Hnew.
  pose proof (fk_dir _ _ Hk) as Kd. pose proof (fk_fresh _ _ Hk) as [Kf _].
  assert (Hne : forall m ti', rg_files R !! m = Some ti' -> n <> m) by congruence. split.
  - split; simpl; auto.
    + intros m t [[<- <-]|[_ Hm]]%lookup_insert_Some; [done|by eapply H2].
    + intros fd m Hm. destruct (H3 fd m Hm) as (t & Ht & Hfd). exists t. by rw lookup_insert_ne; [eapply Hne|].
    + intros p m [[<- <-]|[_ Hm]]%lookup_insert_Some.
      * exists ti. rw lookup_insert_eq /content_at Hd /= Hc //.
      * destruct (Hp p m Hm) as (t & Ht & Hfd). exists t. by rw lookup_insert_ne; [eapply Hne|].
    + split.
      * intros fd m f Hm Hfd. destruct (H3 fd m Hm) as (t & Ht & _). rw lookup_insert_ne; [by eapply Hne|]. by eapply Hi1.
      * intros p m i [[<- <-]|[_ Hm]]%lookup_insert_Some Hpi; [rw lookup_insert_eq; congruence|].
        destruct (Hp p m Hm) as (t & Ht & _). rw lookup_insert_ne; [by eapply Hne|]. by eapply Hi2.
    + intros c Hcc. destruct (H5 c Hcc) as (t & j & blk & Ht & Hr). exists t, j, blk. split; [|done].
      simpl. by rw lookup_insert_ne; [eapply Hne|].
  - split; simpl.
    + intros p m [[<- <-]|[_ Hm]]%lookup_insert_Some; [done|by eapply L1].
    + intros p m [[<- <-]|[_ Hm]]%lookup_insert_Some; [done|by eapply L0].
    + intros m i [[<- <-]|[_ Hm]]%lookup_insert_Some; [|by eapply L2]. rw -Kf. by eapply (fw_fresh _ Hw).
    + intros p m i Hpi [[<- <-]|[Hnm Hm]]%lookup_insert_Some.
      * rw -Kd in Hpi. assert (p = TableFileName db n) as -> by by eapply (fw_inj _ Hw). by rw lookup_insert_eq.
      * rw lookup_insert_ne; [|by eapply L3]. intros <-. rw -Kd in Hpi. assert (i = ino) as -> by congruence. by eapply Hnew.
Qed.

(** ** The store *)

(** The tables of a database directory in a file system whose calls do not fail; the
    registry's world is the current one. *)
Record store (db : bytes) (R : registry) (e : TableEnv) : Prop := {
  so_env : env_inv R e;
  so_layout : layout db R;
  so_base : rg_base R = e_world e;
  so_calm : calm (e_world e);
}.

Lemma store_wf db R e : store db R e -> fs_wf (e_world e).
Proof. intros [He _ _ _]. apply He. Qed.

Lemma store_changes db R e w' paths fds :
  store db R e -> changes paths fds (e_world e) w' ->
  (forall p, p ∈ paths -> rg_paths R !! p = None) -> (forall fd, fd ∈ fds -> rg_fds R !! fd = None) ->
  store db (rebase R w') (mkEnv w' (e_cache e)).
Proof.
  intros [He Hl Hb Hc] Hch Hp Hf. destruct (env_inv_changes db R e w' paths fds He Hl Hc Hch Hp Hf) as [He' Hl'].
  split; auto. by apply (ch_calm _ _ _ _ Hch).
Qed.

(** After opening tables. *)
Lemma store_extends db R R1 e e1 :
  store db R e -> extends R R1 -> env_inv R1 e1 -> store db (rebase R1 (e_world e1)) e1 /\ files_kept (e_world e) (e_world e1).
Proof.
  intros [He Hl Hb Hc] X He1. pose proof (ei_base _ _ He1) as Hk. rw (ex_base _ _ X) Hb in Hk.
  assert (Hc1 : calm (e_world e1)) by (eapply (ch_calm [] []); [by apply files_kept_changes|done]). split; [|done].
  destruct (env_inv_changes db R1 e1 (e_world e1) [] []) as [He' Hl']; auto.
  - by eapply layout_extends.
  - apply changes_refl.
  - by intros p ?%elem_of_nil.
  - by intros p ?%elem_of_nil.
  - destruct e1. by split.
Qed.

(** A computation that at most opens tables. *)
Lemma store_grows {A} db R e (m : SM TableEnv A) (P : registry -> A -> Prop) :
  store db R e -> grows R m P ->
  exists x R1 e', m e = Some (x, e') /\ extends R R1 /\ store db (rebase R1 (e_world e')) e' /\
    files_kept (e_world e) (e_world e') /\ P R1 x.
Proof.
  intros Hs Hm. destruct (Hm e (so_env _ _ _ Hs)) as (x & R1 & e' & E & X & He' & Hx).
  destruct (store_extends db R R1 e e' Hs X He') as [Hs' Hk]. exists x, R1, e'. auto.
Qed.

Lemma store_quiet db R e : store db R e -> quiet R.
Proof. intros [_ _ Hb [Hc _]]. by rw /quiet Hb. Qed.

(** A table file that is not registered yet is opened. *)
Lemma store_add_table db R e opts n es b blocks filter content ino :
  store db R e -> 0 <= n < 2 ^ 64 -> rg_files R !! n = None ->
  is_table (bloom_bits_per_key opts) content es blocks filter -> table_small (bloom_bits_per_key opts) es ->
  entries_sorted es -> es <> [] -> table_result b es content ->
  w_dir (e_world e) !! TableFileName db n = Some ino -> file_content (e_world e) ino = content ->
  exists r R' e', on_world (SSTableReader.Open opts (TableFileName db n) n (SSTableBuilder.FileSize b)) e
      = Some ((Status.OK, Some r), e') /\ store db R' e' /\ evolves R R' /\
    rg_files R' = <[n := mkTable blocks filter]> (rg_files R) /\
    rg_paths R' = <[TableFileName db n := n]> (rg_paths R) /\
    files_kept (e_world e) (e_world e') /\ ti_entries (mkTable blocks filter) = es /\
    file_rep R' db (mkFile n (SSTableBuilder.FileSize b) (SSTableBuilder.SmallestKey b) (SSTableBuilder.LargestKey b) (Some r))
      (mkTable blocks filter).
Proof.
  intros Hs Hn Hf Ht Hsm Hes Hne Hr Hd Hcont. pose proof Hs as [He Hl Hb Hcalm].
  pose proof (new_table_path db R e n He Hl Hn Hf) as Hpath.
  destruct (is_table_ok _ _ _ _ _ Ht Hsm Hes) as (Hok & Ee & Ec). set (ti := mkTable blocks filter) in *.
  assert (Hpriv : forall m, rg_inos R !! m <> Some ino).
  { intros m Hm. rw -Hb in Hd. pose proof (ly_linked _ _ Hl _ _ _ Hd Hm). congruence. }
  destruct (env_inv_add_table db R e n ti ino) as [He2 Hl2]; [done|done|done|done|done|done|congruence|done|].
  set (R2 := add_table R db n ti ino) in *.
  assert (Hp2 : rg_paths R2 !! TableFileName db n = Some n) by rw /R2 /= lookup_insert_eq //.
  assert (Ht2 : rg_files R2 !! n = Some ti) by rw /R2 /= lookup_insert_eq //.
  destruct (Open_run R2 e opts _ n ti He2 Hp2 Ht2) as (res & e3 & Eo & Ho).
  assert (Hsize : SSTableBuilder.FileSize b = size_of (ti_content ti)) by rw (tr_size _ _ _ Hr) Ec //.
  rw -Hsize in Eo. destruct res as [st [r|]].
  2:{ destruct Ho as (_ & _ & []). apply Hcalm. }
  destruct Ho as (-> & _ & fd & Hfd & He3 & Hrr). pose proof (with_fd_extends R2 fd n Hfd) as X.
  assert (Hs2 : store db R2 e) by (by split).
  destruct (store_extends db R2 (with_fd R2 fd n) _ e3 Hs2 X He3) as [Hs3 Hk3].
  exists r, (rebase (with_fd R2 fd n) (e_world e3)), e3. split; [exact Eo|]. split; [done|].
  split; [|split; [done|split; [done|split; [done|split; [done|]]]]].
  - etrans; [by apply (add_table_evolves R db n ti ino)|]. etrans; [by apply extends_evolves|]. apply rebase_evolves.
  - split; simpl.
    + exact Ht2.
    + exact Hp2.
    + exact Hsize.
    + by rw Ee.
    + rw Ee (tr_smallest _ _ _ Hr) //.
    + rw Ee (tr_largest _ _ _ Hr) //.
    + eapply reader_rep_evolves; [apply rebase_evolves|exact Hrr].
Qed.

(** A table that has just been written is opened. *)
Lemma store_new_table db R e opts n es b blocks filter content w1 :
  store db R e -> 0 <= n < 2 ^ 64 -> rg_files R !! n = None ->
  is_table (bloom_bits_per_key opts) content es blocks filter -> table_small (bloom_bits_per_key opts) es ->
  entries_sorted es -> es <> [] -> table_result b es content ->
  file_written (TableFileName db n) content (e_world e) w1 ->
  exists r R' e', on_world (SSTableReader.Open opts (TableFileName db n) n (SSTableBuilder.FileSize b)) (mkEnv w1 (e_cache e))
      = Some ((Status.OK, Some r), e') /\ store db R' e' /\ evolves R R' /\
    rg_files R' = <[n := mkTable blocks filter]> (rg_files R) /\
    rg_paths R' = <[TableFileName db n := n]> (rg_paths R) /\
    changes [TableFileName db n] [] (e_world e) (e_world e') /\ ti_entries (mkTable blocks filter) = es /\
    file_rep R' db (mkFile n (SSTableBuilder.FileSize b) (SSTableBuilder.SmallestKey b) (SSTableBuilder.LargestKey b) (Some r))
      (mkTable blocks filter).
Proof.
  intros Hs Hn Hf Ht Hsm Hes Hne Hr Hw.
  pose proof (file_written_changes _ _ _ _ Hw) as Hch. pose proof Hs as [He Hl Hb Hcalm].
  pose proof (new_table_path db R e n He Hl Hn Hf) as Hpath.
  assert (Hs1 : store db (rebase R w1) (mkEnv w1 (e_cache e))).
  { eapply store_changes; [done|exact Hch| |by intros fd ?%elem_of_nil]. by intros p ->%list_elem_of_singleton. }
  destruct (fwr_ino _ _ _ _ Hw) as (ino & Hd & Hcont & _).
  destruct (store_add_table db (rebase R w1) _ opts n es b blocks filter content ino Hs1 Hn Hf Ht Hsm Hes Hne Hr Hd Hcont) as
    (r & R' & e' & E & Hs' & Hev & Hf' & Hp' & K & H). exists r, R', e'. split; [done|]. split; [done|].
  split; [by etrans; [apply (rebase_evolves R w1)|]|]. split; [done|]. split; [done|]. split; [|done].
  eapply changes_trans; [exact Hch|]. by apply files_kept_changes.
Qed.

(** ** Other files *)

(** [fdatasync] and [fsync] change nothing. *)
Lemma sys_fdatasync_kept fd w : files_kept w (sys_fdatasync fd w).2.
Proof.
  rw /sys_fdatasync /pop_ctl. destruct (w_ctl w) as [|[|e] l] eqn:Ec; simpl; [destruct (w_fds w !! fd)|destruct (w_fds w !! fd)|];
    simpl; split; try done; try (by exists []); try (exists [CtlOk]; by rw Ec); exists [CtlFail e]; by rw Ec.
Qed.

Lemma SyncDirectory_kept dir w : exists s w', SyncDirectory dir w = Some (s, w') /\ files_kept w w'.
Proof.
  rw /SyncDirectory. destruct (sys_open_any dir w) as (fd & w1 & Eo & Ho). rw (bind_run _ _ w fd w1); [by rw /sys Eo|].
  destruct Ho as [(-> & K & _)|(-> & ino & w0 & -> & K & F & _)]; [by do 2 eexists|].
  destruct (Z.ltb_spec (w_fresh_fd w) 0) as [Hneg|Hfd].
  - do 2 eexists. split; [done|]. eapply (only_fd_opened ino w w0); auto. apply only_read_fd, only_read_refl.
  - rw /sys_fsync /mbind /SM_bind /sys. destruct (sys_fdatasync _ _) as [r w2] eqn:Es. do 2 eexists. split; [done|].
    pose proof (sys_fdatasync_kept (w_fresh_fd w) (open_ro ino w0)) as K2. rw Es in K2. simpl in K2.
    pose proof (files_kept_trans _ _ _ K (files_kept_trans _ _ _ (open_ro_kept ino w0) K2)) as [K1 K3 K4 K5 K6 K7].
    split; auto. intros fd' Hlt. simpl. rw lookup_delete_ne; [lia|]. by apply K4.
Qed.

(** ** Names that are not tables *)

Definition not_table (db p : bytes) : Prop := forall n, 0 <= n < 2 ^ 64 -> TableFileName db n <> p.

Lemma layout_not_table db R p : layout db R -> not_table db p -> rg_paths R !! p = None.
Proof.
  intros [L1 L0 _ _] Hp. destruct (rg_paths R !! p) as [n|] eqn:E; [|done]. destruct (Hp n); [by eapply L0|]. symmetry. by apply L1.
Qed.

(** The digits of a table's name. *)
Lemma TableFileName_digits db n :
  0 <= n < 2 ^ 64 -> exists c ds, is_digit c = true /\ TableFileName db n = db ++ str "/" ++ (c :: ds) ++ str ".sst".
Proof.
  intros Hn. destruct (format_06llu_spec n Hn) as (Hd & Hne & _ & _). rw /TableFileName MakeFileName_entry //; [simpl; lia|].
  destruct (format_06llu n) as [|c ds]; [done|]. apply Forall_cons in Hd as [Hc _]. by exists c, ds.
Qed.

Lemma not_table_letter db c s : is_digit c = false -> not_table db (db ++ str "/" ++ c :: s).
Proof.
  intros Hc n Hn E. destruct (TableFileName_digits db n Hn) as (c' & ds & Hc' & Ht). rw Ht in E.
  apply app_inv_head, app_inv_head in E. injection E as -> _. congruence.
Qed.

Lemma manifest_not_table db n : not_table db (ManifestFileName db n).
Proof. by apply (not_table_letter db Byte.x4d). Qed.

Lemma current_not_table db : not_table db (CurrentFileName db).
Proof. by apply (not_table_letter db Byte.x43). Qed.

Lemma tmp_current_not_table db : not_table db (tmp_current db).
Proof. rw /tmp_current /CurrentFileName -app_assoc. by apply (not_table_letter db Byte.x43). Qed.

Lemma log_not_table db n : 0 <= n < 2 ^ 64 -> not_table db (LogFileName db n).
Proof.
  intros Hn m Hm. rw /TableFileName /LogFileName !MakeFileName_entry //; [simpl; lia..|]. intros E%app_inv_head%app_inv_head.
  apply (f_equal last) in E. rw !app_assoc !last_app /= in E. discriminate E.
Qed.

(** The descriptor of a file that is no table. *)
Lemma store_private_fd db R e p ino fd f :
  store db R e -> not_table db p -> w_dir (e_world e) !! p = Some ino -> w_fds (e_world e) !! fd = Some f -> f_ino f = ino ->
  rg_fds R !! fd = None.
Proof.
  intros [He Hl Hb _] Hp Hd Hf Hi. destruct (rg_fds R !! fd) as [n|] eqn:E; [|done].
  destruct (ei_inos _ _ He) as [Hin _]. specialize (Hin _ _ _ E Hf). rw Hi in Hin. rw -Hb in Hd.
  pose proof (ly_linked _ _ Hl _ _ _ Hd Hin) as Hpath. by rw (layout_not_table _ _ _ Hl Hp) in Hpath.
Qed.

(** Appending to such a file. *)
Lemma store_append db R e p ino fd w' :
  store db R e -> not_table db p -> w_dir (e_world e) !! p = Some ino -> at_end (e_world e) fd ino -> io_frame fd ino (e_world e) w' ->
  store db (rebase R w') (mkEnv w' (e_cache e)) /\ changes [p] [fd] (e_world e) w'.
Proof.
  intros Hs Hp Hd (f & Hf & Hi & _) F. pose proof (io_frame_changes _ _ _ _ _ Hd F) as Hch. split; [|done].
  eapply store_changes; [done|exact Hch| |].
  - intros q ->%list_elem_of_singleton. eapply layout_not_table; [apply Hs|done].
  - intros fd' ->%list_elem_of_singleton. by eapply store_private_fd.
Qed.

(** ** Files across changes *)

Lemma at_end_changes paths fds w w' fd ino p :
  changes paths fds w w' -> fs_wf w -> fd < w_fresh_fd w -> fd ∉ fds -> w_dir w !! p = Some ino -> p ∉ paths ->
  at_end w fd ino -> at_end w' fd ino /\ file_content w' ino = file_content w ino /\ w_dir w' !! p = Some ino.
Proof.
  intros [C1 C2 C3 C4 C5 C6 C7] [W1 W2 W3] Hfd Hn Hd Hp (f & Hf & Hi & He).
  assert (Hc : file_content w' ino = file_content w ino).
  { apply C4; [by eapply W2|]. intros q Hq Hqi. by assert (p = q) as -> by by eapply W1. }
  split; [|split; [done|by rw C1]]. exists f. rw C3 // Hc. auto.
Qed.

(** Two writers of different files have different descriptors. *)
Lemma at_end_fd_neq w fd fd' i j p q :
  fs_wf w -> at_end w fd i -> at_end w fd' j -> w_dir w !! p = Some i -> w_dir w !! q = Some j -> p <> q -> fd <> fd'.
Proof.
  intros Hw (f & Hf & Hi & _) (g & Hg & Hj & _) Hp Hq Hne ->. apply Hne. eapply (fw_inj _ Hw); [exact Hp|].
  assert (f = g) as -> by congruence. congruence.
Qed.

(** ** Logs *)

Lemma close_changes paths fd w : changes paths [fd] w (sys_close fd w).2.
Proof.
  split; auto; try (by simpl; lia); try (by intros [? ? ?]; split).
  - intros p i Hp Hi. right. eauto.
  - intros fd' _ Hn. simpl. rw lookup_delete_ne //. intros ->. apply Hn. by left.
Qed.

(** A writer on a new file. *)
Lemma WalWriter_Open_run w path :
  fs_wf w -> calm w -> w_dir w !! path = None ->
  exists w1, WalWriter.Open path w = Some (WalWriter.mk path (w_fresh_fd w) 0, w1) /\
    at_end w1 (w_fresh_fd w) (w_fresh_ino w) /\ file_opened path (w_fresh_ino w) w w1.
Proof.
  intros Hw [Hio Hc] Hp. pose proof Hw as [W1 W2 W3].
  set (w1 := (sys_open path (mkFlags true false true) w).2).
  assert (E : sys_open path (mkFlags true false true) w = (w_fresh_fd w, w1)) by rw /w1 /sys_open /pop_ctl Hc Hp //.
  assert (Ew : w1 = bump_fd (set_fds (<[w_fresh_fd w := mkOpenFile (w_fresh_ino w) 0 true]> (w_fds w))
    (bump_ino (set_data (<[w_fresh_ino w := []]> (w_data w)) (set_dir (<[path := w_fresh_ino w]> (w_dir w)) w))))).
  { by rw /w1 /sys_open /pop_ctl Hc Hp. }
  clearbody w1. exists w1. assert (Hf : w_fds w1 !! w_fresh_fd w = Some (mkOpenFile (w_fresh_ino w) 0 true)) by rw Ew /= lookup_insert_eq //.
  assert (Hcont : file_content w1 (w_fresh_ino w) = []) by rw Ew /file_content /= lookup_insert_eq //.
  split; [|split; [eexists; split_and!; [exact Hf|done|by left]|]].
  - rw /WalWriter.Open (bind_run _ _ _ _ _ (f_equal Some E)). destruct (Z.geb_spec (w_fresh_fd w) 0); [|lia].
    rw (bind_run _ _ w1 (0, 0) w1); [|done]. rw /sys /sys_fstat /pop_ctl. rw (_ : w_ctl w1 = []); [by rw Ew|]. by rw Hf /= Hcont.
  - rw Ew. split; simpl; auto.
    + by rw lookup_insert_eq.
    + by rw /file_content /= lookup_insert_eq.
    + congruence.
    + intros i Hi. by rw /file_content /= lookup_insert_ne.
    + intros p Hne. by rw lookup_insert_ne.
    + intros fd Hfd. by rw lookup_insert_ne.
    + split; simpl; [..|lia].
      * intros p q i. rw !lookup_insert_Some. intros [[<- <-]|[Hp1 Hp2]] [[<- Eq]|[Hq1 Hq2]]; auto.
        -- apply W2 in Hq2. lia.
        -- apply W2 in Hp2. lia.
        -- by eapply W1.
      * intros p i. rw lookup_insert_Some. intros [[<- <-]|[_ Hp2]]; [lia|]. apply W2 in Hp2. lia.
    + split; [by rw /= Hio|done].
Qed.

Lemma log_not_letter db n c s : 0 <= n < 2 ^ 64 -> is_digit c = false -> LogFileName db n <> db ++ str "/" ++ c :: s.
Proof.
  intros Hn Hc. destruct (format_06llu_spec n Hn) as (Hd & Hne & _ & _). rw /LogFileName MakeFileName_entry //; [simpl; lia|].
  destruct (format_06llu n) as [|c' ds]; [done|]. apply Forall_cons in Hd as [Hc' _].
  intros E%app_inv_head%app_inv_head. injection E as -> _. congruence.
Qed.

Lemma log_not_manifest db n k : 0 <= n < 2 ^ 64 -> LogFileName db n <> ManifestFileName db k.
Proof. intros Hn. by apply log_not_letter. Qed.

Lemma log_not_current db n : 0 <= n < 2 ^ 64 -> LogFileName db n <> CurrentFileName db.
Proof. intros Hn. by apply log_not_letter. Qed.

(** ** CURRENT *)

(** A descriptor that was opened on the way does not count as changed. *)
Lemma changes_new_fd paths fds fd w w1 w2 :
  changes paths fds w w1 -> w_fresh_fd w <= fd -> changes paths (fd :: fds) w1 w2 -> changes paths fds w w2.
Proof.
  intros C Hfd D. apply (changes_mono _ _ paths (fd :: fds)) in C; [|done|by apply list_subseteq_cons].
  pose proof (changes_trans _ _ _ _ _ C D) as [D1 D2 D3 D4 D5 D6 D7]. split; auto. intros fd' Hfd' Hn. apply D3; [done|].
  intros [->|?]%elem_of_cons; [lia|done].
Qed.

(** Renaming a file. *)
Lemma rename_changes w from to ino :
  calm w -> w_dir w !! from = Some ino -> from <> to -> fs_wf w ->
  exists w', sys_rename from to w = (0, w') /\ changes [from; to] [] w w' /\ w_dir w' !! to = Some ino /\
    file_content w' ino = file_content w ino.
Proof.
  intros [Hi Hc] Hf Hne Hw. rw /sys_rename /pop_ctl Hc Hf. eexists. split; [done|]. split; [|by rw /= lookup_insert_eq].
  split; auto; simpl; try lia.
  - intros p Hp. rw lookup_insert_ne; [by intros ->; apply Hp; right; left|]. rw lookup_delete_ne //. intros ->. apply Hp. by left.
  - intros p i Hin. rw lookup_insert_Some. rewrite -> lookup_delete_Some. intros [[_ <-]|(_ & Hp & Hi')]; right.
    + exists from. split; [by left|done].
    + by exists p.
  - intros [W1 W2 W3]. split; simpl; auto.
    + intros p q i. rewrite -> !lookup_insert_Some, !lookup_delete_Some.
      intros [[<- <-]|(P1 & P2 & P3)] [[<- Eq]|(Q1 & Q2 & Q3)]; auto; [by destruct Q2; eapply W1|by subst; destruct P2; eapply W1|by eapply W1].
    + intros p i. rewrite -> lookup_insert_Some, lookup_delete_Some. intros [[_ <-]|(_ & _ & ?)]; eauto.
Qed.

Lemma SyncDirectory_calm dir w :
  calm w -> is_Some (w_dir w !! dir) -> 0 <= w_fresh_fd w -> exists w', SyncDirectory dir w = Some (Status.OK, w') /\ files_kept w w'.
Proof.
  intros [Hi Hc] [ino Hd] Hfd. destruct (SyncDirectory_kept dir w) as (s & w' & E & K). exists w'. split; [|done]. rw E. revert E.
  rw /SyncDirectory (bind_run _ _ w (w_fresh_fd w) (sys_open dir (mkFlags false false false) w).2).
  { by rw /sys /sys_open /pop_ctl Hc Hd. }
  rw (proj2 (Z.ltb_ge _ _)) //. rw /mbind /SM_bind /sys. destruct (sys_fsync _ _) as [r w2]. by intros [= <- <-].
Qed.

(** CURRENT comes to name the manifest. *)
Lemma SetCurrentFile_calm db n w :
  fs_wf w -> calm w -> is_Some (w_dir w !! db) -> db <> tmp_current db -> db <> CurrentFileName db ->
  exists w', SetCurrentFile db n w = Some (Status.OK, w') /\ changes [tmp_current db; CurrentFileName db] [] w w' /\
    content_at w' (CurrentFileName db) = Some (manifest_line n).
Proof.
  intros Hw Hc Hdir Hn1 Hn2. destruct (sys_open_create w (tmp_current db) Hw (calm_benign _ Hc)) as (ino & w1 & E1 & He1 & Ho).
  pose proof (fw_fd _ Hw) as Hfd. pose proof (file_opened_changes _ _ _ _ Ho) as C1. pose proof (ch_calm _ _ _ _ C1 Hc) as Hc1.
  pose proof (manifest_line_nonempty n) as Hne.
  destruct (at_end_fd _ _ _ He1) as (f & Hf & Hfi). rw -Hfi in He1. destruct (do_write_at_end w1 _ f (manifest_line n) Hf He1) as (Hcont & F & He2).
  pose proof (sys_write_eq w1 _ f (manifest_line n) Hf) as Ew. rw (proj1 Hc1) in Ew.
  set (w2 := do_write (w_fresh_fd w) f (manifest_line n) w1) in *. rw Hfi in Hcont F He2. rw (fo_empty _ _ _ _ Ho) /= in Hcont.
  pose proof (io_frame_changes _ _ _ _ _ (fo_path _ _ _ _ Ho) F) as C2. pose proof (ch_calm _ _ _ _ C2 Hc1) as Hc2.
  pose proof (changes_new_fd _ _ _ _ _ _ C1 ltac:(reflexivity) C2) as C12.
  set (w3 := (sys_close (w_fresh_fd w) w2).2). pose proof (close_changes [tmp_current db] (w_fresh_fd w) w2) as C3. fold w3 in C3.
  pose proof (changes_new_fd _ _ _ _ _ _ C12 ltac:(reflexivity) C3) as C13. pose proof (ch_wf _ _ _ _ C13 Hw) as Hw3.
  destruct (rename_changes w3 (tmp_current db) (CurrentFileName db) ino (ch_calm _ _ _ _ C13 Hc)) as (w4 & E4 & C4 & Hd4 & Hc4);
    [|apply tmp_neq|done|].
  { apply Ho. }
  assert (C14 : changes [tmp_current db; CurrentFileName db] [] w w4).
  { eapply changes_trans; [|exact C4]. eapply changes_mono; [| |exact C13]; set_solver. }
  destruct (SyncDirectory_calm db w4) as (w5 & E5 & K5); [by apply C14| | |].
  { rw (ch_dir _ _ _ _ C14) //. set_solver. }
  { pose proof (ch_fresh _ _ _ _ C14). lia. }
  exists w5. split; [|split].
  - rw /SetCurrentFile (bind_run _ _ w (w_fresh_fd w) w1); [by rw /sys E1|]. rw (proj2 (Z.ltb_ge _ _)) //.
    rw (bind_run _ _ w1 (size_of (manifest_line n)) w2); [by rw /sys Ew|]. rw Z.eqb_refl. cbn [negb].
    rw (bind_run _ _ w2 Status.OK w2).
    { rw /FsyncFile (proj2 (Z.ltb_ge _ _)) // (bind_run _ _ w2 0 w2) //.
      destruct (at_end_fd _ _ _ He2) as (f2 & Hf2 & _). by rw /sys /sys_fdatasync /pop_ctl (proj2 Hc2) Hf2. }
    rw (bind_run _ _ w2 0 w3) //. change (negb (Status.ok Status.OK)) with false. cbn iota.
    rw (bind_run _ _ w3 0 w4); [by rw /sys E4|]. exact E5.
  - eapply changes_trans; [exact C14|]. by apply files_kept_changes.
  - rw (files_kept_content_at _ _ _ K5) /content_at Hd4 /= Hc4 //.
    rw -Hcont //.
Qed.

(** ** Unlinking *)

(** Names have gone; nothing else has changed. *)
Record unlinked (paths : list bytes) (w w' : World) : Prop := {
  ul_gone : forall p, p ∈ paths -> w_dir w' !! p = None;
  ul_dir : forall p, p ∉ paths -> w_dir w' !! p = w_dir w !! p;
  ul_data : w_data w' = w_data w;
  ul_fds : w_fds w' = w_fds w;
  ul_fresh : w_fresh_ino w' = w_fresh_ino w /\ w_fresh_fd w' = w_fresh_fd w;
  ul_calm : calm w';
}.

Lemma unlinked_refl w : calm w -> unlinked [] w w.
Proof. intros Hc. split; auto. by intros p ?%elem_of_nil. Qed.

Lemma sys_unlink_run p w : calm w -> exists r w', sys_unlink p w = (r, w') /\ unlinked [p] w w'.
Proof.
  intros [Hi Hc]. rw /sys_unlink /pop_ctl Hc. destruct (w_dir w !! p) as [i|] eqn:E; do 2 eexists; (split; [done|]).
  - split; simpl; auto; [|intros q Hq; rw lookup_delete_ne //; set_solver|by split]. intros q ->%list_elem_of_singleton. by rw lookup_delete_eq.
  - split; simpl; auto; [|by split]. by intros q ->%list_elem_of_singleton.
Qed.

Lemma unlinked_app p q w w1 w2 : unlinked p w w1 -> unlinked q w1 w2 -> unlinked (p ++ q) w w2.
Proof.
  intros [A1 A2 A3 A4 [A5 A5'] A6] [B1 B2 B3 B4 [B5 B5'] B6]. split; auto; try congruence; [| |by split; congruence].
  - intros x Hx. destruct (decide (x ∈ q)); [auto|]. rw B2 //. apply A1. set_solver.
  - intros x Hx. rw B2; [set_solver|]. apply A2. set_solver.
Qed.

Lemma unlinked_changes p w w' : unlinked p w w' -> changes p [] w w'.
Proof.
  intros [A1 A2 A3 A4 [A5 A5'] A6]. split; auto; try lia.
  - intros x i Hx Hi. by rw A1 in Hi.
  - intros fd _ _. by rw A4.
  - intros i _ _. by rw /file_content A3.
  - intros [W1 W2 W3]. assert (Hsub : forall x i, w_dir w' !! x = Some i -> w_dir w !! x = Some i).
    { intros x i Hx. destruct (decide (x ∈ p)) as [H|H]; [by rw A1 in Hx|by rw A2 in Hx]. }
    split; [intros x y i Hx Hy; eapply W1; eauto|intros x i Hx; rw A5; eauto|lia].
Qed.

(** The registry without these names. *)
Definition drop_paths (paths : list bytes) (R : registry) (w : World) : registry :=
  mkRegistry w (rg_files R) (rg_inos R) (rg_fds R) (base.filter (fun kn : bytes * Z => kn.1 ∉ paths) (rg_paths R)).

Lemma drop_paths_evolves paths R w : evolves R (drop_paths paths R w).
Proof. by split. Qed.

Lemma drop_paths_lookup paths R w p n : rg_paths (drop_paths paths R w) !! p = Some n <-> rg_paths R !! p = Some n /\ p ∉ paths.
Proof. simpl. apply map_lookup_filter_Some. Qed.

Lemma store_unlinked db R e w' paths :
  store db R e -> unlinked paths (e_world e) w' -> store db (drop_paths paths R w') (mkEnv w' (e_cache e)).
Proof.
  intros [[H1 Hw Hk H2 H3 Hp [Hi1 Hi2] H4 H5] [L1 L0 L2 L3] Hb Hc] Hu. pose proof Hu as [A1 A2 A3 A4 [A5 A5'] A6].
  assert (Hdata : forall i, file_content w' i = file_content (e_world e) i) by (intros i; by rw /file_content A3).
  split; [split| |done|done]; simpl; auto.
  - by apply calm_benign.
  - eapply unlinked_changes; eauto.
  - apply files_kept_refl.
  - intros fd n Hn. destruct (H3 fd n Hn) as (ti & Ht & f & Hf & Hf2 & Hf3 & Hf4). exists ti. split; [done|]. exists f.
    rw A4 Hdata A5 A5'. auto.
  - intros p n [Hn Hnp]%map_lookup_filter_Some. destruct (Hp p n Hn) as (ti & Ht & Hct). exists ti. split; [done|].
    rw -Hct /content_at A2 //. destruct (w_dir (e_world e) !! p); [|done]. by rw /= Hdata.
  - rw A4. split; [done|]. intros p n i [Hn Hnp]%map_lookup_filter_Some. rw A2 //. by eapply Hi2.
  - split; simpl.
    + intros p n [Hn _]%map_lookup_filter_Some. auto.
    + intros p n [Hn _]%map_lookup_filter_Some. eauto.
    + intros n i Hn. rw A5 -Hb. eauto.
    + intros p n i Hpi Hn. destruct (decide (p ∈ paths)) as [Hin|Hin]; [by rw A1 in Hpi|]. apply map_lookup_filter_Some. split; [|done].
      eapply L3; [|done]. by rw Hb -A2.
Qed.
