(* ===== verification/VersionSet.v ===== *)
(** * VersionSet: the manifest and the current version

    Models [VersionSet] of [src/version_set.h] and [src/version_set.cc]:
    [LogAndApply], [WriteSnapshot], [Recover], [AddLiveFiles] and the counters.  The
    manifest is a [WalWriter] whose records are encoded edits.

    [std::sort] leaves the order of equal elements open; it is a stable sort here, and
    the theorems are about levels whose sort keys differ.  [std::ifstream] is a read of
    the first line of the file. *)

From S2P Require Import Prelude Status Slice Coding Format Posix Env Filename Wal Entry Iterator Block BlockCache Options.
From S2P Require Import SSTableBuilder SSTableReader TwoLevelIterator VersionEdit Version.

#[local] Open Scope Z_scope.

(** ** Sorting *)

Section sort.
Context {A : Type} (lt : A -> A -> bool).

Fixpoint sort_insert (x : A) (l : list A) : list A :=
  match l with
  | [] => [x]
  | y :: l' => if lt y x then y :: sort_insert x l' else x :: l
  end.

(** [std::sort(begin, end, lt)]. *)
Definition std_sort (l : list A) : list A := foldr sort_insert [] l.
End sort.

(** The comparators of the two kinds of level. *)
Definition newer_number (a b : FileMetaData) : bool := number a >? number b.
Definition smaller_key (a b : FileMetaData) : bool := Slice.ltb (smallest_key a) (smallest_key b).

Module VersionSet.

Record t := mk {
  dbname_ : bytes;
  options_ : option Options;
  current_ : Version.t;
  next_file_number_ : Z;
  manifest_file_number_ : Z;
  last_sequence_ : Z;
  log_number_ : Z;
  descriptor_log_ : option WalWriter.t;
}.

Definition New (dbname : bytes) (options : option Options) : t :=
  mk dbname options (Version.New dbname) 2 0 0 0 None.

Definition set_current (v : Version.t) (vs : t) : t :=
  mk (dbname_ vs) (options_ vs) v (next_file_number_ vs) (manifest_file_number_ vs) (last_sequence_ vs) (log_number_ vs)
    (descriptor_log_ vs).
Definition set_next (n : Z) (vs : t) : t :=
  mk (dbname_ vs) (options_ vs) (current_ vs) n (manifest_file_number_ vs) (last_sequence_ vs) (log_number_ vs)
    (descriptor_log_ vs).
Definition set_manifest (n : Z) (vs : t) : t :=
  mk (dbname_ vs) (options_ vs) (current_ vs) (next_file_number_ vs) n (last_sequence_ vs) (log_number_ vs)
    (descriptor_log_ vs).
Definition set_seq (s : Z) (vs : t) : t :=
  mk (dbname_ vs) (options_ vs) (current_ vs) (next_file_number_ vs) (manifest_file_number_ vs) s (log_number_ vs)
    (descriptor_log_ vs).
Definition set_log (n : Z) (vs : t) : t :=
  mk (dbname_ vs) (options_ vs) (current_ vs) (next_file_number_ vs) (manifest_file_number_ vs) (last_sequence_ vs) n
    (descriptor_log_ vs).
Definition set_descriptor (w : option WalWriter.t) (vs : t) : t :=
  mk (dbname_ vs) (options_ vs) (current_ vs) (next_file_number_ vs) (manifest_file_number_ vs) (last_sequence_ vs)
    (log_number_ vs) w.

Definition LastSequence (vs : t) : Z := last_sequence_ vs.
Definition SetLastSequence (s : Z) (vs : t) : t := if s >? last_sequence_ vs then set_seq s vs else vs.
Definition LogNumber (vs : t) : Z := log_number_ vs.

(** [next_file_number_++]: the number and the version set. *)
Definition NewFileNumber (vs : t) : Z * t := (next_file_number_ vs, set_next (u64 (next_file_number_ vs + 1)) vs).
Definition ReuseFileNumber (num : Z) (vs : t) : t :=
  if next_file_number_ vs =? u64 (num + 1) then set_next num vs else vs.

(** [AddLiveFiles(live_files)]: the numbers inserted into the set. *)
Definition AddLiveFiles (vs : t) (live : gset Z) : gset Z :=
  foldl (fun live fs => foldl (fun live f => {[number f]} ∪ live) live fs) live (Version.files_ (current_ vs)).

(** ** Edits *)

(** The files of a level that an edit does not delete. *)
Definition retained (edit : VersionEdit) (level : Z) (fs : list FileMetaData) : list FileMetaData :=
  List.filter (fun f => negb (bool_decide ((level, number f) ∈ deleted_files_ edit))) fs.

(** The loop over the levels, from [level] on. *)
Fixpoint retain_levels (edit : VersionEdit) (level : Z) (files : list (list FileMetaData)) : list (list FileMetaData) :=
  match files with
  | [] => []
  | fs :: files' => retained edit level fs :: retain_levels edit (level + 1) files'
  end.

(** [files_[level].push_back(f)]; an index outside the array is undefined. *)
Definition push_file (level : Z) (f : FileMetaData) (files : list (list FileMetaData)) : option (list (list FileMetaData)) :=
  if level <? 0 then None else fs ← files !! Z.to_nat level; Some (<[Z.to_nat level := fs ++ [f]]> files).

(** The new files of [LogAndApply]: a table without a reader is opened if it can be. *)
Fixpoint add_new_files (options : option Options) (dbname : bytes) (items : list (Z * FileMetaData))
    (files : list (list FileMetaData)) : SM TableEnv (list (list FileMetaData)) :=
  match items with
  | [] => mret files
  | (level, f) :: items' =>
      f ← (match options with
           | Some o => '(_, f) ← Version.OpenReader o dbname f; mret f
           | None => mret f
           end);
      files ← lift (push_file level f files);
      add_new_files options dbname items' files
  end.

(** Level 0 by file number, newest first; the other levels by smallest key. *)
Definition sort_levels (files : list (list FileMetaData)) : list (list FileMetaData) :=
  match files with
  | [] => []
  | fs0 :: files' => std_sort newer_number fs0 :: (std_sort smaller_key <$> files')
  end.

(** The files of the levels from [level] on, each added to the edit. *)
Fixpoint snapshot_files (level : Z) (files : list (list FileMetaData)) (edit : VersionEdit) : VersionEdit :=
  match files with
  | [] => edit
  | fs :: files' =>
      snapshot_files (level + 1) files'
        (foldl (fun edit f => AddFile edit level (number f) (file_size f) (smallest_key f) (largest_key f) None) edit fs)
  end.

Definition snapshot_edit (vs : t) : VersionEdit :=
  let edit := SetComparatorName NewVersionEdit (str "byte_comparator") in
  let edit := SetNextFile edit (next_file_number_ vs) in
  let edit := VersionEdit.SetLastSequence edit (last_sequence_ vs) in
  let edit := SetLogNumber edit (log_number_ vs) in
  snapshot_files 0 (Version.files_ (current_ vs)) edit.

(** A record of the manifest. *)
Definition append_edit (writer : WalWriter.t) (edit : VersionEdit) : M (Status.t * WalWriter.t) :=
  with_fuel (WalWriter.AppendRecord writer 0 kTypeValue (str "MANIFEST_ENTRY") (EncodeTo edit []) true).

Definition WriteSnapshot (vs : t) (writer : WalWriter.t) : M (Status.t * WalWriter.t) :=
  append_edit writer (snapshot_edit vs).

(** The part of [LogAndApply] that creates the manifest if there is none yet.
    [descriptor_log_.reset()] closes the file. *)
Definition OpenManifest (vs : t) : M (Status.t * t) :=
  match descriptor_log_ vs with
  | Some _ => mret (Status.OK, vs)
  | None =>
      let '(n, vs) := NewFileNumber vs in
      let vs := set_manifest n vs in
      writer ← WalWriter.Open (ManifestFileName (dbname_ vs) n);
      '(s, writer) ← WriteSnapshot vs writer;
      if negb (Status.ok s) then
        _ ← WalWriter.Close writer;
        mret (s, set_descriptor None vs)
      else
        s_curr ← SetCurrentFile (dbname_ vs) n;
        if negb (Status.ok s_curr) then
          _ ← WalWriter.Close writer;
          mret (s_curr, set_descriptor None vs)
        else mret (Status.OK, set_descriptor (Some writer) vs)
  end.

(** The edit as [LogAndApply] completes it. *)
Definition complete_edit (vs : t) (edit : VersionEdit) : VersionEdit :=
  let edit := if has_next_file_number_ edit then edit else SetNextFile edit (next_file_number_ vs) in
  if has_last_sequence_ edit then edit else VersionEdit.SetLastSequence edit (last_sequence_ vs).

(** Install new version. *)
Definition install (edit : VersionEdit) (v : Version.t) (vs : t) : t :=
  let vs := set_current v vs in
  let vs := if has_log_number_ edit then set_log (VersionEdit.log_number_ edit) vs else vs in
  if has_last_sequence_ edit then set_seq (VersionEdit.last_sequence_ edit) vs else vs.

Definition LogAndApply (vs : t) (edit : VersionEdit) : SM TableEnv (Status.t * t) :=
  if has_log_number_ edit && (VersionEdit.log_number_ edit <? log_number_ vs) then lift None
  else
    let edit := complete_edit vs edit in
    files ← add_new_files (options_ vs) (dbname_ vs) (new_files_ edit)
              (retain_levels edit 0 (Version.files_ (current_ vs)));
    let v := Version.mk (dbname_ vs) (sort_levels files) in
    '(s, vs) ← on_world (OpenManifest vs);
    if negb (Status.ok s) then mret (s, vs)
    else
      writer ← lift (descriptor_log_ vs);
      (* Append edit to descriptor log *)
      '(s, writer) ← on_world (append_edit writer edit);
      let vs := set_descriptor (Some writer) vs in
      if negb (Status.ok s) then mret (s, vs) else mret (Status.OK, install edit v vs).

(** ** Recovery *)

(** [std::getline]: the bytes before the first newline. *)
Fixpoint first_line (s : bytes) : bytes :=
  match s with [] => [] | b :: s' => if decide (b = Byte.x0a) then [] else b :: first_line s' end.

(** The first line of a file, or nothing when it cannot be opened. *)
Definition read_line (path : bytes) : M (option bytes) :=
  fd ← sys (sys_open path (mkFlags false false false));
  if fd <? 0 then mret None
  else
    line ← (fun w => Some (first_line (from_option (fun f => file_content w (f_ino f)) [] (w_fds w !! fd)), w));
    _ ← sys (sys_close fd);
    mret (Some line).

(** What the loop over the manifest accumulates. *)
Record recovered := mkRecovered {
  rc_files : list (list FileMetaData);
  rc_max_file : Z;
  rc_max_seq : Z;
  rc_log : Z;
}.

(** The additions of an edit: the files and the largest file number seen. *)
Fixpoint recover_new_files (items : list (Z * FileMetaData)) (files : list (list FileMetaData)) (max_file : Z) :
    option (list (list FileMetaData) * Z) :=
  match items with
  | [] => Some (files, max_file)
  | (level, f) :: items' =>
      files ← push_file level f files;
      recover_new_files items' files (if number f >=? max_file then u64 (number f + 1) else max_file)
  end.

Definition recover_edit (st : recovered) (edit : VersionEdit) : option recovered :=
  let max_file := if has_next_file_number_ edit && (VersionEdit.next_file_number_ edit >? rc_max_file st)
                  then VersionEdit.next_file_number_ edit else rc_max_file st in
  let max_seq := if has_last_sequence_ edit && (VersionEdit.last_sequence_ edit >? rc_max_seq st)
                 then VersionEdit.last_sequence_ edit else rc_max_seq st in
  let log_num := if has_log_number_ edit then VersionEdit.log_number_ edit else rc_log st in
  '(files, max_file) ← recover_new_files (new_files_ edit) (retain_levels edit 0 (rc_files st)) max_file;
  Some (mkRecovered files max_file max_seq log_num).

(** The loop over the records of the manifest: an error, or what was accumulated. *)
Fixpoint recover_loop (fuel : nat) (r : WalReader.t) (o : WalReader.out) (st : recovered) : M (Status.t + recovered) :=
  match fuel with
  | O => lift None
  | S fuel' =>
      '(s, o) ← with_fuel (WalReader.ReadRecord r true o);
      if Status.ok s then
        '(s, edit) ← lift (DecodeFrom NewVersionEdit (WalReader.o_value o));
        if negb (Status.ok s) then mret (inl s)
        else
          st ← lift (recover_edit st edit);
          recover_loop fuel' r o st
      else mret (inr st)
  end.

(** A record takes more than one byte of the file. *)
Definition manifest_fuel (r : WalReader.t) (w : World) : nat :=
  S (length (from_option (fun f => file_content w (f_ino f)) [] (w_fds w !! WalReader.fd_ r))).

(** The readers of all files, opened if they can be. *)
Fixpoint open_files (options : Options) (dbname : bytes) (fs : list FileMetaData) : SM TableEnv (list FileMetaData) :=
  match fs with
  | [] => mret []
  | f :: fs' =>
      '(_, f) ← Version.OpenReader options dbname f;
      fs' ← open_files options dbname fs';
      mret (f :: fs')
  end.

Fixpoint open_levels (options : Options) (dbname : bytes) (files : list (list FileMetaData)) :
    SM TableEnv (list (list FileMetaData)) :=
  match files with
  | [] => mret []
  | fs :: files' =>
      fs ← open_files options dbname fs;
      files' ← open_levels options dbname files';
      mret (fs :: files')
  end.

Definition Recover (vs : t) : SM TableEnv (Status.t * t) :=
  (* Read CURRENT file *)
  line ← on_world (read_line (CurrentFileName (dbname_ vs)));
  match line with
  | None => mret (Status.NotFound [Status.Lit "CURRENT file not found"], vs)
  | Some manifest_name =>
      if bool_decide (manifest_name = []) then mret (Status.Corruption [Status.Lit "Empty CURRENT file"], vs)
      else
        let manifest_path := dbname_ vs ++ str "/" ++ manifest_name in
        reader ← on_world (WalReader.Open manifest_path);
        res ← on_world (fun w => recover_loop (manifest_fuel reader w) reader (WalReader.mkOut 0 kTypeValue [] [])
                (mkRecovered (Version.files_ (Version.New (dbname_ vs))) 0 0 0) w);
        match res with
        | inl s => _ ← on_world (WalReader.Destroy reader); mret (s, vs)
        | inr st =>
            files ← (match options_ vs with
                     | Some o => open_levels o (dbname_ vs) (sort_levels (rc_files st))
                     | None => mret (sort_levels (rc_files st))
                     end);
            _ ← on_world (WalReader.Destroy reader);
            let vs := set_current (Version.mk (dbname_ vs) files) vs in
            let vs := set_next (if rc_max_file st >? 0 then rc_max_file st else 2) vs in
            mret (Status.OK, set_log (rc_log st) (set_seq (rc_max_seq st) vs))
        end
  end.
End VersionSet.

(** ** Sorting *)

(** A comparator that orders elements by a key. *)
Class SortKey {A K : Type} (lt : A -> A -> bool) (key : A -> K) : Prop := {
  sk_irrefl x y : key x = key y -> lt x y = false;
  sk_trans x y z : lt x y = true -> lt y z = true -> lt x z = true;
  sk_total x y : key x <> key y -> lt x y = true \/ lt y x = true;
}.

#[global] Instance newer_number_key : SortKey newer_number number.
Proof. split; intros *; rw /newer_number; intros; lia. Qed.

#[global] Instance smaller_key_key : SortKey smaller_key smallest_key.
Proof.
  split; intros *; rw /smaller_key /Slice.ltb.
  - intros ->. by rw cmp_refl.
  - rw !Z.ltb_lt. apply cmp_trans.
  - intros Hne. rw !Z.ltb_lt (Slice.compare_antisym (smallest_key y)).
    destruct (Z.eq_dec (Slice.compare (smallest_key x) (smallest_key y)) 0) as [E|]; [by apply Slice.compare_eq in E|lia].
Qed.

Section sort_proofs.
Context {A K : Type} (lt : A -> A -> bool) (key : A -> K) `{!SortKey lt key}.

Lemma sort_insert_perm x l : sort_insert lt x l ≡ₚ x :: l.
Proof.
  induction l as [|y l IH]; simpl; [done|]. destruct (lt y x); [|done]. rewrite -> IH. apply Permutation_swap.
Qed.

Lemma std_sort_perm l : std_sort lt l ≡ₚ l.
Proof. induction l as [|x l IH]; simpl; [done|]. rewrite -> sort_insert_perm. by rewrite -> IH. Qed.

Abbreviation sorted := (StronglySorted (fun a b => lt a b = true)).

Lemma sort_insert_sorted x l : sorted l -> key x ∉ key <$> l -> sorted (sort_insert lt x l).
Proof.
  induction l as [|y l IH]; simpl; intros Hs Hx; [repeat constructor|].
  apply not_elem_of_cons in Hx as [Hy Hx]. pose proof (StronglySorted_inv Hs) as [Hs' Hl]. destruct (lt y x) eqn:E.
  - constructor; [by apply IH|]. rewrite -> sort_insert_perm. by constructor.
  - destruct (sk_total x y) as [Hxy|?]; [done| |congruence]. constructor; [done|]. constructor; [done|].
    eapply Forall_impl; [exact Hl|]. intros z Hz. by eapply sk_trans.
Qed.

(** Elements with different keys are sorted. *)
Lemma std_sort_sorted l : NoDup (key <$> l) -> sorted (std_sort lt l).
Proof.
  induction l as [|x l IH]; simpl; intros Hn; [constructor|]. apply NoDup_cons in Hn as [Hx Hn].
  apply sort_insert_sorted; [auto|]. by rewrite -> std_sort_perm.
Qed.

(** The order does not depend on where they came from. *)
Lemma sorted_perm_eq l l' : sorted l -> sorted l' -> l ≡ₚ l' -> l = l'.
Proof.
  intros Hs Hs' Hp. eapply StronglySorted_unique_strong; [|exact Hs|exact Hs'|exact Hp].
  intros x y _ _ Hxy Hyx. pose proof (sk_trans x y x Hxy Hyx) as Hxx. by rw (sk_irrefl x x) in Hxx.
Qed.

Lemma std_sort_unique l l' : NoDup (key <$> l) -> l ≡ₚ l' -> std_sort lt l = std_sort lt l'.
Proof.
  intros Hn Hp. apply sorted_perm_eq; [by apply std_sort_sorted|apply std_sort_sorted; by rewrite <- Hp|].
  rewrite -> !std_sort_perm. done.
Qed.

Lemma sorted_NoDup l : sorted l -> NoDup (key <$> l).
Proof.
  induction l as [|x l IH]; simpl; intros Hs; [constructor|]. apply StronglySorted_inv in Hs as [Hs Hl]. constructor; [|auto].
  intros (y & E & Hy)%list_elem_of_fmap. rewrite -> Forall_forall in Hl. specialize (Hl y Hy). by rw sk_irrefl in Hl.
Qed.

Lemma std_sort_id l : sorted l -> std_sort lt l = l.
Proof. intros Hs. apply sorted_perm_eq; [by apply std_sort_sorted, sorted_NoDup|done|apply std_sort_perm]. Qed.

Lemma std_sort_map (f : A -> A) l : (forall x y, lt (f x) (f y) = lt x y) -> std_sort lt (f <$> l) = f <$> std_sort lt l.
Proof.
  intros Hf. induction l as [|x l IH]; [done|]. simpl. rw IH. generalize (std_sort lt l). clear IH. intros k.
  induction k as [|y k IH]; [done|]. simpl. rw Hf. destruct (lt y x); simpl; [by f_equal|done].
Qed.
End sort_proofs.

(** ** What the manifest holds *)

(** The files without their readers. *)
Definition strip (files : list (list FileMetaData)) : list (list FileMetaData) :=
  (fun fs : list FileMetaData => forget_reader <$> fs) <$> files.

(** The same files in each level, in any order. *)
Abbreviation same_levels := (Forall2 Permutation).

(** Files in the levels, one after the other; an index outside the levels fails. *)
Fixpoint push_all (items : list (Z * FileMetaData)) (files : list (list FileMetaData)) : option (list (list FileMetaData)) :=
  match items with
  | [] => Some files
  | (level, f) :: items' => files ← VersionSet.push_file level f files; push_all items' files
  end.

(** The sort keys of a level differ. *)
Definition keys_apart (files : list (list FileMetaData)) : Prop :=
  match files with
  | [] => True
  | fs0 :: files' => NoDup (number <$> fs0) /\ Forall (fun fs => NoDup (smallest_key <$> fs)) files'
  end.

Lemma strip_length files : length (strip files) = length files.
Proof. apply length_fmap. Qed.

Lemma retained_strip edit level fs :
  forget_reader <$> VersionSet.retained edit level fs = VersionSet.retained edit level (forget_reader <$> fs).
Proof.
  rw /VersionSet.retained. induction fs as [|f fs IH]; [done|]. simpl. destruct (bool_decide _); simpl; [exact IH|].
  f_equal. exact IH.
Qed.

Lemma retain_levels_strip edit level files :
  strip (VersionSet.retain_levels edit level files) = VersionSet.retain_levels edit level (strip files).
Proof. revert level; induction files as [|fs files IH]; intros level; [done|]. simpl. by rw retained_strip IH. Qed.

Lemma retained_perm edit level fs fs' :
  fs ≡ₚ fs' -> VersionSet.retained edit level fs ≡ₚ VersionSet.retained edit level fs'.
Proof.
  induction 1 as [|f fs fs' _ IH|f g fs|]; simpl; [done| | |by etrans].
  - case_match; [by constructor|done].
  - repeat case_match; try done. constructor.
Qed.

Lemma retain_levels_perm edit level a b :
  same_levels a b -> same_levels (VersionSet.retain_levels edit level a) (VersionSet.retain_levels edit level b).
Proof. intros H. revert level; induction H as [|x y a b Hxy _ IH]; intros level; constructor; auto. by apply retained_perm. Qed.

Lemma retain_levels_length edit level files : length (VersionSet.retain_levels edit level files) = length files.
Proof. revert level; induction files as [|fs files IH]; intros level; [done|]. simpl. by rw IH. Qed.

Lemma push_file_perm level f a b a' :
  same_levels a b -> VersionSet.push_file level f a = Some a' ->
  exists b', VersionSet.push_file level f b = Some b' /\ same_levels a' b' /\ length b' = length b.
Proof.
  intros H. rw /VersionSet.push_file. destruct (level <? 0); [done|].
  destruct (a !! Z.to_nat level) as [fs|] eqn:Ea; [|done]. simpl. intros [= <-].
  destruct (Forall2_lookup_l _ _ _ _ _ H Ea) as (fs' & -> & Hp). eexists. split; [done|]. split.
  - apply Forall2_insert; [done|]. by rewrite -> Hp.
  - apply length_insert.
Qed.

Lemma push_all_perm items a b a' :
  same_levels a b -> push_all items a = Some a' -> exists b', push_all items b = Some b' /\ same_levels a' b'.
Proof.
  revert a b; induction items as [|[level f] items IH]; intros a b H; simpl; [intros [= <-]; eauto|].
  destruct (VersionSet.push_file level f a) as [a1|] eqn:Ea; [|done]. simpl. intros Ha.
  destruct (push_file_perm _ _ _ _ _ H Ea) as (b1 & -> & H1 & _). simpl. by eapply IH.
Qed.

Lemma push_all_length items a a' : push_all items a = Some a' -> length a' = length a.
Proof.
  revert a; induction items as [|[level f] items IH]; intros a; simpl; [by intros [= ->]|].
  destruct (VersionSet.push_file level f a) as [a1|] eqn:Ea; [|done]. simpl. intros ->%IH. revert Ea.
  rw /VersionSet.push_file. destruct (level <? 0); [done|]. destruct (a !! Z.to_nat level); [|done].
  intros [= <-]. apply length_insert.
Qed.

Lemma push_all_Forall (P : FileMetaData -> Prop) items a a' :
  push_all items a = Some a' -> Forall (Forall P) a -> Forall (fun n : Z * FileMetaData => P n.2) items -> Forall (Forall P) a'.
Proof.
  revert a; induction items as [|[level f] items IH]; intros a; simpl; [by intros [= ->]|].
  rw {1}/VersionSet.push_file. destruct (level <? 0); [done|]. destruct (a !! Z.to_nat level) as [fs|] eqn:Ea; [|done].
  simpl. intros Hp Ha [Hf Hi]%Forall_cons. eapply IH; [exact Hp| |done]. apply Forall_insert; [done|].
  apply Forall_app. split; [by eapply Forall_lookup_1 in Ha|by constructor].
Qed.

Lemma retain_levels_Forall (P : FileMetaData -> Prop) edit level files :
  Forall (Forall P) files -> Forall (Forall P) (VersionSet.retain_levels edit level files).
Proof.
  intros H. revert level; induction H as [|fs files Hfs _ IH]; intros level; simpl; constructor; [|apply IH].
  apply Forall_forall. intros f Hf. apply list_elem_of_In, filter_In in Hf as [Hf _]. rewrite -> Forall_forall in Hfs.
  by apply Hfs, list_elem_of_In.
Qed.

Lemma push_file_strip level f g files files' :
  forget_reader f = forget_reader g -> VersionSet.push_file level f files = Some files' ->
  VersionSet.push_file level (forget_reader g) (strip files) = Some (strip files').
Proof.
  intros E. rw /VersionSet.push_file /strip. destruct (level <? 0); [done|]. rw list_lookup_fmap.
  destruct (files !! Z.to_nat level) as [fs|]; [|done]. simpl. intros [= <-].
  by rw list_fmap_insert fmap_app /= E.
Qed.

(** Sorting forgets how the levels came about. *)
Lemma sort_levels_strip files : strip (VersionSet.sort_levels files) = VersionSet.sort_levels (strip files).
Proof.
  destruct files as [|fs0 files]; [done|]. simpl. f_equal.
  - symmetry. by apply std_sort_map.
  - rw /strip -!list_fmap_compose. apply list_fmap_ext. intros i fs _. simpl. symmetry. by apply std_sort_map.
Qed.

Lemma sort_levels_unique a b : same_levels a b -> keys_apart a -> VersionSet.sort_levels a = VersionSet.sort_levels b.
Proof.
  destruct 1 as [|fs fs' a b H0 H]; [done|]. intros [Hn Hs]. simpl. f_equal; [by apply (std_sort_unique newer_number number)|].
  induction H as [|x y a b Hxy H IH]; [done|]. apply Forall_cons in Hs as [Hx Hs]. simpl. f_equal; [by apply (std_sort_unique smaller_key smallest_key)|auto].
Qed.

Lemma sort_levels_perm files : same_levels (VersionSet.sort_levels files) files.
Proof.
  destruct files as [|fs0 files]; simpl; constructor; [apply std_sort_perm|].
  induction files as [|fs files IH]; simpl; constructor; [apply std_sort_perm|done].
Qed.

Lemma keys_apart_perm a b : same_levels a b -> keys_apart a -> keys_apart b.
Proof.
  destruct 1 as [|fs fs' a b H0 H]; [done|]. intros [Hn Hs]. split; [by rewrite <- H0|].
  induction H as [|x y a b Hxy H IH]; [done|]. apply Forall_cons in Hs as [Hx Hs]. constructor; [by rewrite <- Hxy|auto].
Qed.

(** Recovering the edits of a manifest in order. *)
Fixpoint replay (st : VersionSet.recovered) (edits : list VersionEdit) : option VersionSet.recovered :=
  match edits with
  | [] => Some st
  | e :: edits' => st ← VersionSet.recover_edit st (forget_readers e); replay st edits'
  end.

Lemma replay_snoc st edits e : replay st (edits ++ [e]) = (st ← replay st edits; VersionSet.recover_edit st (forget_readers e)).
Proof.
  revert st; induction edits as [|x edits IH]; intros st; simpl.
  - by destruct (VersionSet.recover_edit st _).
  - by destruct (VersionSet.recover_edit st _); simpl.
Qed.

Definition no_files : list (list FileMetaData) := replicate (Z.to_nat kNumLevels) [].
Definition nothing_recovered : VersionSet.recovered := VersionSet.mkRecovered no_files 0 0 0.

(** The manifest's state [st] is that of the version set. *)
Record manifest_state (vs : VersionSet.t) (st : VersionSet.recovered) : Prop := {
  ms_files : strip (Version.files_ (VersionSet.current_ vs)) = VersionSet.sort_levels (VersionSet.rc_files st);
  ms_keys : keys_apart (VersionSet.rc_files st);
  ms_levels : length (VersionSet.rc_files st) = Z.to_nat kNumLevels;
  ms_log : VersionSet.rc_log st = VersionSet.log_number_ vs;
  ms_seq : 0 <= VersionSet.rc_max_seq st <= VersionSet.last_sequence_ vs;
  ms_next : 0 <= VersionSet.rc_max_file st <= VersionSet.next_file_number_ vs;
  ms_numbers : Forall (Forall (fun f => number f < VersionSet.rc_max_file st)) (VersionSet.rc_files st);
}.

(** The new files of an edit as they are read back. *)
Definition stripped_new (edit : VersionEdit) : list (Z * FileMetaData) := (fun n => (n.1, forget_reader n.2)) <$> new_files_ edit.

(** The files after an edit, as sets. *)
Definition edited_files (edit : VersionEdit) (files : list (list FileMetaData)) : option (list (list FileMetaData)) :=
  push_all (stripped_new edit) (VersionSet.retain_levels edit 0 files).

(** The edits the program applies: file and sequence numbers do not run ahead of the
    counters, the levels exist, the log number does not go back. *)
Record edit_fits (vs : VersionSet.t) (edit : VersionEdit) : Prop := {
  ef_log : has_log_number_ edit = true -> VersionSet.log_number_ vs <= VersionEdit.log_number_ edit;
  ef_next : has_next_file_number_ edit = true -> VersionEdit.next_file_number_ edit <= VersionSet.next_file_number_ vs;
  ef_seq : has_last_sequence_ edit = true -> VersionSet.last_sequence_ vs <= VersionEdit.last_sequence_ edit;
  ef_new : Forall (fun n : Z * FileMetaData => number n.2 < VersionEdit.next_file_number_ (VersionSet.complete_edit vs edit))
    (new_files_ edit);
}.

Lemma recover_new_files_run items files files' m :
  push_all items files = Some files' -> Forall (fun n : Z * FileMetaData => number n.2 < m) items ->
  VersionSet.recover_new_files items files m = Some (files', m).
Proof.
  revert files; induction items as [|[level f] items IH]; intros files; simpl; [by intros [= ->]|].
  destruct (VersionSet.push_file level f files) as [files1|]; [|done]. simpl. intros Hp [Hf Hn]%Forall_cons.
  simpl in Hf. rw Z.geb_leb (proj2 (Z.leb_gt _ _)) //. by apply IH.
Qed.

Lemma complete_edit_fields vs edit :
  let e := VersionSet.complete_edit vs edit in
  has_log_number_ e = has_log_number_ edit /\ VersionEdit.log_number_ e = VersionEdit.log_number_ edit /\
  has_next_file_number_ e = true /\
  VersionEdit.next_file_number_ e = (if has_next_file_number_ edit then VersionEdit.next_file_number_ edit
                                     else VersionSet.next_file_number_ vs) /\
  has_last_sequence_ e = true /\
  VersionEdit.last_sequence_ e = (if has_last_sequence_ edit then VersionEdit.last_sequence_ edit
                                  else VersionSet.last_sequence_ vs) /\
  deleted_files_ e = deleted_files_ edit /\ new_files_ e = new_files_ edit /\
  has_comparator_ e = has_comparator_ edit /\ comparator_name_ e = comparator_name_ edit.
Proof.
  rw /VersionSet.complete_edit. destruct (has_next_file_number_ edit) eqn:E1, (has_last_sequence_ edit) eqn:E2; simpl;
    rw ?E1 ?E2; split_and!; done.
Qed.

Lemma retain_levels_deleted e e' level files :
  deleted_files_ e = deleted_files_ e' -> VersionSet.retain_levels e level files = VersionSet.retain_levels e' level files.
Proof.
  intros E. revert level; induction files as [|fs files IH]; intros level; [done|]. simpl. rw /VersionSet.retained E.
  f_equal. apply IH.
Qed.

(** Recovering one more edit gives the state of the version set that applied it. *)
Lemma recover_edit_run vs st edit files' :
  manifest_state vs st -> edit_fits vs edit ->
  edited_files edit (strip (Version.files_ (VersionSet.current_ vs))) = Some files' -> keys_apart files' ->
  let e := VersionSet.complete_edit vs edit in
  exists st', VersionSet.recover_edit st (forget_readers e) = Some st' /\
    VersionSet.sort_levels (VersionSet.rc_files st') = VersionSet.sort_levels files' /\
    keys_apart (VersionSet.rc_files st') /\ length (VersionSet.rc_files st') = Z.to_nat kNumLevels /\
    VersionSet.rc_log st' = (if has_log_number_ edit then VersionEdit.log_number_ edit else VersionSet.log_number_ vs) /\
    VersionSet.rc_max_seq st' = VersionEdit.last_sequence_ e /\
    VersionSet.rc_max_file st' = Z.max (VersionSet.rc_max_file st) (VersionEdit.next_file_number_ e) /\
    VersionSet.rc_max_file st' <= VersionSet.next_file_number_ vs /\
    Forall (Forall (fun f => number f < VersionSet.rc_max_file st')) (VersionSet.rc_files st').
Proof.
  intros [M1 M2 M3 M4 M5 M6 M7] [F1 F2 F3 F4] He Hk e.
  destruct (complete_edit_fields vs edit) as (C1 & C2 & C3 & C4 & C5 & C6 & C7 & C8 & _). fold e in C1, C2, C3, C4, C5, C6, C7, C8.
  set (m := Z.max (VersionSet.rc_max_file st) (VersionEdit.next_file_number_ e)).
  assert (Hm : m <= VersionSet.next_file_number_ vs).
  { rw /m C4. destruct (has_next_file_number_ edit); [specialize (F2 eq_refl)|]; lia. }
  assert (Hp : same_levels (VersionSet.retain_levels edit 0 (strip (Version.files_ (VersionSet.current_ vs))))
    (VersionSet.retain_levels edit 0 (VersionSet.rc_files st))).
  { apply retain_levels_perm. rw M1. apply sort_levels_perm. }
  destruct (push_all_perm _ _ _ _ Hp He) as (files2 & E2 & Hp2).
  assert (Hnew : Forall (fun n : Z * FileMetaData => number n.2 < m) (stripped_new edit)).
  { rw /stripped_new. apply Forall_fmap. eapply Forall_impl; [exact F4|]. intros n Hn. simpl in *. fold e in Hn. lia. }
  assert (Hlen : length files2 = Z.to_nat kNumLevels) by (rw (push_all_length _ _ _ E2) retain_levels_length //).
  rw /VersionSet.recover_edit. cbn [forget_readers has_next_file_number_ VersionEdit.next_file_number_ has_last_sequence_
    VersionEdit.last_sequence_ has_log_number_ VersionEdit.log_number_ new_files_ deleted_files_].
  rw C3 C5 C1 C2 C8 !andb_true_l -/(stripped_new edit).
  rw (retain_levels_deleted (forget_readers e) edit) //.
  assert ((if VersionEdit.next_file_number_ e >? VersionSet.rc_max_file st then VersionEdit.next_file_number_ e
           else VersionSet.rc_max_file st) = m) as -> by (rw /m Z.gtb_ltb; case_bool; lia).
  rw (recover_new_files_run _ _ _ _ E2 Hnew) /=. eexists. split; [done|]. simpl.
  assert (VersionSet.last_sequence_ vs <= VersionEdit.last_sequence_ e).
  { rw C6. destruct (has_last_sequence_ edit); [auto|lia]. }
  split_and!; auto.
  - symmetry. by apply sort_levels_unique.
  - by eapply keys_apart_perm.
  - by rw M4.
  - rw Z.gtb_ltb. case_bool; lia.
  - eapply push_all_Forall; [exact E2| |].
    + apply retain_levels_Forall. eapply Forall_impl; [exact M7|]. intros fs Hfs. eapply Forall_impl; [exact Hfs|]. simpl. lia.
    + exact Hnew.
Qed.

(** ** Levels that are in order *)

Lemma sorted_forget (lt : FileMetaData -> FileMetaData -> bool) fs :
  (forall f g, lt (forget_reader f) (forget_reader g) = lt f g) ->
  StronglySorted (fun a b => lt a b = true) (forget_reader <$> fs) -> StronglySorted (fun a b => lt a b = true) fs.
Proof.
  intros Hlt. induction fs as [|f fs IH]; [constructor|]. rw fmap_cons. intros [Hs Hf]%StronglySorted_inv. constructor; [auto|].
  rewrite -> Forall_fmap in Hf. eapply Forall_impl; [exact Hf|]. intros g Hg. by rw /= Hlt in Hg.
Qed.

Lemma levels_sorted levels rs :
  strip levels = (std_sort smaller_key <$> rs) -> Forall (fun fs => NoDup (smallest_key <$> fs)) rs ->
  Forall (StronglySorted (fun a b => smaller_key a b = true)) levels.
Proof.
  revert rs; induction levels as [|fs levels IH]; intros [|r rs]; [constructor|done|done|].
  rw /strip !fmap_cons. intros [= E1 E2] [Nr Ns]%Forall_cons. constructor; [|by eapply IH].
  apply sorted_forget; [done|]. rw E1. by apply (std_sort_sorted smaller_key smallest_key).
Qed.

(** The files of a version set are in the order of [sort_levels]. *)
Lemma manifest_sorted vs st :
  manifest_state vs st ->
  exists fs0 levels, Version.files_ (VersionSet.current_ vs) = fs0 :: levels /\ length levels = 6%nat /\
    StronglySorted (fun a b => newer_number a b = true) fs0 /\
    Forall (StronglySorted (fun a b => smaller_key a b = true)) levels /\
    Forall (fun f => number f < VersionSet.rc_max_file st) fs0.
Proof.
  intros [M1 M2 M3 _ _ _ M7]. destruct (VersionSet.rc_files st) as [|r0 rs]; [done|]. simpl in M1, M3, M2, M7.
  destruct M2 as [N0 Ns]. apply Forall_cons in M7 as [M7 _].
  destruct (Version.files_ (VersionSet.current_ vs)) as [|fs0 levels]; [done|]. rw /strip fmap_cons in M1. injection M1 as E0 El.
  exists fs0, levels. split; [done|]. split.
  { apply (f_equal length) in El. rw !length_fmap in El. change (Z.to_nat kNumLevels) with 7%nat in M3. lia. }
  split; [|split].
  - apply sorted_forget; [done|]. rw E0. by apply (std_sort_sorted newer_number number).
  - by eapply levels_sorted.
  - assert (H : Forall (fun f => number f < VersionSet.rc_max_file st) (forget_reader <$> fs0)) by (rw E0; by rewrite -> std_sort_perm).
    by rewrite -> Forall_fmap in H.
Qed.
