(* ===== verification/Manifest.v ===== *)
(** * Manifest: the version set on disk

    What [VersionSet::LogAndApply] leaves in the manifest and what
    [VersionSet::Recover] makes of it.  The manifest is a log of encoded edits;
    recovering replays them.  An edit that is cut short by a failing write is a torn
    record at the end of the log, which the reader takes for the end. *)

From S2P Require Import Prelude Status Slice Coding Format Posix Env Filename Wal Entry Iterator Block BlockCache Options.
From S2P Require Import SSTableBuilder SSTableReader TwoLevelIterator VersionEdit Version Storage VersionSet.

#[local] Open Scope Z_scope.

(** ** Records *)

(** The log record of an edit. *)
Definition edit_out (e : VersionEdit) : WalReader.out :=
  WalReader.mkOut 0 kTypeValue (str "MANIFEST_ENTRY") (EncodeTo e []).

(** Edits whose record can be read back. *)
Definition edit_fine (e : VersionEdit) : Prop := edit_ok e /\ out_ok (edit_out e).

(** The bytes of a manifest. *)
Definition manifest_bytes (edits : list VersionEdit) : bytes := encode_log (edit_out <$> edits).

Lemma manifest_bytes_snoc edits e : manifest_bytes (edits ++ [e]) = manifest_bytes edits ++ encode_out (edit_out e).
Proof. by rw /manifest_bytes /encode_log !fmap_app concat_app /= app_nil_r. Qed.

Lemma append_edit_run writer edit w ino :
  0 <= WalWriter.fd_ writer -> at_end w (WalWriter.fd_ writer) ino -> 0 <= WalWriter.file_size_ writer < 2 ^ 64 ->
  exists st writer' k w', VersionSet.append_edit writer edit w = Some ((st, writer'), w') /\
    append_result writer ino (encode_out (edit_out edit)) w w' st writer' k.
Proof.
  intros Hfd He Hsz. rw /VersionSet.append_edit /with_fuel.
  destruct (AppendRecord_run writer 0 kTypeValue (str "MANIFEST_ENTRY") (EncodeTo edit []) true w ino Hfd He Hsz)
    as (st & writer' & k & w' & E & R).
  exists st, writer', k, w'. split; [|exact R]. by rw (bind_run _ _ _ _ _ E).
Qed.

(** ** The loop of [Recover] *)

Lemma length_encode_out o : (0 < length (encode_out o))%nat.
Proof.
  pose proof (size_wal_record (WalReader.o_seq o) (WalReader.o_type o) (WalReader.o_key o) (WalReader.o_value o)) as H.
  pose proof (size_of_nonneg (WalReader.o_key o)). pose proof (size_of_nonneg (WalReader.o_value o)).
  rw -/(encode_out o) {1}/size_of in H. lia.
Qed.

Lemma length_manifest edits : (length edits <= length (manifest_bytes edits))%nat.
Proof.
  induction edits as [|e edits IH]; [simpl; lia|]. change (manifest_bytes (e :: edits)) with (encode_out (edit_out e) ++ manifest_bytes edits).
  rw length_app. pose proof (length_encode_out (edit_out e)). simpl. lia.
Qed.

Lemma DecodeFrom_EncodeTo e : edit_ok e -> DecodeFrom NewVersionEdit (EncodeTo e []) = Some (Status.OK, forget_readers e).
Proof. intros He. by apply decode_encode. Qed.

Lemma recover_loop_records edits fuel r o st st' ino pos w tail :
  Forall edit_fine edits -> reader_at w r ino pos -> benign w ->
  rest_of w ino pos = manifest_bytes edits ++ tail -> replay st edits = Some st' ->
  exists w' pos' o', reader_at w' r ino pos' /\ benign w' /\ rest_of w' ino pos' = tail /\
    read_frame (WalReader.fd_ r) ino w w' /\
    VersionSet.recover_loop (length edits + fuel) r o st w = VersionSet.recover_loop fuel r o' st' w'.
Proof.
  revert o st pos w; induction edits as [|e edits IH]; intros o st pos w Hok HR Hb Hr Hst.
  { injection Hst as <-. exists w, pos, o. split_and!; auto; try apply HR. apply read_frame_refl. }
  apply Forall_cons in Hok as [[He Ho] Hes]. rw /manifest_bytes /encode_log /= -app_assoc in Hr.
  destruct (ReadRecord_record _ _ _ _ true o _ _ _ _ _ HR Hb Ho Hr) as (w1 & pos1 & E & F & Hb1 & HR1 & Hr1).
  simpl in Hst. destruct (VersionSet.recover_edit st (forget_readers e)) as [st1|] eqn:E1; [|done]. simpl in Hst.
  destruct (IH (edit_out e) st1 pos1 w1 Hes HR1 Hb1 Hr1 Hst) as (w2 & pos2 & o2 & HR2 & Hb2 & Hr2 & F2 & E2).
  exists w2, pos2, o2. split_and!; auto; [by eapply read_frame_trans|].
  cbn [length Nat.add VersionSet.recover_loop]. rw (bind_run _ _ w (Status.OK, edit_out e) w1).
  { rw /with_fuel (bind_run _ _ _ _ _ E). done. }
  cbn iota beta. change (Status.ok Status.OK) with true. cbn iota.
  rw (bind_lift _ _ _ _ (DecodeFrom_EncodeTo e He)). change (negb (Status.ok Status.OK)) with false. cbn iota beta.
  by rw (bind_lift _ _ _ _ E1).
Qed.

(** A torn record ends the loop. *)
Lemma recover_loop_torn edits e k fuel r o st st' ino w :
  Forall edit_fine edits -> out_ok e -> (k < length (encode_out e))%nat -> (length edits < fuel)%nat ->
  reader_at w r ino 0 -> benign w -> file_content w ino = manifest_bytes edits ++ take k (encode_out e) ->
  replay st edits = Some st' ->
  exists w', VersionSet.recover_loop fuel r o st w = Some (inr st', w') /\ read_frame (WalReader.fd_ r) ino w w'.
Proof.
  intros Hok He Hk Hf HR Hb Hc Hst.
  destruct (recover_loop_records edits (fuel - length edits) r o st st' ino 0 w (take k (encode_out e)) Hok HR Hb)
    as (w1 & pos1 & o1 & HR1 & Hb1 & Hr1 & F1 & E1); [by rw /rest_of /=|done|].
  rw -Nat.le_add_sub in E1; [lia|]. rw E1. destruct (fuel - length edits)%nat as [|n] eqn:En; [lia|].
  destruct (ReadRecord_torn _ _ _ _ true o1 _ _ _ _ _ HR1 Hb1 He Hk Hr1) as (s & w2 & E2 & F2 & Hs).
  cbn [VersionSet.recover_loop]. rw (bind_run _ _ w1 (s, o1) w2).
  { rw /with_fuel (bind_run _ _ _ _ _ E2). done. }
  cbn iota beta. rw /Status.ok Hs /=. exists w2. split; [done|]. by eapply read_frame_trans.
Qed.

(** ** Opening readers *)

(** Descriptors may have been opened; nothing else happened. *)
Definition env_kept (e e' : TableEnv) : Prop := files_kept (e_world e) (e_world e') /\ e_cache e' = e_cache e.

#[global] Instance env_kept_preorder : PreOrder env_kept.
Proof.
  split; [intros e; split; [apply files_kept_refl|done]|].
  intros e1 e2 e3 [K1 C1] [K2 C2]. split; [by eapply files_kept_trans|congruence].
Qed.

(** Whatever becomes of the open, the file is the same but for its reader. *)
Lemma OpenReader_any opts db f e :
  exists st f' e', Version.OpenReader opts db f e = Some ((st, f'), e') /\ env_kept e e' /\ forget_reader f' = forget_reader f.
Proof.
  rw /Version.OpenReader. destruct (reader f).
  { do 3 eexists. split; [done|]. split; [reflexivity|done]. }
  destruct (Open_any opts (TableFileName db (number f)) (number f) (file_size f) (e_world e)) as (st & r & w' & E & K & _).
  rw (bind_run _ _ e (st, r) (mkEnv w' (e_cache e))); [by rw /on_world E|].
  do 3 eexists. split; [done|]. split; [by split|]. by destruct (Status.ok st).
Qed.

Lemma open_files_any opts db fs e :
  exists fs' e', VersionSet.open_files opts db fs e = Some (fs', e') /\ env_kept e e' /\
    (forget_reader <$> fs') = (forget_reader <$> fs).
Proof.
  revert e; induction fs as [|f fs IH]; intros e; cbn [VersionSet.open_files].
  { do 2 eexists. split; [done|]. split; [reflexivity|done]. }
  destruct (OpenReader_any opts db f e) as (st & f' & e1 & E1 & K1 & F1). rw (bind_run _ _ _ _ _ E1).
  destruct (IH e1) as (fs' & e2 & E2 & K2 & F2). cbn iota beta. rw (bind_run _ _ _ _ _ E2).
  do 2 eexists. split; [done|]. split; [by etrans|]. by rw !fmap_cons F1 F2.
Qed.

Lemma open_levels_any opts db files e :
  exists files' e', VersionSet.open_levels opts db files e = Some (files', e') /\ env_kept e e' /\ strip files' = strip files.
Proof.
  revert e; induction files as [|fs files IH]; intros e; cbn [VersionSet.open_levels].
  { do 2 eexists. split; [done|]. split; [reflexivity|done]. }
  destruct (open_files_any opts db fs e) as (fs' & e1 & E1 & K1 & F1). rw (bind_run _ _ _ _ _ E1).
  destruct (IH e1) as (files' & e2 & E2 & K2 & F2). rw (bind_run _ _ _ _ _ E2).
  do 2 eexists. split; [done|]. split; [by etrans|]. rw /strip in F2 *. by rw !fmap_cons F1 F2.
Qed.

Lemma push_file_defined level f g files files' :
  VersionSet.push_file level (forget_reader g) (strip files) = Some files' -> forget_reader f = forget_reader g ->
  exists files1, VersionSet.push_file level f files = Some files1 /\ strip files1 = files'.
Proof.
  rw /VersionSet.push_file. destruct (level <? 0); [done|]. rw /strip list_lookup_fmap.
  destruct (files !! Z.to_nat level) as [fs|]; [|done]. simpl. intros [= <-] E. eexists. split; [done|].
  by rw list_fmap_insert fmap_app /= E.
Qed.

(** The new files of an edit, opened if they can be. *)
Lemma add_new_files_any options db items files files' e :
  push_all ((fun n : Z * FileMetaData => (n.1, forget_reader n.2)) <$> items) (strip files) = Some files' ->
  exists files1 e', VersionSet.add_new_files options db items files e = Some (files1, e') /\ env_kept e e' /\
    strip files1 = files'.
Proof.
  revert files e; induction items as [|[level f] items IH]; intros files e.
  { intros [= <-]. do 2 eexists. split; [done|]. split; [reflexivity|done]. }
  rw fmap_cons. cbn [push_all fst snd]. destruct (VersionSet.push_file level (forget_reader f) (strip files)) as [fs1|] eqn:Ep; [|done].
  simpl mbind. intros Hp. cbn [VersionSet.add_new_files].
  assert (exists f' e1, (match options with
           | Some o => '(_, f) ← Version.OpenReader o db f; mret f
           | None => mret f
           end) e = Some (f', e1) /\ env_kept e e1 /\ forget_reader f' = forget_reader f) as (f' & e1 & E1 & K1 & F1).
  { destruct options as [o|]; [|do 2 eexists; split; [done|]; split; [reflexivity|done]].
    destruct (OpenReader_any o db f e) as (st & f' & e1 & E1 & K1 & F1). rw (bind_run _ _ _ _ _ E1). by exists f', e1. }
  rw (bind_run _ _ _ _ _ E1). destruct (push_file_defined level f' f files fs1 Ep F1) as (files1 & Ef & Es).
  rw (bind_lift _ _ _ _ Ef). rw -Es in Hp. destruct (IH files1 e1 Hp) as (files2 & e2 & E2 & K2 & F2).
  exists files2, e2. split_and!; auto. by etrans.
Qed.

(** ** Recover *)

Lemma first_line_app a s : (forall b, b ∈ a -> b <> Byte.x0a) -> VersionSet.first_line (a ++ s) = a ++ VersionSet.first_line s.
Proof.
  induction a as [|b a IH]; intros Ha; [done|]. simpl. rw decide_False; [apply Ha; left|].
  f_equal. apply IH. intros x Hx. apply Ha. by right.
Qed.

(** CURRENT names the manifest. *)
Lemma manifest_line_path db n :
  0 <= n < 2 ^ 64 ->
  VersionSet.first_line (manifest_line n) <> [] /\
  db ++ str "/" ++ VersionSet.first_line (manifest_line n) = ManifestFileName db n.
Proof.
  intros Hn. destruct (format_06llu_spec n Hn) as (Hd & _ & Hl & _).
  rw /manifest_line /ManifestFileName /snprintf64. revert Hd Hl. generalize (format_06llu n). intros ds Hd Hl.
  rw !take_ge; [simpl; rw ?length_app /=; lia..|]. rw app_assoc first_line_app; [|by rw app_nil_r].
  intros b [Hb|Hb]%elem_of_app.
  - revert b Hb. apply Forall_forall. repeat constructor; done.
  - rw /all_digits Forall_forall in Hd. intros ->. by specialize (Hd _ Hb).
Qed.

(** The files of a manifest have no readers. *)
Lemma push_file_stripped level f files files' :
  VersionSet.push_file level (forget_reader f) files = Some files' -> strip files = files -> strip files' = files'.
Proof.
  rw /VersionSet.push_file. destruct (level <? 0); [done|]. destruct (files !! Z.to_nat level) as [fs|] eqn:Ef; [|done].
  simpl. intros [= <-] Hs. assert (Hfs : (forget_reader <$> fs) = fs).
  { pose proof (f_equal (lookup (Z.to_nat level)) Hs) as E. rw /strip list_lookup_fmap Ef in E. by injection E. }
  rw /strip in Hs *. by rw list_fmap_insert fmap_app Hs Hfs.
Qed.

Lemma recover_new_files_stripped items files m files' m' :
  VersionSet.recover_new_files ((fun n : Z * FileMetaData => (n.1, forget_reader n.2)) <$> items) files m = Some (files', m') ->
  strip files = files -> strip files' = files'.
Proof.
  revert files m; induction items as [|[level f] items IH]; intros files m; [by intros [= <- <-]|].
  rw fmap_cons. cbn [VersionSet.recover_new_files fst snd].
  destruct (VersionSet.push_file level (forget_reader f) files) as [fs1|] eqn:Ep; [|done]. simpl mbind. intros E Hs.
  eapply IH; [exact E|]. by eapply push_file_stripped.
Qed.

Lemma replay_stripped st edits st' :
  replay st edits = Some st' -> strip (VersionSet.rc_files st) = VersionSet.rc_files st ->
  strip (VersionSet.rc_files st') = VersionSet.rc_files st'.
Proof.
  revert st; induction edits as [|e edits IH]; intros st; [by intros [= <-]|]. simpl.
  destruct (VersionSet.recover_edit st (forget_readers e)) as [st1|] eqn:E; [|done]. simpl. intros Hr Hs.
  eapply IH; [exact Hr|]. rw /VersionSet.recover_edit in E.
  destruct (VersionSet.recover_new_files _ _ _) as [[files m]|] eqn:En; [|done]. injection E as <-. simpl.
  eapply recover_new_files_stripped; [exact En|]. by rw retain_levels_strip Hs.
Qed.

(** The version set that a manifest's state describes. *)
Record recovered_as (vs : VersionSet.t) (st : VersionSet.recovered) : Prop := {
  ra_files : strip (Version.files_ (VersionSet.current_ vs)) = VersionSet.sort_levels (VersionSet.rc_files st);
  ra_next : VersionSet.next_file_number_ vs = (if VersionSet.rc_max_file st >? 0 then VersionSet.rc_max_file st else 2);
  ra_seq : VersionSet.last_sequence_ vs = VersionSet.rc_max_seq st;
  ra_log : VersionSet.log_number_ vs = VersionSet.rc_log st;
}.

(** CURRENT points to a manifest with these bytes. *)
Definition shows_manifest (db : bytes) (n : Z) (content : bytes) (w : World) : Prop :=
  0 <= n < 2 ^ 64 /\ content_at w (CurrentFileName db) = Some (manifest_line n) /\
  content_at w (ManifestFileName db n) = Some content.

(** Opening for reading in a world whose calls do not fail. *)
Lemma open_ro_run w path ino :
  w_ctl w = [] -> w_dir w !! path = Some ino -> sys_open path (mkFlags false false false) w = (w_fresh_fd w, open_ro ino w).
Proof. intros Hc Hd. by rw /sys_open /pop_ctl Hc Hd. Qed.

Lemma read_line_run w path ino :
  0 <= w_fresh_fd w -> w_ctl w = [] -> w_dir w !! path = Some ino ->
  exists w', VersionSet.read_line path w = Some (Some (VersionSet.first_line (file_content w ino)), w') /\ files_kept w w'.
Proof.
  intros Hfd Hc Hd. rw /VersionSet.read_line (bind_run _ _ w (w_fresh_fd w) (open_ro ino w)); [by rw /sys (open_ro_run _ _ _ Hc Hd)|].
  destruct (Z.ltb_spec (w_fresh_fd w) 0); [lia|].
  rw (bind_run _ _ (open_ro ino w) (VersionSet.first_line (file_content w ino)) (open_ro ino w)).
  { rw /= lookup_insert_eq. done. }
  eexists. split; [done|]. eapply (only_fd_opened ino w w); [apply files_kept_refl|done|apply close_only_fd].
Qed.

(** Closing a descriptor that was opened on the way. *)
Lemma close_opened w w' fd : files_kept w w' -> w_fresh_fd w <= fd -> files_kept w (sys_close fd w').2.
Proof.
  intros [K1 K2 K3 K4 K5 K6] Hfd. split; auto. intros fd' Hlt. simpl. rw lookup_delete_ne; [lia|]. by apply K3.
Qed.

Lemma read_frame_only_fd fd ino w w' : read_frame fd ino w w' -> only_fd fd w w'.
Proof.
  intros ([F1 F2 F3 F4 F5 F6] & Hc & _). split; auto. intros i. destruct (decide (i = ino)) as [->|Hne]; [done|by apply F4].
Qed.

Lemma files_kept_benign w w' : files_kept w w' -> benign w -> benign w'.
Proof.
  intros [_ _ _ _ [k K5] [l K6]] [Hi Hc]. split; [rw K6 in Hi; by apply Forall_app in Hi as [_ ?]|].
  rw Hc in K5. symmetry in K5. by apply app_nil in K5 as [_ ?].
Qed.

Lemma files_kept_wf w w' : files_kept w w' -> fs_wf w -> fs_wf w'.
Proof. intros [K1 _ _ [K4 K4'] _ _] [W1 W2 W3]. split; rw ?K1 ?K4; auto. lia. Qed.

Lemma content_at_Some w p c : content_at w p = Some c -> exists ino, w_dir w !! p = Some ino /\ file_content w ino = c.
Proof. rw /content_at. destruct (w_dir w !! p) as [ino|]; [|done]. intros [= <-]. eauto. Qed.

(** The part of [Recover] that reads: the manifest's state, whatever tail a torn record
    left. *)
Lemma recover_manifest_run db n edits o k st w :
  fs_wf w -> benign w -> shows_manifest db n (manifest_bytes edits ++ take k (encode_out o)) w ->
  out_ok o -> (k < length (encode_out o))%nat -> Forall edit_fine edits -> replay nothing_recovered edits = Some st ->
  exists line w1 r w2 w3,
    VersionSet.read_line (CurrentFileName db) w = Some (Some line, w1) /\ line <> [] /\ files_kept w w1 /\
    WalReader.Open (db ++ str "/" ++ line) w1 = Some (r, w2) /\ WalReader.fd_ r = w_fresh_fd w1 /\
    VersionSet.recover_loop (VersionSet.manifest_fuel r w2) r (WalReader.mkOut 0 kTypeValue [] []) nothing_recovered w2
      = Some (inr st, w3) /\ files_kept w1 w3 /\ w_fresh_fd w1 < w_fresh_fd w3 /\
    exists ino f, w_dir w !! ManifestFileName db n = Some ino /\ w_fds w3 !! w_fresh_fd w1 = Some f /\ f_ino f = ino.
Proof.
  intros Hw Hb (Hn & Hcur & Hman) Ho Hk Hok Hst. pose proof (fw_fd _ Hw) as Hfd.
  destruct (content_at_Some _ _ _ Hcur) as (ci & Dc & Cc).
  destruct (read_line_run w _ ci Hfd (proj2 Hb) Dc) as (w1 & E1 & K1). rw Cc in E1.
  destruct (manifest_line_path db n Hn) as [Hne Hpath].
  pose proof (files_kept_benign _ _ K1 Hb) as Hb1. pose proof (fw_fd _ (files_kept_wf _ _ K1 Hw)) as Hfd1.
  rw -(files_kept_content_at _ _ _ K1) in Hman. destruct (content_at_Some _ _ _ Hman) as (mi & Dm & Cm).
  set (r := WalReader.mk (ManifestFileName db n) (w_fresh_fd w1)). set (w2 := open_ro mi w1).
  assert (Hf2 : w_fds w2 !! w_fresh_fd w1 = Some (mkOpenFile mi 0 false)) by rw /w2 /= lookup_insert_eq //.
  assert (Hc2 : file_content w2 mi = manifest_bytes edits ++ take k (encode_out o)) by exact Cm.
  assert (HR : reader_at w2 r mi 0).
  { split; [done|]. split; [by eexists|]. pose proof (size_of_nonneg (file_content w2 mi)). lia. }
  destruct (recover_loop_torn edits o k (VersionSet.manifest_fuel r w2) r (WalReader.mkOut 0 kTypeValue [] [])
    nothing_recovered st mi w2) as (w3 & E3 & F3); auto.
  { rw /VersionSet.manifest_fuel /= Hf2 /= Hc2 length_app. pose proof (length_manifest edits). lia. }
  eexists _, w1, r, w2, w3. split; [exact E1|]. split; [done|]. split; [done|]. split.
  { rw Hpath /WalReader.Open (bind_run _ _ w1 (w_fresh_fd w1) w2); [|done]. by rw /sys (open_ro_run _ _ _ (proj2 Hb1) Dm). }
  split; [done|]. split; [done|]. split.
  { eapply (only_fd_opened mi w1 w1); [apply files_kept_refl|done|]. by eapply read_frame_only_fd. }
  destruct F3 as (F & _ & Ff). split; [destruct (fr_fresh _ _ _ _ F) as [_ ->]; rw /w2 /=; lia|].
  destruct (Ff _ Hf2) as (f & Hf & Hi). exists mi, f. split_and!; auto. by rw -(fk_dir _ _ K1).
Qed.

(** [Recover] restores the state of the manifest. *)
Lemma Recover_run vs n edits o k st e :
  fs_wf (e_world e) -> benign (e_world e) ->
  shows_manifest (VersionSet.dbname_ vs) n (manifest_bytes edits ++ take k (encode_out o)) (e_world e) ->
  out_ok o -> (k < length (encode_out o))%nat -> Forall edit_fine edits -> replay nothing_recovered edits = Some st ->
  exists vs' e', VersionSet.Recover vs e = Some ((Status.OK, vs'), e') /\ env_kept e e' /\ recovered_as vs' st /\
    VersionSet.descriptor_log_ vs' = VersionSet.descriptor_log_ vs.
Proof.
  intros Hw Hb Hm Ho Hk Hok Hst. destruct e as [w c]. simpl in *.
  destruct (recover_manifest_run _ _ _ _ _ _ _ Hw Hb Hm Ho Hk Hok Hst)
    as (line & w1 & r & w2 & w3 & E1 & Hne & K1 & E2 & Hfd & E3 & K3 & _).
  rw /VersionSet.Recover (bind_run _ _ _ (Some line) (mkEnv w1 c)); [by rw /on_world E1|]. cbn iota.
  rw bool_decide_false //. rw (bind_run _ _ _ r (mkEnv w2 c)); [by rw /on_world E2|].
  rw (bind_run _ _ _ (inr st) (mkEnv w3 c)); [rw /on_world; cbn [e_world]; by rw E3|]. cbn iota.
  assert (Hopen : exists files e4, (match VersionSet.options_ vs with
      | Some o => VersionSet.open_levels o (VersionSet.dbname_ vs) (VersionSet.sort_levels (VersionSet.rc_files st))
      | None => mret (VersionSet.sort_levels (VersionSet.rc_files st))
      end) (mkEnv w3 c) = Some (files, e4) /\ env_kept (mkEnv w3 c) e4 /\
      strip files = strip (VersionSet.sort_levels (VersionSet.rc_files st))).
  { destruct (VersionSet.options_ vs) as [op|]; [apply open_levels_any|]. do 2 eexists. split; [done|]. split; [reflexivity|done]. }
  destruct Hopen as (files & e4 & E4 & [K4 C4] & F4). rw (bind_run _ _ _ _ _ E4).
  assert (Hd : exists w5, WalReader.Destroy r (e_world e4) = Some (tt, w5) /\ files_kept w1 w5).
  { rw /WalReader.Destroy Hfd. pose proof (fw_fd _ (files_kept_wf _ _ K1 Hw)). destruct (Z.geb_spec (w_fresh_fd w1) 0); [|lia].
    eexists. split; [done|]. apply (close_opened w1 (e_world e4)); [by eapply files_kept_trans|lia]. }
  destruct Hd as (w5 & E5 & K5). rw (bind_run _ _ _ tt (mkEnv w5 c)).
  { by rw /on_world E5 C4. }
  do 2 eexists. split; [done|]. split; [split; [by eapply files_kept_trans|done]|]. split; [|done]. split; simpl; auto.
  rw F4 sort_levels_strip. f_equal. by eapply replay_stripped.
Qed.

(** ** An open manifest *)

(** The manifest the version set writes to holds [edits], whose state is [st]. *)
Record manifest_open (vs : VersionSet.t) (edits : list VersionEdit) (st : VersionSet.recovered) (w : World) : Prop := {
  mo_writer : exists writer ino, VersionSet.descriptor_log_ vs = Some writer /\
    0 <= WalWriter.fd_ writer < w_fresh_fd w /\ 0 <= WalWriter.file_size_ writer < 2 ^ 64 /\
    at_end w (WalWriter.fd_ writer) ino /\
    w_dir w !! ManifestFileName (VersionSet.dbname_ vs) (VersionSet.manifest_file_number_ vs) = Some ino /\
    file_content w ino = manifest_bytes edits;
  mo_number : 0 <= VersionSet.manifest_file_number_ vs < 2 ^ 64 /\ VersionSet.manifest_file_number_ vs < VersionSet.rc_max_file st;
  mo_current : content_at w (CurrentFileName (VersionSet.dbname_ vs)) = Some (manifest_line (VersionSet.manifest_file_number_ vs));
  mo_edits : Forall edit_fine edits;
  mo_replay : replay nothing_recovered edits = Some st;
  mo_state : manifest_state vs st;
}.

Lemma at_end_kept w w' fd ino : files_kept w w' -> fd < w_fresh_fd w -> at_end w fd ino -> at_end w' fd ino.
Proof. intros [_ K2 K3 _ _ _] Hfd (f & Hf & Hi & He). exists f. rw K3 // K2. auto. Qed.

Lemma manifest_open_kept vs edits st w w' : files_kept w w' -> manifest_open vs edits st w -> manifest_open vs edits st w'.
Proof.
  intros K [(writer & ino & H1 & H2 & H3 & H4 & H5 & H6) M2 M3 M4 M5 M6]. split; auto.
  - exists writer, ino. split_and!; auto; try lia.
    + destruct (fk_fresh _ _ K). lia.
    + eapply at_end_kept; eauto. lia.
    + by rw (fk_dir _ _ K).
    + by rw (fk_data _ _ K).
  - by rw (files_kept_content_at _ _ _ K).
Qed.

Lemma manifest_current_neq db n : ManifestFileName db n <> CurrentFileName db.
Proof. rw /ManifestFileName /CurrentFileName /snprintf64. intros E%app_inv_head. discriminate E. Qed.

(** Writing to one file shows in no other. *)
Lemma io_frame_content_at fd ino w w' p q :
  fs_wf w -> io_frame fd ino w w' -> w_dir w !! q = Some ino -> p <> q -> content_at w' p = content_at w p.
Proof.
  intros Hw F Hq Hne. rw /content_at (fr_dir _ _ _ _ F). destruct (w_dir w !! p) as [i|] eqn:Ei; [|done]. simpl. f_equal.
  apply (fr_data _ _ _ _ F). intros ->. apply Hne. by eapply (fw_inj _ Hw).
Qed.

Lemma io_frame_wf fd ino w w' : io_frame fd ino w w' -> fs_wf w -> fs_wf w'.
Proof. intros [F1 _ _ _ [F5 F6] _] [W1 W2 W3]. split; rw ?F1 ?F5 ?F6; auto. Qed.

(** ** LogAndApply *)

(** The version set after an edit has been applied. *)
Record applied (vs vs' : VersionSet.t) (edit : VersionEdit) (files' : list (list FileMetaData)) : Prop := {
  al_files : strip (Version.files_ (VersionSet.current_ vs')) = VersionSet.sort_levels files';
  al_log : VersionSet.log_number_ vs' = (if has_log_number_ edit then VersionEdit.log_number_ edit else VersionSet.log_number_ vs);
  al_seq : VersionSet.last_sequence_ vs' = VersionEdit.last_sequence_ (VersionSet.complete_edit vs edit);
  al_next : VersionSet.next_file_number_ vs' = VersionSet.next_file_number_ vs;
  al_names : VersionSet.dbname_ vs' = VersionSet.dbname_ vs /\ VersionSet.options_ vs' = VersionSet.options_ vs /\
    VersionSet.manifest_file_number_ vs' = VersionSet.manifest_file_number_ vs;
}.

(** The version set is as it was, but for the writer. *)
Definition unapplied (vs vs' : VersionSet.t) : Prop := VersionSet.set_descriptor (VersionSet.descriptor_log_ vs) vs' = vs.

(** What is new in the version set after an edit is what recovering the edit adds. *)
Lemma recover_applied vs vs' st edit files' :
  manifest_state vs st -> edit_fits vs edit ->
  edited_files edit (strip (Version.files_ (VersionSet.current_ vs))) = Some files' -> keys_apart files' ->
  applied vs vs' edit files' ->
  exists st', VersionSet.recover_edit st (forget_readers (VersionSet.complete_edit vs edit)) = Some st' /\
    manifest_state vs' st' /\ VersionSet.rc_max_seq st' = VersionSet.last_sequence_ vs' /\
    VersionSet.rc_max_file st' = Z.max (VersionSet.rc_max_file st) (VersionEdit.next_file_number_ (VersionSet.complete_edit vs edit)).
Proof.
  intros Hm Hf He Hk [A1 A2 A3 A4 A5].
  destruct (recover_edit_run vs st edit files' Hm Hf He Hk) as (st' & E & H1 & H2 & H3 & H4 & H5 & H6 & H7 & H8).
  pose proof Hm as [_ _ _ _ M5 M6 _]. exists st'. split; [done|]. split; [|split; [congruence|done]].
  assert (VersionSet.last_sequence_ vs <= VersionEdit.last_sequence_ (VersionSet.complete_edit vs edit)).
  { destruct (complete_edit_fields vs edit) as (_ & _ & _ & _ & _ & -> & _). destruct (has_last_sequence_ edit) eqn:Es; [|lia].
    by apply Hf. }
  split; auto; try congruence; lia.
Qed.

Section log_and_apply.
Context (vs : VersionSet.t) (edits : list VersionEdit) (st : VersionSet.recovered) (edit : VersionEdit)
  (files' : list (list FileMetaData)) (e : TableEnv).
Context (Hopen : manifest_open vs edits st (e_world e)) (Hw : fs_wf (e_world e)) (Hfits : edit_fits vs edit)
  (Hedited : edited_files edit (strip (Version.files_ (VersionSet.current_ vs))) = Some files') (Hapart : keys_apart files').
Let complete := VersionSet.complete_edit vs edit.

(** Whatever the writes do: a prefix of the edit's record is in the manifest, all of it
    if the call succeeds, and only then is the version installed. *)
Lemma LogAndApply_run :
  exists s vs' files1 e1 e' k, VersionSet.LogAndApply vs edit e = Some ((s, vs'), e') /\
    VersionSet.add_new_files (VersionSet.options_ vs) (VersionSet.dbname_ vs) (new_files_ edit)
      (VersionSet.retain_levels edit 0 (Version.files_ (VersionSet.current_ vs))) e = Some (files1, e1) /\ env_kept e e1 /\
    (k <= length (encode_out (edit_out complete)))%nat /\
    shows_manifest (VersionSet.dbname_ vs) (VersionSet.manifest_file_number_ vs)
      (manifest_bytes edits ++ take k (encode_out (edit_out complete))) (e_world e') /\
    (exists writer ino, VersionSet.descriptor_log_ vs = Some writer /\ io_frame (WalWriter.fd_ writer) ino (e_world e1) (e_world e') /\
      at_end (e_world e1) (WalWriter.fd_ writer) ino /\
      w_dir (e_world e1) !! ManifestFileName (VersionSet.dbname_ vs) (VersionSet.manifest_file_number_ vs) = Some ino) /\
    e_cache e' = e_cache e /\ (benign (e_world e) -> Status.ok s = true) /\
    if Status.ok s then
      s = Status.OK /\ k = length (encode_out (edit_out complete)) /\ applied vs vs' edit files' /\
      VersionSet.current_ vs' = Version.mk (VersionSet.dbname_ vs) (VersionSet.sort_levels files1) /\
      (edit_fine complete -> exists st', manifest_open vs' (edits ++ [complete]) st' (e_world e') /\
         VersionSet.rc_max_seq st' = VersionSet.last_sequence_ vs' /\
         VersionSet.rc_max_file st' = Z.max (VersionSet.rc_max_file st) (VersionEdit.next_file_number_ complete))
    else unapplied vs vs'.
Proof.
  pose proof Hopen as [(writer & ino & D & H2 & H3 & H4 & H5 & H6) M2 M3 M4 M5 M6].
  rw /VersionSet.LogAndApply. rw (_ : _ && _ = false).
  { destruct (has_log_number_ edit) eqn:El; [|done]. simpl. apply Z.ltb_ge. by apply Hfits. }
  fold complete. destruct (complete_edit_fields vs edit) as (C1 & C2 & _ & _ & C5 & C6 & C7 & C8 & _).
  fold complete in C1, C2, C5, C6, C7, C8. rw C8 (retain_levels_deleted complete edit) //.
  destruct (add_new_files_any (VersionSet.options_ vs) (VersionSet.dbname_ vs) (new_files_ edit)
    (VersionSet.retain_levels edit 0 (Version.files_ (VersionSet.current_ vs))) files' e) as (files1 & e1 & E1 & [K1 Q1] & F1).
  { rw retain_levels_strip. exact Hedited. }
  rw (bind_run _ _ _ _ _ E1). cbn zeta. rw (bind_run _ _ e1 (Status.OK, vs) e1).
  { rw /on_world /VersionSet.OpenManifest D. by destruct e1. }
  cbn iota beta. change (negb (Status.ok Status.OK)) with false. cbn iota. rw (bind_lift _ _ _ _ D).
  pose proof (manifest_open_kept _ _ _ _ _ K1 Hopen) as [(wr & i & D' & G2 & G3 & G4 & G5 & G6) _ G7 _ _ _].
  assert (wr = writer) as -> by congruence. assert (i = ino) as -> by (rw (fk_dir _ _ K1) in G5; congruence).
  destruct (append_edit_run writer complete (e_world e1) ino) as (s & writer' & k & w2 & E2 & R); [lia|done|done|].
  rw (bind_run _ _ _ (s, writer') (mkEnv w2 (e_cache e1))); [by rw /on_world E2|]. cbn iota beta zeta.
  pose proof (files_kept_wf _ _ K1 Hw) as Hw1. pose proof (ar_frame _ _ _ _ _ _ _ _ R) as Fr.
  assert (Hcur : content_at w2 (CurrentFileName (VersionSet.dbname_ vs)) = Some (manifest_line (VersionSet.manifest_file_number_ vs))).
  { erewrite io_frame_content_at; [exact G7|exact Hw1|exact Fr|exact G5|]. intros E. by eapply manifest_current_neq. }
  assert (Hshow : shows_manifest (VersionSet.dbname_ vs) (VersionSet.manifest_file_number_ vs)
    (manifest_bytes edits ++ take k (encode_out (edit_out complete))) w2).
  { split; [apply M2|]. split; [done|]. rw /content_at (fr_dir _ _ _ _ Fr) G5 /= (ar_content _ _ _ _ _ _ _ _ R) G6 //. }
  assert (Hfr : exists writer ino, VersionSet.descriptor_log_ vs = Some writer /\ io_frame (WalWriter.fd_ writer) ino (e_world e1) w2 /\
      at_end (e_world e1) (WalWriter.fd_ writer) ino /\
      w_dir (e_world e1) !! ManifestFileName (VersionSet.dbname_ vs) (VersionSet.manifest_file_number_ vs) = Some ino) by eauto 6.
  assert (Hben : benign (e_world e) -> Status.ok s = true) by (intros Hb; eapply R, files_kept_benign; eauto).
  destruct (Status.ok s) eqn:Es; cbn [negb].
  2:{ exists s, (VersionSet.set_descriptor (Some writer') vs), files1, e1, (mkEnv w2 (e_cache e1)), k.
      split; [done|]. split; [exact E1|]. split; [by split|]. split; [apply R|]. rw Es. split_and!; auto. rw /unapplied. by destruct vs. }
  pose proof (ar_ok _ _ _ _ _ _ _ _ R Es) as Hk. do 2 eexists. exists files1, e1. eexists. exists k.
  split; [done|]. split; [exact E1|]. split; [by split|]. split; [apply R|].
  split_and!; auto. change (Status.ok Status.OK) with true. cbn iota.
  assert (Ha : applied vs (VersionSet.install complete (Version.mk (VersionSet.dbname_ vs) (VersionSet.sort_levels files1))
    (VersionSet.set_descriptor (Some writer') vs)) edit files').
  { rw /VersionSet.install C5 C1 C2. by destruct (has_log_number_ edit) eqn:El; split; rw /= ?sort_levels_strip ?F1 // El. }
  split; [done|]. split; [done|]. split; [exact Ha|]. split; [rw /VersionSet.install C5 C1; by destruct (has_log_number_ edit)|]. intros Hfine.
  destruct (recover_applied vs _ st edit files' M6 Hfits Hedited Hapart Ha) as (st' & Er & Hms & Hseq & Hmax).
  exists st'. split; [|done]. pose proof (al_names _ _ _ _ Ha) as (N1 & _ & N3). split; rw ?N1 ?N3; auto.
  2: lia.
  - exists writer', ino. split.
    { rw /VersionSet.install C5 C1. by destruct (has_log_number_ edit). }
    rw (ar_fd _ _ _ _ _ _ _ _ R) (ar_size _ _ _ _ _ _ _ _ R) /= (fr_dir _ _ _ _ Fr).
    destruct (fr_fresh _ _ _ _ Fr) as [_ ->]. split_and!; auto; try lia; try apply u64_range; [apply R|].
    rw manifest_bytes_snoc (ar_content _ _ _ _ _ _ _ _ R) Hk firstn_all G6 //.
  - apply Forall_app. auto.
  - rw replay_snoc M5. exact Er.
Qed.
End log_and_apply.

(** ** The claim *)

(** [vs] has these files (without their readers), log number and sequence number, and
    the numbers it will give to new files are not in use. *)
Definition restored (vs : VersionSet.t) (files : list (list FileMetaData)) (log seq : Z) : Prop :=
  strip (Version.files_ (VersionSet.current_ vs)) = files /\ VersionSet.log_number_ vs = log /\
  VersionSet.last_sequence_ vs = seq /\ Forall (Forall (fun f => number f < VersionSet.next_file_number_ vs)) files.

Lemma same_levels_Forall (P : FileMetaData -> Prop) a b : same_levels a b -> Forall (Forall P) b -> Forall (Forall P) a.
Proof. induction 1 as [|x y a b Hxy _ IH]; [done|]. intros [Hy Hb]%Forall_cons. constructor; [by rewrite -> Hxy|auto]. Qed.

(** What is recovered is what the manifest's state says of the version set. *)
Lemma recovered_restored vs vs2 st :
  manifest_state vs st -> recovered_as vs2 st ->
  restored vs2 (strip (Version.files_ (VersionSet.current_ vs))) (VersionSet.log_number_ vs) (VersionSet.rc_max_seq st).
Proof.
  intros [M1 M2 M3 M4 M5 M6 M7] [R1 R2 R3 R4]. split_and!; [congruence..|]. rw M1.
  eapply same_levels_Forall; [apply sort_levels_perm|]. eapply Forall_impl; [exact M7|]. intros fs Hfs.
  eapply Forall_impl; [exact Hfs|]. intros f Hf. simpl in Hf. rw R2 Z.gtb_ltb. case_bool; lia.
Qed.

Lemma shows_manifest_same db n c w w' :
  (forall p, content_at w' p = content_at w p) -> shows_manifest db n c w -> shows_manifest db n c w'.
Proof. intros H (H1 & H2 & H3). rw /shows_manifest !H. auto. Qed.

Lemma take_0_out e edits : manifest_bytes edits = manifest_bytes edits ++ take 0 (encode_out e).
Proof. by rw app_nil_r. Qed.

(** The state after an edit, whether or not it was acknowledged. *)
Lemma recover_edit_restored vs st edit files' :
  manifest_state vs st -> edit_fits vs edit ->
  edited_files edit (strip (Version.files_ (VersionSet.current_ vs))) = Some files' -> keys_apart files' ->
  exists st', VersionSet.recover_edit st (forget_readers (VersionSet.complete_edit vs edit)) = Some st' /\
    forall vs2, recovered_as vs2 st' -> restored vs2 (VersionSet.sort_levels files')
      (if has_log_number_ edit then VersionEdit.log_number_ edit else VersionSet.log_number_ vs)
      (VersionEdit.last_sequence_ (VersionSet.complete_edit vs edit)).
Proof.
  intros Hm Hf He Hk. destruct (recover_edit_run vs st edit files' Hm Hf He Hk) as (st' & E & H1 & H2 & H3 & H4 & H5 & H6 & H7 & H8).
  exists st'. split; [done|]. intros vs2 [R1 R2 R3 R4]. split_and!; [congruence..|]. rw -H1.
  eapply same_levels_Forall; [apply sort_levels_perm|]. eapply Forall_impl; [exact H8|]. intros fs Hfs.
  eapply Forall_impl; [exact Hfs|]. intros f Hfn. simpl in Hfn. rw R2 Z.gtb_ltb. pose proof (ms_next _ _ Hm). case_bool; lia.
Qed.

(** C7: [LogAndApply] is atomic.  The manifest is open and holds the edits applied so
    far; any edit that the program builds (its levels exist, its numbers do not run ahead
    of the counters) is applied while the writes to the manifest fail, are cut short or
    interrupted in any way.  The call returns; the new version is installed exactly if
    it returns [OK]; and whenever the database is opened again, on a file system that
    shows the same files, [Recover] returns [OK] with the files, log number and sequence
    number from before the edit or with those from after it, never anything in
    between, and with those from after it if the call returned [OK].  The numbers that
    the recovered version set gives to new files are larger than those in use. *)
Theorem log_and_apply_atomic (vs : VersionSet.t) (edits : list VersionEdit) (st : VersionSet.recovered) (edit : VersionEdit)
    (files' : list (list FileMetaData)) (e : TableEnv) :
  manifest_open vs edits st (e_world e) -> fs_wf (e_world e) -> edit_fits vs edit ->
  edited_files edit (strip (Version.files_ (VersionSet.current_ vs))) = Some files' -> keys_apart files' ->
  edit_fine (VersionSet.complete_edit vs edit) ->
  exists s vs' e', VersionSet.LogAndApply vs edit e = Some ((s, vs'), e') /\
    (if Status.ok s then applied vs vs' edit files' else unapplied vs vs') /\
    forall vs0 e2, VersionSet.dbname_ vs0 = VersionSet.dbname_ vs -> fs_wf (e_world e2) -> benign (e_world e2) ->
      (forall p, content_at (e_world e2) p = content_at (e_world e') p) ->
      exists vs2 e3, VersionSet.Recover vs0 e2 = Some ((Status.OK, vs2), e3) /\
        (restored vs2 (VersionSet.sort_levels files')
           (if has_log_number_ edit then VersionEdit.log_number_ edit else VersionSet.log_number_ vs)
           (VersionEdit.last_sequence_ (VersionSet.complete_edit vs edit)) \/
         Status.ok s = false /\
         restored vs2 (strip (Version.files_ (VersionSet.current_ vs))) (VersionSet.log_number_ vs) (VersionSet.rc_max_seq st)).
Proof.
  intros Hopen Hw Hfits Hed Hk Hfine.
  destruct (LogAndApply_run vs edits st edit files' e Hopen Hw Hfits Hed Hk) as (s & vs' & fs1 & e1 & e' & k & E & _ & _ & Hkl & Hsh & _ & _ & _ & Hs).
  exists s, vs', e'. split; [done|]. split; [destruct (Status.ok s); tauto|]. intros vs0 e2 Hdb Hw2 Hb2 Hsame.
  pose proof Hopen as [_ _ _ M4 M5 M6].
  destruct (recover_edit_restored vs st edit files' M6 Hfits Hed Hk) as (st' & Er & Hnew).
  set (c := VersionSet.complete_edit vs edit) in *. apply (shows_manifest_same _ _ _ _ _ Hsame) in Hsh. rw -Hdb in Hsh.
  destruct (decide (k = length (encode_out (edit_out c)))) as [->|Hne].
  - rw firstn_all -manifest_bytes_snoc (take_0_out (edit_out c)) in Hsh.
    destruct (Recover_run vs0 _ (edits ++ [c]) (edit_out c) 0 st' e2 Hw2 Hb2 Hsh) as (vs2 & e3 & E3 & _ & Hr & _);
      [apply Hfine|apply length_encode_out|apply Forall_app; auto|by rw replay_snoc M5|].
    exists vs2, e3. split; [done|]. left. auto.
  - destruct (Recover_run vs0 _ edits (edit_out c) k st e2 Hw2 Hb2 Hsh) as (vs2 & e3 & E3 & _ & Hr & _); auto;
      [apply Hfine|lia|].
    exists vs2, e3. split; [done|]. right. split; [|by eapply recovered_restored].
    destruct (Status.ok s) eqn:Es; [|done]. by destruct Hs as (_ & ? & _).
Qed.

(** A manifest with a snapshot of an empty version, and an edit whose record is cut
    short after ten bytes. *)
Definition sample_vs : VersionSet.t :=
  VersionSet.mk (str "db") None (Version.New (str "db")) 5 3 0 4 (Some (WalWriter.mk (ManifestFileName (str "db") 3) 3 0)).

Definition small_edit : VersionEdit := SetLogNumber (AddFile NewVersionEdit 0 4 100 (str "a") (str "z") None) 4.

Definition sample_world (io : list io_result) : World :=
  mkWorld (<[ManifestFileName (str "db") 3 := 1%nat]> {[CurrentFileName (str "db") := 0%nat]})
    (<[1%nat := manifest_bytes [VersionSet.snapshot_edit sample_vs]]> {[0%nat := manifest_line 3]})
    {[3 := mkOpenFile 1 0 true]} 2 4 0 io [].

Lemma sample_world_wf io : fs_wf (sample_world io).
Proof.
  split; simpl.
  - intros p q i. rewrite -> !lookup_insert_Some, !lookup_singleton_Some. naive_solver.
  - intros p i. rewrite -> lookup_insert_Some, lookup_singleton_Some. intros [[_ <-]|(_ & _ & <-)]; lia.
  - lia.
Qed.

Lemma size_edit_fine e : edit_ok e -> size_of (EncodeTo e []) < 900 -> edit_fine e.
Proof. intros He Hs. split; [done|]. apply out_ok_small; [lia|done|]. rw /size_of in Hs. simpl. lia. Qed.

Lemma sample_manifest_open io :
  manifest_open sample_vs [VersionSet.snapshot_edit sample_vs] (VersionSet.mkRecovered no_files 5 0 4) (sample_world io).
Proof.
  split.
  - eexists _, 1%nat. split; [reflexivity|]. split; [done|]. split; [done|]. split_and!.
    + exists (mkOpenFile 1 0 true). simpl. rw lookup_singleton_eq. auto.
    + by rw /= lookup_insert_eq.
    + by rw /file_content /= lookup_insert_eq.
  - done.
  - rw /content_at /= lookup_insert_ne //.
  - constructor; [|constructor]. apply size_edit_fine; [|vm_compute; reflexivity].
    split; simpl; split_and?; try done; repeat (constructor; try done).
  - vm_compute. reflexivity.
  - split; try (vm_compute; done).
    + split; [constructor|]. by repeat (constructor; [apply NoDup_nil_2|]).
    + by repeat constructor.
Qed.

Lemma log_and_apply_atomic_witness :
  exists s vs' e', VersionSet.LogAndApply sample_vs small_edit (mkEnv (sample_world [IoPartial 10; IoFail 5]) (NewBlockCache 100))
      = Some ((s, vs'), e') /\
    forall e2, fs_wf (e_world e2) -> benign (e_world e2) -> (forall p, content_at (e_world e2) p = content_at (e_world e') p) ->
      exists vs2 e3, VersionSet.Recover sample_vs e2 = Some ((Status.OK, vs2), e3) /\ VersionSet.log_number_ vs2 = 4.
Proof.
  destruct (log_and_apply_atomic sample_vs [VersionSet.snapshot_edit sample_vs] (VersionSet.mkRecovered no_files 5 0 4) small_edit
    ([mkFile 4 100 (str "a") (str "z") None] :: replicate 6 []) (mkEnv (sample_world [IoPartial 10; IoFail 5]) (NewBlockCache 100)))
    as (s & vs' & e' & E & _ & H).
  - apply sample_manifest_open.
  - apply sample_world_wf.
  - split; simpl; try done. constructor; [simpl; lia|constructor].
  - vm_compute. reflexivity.
  - split; simpl; [apply NoDup_singleton|]. by repeat (constructor; [apply NoDup_nil_2|]).
  - apply size_edit_fine; [|vm_compute; reflexivity]. split; simpl; split_and?; try done; repeat (constructor; try done).
  - exists s, vs', e'. split; [exact E|]. intros e2 Hw Hb Hs. destruct (H sample_vs e2 eq_refl Hw Hb Hs) as (vs2 & e3 & E3 & Hr).
    exists vs2, e3. split; [exact E3|]. destruct Hr as [Hr|[_ Hr]]; apply Hr.
Defined.

(** ** LogAndApply beside the tables *)

Lemma add_new_files_readers options db items files files1 (e : TableEnv) :
  Forall (fun n : Z * FileMetaData => is_Some (reader n.2)) items -> push_all items files = Some files1 ->
  VersionSet.add_new_files options db items files e = Some (files1, e).
Proof.
  revert files; induction items as [|[level f] items IH]; intros files; simpl; [by intros _ [= <-]|].
  intros [[r Hr] Hi]%Forall_cons. destruct (VersionSet.push_file level f files) as [fs|] eqn:Ep; [|done]. simpl. intros Hp.
  simpl in Hr. rw (bind_run _ _ e f e).
  { destruct options as [o|]; [|done]. rw (bind_run _ _ e (Status.OK, f) e); [by rw /Version.OpenReader Hr|done]. }
  rw (bind_lift _ _ _ _ Ep). by apply IH.
Qed.

Lemma push_all_strip items files files1 :
  push_all items files = Some files1 ->
  push_all ((fun n : Z * FileMetaData => (n.1, forget_reader n.2)) <$> items) (strip files) = Some (strip files1).
Proof.
  revert files; induction items as [|[level f] items IH]; intros files; simpl; [by intros [= <-]|].
  destruct (VersionSet.push_file level f files) as [fs|] eqn:Ep; [|done]. simpl. intros Hp.
  rw (push_file_strip level f f files fs) //=. by apply IH.
Qed.

Section store_log_and_apply.
Context (db : bytes) (R : registry) (vs : VersionSet.t) (edits : list VersionEdit) (st : VersionSet.recovered)
  (edit : VersionEdit) (files1 : list (list FileMetaData)) (e : TableEnv).
Context (Hs : store db R e) (Hdb : VersionSet.dbname_ vs = db) (Hopen : manifest_open vs edits st (e_world e))
  (Hfits : edit_fits vs edit) (Hfine : edit_fine (VersionSet.complete_edit vs edit))
  (Hreaders : Forall (fun n : Z * FileMetaData => is_Some (reader n.2)) (new_files_ edit))
  (Hpush : push_all (new_files_ edit) (VersionSet.retain_levels edit 0 (Version.files_ (VersionSet.current_ vs))) = Some files1)
  (Hapart : keys_apart (strip files1)).

(** In a calm file system the edit is applied, and the tables are as they were. *)
Lemma store_LogAndApply :
  exists vs' st' e', VersionSet.LogAndApply vs edit e = Some ((Status.OK, vs'), e') /\
    store db (rebase R (e_world e')) e' /\
    (exists fd, changes [ManifestFileName db (VersionSet.manifest_file_number_ vs)] [fd] (e_world e) (e_world e') /\
       exists writer, VersionSet.descriptor_log_ vs = Some writer /\ fd = WalWriter.fd_ writer) /\
    manifest_open vs' (edits ++ [VersionSet.complete_edit vs edit]) st' (e_world e') /\
    VersionSet.rc_max_seq st' = VersionSet.last_sequence_ vs' /\
    VersionSet.rc_max_file st' = Z.max (VersionSet.rc_max_file st) (VersionEdit.next_file_number_ (VersionSet.complete_edit vs edit)) /\
    applied vs vs' edit (strip files1) /\ VersionSet.current_ vs' = Version.mk db (VersionSet.sort_levels files1).
Proof.
  destruct (LogAndApply_run vs edits st edit (strip files1) e Hopen (store_wf _ _ _ Hs) Hfits) as
    (s & vs' & fs1 & e1 & e' & k & E & Ea & Hk & _ & _ & (writer & ino & Hwr & F & He & Hd) & Hc & Hben & Hok);
    [|done|].
  { rw /edited_files /stripped_new -retain_levels_strip. by apply push_all_strip. }
  rewrite -> (add_new_files_readers _ _ _ _ _ e Hreaders Hpush) in Ea. injection Ea as <- <-.
  specialize (Hben (calm_benign _ (so_calm _ _ _ Hs))). rw Hben in Hok. destruct Hok as (-> & _ & Ha & Hcur & Hst).
  destruct (Hst Hfine) as (st' & Hopen' & Hseq & Hmax). rw Hdb in Hd Hcur.
  destruct (store_append db R e _ ino (WalWriter.fd_ writer) (e_world e') Hs (manifest_not_table db _) Hd He F) as [Hs' Hch].
  rw -Hc in Hs'. exists vs', st', e'. split; [done|]. split; [by destruct e'|]. split; [by exists (WalWriter.fd_ writer); eauto|].
  split_and!; auto.
Qed.
End store_log_and_apply.

(** ** An open manifest while other things change *)

(** The counters have gone up. *)
Record vs_advanced (vs vs' : VersionSet.t) : Prop := {
  va_names : VersionSet.dbname_ vs' = VersionSet.dbname_ vs /\ VersionSet.options_ vs' = VersionSet.options_ vs;
  va_files : strip (Version.files_ (VersionSet.current_ vs')) = strip (Version.files_ (VersionSet.current_ vs));
  va_manifest : VersionSet.manifest_file_number_ vs' = VersionSet.manifest_file_number_ vs;
  va_writer : VersionSet.descriptor_log_ vs' = VersionSet.descriptor_log_ vs;
  va_log : VersionSet.log_number_ vs' = VersionSet.log_number_ vs;
  va_seq : VersionSet.last_sequence_ vs <= VersionSet.last_sequence_ vs';
  va_next : VersionSet.next_file_number_ vs <= VersionSet.next_file_number_ vs';
}.

Lemma manifest_open_advanced vs vs' edits st w : vs_advanced vs vs' -> manifest_open vs edits st w -> manifest_open vs' edits st w.
Proof.
  intros [[A1 _] A2 A3 A4 A5 A6 A7] [M1 M2 M3 M4 M5 [S1 S2 S3 S4 S5 S6 S7]].
  split; rw ?A1 ?A2 ?A3 ?A4 //. split; auto; try congruence; lia.
Qed.

Lemma manifest_open_changes vs edits st w w' paths fds :
  manifest_open vs edits st w -> fs_wf w -> changes paths fds w w' ->
  ManifestFileName (VersionSet.dbname_ vs) (VersionSet.manifest_file_number_ vs) ∉ paths ->
  CurrentFileName (VersionSet.dbname_ vs) ∉ paths ->
  (forall writer, VersionSet.descriptor_log_ vs = Some writer -> WalWriter.fd_ writer ∉ fds) ->
  manifest_open vs edits st w'.
Proof.
  intros [(writer & ino & D & H2 & H3 & H4 & H5 & H6) M2 M3 M4 M5 M6] Hw Hch Hp Hc Hf.
  destruct (at_end_changes _ _ _ _ _ _ _ Hch Hw (proj2 H2) (Hf _ D) H5 Hp H4) as (He & Hd & Hdir).
  split; auto.
  - exists writer, ino. destruct (ch_fresh _ _ _ _ Hch). split_and!; auto; try lia. congruence.
  - by rw (changes_content_at _ _ _ _ _ Hw Hch Hc).
Qed.
