(* ===== verification/NewManifest.v ===== *)
(** * NewManifest: a manifest from scratch

    When the version set has no manifest open, which is so for a new database and after
    [VersionSet::Recover], the first [LogAndApply] creates one: it writes a snapshot
    of the current version as its first record and makes CURRENT name it.  Replaying
    the snapshot gives the version back. *)

From S2P Require Import Prelude Status Slice Coding Format Posix Env Filename Wal Entry Iterator Block BlockCache Options.
From S2P Require Import SSTableBuilder SSTableReader TwoLevelIterator VersionEdit Version Storage VersionSet Manifest.

#[local] Open Scope Z_scope.

(** ** Snapshots *)

(** The new files of a snapshot, from [level] on. *)
Fixpoint level_items (level : Z) (files : list (list FileMetaData)) : list (Z * FileMetaData) :=
  match files with
  | [] => []
  | fs :: files' => (pair level <$> (forget_reader <$> fs)) ++ level_items (level + 1) files'
  end.

Definition with_files (items : list (Z * FileMetaData)) (e : VersionEdit) : VersionEdit :=
  mkEdit (has_comparator_ e) (comparator_name_ e) (has_log_number_ e) (VersionEdit.log_number_ e) (has_next_file_number_ e)
    (VersionEdit.next_file_number_ e) (has_last_sequence_ e) (VersionEdit.last_sequence_ e) (deleted_files_ e) (new_files_ e ++ items).

Lemma with_files_nil e : with_files [] e = e.
Proof. rw /with_files app_nil_r. by destruct e. Qed.

Lemma with_files_app a b e : with_files b (with_files a e) = with_files (a ++ b) e.
Proof. by rw /with_files /= app_assoc. Qed.

Lemma snapshot_level level (fs : list FileMetaData) edit :
  foldl (fun edit f => AddFile edit level (number f) (file_size f) (smallest_key f) (largest_key f) None) edit fs =
  with_files (pair level <$> (forget_reader <$> fs)) edit.
Proof.
  revert edit; induction fs as [|f fs IH]; intros edit; [by rw with_files_nil|].
  cbn [foldl]. rw IH !fmap_cons -(with_files_app [(level, forget_reader f)]) //.
Qed.

Lemma snapshot_files_with level files edit :
  VersionSet.snapshot_files level files edit = with_files (level_items level files) edit.
Proof.
  revert level edit; induction files as [|fs files IH]; intros level edit; [by rw with_files_nil|].
  cbn [VersionSet.snapshot_files]. rw snapshot_level IH with_files_app //.
Qed.

Lemma push_all_app a b files files1 files2 :
  push_all a files = Some files1 -> push_all b files1 = Some files2 -> push_all (a ++ b) files = Some files2.
Proof.
  revert files; induction a as [|[level f] a IH]; intros files; simpl; [by intros [= ->]|].
  destruct (VersionSet.push_file level f files); [|done]. simpl. auto.
Qed.

Lemma push_level level pre fs fs' post :
  level = Z.of_nat (length pre) ->
  push_all (pair level <$> fs') (pre ++ fs :: post) = Some (pre ++ (fs ++ fs') :: post).
Proof.
  intros ->. revert fs; induction fs' as [|f fs' IH]; intros fs; [by rw app_nil_r|].
  rw fmap_cons. cbn [push_all]. rw /VersionSet.push_file (proj2 (Z.ltb_ge _ _)); [lia|].
  rw Nat2Z.id list_lookup_middle //=. rw insert_app_r_alt // Nat.sub_diag /= IH. by rw -app_assoc.
Qed.

Lemma push_items level pre files :
  level = Z.of_nat (length pre) ->
  push_all (level_items level files) (pre ++ replicate (length files) []) = Some (pre ++ strip files).
Proof.
  revert level pre; induction files as [|fs files IH]; intros level pre Hl; [done|].
  cbn [level_items length replicate]. eapply push_all_app; [by apply push_level|].
  change (pre ++ ([] ++ (forget_reader <$> fs)) :: replicate (length files) []) with
    (pre ++ [forget_reader <$> fs] ++ replicate (length files) []).
  rw app_assoc IH; [rw length_app /=; lia|]. by rw -app_assoc.
Qed.

Lemma level_items_forget level files :
  (fun n : Z * FileMetaData => (n.1, forget_reader n.2)) <$> level_items level files = level_items level files.
Proof.
  revert level; induction files as [|fs files IH]; intros level; [done|]. cbn [level_items]. rw fmap_app IH. f_equal.
  clear. induction fs as [|f fs IH]; [done|]. rw !fmap_cons IH //.
Qed.

Lemma level_items_Forall (P : FileMetaData -> Prop) level files :
  Forall (Forall P) (strip files) -> Forall (fun n : Z * FileMetaData => P n.2) (level_items level files).
Proof.
  revert level; induction files as [|fs files IH]; intros level; [constructor|]. cbn [level_items strip fmap list_fmap].
  intros [Hf Hs]%Forall_cons. apply Forall_app. split; [|by apply IH]. apply Forall_fmap. eapply Forall_impl; [exact Hf|]. done.
Qed.

Lemma level_items_levels level files :
  Forall (fun n : Z * FileMetaData => level <= n.1 < level + Z.of_nat (length files)) (level_items level files).
Proof.
  revert level; induction files as [|fs files IH]; intros level; [constructor|]. cbn [level_items length]. apply Forall_app. split.
  - apply Forall_fmap, Forall_true. simpl. lia.
  - eapply Forall_impl; [apply IH|]. simpl. lia.
Qed.

(** Levels as [LogAndApply] and [Recover] leave them. *)
Record levels_ok (files : list (list FileMetaData)) : Prop := {
  lo_length : length files = Z.to_nat kNumLevels;
  lo_apart : keys_apart (strip files);
  lo_sorted : VersionSet.sort_levels (strip files) = strip files;
}.

Lemma manifest_state_levels vs st : manifest_state vs st -> levels_ok (Version.files_ (VersionSet.current_ vs)).
Proof.
  intros [M1 M2 M3 _ _ _ _]. pose proof (sort_levels_perm (VersionSet.rc_files st)) as Hp. split.
  - rw -strip_length M1 (Forall2_length _ _ _ Hp) //.
  - rw M1. eapply keys_apart_perm; [|exact M2]. by symmetry.
  - rw M1. apply sort_levels_unique; [done|]. eapply keys_apart_perm; [|exact M2]. by symmetry.
Qed.

(** Levels in order. *)
Lemma levels_ok_sorted files :
  levels_ok files ->
  exists fs0 levels, files = fs0 :: levels /\ length levels = 6%nat /\
    StronglySorted (fun a b => newer_number a b = true) fs0 /\ Forall (StronglySorted (fun a b => smaller_key a b = true)) levels.
Proof.
  intros [L1 L2 L3]. destruct files as [|fs0 levels]; [done|]. exists fs0, levels. split; [done|]. split; [by injection L1|].
  rw /strip fmap_cons in L2 L3. destruct L2 as [N0 Ns]. injection L3 as E0 El. split.
  - apply sorted_forget; [done|]. rw -E0. by apply (std_sort_sorted newer_number number).
  - eapply levels_sorted; [symmetry; exact El|exact Ns].
Qed.

(** What replaying a snapshot gives. *)
Definition snapshot_state (vs : VersionSet.t) : VersionSet.recovered :=
  VersionSet.mkRecovered (strip (Version.files_ (VersionSet.current_ vs))) (VersionSet.next_file_number_ vs)
    (VersionSet.last_sequence_ vs) (VersionSet.log_number_ vs).

Section snapshot.
Context (vs : VersionSet.t).
Let files := Version.files_ (VersionSet.current_ vs).
Context (Hlevels : levels_ok files)
  (Hnumbers : Forall (Forall (fun f => number f < VersionSet.next_file_number_ vs)) (strip files))
  (Hnext : 0 <= VersionSet.next_file_number_ vs < 2 ^ 64) (Hseq : 0 <= VersionSet.last_sequence_ vs < 2 ^ 64)
  (Hlog : 0 <= VersionSet.log_number_ vs < 2 ^ 64).

Lemma snapshot_replay : replay nothing_recovered [VersionSet.snapshot_edit vs] = Some (snapshot_state vs).
Proof.
  rw /VersionSet.snapshot_edit snapshot_files_with. cbn [replay]. rw /VersionSet.recover_edit. cbn.
  rw level_items_forget. fold files.
  assert (Hl : VersionSet.retain_levels (forget_readers (with_files (level_items 0 files) (SetLogNumber (VersionEdit.SetLastSequence (SetNextFile
    (SetComparatorName NewVersionEdit (str "byte_comparator")) (VersionSet.next_file_number_ vs)) (VersionSet.last_sequence_ vs))
    (VersionSet.log_number_ vs)))) 0 no_files = [] ++ replicate (length files) []) by (rw (lo_length _ Hlevels) //).
  rw Hl. rw (recover_new_files_run _ _ (strip files)).
  - by rw push_items.
  - apply (level_items_Forall (fun f => number f < (if VersionSet.next_file_number_ vs >? 0 then VersionSet.next_file_number_ vs else 0))).
    eapply Forall_impl; [exact Hnumbers|]. intros fs Hf. eapply Forall_impl; [exact Hf|]. simpl.
    intros f Hn. rw Z.gtb_ltb. case_bool; lia.
  - cbn. rw /snapshot_state -/files !Z.gtb_ltb. do 2 f_equal; case_bool; lia.
Qed.

Lemma snapshot_manifest_state : manifest_state vs (snapshot_state vs).
Proof.
  destruct Hlevels as [L1 L2 L3]. split; simpl; auto; try lia; fold files; [by rw strip_length].
Qed.
End snapshot.

(** ** The size of a snapshot *)

Definition item_size (f : FileMetaData) : Z := 29 + size_of (smallest_key f) + size_of (largest_key f).

(** The bytes that the files of a version take in a snapshot. *)
Definition snapshot_size (files : list (list FileMetaData)) : Z := foldr (fun f n => item_size f + n) 0 (concat files).

Lemma snapshot_size_cons fs files :
  snapshot_size (fs :: files) = foldr (fun f n => item_size f + n) 0 fs + snapshot_size files.
Proof.
  rw /snapshot_size. cbn [concat]. rw foldr_app. induction fs as [|f fs IH]; [done|]. cbn [foldr]. rw IH. lia.
Qed.

Lemma snapshot_size_strip files : snapshot_size (strip files) = snapshot_size files.
Proof.
  induction files as [|fs files IH]; [done|]. rw /strip fmap_cons -/(strip files) !snapshot_size_cons IH. f_equal.
  induction fs as [|f fs IHf]; [done|]. rw fmap_cons. cbn [foldr]. rw IHf //.
Qed.

Lemma size_put_new_file n : size_of (put_new_file [] n) = item_size n.2.
Proof. rw /put_new_file /put_string /item_size /PutFixed32 /PutFixed64. rw ?size_of_app. size_tac. Qed.

Lemma size_level_items level files : size_of (concat (put_new_file [] <$> level_items level files)) = snapshot_size files.
Proof.
  revert level; induction files as [|fs files IH]; intros level; [done|]. cbn [level_items].
  rw fmap_app concat_app size_of_app IH snapshot_size_cons. f_equal. clear.
  induction fs as [|f fs IHf]; [done|]. rw !fmap_cons. cbn [concat foldr]. rw size_of_app IHf size_put_new_file //.
Qed.

(** A snapshot of up to 32 MiB can be read back. *)
Lemma snapshot_fine vs :
  let files := Version.files_ (VersionSet.current_ vs) in
  length files = Z.to_nat kNumLevels -> Forall (Forall file_ok) (strip files) -> snapshot_size files <= 2 ^ 25 ->
  0 <= VersionSet.next_file_number_ vs < 2 ^ 64 -> 0 <= VersionSet.last_sequence_ vs < 2 ^ 64 -> 0 <= VersionSet.log_number_ vs < 2 ^ 64 ->
  edit_fine (VersionSet.snapshot_edit vs).
Proof.
  intros files Hl Hf Hs H1 H2 H3. rw /VersionSet.snapshot_edit snapshot_files_with. fold files. split.
  - split; simpl; split_and?; try done; try lia; try constructor. pose proof (level_items_Forall file_ok 0 files Hf) as Hi.
    pose proof (level_items_levels 0 files) as Hlv. rewrite -> Forall_forall in Hi, Hlv. apply Forall_forall. intros n Hn.
    split; [|auto]. specialize (Hlv n Hn). rw Hl in Hlv. change (Z.of_nat (Z.to_nat kNumLevels)) with 7 in Hlv. lia.
  - split; [done|]. split; [done|]. rw /edit_out. cbn [WalReader.o_key WalReader.o_value]. rw EncodeTo_segments. cbn.
    repeat rw ?size_of_cons ?size_of_app. rw size_level_items /kMaxRecordSize. size_tac.
Qed.

(** ** OpenManifest *)

(** A version set that is about to create its manifest. *)
Record manifest_new (vs : VersionSet.t) (w : World) : Prop := {
  mn_none : VersionSet.descriptor_log_ vs = None;
  mn_dir : is_Some (w_dir w !! VersionSet.dbname_ vs);
  mn_free : forall k, VersionSet.next_file_number_ vs <= k < 2 ^ 64 -> w_dir w !! ManifestFileName (VersionSet.dbname_ vs) k = None;
  mn_levels : levels_ok (Version.files_ (VersionSet.current_ vs));
  mn_files : Forall (Forall file_ok) (strip (Version.files_ (VersionSet.current_ vs)));
  mn_numbers : Forall (Forall (fun f => number f < VersionSet.next_file_number_ vs)) (strip (Version.files_ (VersionSet.current_ vs)));
  mn_size : snapshot_size (Version.files_ (VersionSet.current_ vs)) <= 2 ^ 25;
  mn_next : 0 <= VersionSet.next_file_number_ vs /\ VersionSet.next_file_number_ vs + 1 < 2 ^ 64;
  mn_seq : 0 <= VersionSet.last_sequence_ vs < 2 ^ 64;
  mn_log : 0 <= VersionSet.log_number_ vs < 2 ^ 64;
}.

(** The version set with its manifest. *)
Definition with_manifest (writer : WalWriter.t) (vs : VersionSet.t) : VersionSet.t :=
  VersionSet.set_descriptor (Some writer) (VersionSet.set_manifest (VersionSet.next_file_number_ vs)
    (VersionSet.set_next (VersionSet.next_file_number_ vs + 1) vs)).

(** The names that creating a manifest touches. *)
Definition manifest_paths (db : bytes) (n : Z) : list bytes := [ManifestFileName db n; tmp_current db; CurrentFileName db].

Lemma longer_neq (a b : bytes) : b <> [] -> a <> a ++ b.
Proof. intros Hb E. apply (f_equal length) in E. rw length_app in E. destruct b; [done|]. simpl in E. lia. Qed.

Lemma db_not_in_manifest_paths db n : db ∉ manifest_paths db n.
Proof.
  rw /manifest_paths /ManifestFileName /tmp_current /CurrentFileName. intros H.
  repeat (apply elem_of_cons in H as [H|H]; [revert H; rewrite <- ?app_assoc; by apply longer_neq|]). by apply elem_of_nil in H.
Qed.

Lemma db_not_log db n : db <> LogFileName db n.
Proof. rw /LogFileName /MakeFileName. by apply longer_neq. Qed.

Lemma db_not_table db n : db <> TableFileName db n.
Proof. rw /TableFileName /MakeFileName. by apply longer_neq. Qed.

Lemma manifest_tmp_neq db n : ManifestFileName db n <> tmp_current db.
Proof. rw /ManifestFileName /tmp_current /CurrentFileName /snprintf64. rewrite <- app_assoc. intros E%app_inv_head. discriminate E. Qed.

Section open_manifest.
Context (vs : VersionSet.t) (w : World) (Hw : fs_wf w) (Hc : calm w) (Hn : manifest_new vs w).
Let db := VersionSet.dbname_ vs.
Let n := VersionSet.next_file_number_ vs.

Lemma OpenManifest_run :
  exists writer w', VersionSet.OpenManifest vs w = Some ((Status.OK, with_manifest writer vs), w') /\
    WalWriter.fd_ writer = w_fresh_fd w /\ changes (manifest_paths db n) [] w w' /\
    manifest_open (with_manifest writer vs) [VersionSet.snapshot_edit (with_manifest writer vs)]
      (snapshot_state (with_manifest writer vs)) w'.
Proof.
  destruct Hn as [N1 N2 N3 N4 N5 N6 N7 N8 N9 N10]. fold db n in N2, N3, N8. pose proof (fw_fd _ Hw) as Hfd.
  destruct (WalWriter_Open_run w (ManifestFileName db n) Hw Hc (N3 n ltac:(lia))) as (w1 & E1 & He1 & Ho).
  set (wr := WalWriter.mk (ManifestFileName db n) (w_fresh_fd w) 0) in *.
  set (vs1 := VersionSet.set_manifest n (VersionSet.set_next (n + 1) vs)).
  destruct (append_edit_run wr (VersionSet.snapshot_edit vs1) w1 (w_fresh_ino w)) as (s & wr' & k & w2 & E2 & R); [done|done|done|].
  pose proof (file_opened_changes _ _ _ _ Ho) as C1. pose proof (ch_calm _ _ _ _ C1 Hc) as Hc1.
  pose proof (ar_benign _ _ _ _ _ _ _ _ R (calm_benign _ Hc1)) as Hok. pose proof (ar_ok _ _ _ _ _ _ _ _ R Hok) as Hk.
  pose proof (ar_frame _ _ _ _ _ _ _ _ R) as F.
  pose proof (changes_new_fd _ _ _ _ _ _ C1 ltac:(reflexivity) (io_frame_changes _ _ _ _ _ (fo_path _ _ _ _ Ho) F)) as C2.
  assert (Hne : db ∉ manifest_paths db n) by apply db_not_in_manifest_paths.
  assert (C2' : changes (manifest_paths db n) [] w w2).
  { eapply changes_mono; [| |exact C2]; [intros x ->%list_elem_of_singleton; by left|done]. }
  destruct (SetCurrentFile_calm db n w2) as (w3 & E3 & C3 & Hcur).
  { by eapply ch_wf. } { by eapply ch_calm. } { by rw (ch_dir _ _ _ _ C2'). }
  { intros E. apply Hne. rw /manifest_paths -E. right. left. } { intros E. apply Hne. rw /manifest_paths -E. right. right. left. }
  pose proof (ch_wf _ _ _ _ C2' Hw) as Hw2.
  assert (Hdir2 : w_dir w2 !! ManifestFileName db n = Some (w_fresh_ino w)) by (rw (fr_dir _ _ _ _ F); apply Ho).
  assert (Hout : ManifestFileName db n ∉ [tmp_current db; CurrentFileName db]).
  { intros H. apply elem_of_cons in H as [H|H%list_elem_of_singleton]; [by eapply manifest_tmp_neq|by eapply manifest_current_neq]. }
  assert (Hfresh : w_fresh_fd w < w_fresh_fd w2) by (destruct (fr_fresh _ _ _ _ F) as [_ ->]; destruct (fo_fresh _ _ _ _ Ho); lia).
  destruct (at_end_changes _ _ _ _ _ _ _ C3 Hw2 Hfresh (not_elem_of_nil _) Hdir2 Hout (ar_end _ _ _ _ _ _ _ _ R)) as (He3 & Hc3 & Hd3).
  exists wr', w3. split; [|split; [apply R|split]].
  - rw /VersionSet.OpenManifest N1 /VersionSet.NewFileNumber -/n u64_small; [lia|]. fold vs1.
    rw (bind_run _ _ w wr w1) //. rw (bind_run _ _ w1 (s, wr') w2) //. cbn iota beta. rw Hok. cbn [negb].
    by rw (bind_run _ _ w2 Status.OK w3).
  - eapply changes_trans; [exact C2'|]. eapply changes_mono; [| |exact C3]; [|done]. intros x Hx. by right.
  - split; simpl; fold db n; auto.
    + exists wr', (w_fresh_ino w). split; [done|]. rw (ar_fd _ _ _ _ _ _ _ _ R) (ar_size _ _ _ _ _ _ _ _ R).
      pose proof (ch_fresh _ _ _ _ C3). destruct (fr_fresh _ _ _ _ F) as [_ Ff]. destruct (fo_fresh _ _ _ _ Ho).
      split; [rw /wr /=; lia|]. split; [apply u64_range|]. split; [done|]. split; [done|].
      rw Hc3 (ar_content _ _ _ _ _ _ _ _ R) (fo_empty _ _ _ _ Ho) Hk firstn_all /manifest_bytes /encode_log /= app_nil_r //.
    + lia.
    + constructor; [|constructor]. apply snapshot_fine; simpl; auto; [apply N4|fold n; lia].
    + apply (snapshot_replay (with_manifest wr' vs)); simpl; auto; fold n; [|lia]. eapply Forall_impl; [exact N6|]. intros fs Hf.
      eapply Forall_impl; [exact Hf|]. simpl. fold n. lia.
    + apply (snapshot_manifest_state (with_manifest wr' vs)); simpl; auto; fold n; [|lia]. eapply Forall_impl; [exact N6|]. intros fs Hf.
      eapply Forall_impl; [exact Hf|]. simpl. fold n. lia.
Qed.
End open_manifest.

(** ** LogAndApply, with or without a manifest *)

Definition manifest_ready (vs : VersionSet.t) (w : World) : Prop :=
  (exists edits st, manifest_open vs edits st w) \/ manifest_new vs w.

(** What both have in common: the levels and the counters. *)
Lemma ready_levels vs w :
  manifest_ready vs w -> levels_ok (Version.files_ (VersionSet.current_ vs)) /\
    Forall (Forall (fun f => number f < VersionSet.next_file_number_ vs)) (strip (Version.files_ (VersionSet.current_ vs))).
Proof.
  intros [(edits & st & [_ _ _ _ _ Hm])|[]]; [|done]. split; [by eapply manifest_state_levels|]. destruct Hm as [M1 _ _ _ _ M6 M7].
  rw M1. eapply same_levels_Forall; [apply sort_levels_perm|]. eapply Forall_impl; [exact M7|]. intros fs Hf.
  eapply Forall_impl; [exact Hf|]. simpl. lia.
Qed.

(** Counters that go up and files that are not the manifest's. *)
Lemma manifest_ready_changes vs vs' w w' paths fds :
  manifest_ready vs w -> fs_wf w -> vs_advanced vs vs' ->
  VersionSet.next_file_number_ vs' + 1 < 2 ^ 64 -> VersionSet.last_sequence_ vs' < 2 ^ 64 ->
  changes paths fds w w' -> VersionSet.dbname_ vs ∉ paths -> (forall k, ManifestFileName (VersionSet.dbname_ vs) k ∉ paths) ->
  CurrentFileName (VersionSet.dbname_ vs) ∉ paths ->
  (forall writer, VersionSet.descriptor_log_ vs = Some writer -> WalWriter.fd_ writer ∉ fds) ->
  manifest_ready vs' w'.
Proof.
  intros Hr Hw Ha Hnx Hsq Hch Hp1 Hp2 Hp3 Hf. destruct Hr as [(edits & st & Ho)|[N1 N2 N3 N4 N5 N6 N7 N8 N9 N10]].
  - left. exists edits, st. eapply manifest_open_advanced; [done|]. by eapply manifest_open_changes.
  - right. destruct Ha as [[A1 _] A2 A3 A4 A5 A6 A7]. split; rw ?A1 ?A2 ?A4 ?A5 //; try lia.
    + by rw (ch_dir _ _ _ _ Hch).
    + intros k Hk. rw (ch_dir _ _ _ _ Hch) //. apply N3. lia.
    + destruct N4 as [L1 L2 L3]. split; rw ?A2 //. by rw -strip_length A2 strip_length.
    + eapply Forall_impl; [exact N6|]. intros fs Hfs. eapply Forall_impl; [exact Hfs|]. simpl. lia.
    + by rw -snapshot_size_strip A2 snapshot_size_strip.
Qed.

Lemma manifest_paths_inv db n p : p ∈ manifest_paths db n -> p = ManifestFileName db n \/ p = tmp_current db \/ p = CurrentFileName db.
Proof. rw /manifest_paths. set_solver. Qed.

Lemma manifest_paths_not_table db n p : p ∈ manifest_paths db n -> not_table db p.
Proof.
  intros [->|[->| ->]]%manifest_paths_inv; [apply manifest_not_table|apply tmp_current_not_table|apply current_not_table].
Qed.

Lemma log_not_in_manifest_paths db n k : 0 <= k < 2 ^ 64 -> LogFileName db k ∉ manifest_paths db n.
Proof.
  intros Hk [E|[E|E]]%manifest_paths_inv; [by eapply log_not_manifest| |by eapply log_not_current].
  revert E. rw /tmp_current /CurrentFileName. rewrite <- app_assoc. by apply log_not_letter.
Qed.

Lemma manifest_in_manifest_paths db n k :
  0 <= n < 2 ^ 64 -> 0 <= k < 2 ^ 64 -> ManifestFileName db k ∈ manifest_paths db n -> k = n.
Proof.
  intros Hn Hk [E|[E|E]]%manifest_paths_inv; [by eapply ManifestFileName_inj|by apply manifest_tmp_neq in E|by apply manifest_current_neq in E].
Qed.

(** What a successful [LogAndApply] has done to the version set. *)
Record logged (vs vs' : VersionSet.t) (edit : VersionEdit) (files1 : list (list FileMetaData)) : Prop := {
  lg_log : VersionSet.log_number_ vs' = (if has_log_number_ edit then VersionEdit.log_number_ edit else VersionSet.log_number_ vs);
  lg_seq : VersionSet.last_sequence_ vs' = (if has_last_sequence_ edit then VersionEdit.last_sequence_ edit else VersionSet.last_sequence_ vs);
  lg_next : VersionSet.next_file_number_ vs <= VersionSet.next_file_number_ vs' <= VersionSet.next_file_number_ vs + 1;
  lg_names : VersionSet.dbname_ vs' = VersionSet.dbname_ vs /\ VersionSet.options_ vs' = VersionSet.options_ vs;
  lg_current : VersionSet.current_ vs' = Version.mk (VersionSet.dbname_ vs) (VersionSet.sort_levels files1);
}.

Lemma complete_edit_done vs vs1 edit : VersionSet.complete_edit vs1 (VersionSet.complete_edit vs edit) = VersionSet.complete_edit vs edit.
Proof.
  destruct (complete_edit_fields vs edit) as (_ & _ & H1 & _ & H2 & _). by rw {1}/VersionSet.complete_edit H1 H2.
Qed.

Section ready.
Context (db : bytes) (R : registry) (vs : VersionSet.t) (edit : VersionEdit) (files1 : list (list FileMetaData)) (e : TableEnv).
Context (Hs : store db R e) (Hdb : VersionSet.dbname_ vs = db) (Hready : manifest_ready vs (e_world e))
  (Hfits : edit_fits vs edit) (Hfine : edit_fine (VersionSet.complete_edit vs edit))
  (Hreaders : Forall (fun n : Z * FileMetaData => is_Some (reader n.2)) (new_files_ edit))
  (Hpush : push_all (new_files_ edit) (VersionSet.retain_levels edit 0 (Version.files_ (VersionSet.current_ vs))) = Some files1)
  (Hapart : keys_apart (strip files1)).

(** With no manifest open, [LogAndApply] creates one and goes on as if it had been open. *)
Lemma LogAndApply_new writer w1 :
  VersionSet.descriptor_log_ vs = None ->
  VersionSet.OpenManifest vs (e_world e) = Some ((Status.OK, with_manifest writer vs), w1) ->
  VersionSet.LogAndApply vs edit e =
  VersionSet.LogAndApply (with_manifest writer vs) (VersionSet.complete_edit vs edit) (mkEnv w1 (e_cache e)).
Proof.
  intros Hnone Eo. destruct (complete_edit_fields vs edit) as (C1 & C2 & C3 & C4 & C5 & C6 & C7 & C8 & _).
  rw /VersionSet.LogAndApply complete_edit_done C1 C2. cbn [VersionSet.log_number_ with_manifest VersionSet.set_descriptor
    VersionSet.set_manifest VersionSet.set_next VersionSet.options_ VersionSet.dbname_ VersionSet.current_].
  destruct (has_log_number_ edit && _); [done|]. rw C8. rw (retain_levels_deleted _ edit) //.
  rw (bind_run _ _ e files1 e); [by apply add_new_files_readers|].
  rw (bind_run _ _ (mkEnv w1 (e_cache e)) files1 (mkEnv w1 (e_cache e))); [by apply add_new_files_readers|].
  rw (bind_run _ _ e _ (mkEnv w1 (e_cache e)) (on_world_run _ _ _ _ Eo)). symmetry.
  rw (bind_run _ _ _ (Status.OK, with_manifest writer vs) (mkEnv w1 (e_cache e))) //.
Qed.

Lemma ready_LogAndApply :
  exists vs' edits' st' e' paths fds, VersionSet.LogAndApply vs edit e = Some ((Status.OK, vs'), e') /\
    store db (rebase R (e_world e')) e' /\
    changes paths fds (e_world e) (e_world e') /\ (forall p, p ∈ paths -> p ∈ manifest_paths db (VersionSet.manifest_file_number_ vs')) /\
    (forall fd, fd ∈ fds -> exists writer, VersionSet.descriptor_log_ vs = Some writer /\ fd = WalWriter.fd_ writer) /\
    manifest_open vs' edits' st' (e_world e') /\ VersionSet.rc_max_seq st' = VersionSet.last_sequence_ vs' /\
    (has_next_file_number_ edit = false \/ VersionSet.descriptor_log_ vs = None -> VersionSet.rc_max_file st' = VersionSet.next_file_number_ vs') /\
    logged vs vs' edit files1.
Proof.
  destruct (complete_edit_fields vs edit) as (C1 & C2 & C3 & C4 & C5 & C6 & C7 & C8 & _).
  destruct Hready as [(edits & st & Hopen)|Hnew].
  - destruct (store_LogAndApply db R vs edits st edit files1 e Hs Hdb Hopen Hfits Hfine Hreaders Hpush Hapart)
      as (vs' & st' & e' & E & Hs' & (fd & Hch & writer & Hwr & Hfd) & Ho & Hq & Hmx & [A1 A2 A3 A4 [A5 [A5' A6]]] & Hcur).
    do 6 eexists. split; [exact E|]. split; [done|]. split; [exact Hch|]. split; [intros p ->%list_elem_of_singleton; rw A6; by left|].
    split; [intros x ->%list_elem_of_singleton; eauto|]. split; [done|]. split; [done|]. split.
    { intros [Hno|Hno]; [|congruence]. rw Hmx C4 Hno A4. pose proof (ms_next _ _ (mo_state _ _ _ _ Hopen)). lia. }
    split; auto; [congruence|lia|congruence].
  - destruct (OpenManifest_run vs (e_world e) (store_wf _ _ _ Hs) (so_calm _ _ _ Hs) Hnew) as (writer & w1 & Eo & Hfdw & Hch & Hopen).
    rw (LogAndApply_new writer w1 (mn_none _ _ Hnew) Eo). rw Hdb in Hch.
    assert (Hs1 : store db (rebase R w1) (mkEnv w1 (e_cache e))).
    { eapply store_changes; [done|exact Hch| |by intros fd ?%elem_of_nil]. intros p Hp. eapply layout_not_table; [apply Hs|].
      by eapply manifest_paths_not_table. }
    assert (Hfits1 : edit_fits (with_manifest writer vs) (VersionSet.complete_edit vs edit)).
    { destruct Hfits as [F1 F2 F3 F4]. split; rw ?complete_edit_done ?C1 ?C2 ?C8 //; intros _; simpl.
      - rw C4. destruct (has_next_file_number_ edit); [specialize (F2 eq_refl)|]; lia.
      - rw C6. destruct (has_last_sequence_ edit); [by apply F3|lia]. }
    destruct (store_LogAndApply db (rebase R w1) (with_manifest writer vs) _ _ (VersionSet.complete_edit vs edit) files1
      (mkEnv w1 (e_cache e)) Hs1 Hdb Hopen Hfits1)
      as (vs' & st' & e' & E & Hs' & (fd & Hch' & writer' & Hwr & Hfd) & Ho & Hq & Hmx & [A1 A2 A3 A4 [A5 [A5' A6]]] & Hcur).
    { by rw complete_edit_done. } { by rw C8. } { rw C8 (retain_levels_deleted _ edit) //. } { done. }
    simpl in Hch', Hwr, Hmx, A2, A4, A5, A5', A6. injection Hwr as <-. rw complete_edit_done C6 in A3. rw C1 C2 in A2.
    do 6 eexists. split; [exact E|]. split; [done|]. split.
    { eapply (changes_new_fd _ _ fd); [exact Hch| |]; [|eapply changes_mono; [| |exact Hch']].
      - rw Hfd Hfdw //.
      - intros p ->%list_elem_of_singleton. by left.
      - done. }
    split; [by rw A6|]. split; [by intros x ?%elem_of_nil|]. split; [done|]. split; [done|]. split.
    { intros _. rw Hmx complete_edit_done C4 A4. pose proof (ef_next _ _ Hfits) as Hle.
      destruct (has_next_file_number_ edit); [specialize (Hle eq_refl)|]; lia. }
    split; auto; [lia|]. congruence.
Qed.
End ready.
