(* ===== verification/Compaction.v ===== *)
(** * Compaction: merging tables into the next level

    Models [src/compaction.h] and [src/compaction.cc].  [PickCompaction] chooses the
    inputs, [DoCompaction] merges them, keeps the newest version of every key, drops
    tombstones that hide nothing below, writes the output tables, installs them with
    an edit and unlinks the inputs.  The lambdas [OpenNewOutputFile] and
    [FinishOutputFile] work on the locals they capture: the record [outputs]. *)

From S2P Require Import Prelude Status Slice Coding Format Posix Env Filename Wal Entry Iterator MergingIterator Block BlockCache Options.
From S2P Require Import SSTableBuilder SSTableReader TwoLevelIterator VersionEdit Version Storage VersionSet Manifest.

#[local] Open Scope Z_scope.

Module Compaction.

Record t := mk {
  level_ : Z;
  inputs0_ : list FileMetaData;
  inputs1_ : list FileMetaData;
}.

(** [user_key >= f.smallest_key && user_key <= f.largest_key]. *)
Definition covers_key (user_key : bytes) (f : FileMetaData) : bool :=
  Slice.geb user_key (smallest_key f) && Slice.leb user_key (largest_key f).

(** The loop over the levels from [lvl] on. *)
Fixpoint base_loop (n : nat) (lvl : Z) (user_key : bytes) (current : Version.t) : option bool :=
  match n with
  | O => Some true
  | S n' =>
      files ← Version.Files current lvl;
      if existsb (covers_key user_key) files then Some false else base_loop n' (lvl + 1) user_key current
  end.

Definition IsBaseLevelForKey (c : t) (user_key : bytes) (current : Version.t) : option bool :=
  base_loop (Z.to_nat (kNumLevels - (level_ c + 2))) (level_ c + 2) user_key current.

(** The files of [fs] whose range meets [min_key, max_key]. *)
Definition overlapping (min_key max_key : bytes) (fs : list FileMetaData) : list FileMetaData :=
  List.filter (fun f => negb (Slice.ltb (largest_key f) min_key || Slice.gtb (smallest_key f) max_key)) fs.

Definition min_of (min_key : bytes) (fs : list FileMetaData) : bytes :=
  foldl (fun m f => if Slice.ltb (smallest_key f) m then smallest_key f else m) min_key fs.
Definition max_of (max_key : bytes) (fs : list FileMetaData) : bytes :=
  foldl (fun m f => if Slice.gtb (largest_key f) m then largest_key f else m) max_key fs.

(** [1ULL << (20 + (lvl - 1) * 2)]. *)
Definition level_limit (lvl : Z) : Z := u64 (Z.shiftl 1 (20 + (lvl - 1) * 2)).

(** The size-based choice among the levels from [lvl] on. *)
Fixpoint pick_level (n : nat) (lvl : Z) (current : Version.t) : option (option t) :=
  match n with
  | O => Some None
  | S n' =>
      total ← Version.LevelBytes current lvl;
      files ← Version.Files current lvl;
      match files with
      | f :: _ =>
          if total >? level_limit lvl then
            next ← Version.Files current (lvl + 1);
            Some (Some (mk lvl [f] (overlapping (smallest_key f) (largest_key f) next)))
          else pick_level n' (lvl + 1) current
      | [] => pick_level n' (lvl + 1) current
      end
  end.

(** [None] inside: [nullptr]. *)
Definition PickCompaction (options : Options) (vset : VersionSet.t) : option (option t) :=
  let current := VersionSet.current_ vset in
  n0 ← Version.NumLevelFiles current 0;
  if n0 >=? max_level0_files options then
    files0 ← Version.Files current 0;
    match files0 with
    | [] => Some None
    | f :: _ =>
        let min_key := min_of (smallest_key f) files0 in
        let max_key := max_of (largest_key f) files0 in
        files1 ← Version.Files current 1;
        Some (Some (mk 0 files0 (overlapping min_key max_key files1)))
    end
  else pick_level (Z.to_nat (kNumLevels - 2)) 1 current.

(** ** [DoCompaction] *)

(** The readers and iterators of the inputs: an error, or the iterators. *)
Fixpoint open_inputs (options : Options) (dbname : bytes) (cache : bool) (fs : list FileMetaData) :
    SM TableEnv (Status.t + list TwoLevelIterator.t) :=
  match fs with
  | [] => mret (inr [])
  | f :: fs' =>
      '(s, f) ← Version.OpenReader options dbname f;
      if negb (Status.ok s) then mret (inl s)
      else
        r ← lift (reader f);
        it ← lift (TwoLevelIterator.New r cache);
        rest ← open_inputs options dbname cache fs';
        mret (match rest with inl s => inl s | inr its => inr (it :: its) end)
  end.

(** The locals of the merge loop: the version set (which numbers the files), the
    builder of the current output and its number, and the finished outputs. *)
Record outputs := mkOutputs {
  o_vset : VersionSet.t;
  o_builder : option SSTableBuilder.t;
  o_number : Z;
  o_files : list FileMetaData;
}.

Definition OpenNewOutputFile (options : Options) (dbname : bytes) (o : outputs) : M outputs :=
  let '(n, vset) := VersionSet.NewFileNumber (o_vset o) in
  b ← SSTableBuilder.New options (TableFileName dbname n);
  mret (mkOutputs vset (Some b) n (o_files o)).

(** [builder.reset()]. *)
Definition reset_builder (o : outputs) : M outputs :=
  _ ← (match o_builder o with Some b => SSTableBuilder.Destroy b | None => mret tt end);
  mret (mkOutputs (o_vset o) None (o_number o) (o_files o)).

Definition FinishOutputFile (options : Options) (dbname : bytes) (o : outputs) : M (Status.t * outputs) :=
  match o_builder o with
  | Some b =>
      if SSTableBuilder.NumEntries b >? 0 then
        '(s, b) ← SSTableBuilder.Finish b;
        let o := mkOutputs (o_vset o) (Some b) (o_number o) (o_files o) in
        if negb (Status.ok s) then mret (s, o)
        else
          '(s_open, r) ← SSTableReader.Open options (TableFileName dbname (o_number o)) (o_number o) (SSTableBuilder.FileSize b);
          if negb (Status.ok s_open) then mret (s_open, o)
          else
            let out := mkFile (o_number o) (SSTableBuilder.FileSize b) (SSTableBuilder.SmallestKey b) (SSTableBuilder.LargestKey b) r in
            o ← reset_builder (mkOutputs (o_vset o) (Some b) (o_number o) (o_files o ++ [out]));
            mret (Status.OK, o)
      else o ← reset_builder o; mret (Status.OK, o)
  | None => o ← reset_builder o; mret (Status.OK, o)
  end.

(** An entry that is kept goes to the current output, which is opened if there is none
    and finished when it is large enough. *)
Definition add_output (options : Options) (dbname : bytes) (e : MemtableEntry) (o : outputs) : M (Status.t * outputs) :=
  o ← (match o_builder o with Some _ => mret o | None => OpenNewOutputFile options dbname o end);
  b ← lift (o_builder o);
  b ← SSTableBuilder.Add b (seq e) (type e) (user_key e) (value e);
  let o := mkOutputs (o_vset o) (Some b) (o_number o) (o_files o) in
  if SSTableBuilder.FileSize b >=? max_file_size options then FinishOutputFile options dbname o
  else mret (Status.OK, o).

(** The merge loop.  [last] is [last_key], once [has_last_key]. *)
Fixpoint merge_loop (fuel : nat) (options : Options) (dbname : bytes) (c : t) (it : MergingIterator TwoLevelIterator.t)
    (last : option bytes) (o : outputs) : SM TableEnv (Status.t * outputs) :=
  match fuel with
  | O => lift None
  | S fuel' =>
      if It.Valid it then
        e ← lift (current_entry it);
        if bool_decide (last = Some (user_key e)) then
          it ← It.Next it;
          merge_loop fuel' options dbname c it last o
        else
          drop ← (if type e =? kTypeDeletion
                  then lift (IsBaseLevelForKey c (user_key e) (VersionSet.current_ (o_vset o))) else mret false);
          '(s, o) ← (if (drop : bool) then mret (Status.OK, o) else on_world (add_output options dbname e o));
          if negb (Status.ok s) then mret (s, o)
          else
            it ← It.Next it;
            merge_loop fuel' options dbname c it (Some (user_key e)) o
      else mret (Status.OK, o)
  end.

(** Every entry takes at least a byte of its table. *)
Definition merge_fuel (c : t) : nat :=
  S (Z.to_nat (foldr (fun f n => file_size f + n) 0 (inputs0_ c ++ inputs1_ c))).

(** The edit that replaces the inputs by the outputs. *)
Definition compaction_edit (c : t) (outs : list FileMetaData) : VersionEdit :=
  let edit := foldl (fun edit f => DeleteFile edit (level_ c) (number f)) NewVersionEdit (inputs0_ c) in
  let edit := foldl (fun edit f => DeleteFile edit (level_ c + 1) (number f)) edit (inputs1_ c) in
  foldl (fun edit f => AddFile edit (level_ c + 1) (number f) (file_size f) (smallest_key f) (largest_key f) (reader f)) edit outs.

(** [unlink] of the inputs, whose results are ignored. *)
Fixpoint unlink_files (dbname : bytes) (fs : list FileMetaData) : M unit :=
  match fs with
  | [] => mret tt
  | f :: fs' => _ ← sys (sys_unlink (TableFileName dbname (number f))); unlink_files dbname fs'
  end.

(** From the end of the merge on: the last output, the edit, the clean-up. *)
Definition install_outputs (options : Options) (dbname : bytes) (c : t) (o : outputs) : SM TableEnv (Status.t * VersionSet.t) :=
  '(s, o) ← on_world (FinishOutputFile options dbname o);
  if negb (Status.ok s) then
    o ← on_world (reset_builder o);
    mret (s, o_vset o)
  else
    (* Ensure directory entries for new SSTables are durable before MANIFEST references them *)
    _ ← on_world (SyncDirectory dbname);
    '(s, vset) ← VersionSet.LogAndApply (o_vset o) (compaction_edit c (o_files o));
    if negb (Status.ok s) then mret (s, vset)
    else
      _ ← on_world (unlink_files dbname (inputs0_ c ++ inputs1_ c));
      _ ← on_world (SyncDirectory dbname);
      mret (Status.OK, vset).

Definition DoCompaction (options : Options) (dbname : bytes) (vset : VersionSet.t) (c : t) (cache : bool) :
    SM TableEnv (Status.t * VersionSet.t) :=
  iters ← open_inputs options dbname cache (inputs0_ c ++ inputs1_ c);
  match iters with
  | inl s => mret (s, vset)
  | inr iters =>
      match NewMergingIterator iters with
      | None => mret (Status.OK, vset)
      | Some input_iter =>
          input_iter ← It.SeekToFirst input_iter;
          '(s, o) ← merge_loop (merge_fuel c) options dbname c input_iter None (mkOutputs vset None 0 []);
          if negb (Status.ok s) then
            o ← on_world (reset_builder o);
            mret (s, o_vset o)
          else install_outputs options dbname c o
      end
  end.
End Compaction.
