(* ===== verification/DBImpl.v ===== *)
(** * DBImpl: the database

    Models [DB::Open] and [DBImpl] of [src/db_impl.h] and [src/db_impl.cc].  A method
    that holds [mutex_] from start to end is a computation on the files and the block
    cache that takes the state of the object and returns the next one.  Where a method
    waits on [write_cv_] it gives up the lock: it answers [Waits] and has changed
    nothing, and is run again later.  [Get] and [NewIterator] take their snapshot under
    the lock and read without it.

    [shared_ptr]s are values; the descriptors of a version that nobody refers to any
    more stay open.  The height of skip-list nodes comes from [draw]. *)

From S2P Require Import Prelude Status Slice Coding Format Posix Env Filename Wal SkipList Entry Iterator Memtable.
From S2P Require Import MergingIterator DBIterator Block BlockCache Options.
From S2P Require Import SSTableBuilder SSTableReader TwoLevelIterator VersionEdit Version Storage VersionSet Manifest Compaction.

#[local] Open Scope Z_scope.

(** ** The directory *)

(** [mkdir(path)]: a directory is a name whose inode has no contents. *)
Definition sys_mkdir (path : bytes) (w : World) : Z * World :=
  match pop_ctl w with
  | (CtlFail e, w) => (-1, set_errno e w)
  | (CtlOk, w) =>
      match w_dir w !! path with
      | Some _ => (-1, set_errno 17 w)
      | None => (0, bump_ino (set_data (<[w_fresh_ino w := []]> (w_data w)) (set_dir (<[path := w_fresh_ino w]> (w_dir w)) w)))
      end
  end.

(** [access(path, F_OK)]. *)
Definition sys_access (path : bytes) (w : World) : Z * World :=
  match pop_ctl w with
  | (CtlFail e, w) => (-1, set_errno e w)
  | (CtlOk, w) => match w_dir w !! path with Some _ => (0, w) | None => (-1, set_errno ENOENT w) end
  end.

(** [flock(fd, op)]: fails when another process has the lock. *)
Definition sys_flock (fd : Z) (w : World) : Z * World :=
  match pop_ctl w with (CtlFail e, w) => (-1, set_errno e w) | (CtlOk, w) => (0, w) end.

(** The name of [path] in the directory [dir]. *)
Definition entry_name (dir path : bytes) : option bytes :=
  let n := length (dir ++ str "/") in
  if bool_decide (take n path = dir ++ str "/") && negb (bool_decide (Byte.x2f ∈ drop n path)) then Some (drop n path) else None.

(** [opendir] and the names that [readdir] returns, in the order of the directory;
    [None] when it cannot be opened. *)
Definition sys_readdir (dir : bytes) (w : World) : option (list bytes) * World :=
  match pop_ctl w with
  | (CtlFail e, w) => (None, set_errno e w)
  | (CtlOk, w) =>
      match w_dir w !! dir with
      | Some _ => (Some (omap (fun p : bytes * nat => entry_name dir p.1) (map_to_list (w_dir w))), w)
      | None => (None, set_errno ENOENT w)
      end
  end.

(** ** The object *)

(** What a method that may wait answers. *)
Inductive waiting (A : Type) := Waits | Returns (x : A).
Arguments Waits {A}.
Arguments Returns {A} x.

Module DBImpl.

Record t := mk {
  options_ : Options;
  dbname_ : bytes;
  lock_fd_ : Z;
  versions_ : VersionSet.t;
  mem_ : option Memtable;
  imm_ : option Memtable;
  wal_writer_ : option WalWriter.t;
  log_file_number_ : Z;
  shutting_down_ : bool;
}.

(** The constructor; the block cache is part of the environment. *)
Definition New (options : Options) (dbname : bytes) : t :=
  mk options dbname (-1) (VersionSet.New dbname (Some options)) None None None 0 false.

Definition set_lock (fd : Z) (d : t) : t :=
  mk (options_ d) (dbname_ d) fd (versions_ d) (mem_ d) (imm_ d) (wal_writer_ d) (log_file_number_ d) (shutting_down_ d).
Definition set_versions (vs : VersionSet.t) (d : t) : t :=
  mk (options_ d) (dbname_ d) (lock_fd_ d) vs (mem_ d) (imm_ d) (wal_writer_ d) (log_file_number_ d) (shutting_down_ d).
Definition set_mem (m : option Memtable) (d : t) : t :=
  mk (options_ d) (dbname_ d) (lock_fd_ d) (versions_ d) m (imm_ d) (wal_writer_ d) (log_file_number_ d) (shutting_down_ d).
Definition set_imm (m : option Memtable) (d : t) : t :=
  mk (options_ d) (dbname_ d) (lock_fd_ d) (versions_ d) (mem_ d) m (wal_writer_ d) (log_file_number_ d) (shutting_down_ d).
Definition set_wal (w : option WalWriter.t) (d : t) : t :=
  mk (options_ d) (dbname_ d) (lock_fd_ d) (versions_ d) (mem_ d) (imm_ d) w (log_file_number_ d) (shutting_down_ d).
Definition set_log_number (n : Z) (d : t) : t :=
  mk (options_ d) (dbname_ d) (lock_fd_ d) (versions_ d) (mem_ d) (imm_ d) (wal_writer_ d) n (shutting_down_ d).

(** [wal_writer_ = std::make_unique<WalWriter>(...)]: the old writer is closed. *)
Definition new_wal (filename : bytes) (d : t) : M t :=
  w ← WalWriter.Open filename;
  _ ← (match wal_writer_ d with Some old => _ ← WalWriter.Close old; mret tt | None => mret tt end);
  mret (set_wal (Some w) d).

(** [imm_ = mem_] and a new memtable with its log. *)
Definition SwitchMemtable (d : t) : M t :=
  let d := set_mem (Some NewMemtable) (set_imm (mem_ d) d) in
  let '(n, vs) := VersionSet.NewFileNumber (versions_ d) in
  let d := set_log_number n (set_versions vs d) in
  new_wal (LogFileName (dbname_ d) n) d.

(** ** Writing *)

Definition MakeRoomForWrite (d : t) : M (waiting t) :=
  m ← lift (mem_ d);
  if ApproximateMemoryUsage m <? write_buffer_size (options_ d) then mret (Returns d)
  else match imm_ d with
       | Some _ => mret Waits
       | None => d ← SwitchMemtable d; mret (Returns d)
       end.

Section draw.
Context (draw : nat -> Z).

(** A write once there is room: the log first, then the memtable. *)
Definition ApplyWrite (type : ValueType) (key value : bytes) (d : t) : M (Status.t * t) :=
  let seq := u64 (VersionSet.LastSequence (versions_ d) + 1) in
  w ← lift (wal_writer_ d);
  '(s, w) ← with_fuel (WalWriter.AppendRecord w seq type key value (sync (options_ d)));
  let d := set_wal (Some w) d in
  if negb (Status.ok s) then mret (s, d)
  else
    m ← lift (mem_ d);
    m ← lift (Add draw m seq type key value);
    let d := set_mem (Some m) d in
    mret (Status.OK, set_versions (VersionSet.SetLastSequence seq (versions_ d)) d).

(** [Put] with [kTypeValue] and [Delete] with [kTypeDeletion] and no value. *)
Definition Write (type : ValueType) (key value : bytes) (d : t) : M (waiting (Status.t * t)) :=
  r ← MakeRoomForWrite d;
  match r with
  | Waits => mret Waits
  | Returns d => x ← ApplyWrite type key value d; mret (Returns x)
  end.

Definition Put (key value : bytes) (d : t) : M (waiting (Status.t * t)) := Write kTypeValue key value d.
Definition Delete (key : bytes) (d : t) : M (waiting (Status.t * t)) := Write kTypeDeletion key [] d.

(** ** Reading *)

(** [Get(key, value)]: the status, [*value] and the database (the version opens readers
    as it needs them). *)
Definition Get (key : bytes) (value : option bytes) (d : t) : SM TableEnv (Status.t * option bytes * t) :=
  let seq := VersionSet.LastSequence (versions_ d) in
  let current_v := VersionSet.current_ (versions_ d) in
  (* 1. Check active Memtable *)
  mem ← lift (mem_ d);
  '(found, value, s) ← lift (Memtable.Get mem key seq value Status.OK);
  if (found : bool) then mret (s, value, d)
  else
    (* 2. Check immutable Memtable *)
    '(found, value, s) ← lift (match imm_ d with
                               | Some imm => Memtable.Get imm key seq value s
                               | None => Some (false, value, s)
                               end);
    if (found : bool) then mret (s, value, d)
    else
      (* 3. Check SSTables (Level 0 through Level 6) *)
      '(found, value, s, v) ← Version.Get current_v (options_ d) key seq value s true;
      let d := set_versions (VersionSet.set_current v (versions_ d)) d in
      if (found : bool) then mret (s, value, d) else mret (Status.NotFound [], value, d).

(** The children of a database iterator. *)
Abbreviation child := (MemTableIterator + TwoLevelIterator.t)%type.

Definition NewIterator (d : t) : SM TableEnv (@DBIterator (MergingIterator child) * t) :=
  let seq := VersionSet.LastSequence (versions_ d) in
  let current_v := VersionSet.current_ (versions_ d) in
  mem ← lift (mem_ d);
  let iters := inl (Memtable.NewIterator mem) :: (match imm_ d with Some imm => [inl (Memtable.NewIterator imm)] | None => [] end) in
  '(table_iters, v) ← Version.AddIterators current_v (options_ d) true;
  let merging_iter := NewMergingIterator (iters ++ (inr <$> table_iters)) in
  mret (NewDBIterator merging_iter seq, set_versions (VersionSet.set_current v (versions_ d)) d).

(** ** Flushing *)

(** The loop of [WriteLevel0Table]; its fuel is the number of entries. *)
Fixpoint add_memtable (fuel : nat) (it : MemTableIterator) (b : SSTableBuilder.t) : M SSTableBuilder.t :=
  match fuel with
  | O => lift None
  | S fuel' =>
      if mem_Valid it then
        e ← lift (current_entry it);
        b ← SSTableBuilder.Add b (seq e) (type e) (user_key e) (value e);
        it ← lift (mem_Next it);
        add_memtable fuel' it b
      else mret b
  end.

(** [WriteLevel0Table(mem, edit)]: the status, the edit and the database.  The builder
    is destroyed at the end of the function. *)
Definition WriteLevel0Table (mem : Memtable) (edit : VersionEdit) (d : t) : SM TableEnv (Status.t * VersionEdit * t) :=
  let '(file_num, vs) := VersionSet.NewFileNumber (versions_ d) in
  let d := set_versions vs d in
  let sst_path := TableFileName (dbname_ d) file_num in
  builder ← on_world (SSTableBuilder.New (options_ d) sst_path);
  it ← lift (mem_SeekToFirst (Memtable.NewIterator mem));
  builder ← on_world (add_memtable (S (length (mem_entries mem))) it builder);
  '(s, builder) ← on_world (SSTableBuilder.Finish builder);
  if negb (Status.ok s) then
    _ ← on_world (SSTableBuilder.Destroy builder);
    mret (s, edit, d)
  else
    '(s_open, reader) ← on_world (SSTableReader.Open (options_ d) sst_path file_num (SSTableBuilder.FileSize builder));
    if negb (Status.ok s_open) then
      _ ← on_world (SSTableBuilder.Destroy builder);
      mret (s_open, edit, d)
    else
      let edit := AddFile edit 0 file_num (SSTableBuilder.FileSize builder) (SSTableBuilder.SmallestKey builder)
                    (SSTableBuilder.LargestKey builder) reader in
      _ ← on_world (SyncDirectory (dbname_ d));
      _ ← on_world (SSTableBuilder.Destroy builder);
      mret (Status.OK, edit, d).

(** The part of [FlushMemTable] before it waits for the background thread. *)
Definition FlushMemTable_start (d : t) : M t :=
  m ← lift (mem_ d);
  if Count m >? 0 then SwitchMemtable d else mret d.

(** [FlushMemTable]: [Waits] while there is an immutable memtable. *)
Definition FlushMemTable_done (d : t) : waiting Status.t := match imm_ d with Some _ => Waits | None => Returns Status.OK end.

(** ** Files that are no longer needed *)

(** The loop over the directory; [stoull] throws on a name that is no number. *)
Fixpoint remove_loop (dbname : bytes) (live_files : gset Z) (names : list bytes) : M unit :=
  match names with
  | [] => mret tt
  | fname :: names' =>
      match sst_entry_number fname with
      | Some num =>
          num ← lift num;
          _ ← (if bool_decide (num ∈ live_files) then mret tt
               else _ ← sys (sys_unlink (dbname ++ str "/" ++ fname)); mret tt);
          remove_loop dbname live_files names'
      | None => remove_loop dbname live_files names'
      end
  end.

Definition RemoveObsoleteFiles (d : t) : M unit :=
  let live_files := VersionSet.AddLiveFiles (versions_ d) ∅ in
  names ← sys (sys_readdir (dbname_ d));
  match names with
  | None => mret tt
  | Some names => remove_loop (dbname_ d) live_files names
  end.

(** ** The background thread *)

(** 1. Minor compaction (Flush immutable memtable). *)
Definition FlushImmutable (d : t) : SM TableEnv t :=
  match imm_ d with
  | None => mret d
  | Some imm_flush =>
      '(s, edit, d) ← WriteLevel0Table imm_flush NewVersionEdit d;
      d ← (if Status.ok s then
             '(_, vs) ← VersionSet.LogAndApply (versions_ d) (SetLogNumber edit (log_file_number_ d));
             mret (set_versions vs d)
           else mret d);
      mret (set_imm None d)
  end.

Definition MajorCompaction (d : t) : SM TableEnv t :=
  c ← lift (Compaction.PickCompaction (options_ d) (versions_ d));
  match c with
  | Some c =>
      '(_, vs) ← Compaction.DoCompaction (options_ d) (dbname_ d) (versions_ d) c true;
      mret (set_versions vs d)
  | None => mret d
  end.

Definition BackgroundCompaction (d : t) : SM TableEnv t :=
  d ← FlushImmutable d;
  d ← MajorCompaction d;
  _ ← on_world (RemoveObsoleteFiles d);
  mret d.

(** Is there work for the background thread? *)
Definition background_work (d : t) : option bool :=
  if shutting_down_ d then Some false
  else match imm_ d with
       | Some _ => Some true
       | None => c ← Compaction.PickCompaction (options_ d) (versions_ d); Some (bool_decide (is_Some c))
       end.

(** A turn of [BackgroundThread]'s outer loop: the thread ends, waits on [bg_cv_] because
    there is nothing to do, or has worked. *)
Inductive turn := Ends | Rests | Works (d : t).

Definition BackgroundThread (d : t) : SM TableEnv turn :=
  if shutting_down_ d then mret Ends
  else
    work ← lift (background_work d);
    if (work : bool) then d ← BackgroundCompaction d; mret (Works d) else mret Rests.

Definition CompactRange (d : t) : SM TableEnv (Status.t * t) :=
  c ← lift (Compaction.PickCompaction (options_ d) (versions_ d));
  match c with
  | Some c =>
      '(s, vs) ← Compaction.DoCompaction (options_ d) (dbname_ d) (versions_ d) c true;
      let d := set_versions vs d in
      _ ← on_world (RemoveObsoleteFiles d);
      mret (s, d)
  | None => mret (Status.OK, d)
  end.

(** ** Opening *)

(** The numbers of the log files from [log_number] on; [stoull] throws on a name that
    is no number. *)
Fixpoint log_files (log_number : Z) (names : list bytes) : option (list Z) :=
  match names with
  | [] => Some []
  | fname :: names' =>
      match log_entry_number fname with
      | Some num =>
          num ← num;
          rest ← log_files log_number names';
          Some (if num >=? log_number then num :: rest else rest)
      | None => log_files log_number names'
      end
  end.

(** The loop over the records of a log: the memtable and the largest sequence number. *)
Fixpoint replay_log (fuel : nat) (r : WalReader.t) (o : WalReader.out) (m : Memtable) (max_seq : Z) : M (Memtable * Z) :=
  match fuel with
  | O => lift None
  | S fuel' =>
      '(s, o) ← with_fuel (WalReader.ReadRecord r true o);
      if Status.ok s then
        m ← lift (Add draw m (WalReader.o_seq o) (WalReader.o_type o) (WalReader.o_key o) (WalReader.o_value o));
        replay_log fuel' r o m (if WalReader.o_seq o >? max_seq then WalReader.o_seq o else max_seq)
      else mret (m, max_seq)
  end.

(** One log: its writes become a table of level 0.  The reader is closed at the end of
    the turn or when the function returns. *)
Definition recover_log (log_num : Z) (d : t) : SM TableEnv (Status.t * t) :=
  let log_path := LogFileName (dbname_ d) log_num in
  reader ← on_world (WalReader.Open log_path);
  '(recovery_mem, max_seq) ← on_world (fun w =>
    replay_log (VersionSet.manifest_fuel reader w) reader (WalReader.mkOut 0 kTypeValue [] []) NewMemtable
      (VersionSet.LastSequence (versions_ d)) w);
  let d := set_versions (VersionSet.SetLastSequence max_seq (versions_ d)) d in
  '(s, d) ← (if Count recovery_mem >? 0 then
               '(s, edit, d) ← WriteLevel0Table recovery_mem NewVersionEdit d;
               if negb (Status.ok s) then mret (s, d)
               else
                 '(s, vs) ← VersionSet.LogAndApply (versions_ d) (SetLogNumber edit log_num);
                 mret (s, set_versions vs d)
             else mret (Status.OK, d));
  if negb (Status.ok s) then
    _ ← on_world (WalReader.Destroy reader);
    mret (s, d)
  else
    _ ← on_world (sys (sys_unlink log_path));
    _ ← on_world (WalReader.Destroy reader);
    mret (Status.OK, d).

Fixpoint recover_logs (log_nums : list Z) (d : t) : SM TableEnv (Status.t * t) :=
  match log_nums with
  | [] => mret (Status.OK, d)
  | n :: log_nums' =>
      '(s, d) ← recover_log n d;
      if negb (Status.ok s) then mret (s, d) else recover_logs log_nums' d
  end.

(** The edit that makes a new database. *)
Definition initial_edit : VersionEdit :=
  VersionEdit.SetLastSequence (SetNextFile (SetLogNumber (SetComparatorName NewVersionEdit (str "byte_comparator")) 0) 2) 0.

(** Locking, and whether the database is new: an error, or the answer. *)
Definition check_exists (d : t) : M ((Status.t + bool) * t) :=
  fd ← sys (sys_open (LockFileName (dbname_ d)) (mkFlags true false false));
  let d := set_lock fd d in
  locked ← (if fd <? 0 then mret false else r ← sys (sys_flock fd); mret (r =? 0));
  if negb (locked : bool) then
    mret (inl (Status.IOError [Status.Lit "Database is locked by another process: "; Status.Str (dbname_ d)]), d)
  else
    r ← sys (sys_access (CurrentFileName (dbname_ d)));
    if negb (r =? 0) then
      if negb (create_if_missing (options_ d)) then
        mret (inl (Status.InvalidArgument [Status.Lit "Database does not exist and create_if_missing is false"]), d)
      else mret (inr true, d)
    else if error_if_exists (options_ d) then
      mret (inl (Status.InvalidArgument [Status.Lit "Database exists and error_if_exists is true"]), d)
    else mret (inr false, d).

(** The new log and memtable at the end of [Recover]. *)
Definition start_log (d : t) : SM TableEnv (Status.t * t) :=
  let '(n, vs) := VersionSet.NewFileNumber (versions_ d) in
  let d := set_log_number n (set_versions vs d) in
  d ← on_world (new_wal (LogFileName (dbname_ d) n) d);
  '(s, vs) ← VersionSet.LogAndApply (versions_ d) (SetLogNumber NewVersionEdit n);
  let d := set_versions vs d in
  if negb (Status.ok s) then mret (s, d) else mret (Status.OK, set_mem (Some NewMemtable) d).

Definition Recover (d : t) : SM TableEnv (Status.t * t) :=
  '(r, d) ← on_world (check_exists d);
  match r with
  | inl s => mret (s, d)
  | inr is_new_db =>
      '(s, vs) ← (if (is_new_db : bool) then VersionSet.LogAndApply (versions_ d) initial_edit
                  else VersionSet.Recover (versions_ d));
      let d := set_versions vs d in
      if negb (Status.ok s) then mret (s, d)
      else
        (* Scan for existing WAL logs to recover uncommitted writes *)
        names ← on_world (sys (sys_readdir (dbname_ d)));
        '(s, d) ← (match names with
                   | None => mret (Status.OK, d)
                   | Some names =>
                       nums ← lift (log_files (VersionSet.LogNumber (versions_ d)) names);
                       recover_logs (std_sort Z.ltb nums) d
                   end);
        if negb (Status.ok s) then mret (s, d) else start_log d
  end.

(** The destructor, once the background thread has ended. *)
Definition Destroy (d : t) : M unit :=
  _ ← (match wal_writer_ d with Some w => _ ← WalWriter.Close w; mret tt | None => mret tt end);
  _ ← (if lock_fd_ d >=? 0 then _ ← sys (sys_flock (lock_fd_ d)); _ ← sys (sys_close (lock_fd_ d)); mret tt else mret tt);
  match VersionSet.descriptor_log_ (versions_ d) with Some w => _ ← WalWriter.Close w; mret tt | None => mret tt end.

(** [std::make_unique<BlockCache>(capacity)]. *)
Definition new_cache (capacity : Z) : SM TableEnv unit := fun e => Some (tt, mkEnv (e_world e) (NewBlockCache capacity)).

(** [DB::Open(options, name, &db)]. *)
Definition Open (options : Options) (name : bytes) : SM TableEnv (Status.t * option t) :=
  _ ← on_world (sys (sys_mkdir name));
  _ ← new_cache (block_cache_capacity_bytes options);
  '(s, d) ← Recover (New options name);
  if negb (Status.ok s) then
    _ ← on_world (Destroy d);
    mret (s, None)
  else mret (Status.OK, Some d).
End draw.
End DBImpl.
