(* ===== verification/Directory.v ===== *)
(** * Directory: what the scans of the database directory find

    [Recover] looks for log files and [RemoveObsoleteFiles] for tables among the names
    of the directory.  When all names with these suffixes are those that [filename.h]
    makes, the scans find the numbers of exactly the log files and tables that
    exist. *)

From S2P Require Import Prelude Status Slice Coding Format Posix Env Filename Wal SkipList Entry Iterator Memtable.
From S2P Require Import MergingIterator DBIterator Block BlockCache Options.
From S2P Require Import SSTableBuilder SSTableReader TwoLevelIterator VersionEdit Version Storage VersionSet Manifest NewManifest Compaction DBImpl.

#[local] Open Scope Z_scope.

(** ** Entry names *)

Lemma entry_name_Some db p fname : entry_name db p = Some fname -> p = db ++ str "/" ++ fname /\ Byte.x2f ∉ fname.
Proof.
  rw /entry_name. destruct (bool_decide (take _ p = _) && _) eqn:E; [|done]. intros [= <-].
  apply andb_true_iff in E as [E1%bool_decide_eq_true E2]. apply negb_true_iff, bool_decide_eq_false in E2. split; [|done].
  rw app_assoc -{1}(take_drop (length (db ++ str "/")) p) E1 //.
Qed.

Lemma entry_name_make db fname : Byte.x2f ∉ fname -> entry_name db (db ++ str "/" ++ fname) = Some fname.
Proof.
  intros H. rw /entry_name app_assoc take_app_length drop_app_length. rw bool_decide_true // bool_decide_false //.
Qed.

Lemma has_suffix4_Some fname suf : length suf = 4%nat -> has_suffix4 fname suf = true -> exists pre, fname = pre ++ suf.
Proof.
  rw /has_suffix4 => Hs. intros [H1 H2]%andb_true_iff. destruct (Slice.eqb_spec (sub_bytes fname (size_of fname - 4) 4) suf) as [E|]; [|done].
  rw Z.gtb_ltb in H1. apply Z.ltb_lt in H1. rw sub_bytes_eq in E.
  exists (take (Z.to_nat (size_of fname - 4)) fname). rw -E (take_ge (drop _ _)); [rw length_drop /size_of; rw /size_of in H1; lia|].
  by rw take_drop.
Qed.

(** A name that ends in another byte has not the suffix. *)
Lemma has_suffix4_last fname suf : length suf = 4%nat -> last fname <> last suf -> has_suffix4 fname suf = false.
Proof.
  intros Hs Hl. destruct (has_suffix4 fname suf) eqn:E; [|done]. destruct (has_suffix4_Some _ _ Hs E) as [pre ->]. destruct Hl.
  rw last_app. destruct (last suf) eqn:El; [done|]. apply last_None in El. by subst.
Qed.

Lemma digits_no_slash ds : all_digits ds -> Byte.x2f ∉ ds.
Proof. rw /all_digits Forall_forall. intros H Hin. by specialize (H _ Hin). Qed.

(** The numbered names. *)
Lemma numbered_entry db n suf :
  0 <= n < 2 ^ 64 -> Byte.x2f ∉ suf -> entry_name db (db ++ str "/" ++ format_06llu n ++ suf) = Some (format_06llu n ++ suf).
Proof.
  intros Hn Hs. apply entry_name_make. destruct (format_06llu_spec n Hn) as (Hd & _). intros [H|H]%elem_of_app; [|done].
  by apply (digits_no_slash _ Hd).
Qed.

Lemma log_entry_name db n :
  0 <= n < 2 ^ 64 -> exists fname, LogFileName db n = db ++ str "/" ++ fname /\ entry_name db (LogFileName db n) = Some fname /\
    log_entry_number fname = Some (Some n).
Proof.
  intros Hn. exists (format_06llu n ++ str ".log"). rw /LogFileName MakeFileName_entry //; [simpl; lia|]. split; [done|].
  split; [apply (numbered_entry db n (str ".log")); [done|]; by vm_compute; set_solver|].
  destruct (entry_number_roundtrip n (str ".log") Hn eq_refl) as [H1 H2]. by rw /log_entry_number H1 H2.
Qed.

Lemma sst_entry_name db n :
  0 <= n < 2 ^ 64 -> exists fname, TableFileName db n = db ++ str "/" ++ fname /\ entry_name db (TableFileName db n) = Some fname /\
    sst_entry_number fname = Some (Some n).
Proof.
  intros Hn. exists (format_06llu n ++ str ".sst"). rw /TableFileName MakeFileName_entry //; [simpl; lia|]. split; [done|].
  split; [apply (numbered_entry db n (str ".sst")); [done|]; by vm_compute; set_solver|].
  destruct (entry_number_roundtrip n (str ".sst") Hn eq_refl) as [H1 H2]. by rw /sst_entry_number H1 H2.
Qed.

(** ** Tidy directories *)

(** A name that the scans take for a log or a table is one. *)
Definition scan_name (db p : bytes) : Prop :=
  forall fname, entry_name db p = Some fname ->
    (has_suffix4 fname (str ".log") = true -> exists k, 0 <= k < 2 ^ 64 /\ p = LogFileName db k) /\
    (has_suffix4 fname (str ".sst") = true -> exists k, 0 <= k < 2 ^ 64 /\ p = TableFileName db k).

Definition tidy (db : bytes) (w : World) : Prop := forall p, is_Some (w_dir w !! p) -> scan_name db p.

Lemma tidy_changes db w w' paths fds : tidy db w -> changes paths fds w w' -> (forall p, p ∈ paths -> scan_name db p) -> tidy db w'.
Proof.
  intros Ht Hch Hp p Hs. destruct (decide (p ∈ paths)) as [H|H]; [auto|]. apply Ht. by rw -(ch_dir _ _ _ _ Hch).
Qed.

Lemma scan_other db p :
  (forall fname, p = db ++ str "/" ++ fname -> has_suffix4 fname (str ".log") = false /\ has_suffix4 fname (str ".sst") = false) ->
  scan_name db p.
Proof. intros H fname [-> _]%entry_name_Some. destruct (H fname eq_refl) as [-> ->]. done. Qed.

Lemma scan_log db k : 0 <= k < 2 ^ 64 -> scan_name db (LogFileName db k).
Proof.
  intros Hk fname Hf. split; [eauto|]. intros Hs. destruct (has_suffix4_Some fname (str ".sst") eq_refl Hs) as [pre ->].
  apply entry_name_Some in Hf as [E _]. rw /LogFileName MakeFileName_entry // in E; [simpl; lia|]. apply app_inv_head, app_inv_head in E.
  apply (f_equal last) in E. rw app_assoc !last_app in E. by vm_compute in E.
Qed.

Lemma scan_table db k : 0 <= k < 2 ^ 64 -> scan_name db (TableFileName db k).
Proof.
  intros Hk fname Hf. split; [|eauto]. intros Hs. destruct (has_suffix4_Some fname (str ".log") eq_refl Hs) as [pre ->].
  apply entry_name_Some in Hf as [E _]. rw /TableFileName MakeFileName_entry // in E; [simpl; lia|]. apply app_inv_head, app_inv_head in E.
  apply (f_equal last) in E. rw app_assoc !last_app in E. by vm_compute in E.
Qed.

Lemma scan_fixed db s :
  has_suffix4 s (str ".log") = false -> has_suffix4 s (str ".sst") = false -> scan_name db (db ++ str "/" ++ s).
Proof. intros H1 H2. apply scan_other. intros fname E. by apply app_inv_head, app_inv_head in E as <-. Qed.

Lemma scan_manifest db k : 0 <= k < 2 ^ 64 -> scan_name db (ManifestFileName db k).
Proof.
  intros Hk. destruct (format_06llu_spec k Hk) as (Hd & Hne & Hl & _). rw /ManifestFileName /snprintf64. revert Hd Hne Hl.
  generalize (format_06llu k). intros ds Hd Hne Hl. rw take_ge; [simpl; lia|].
  destruct ds as [|c ds' _] using rev_ind; [done|]. apply Forall_app in Hd as [_ Hd]. apply Forall_cons in Hd as [Hc _].
  change (str "/MANIFEST-" ++ ds' ++ [c]) with (str "/" ++ (str "MANIFEST-" ++ ds' ++ [c])).
  apply scan_fixed; apply has_suffix4_last; try done; rw app_assoc last_snoc; intros [= ->]; done.
Qed.

Lemma scan_manifest_paths db n p : 0 <= n < 2 ^ 64 -> p ∈ manifest_paths db n -> scan_name db p.
Proof.
  intros Hn [->|[->| ->]]%manifest_paths_inv; [by apply scan_manifest| |].
  - rw /tmp_current /CurrentFileName. rewrite <- app_assoc. by apply (scan_fixed db (str "CURRENT.tmp")).
  - by apply (scan_fixed db (str "CURRENT")).
Qed.

Lemma scan_lock db : scan_name db (LockFileName db).
Proof. by apply (scan_fixed db (str "LOCK")). Qed.

Lemma scan_dir db : scan_name db db.
Proof. apply scan_other. intros fname E. exfalso. revert E. by apply longer_neq. Qed.

(** ** The scan for logs *)

Lemma log_entry_inv db p fname :
  scan_name db p -> entry_name db p = Some fname ->
  (log_entry_number fname = None /\ forall k, 0 <= k < 2 ^ 64 -> p <> LogFileName db k) \/
  exists k, 0 <= k < 2 ^ 64 /\ p = LogFileName db k /\ log_entry_number fname = Some (Some k).
Proof.
  intros Hs He. rw /log_entry_number. destruct (has_suffix4 fname (str ".log")) eqn:E.
  - right. destruct (Hs fname He) as [Hl _]. destruct (Hl E) as (k & Hk & ->). exists k. split; [done|]. split; [done|].
    destruct (log_entry_name db k Hk) as (f' & _ & He' & En). assert (f' = fname) as -> by congruence. by rw /log_entry_number E in En.
  - left. split; [done|]. intros k Hk ->. destruct (log_entry_name db k Hk) as (f' & _ & He' & En).
    assert (f' = fname) as -> by congruence. by rw /log_entry_number E in En.
Qed.

Lemma log_files_scan {A} db lg (L : list (bytes * A)) :
  NoDup L.*1 -> (forall p, p ∈ L.*1 -> scan_name db p) ->
  exists nums, DBImpl.log_files lg (omap (fun p : bytes * A => entry_name db p.1) L) = Some nums /\ NoDup nums /\
    forall k, k ∈ nums <-> lg <= k /\ 0 <= k < 2 ^ 64 /\ LogFileName db k ∈ L.*1.
Proof.
  induction L as [|[p a] L IH]; intros Hnd Hs.
  { exists []. split; [done|]. split; [constructor|]. intros k. split; [by intros ?%elem_of_nil|by intros (_ & _ & ?%elem_of_nil)]. }
  rw fmap_cons /= in Hnd Hs. apply NoDup_cons in Hnd as [Hp Hnd]. destruct IH as (nums & E & Hn & Hk); [done|by intros q Hq; apply Hs; right|].
  specialize (Hs p ltac:(by left)). rw fmap_cons. cbn [omap list_omap fst].
  assert (Hskip : (forall k, 0 <= k < 2 ^ 64 -> p <> LogFileName db k) ->
    forall k, k ∈ nums <-> lg <= k /\ 0 <= k < 2 ^ 64 /\ LogFileName db k ∈ p :: L.*1).
  { intros Hno k. rw Hk elem_of_cons. naive_solver. }
  destruct (entry_name db p) as [fname|] eqn:En.
  2:{ exists nums. split; [done|]. split; [done|]. apply Hskip. intros k Hr ->. destruct (log_entry_name db k Hr) as (f & _ & Ef & _). congruence. }
  destruct (log_entry_inv db p fname Hs En) as [[Hnone Hno]|(k & Hr & -> & Hnum)]; cbn [DBImpl.log_files].
  { exists nums. rw Hnone. split; [done|]. split; [done|]. by apply Hskip. }
  rw Hnum. cbn [mbind option_bind]. rw E. cbn [mbind option_bind]. eexists. split; [done|].
  assert (Hiff : forall j, LogFileName db j ∈ LogFileName db k :: L.*1 /\ 0 <= j < 2 ^ 64 <->
    (j = k \/ LogFileName db j ∈ L.*1) /\ 0 <= j < 2 ^ 64).
  { intros j. rw elem_of_cons. split; intros [[Hj|Hj] Hj2]; split; auto; [left; by eapply LogFileName_inj|subst; auto]. }
  rw Z.geb_leb. destruct (Z.leb_spec lg k) as [Hle|Hgt].
  - split; [constructor; [|done]|]; [rw Hk; naive_solver|]. intros j. specialize (Hiff j). rw elem_of_cons Hk. naive_solver.
  - split; [done|]. intros j. specialize (Hiff j). rw Hk. split; [naive_solver|]. intros (H1 & H2 & H3). split; [done|]. split; [done|].
    destruct (proj1 Hiff (conj H3 H2)) as [[->|?] _]; [lia|done].
Qed.

(** Every live log is found, and nothing else. *)
Lemma readdir_logs db lg w :
  calm w -> is_Some (w_dir w !! db) -> tidy db w ->
  exists names nums, sys_readdir db w = (Some names, w) /\ DBImpl.log_files lg names = Some nums /\ NoDup nums /\
    forall k, k ∈ nums <-> lg <= k /\ 0 <= k < 2 ^ 64 /\ is_Some (w_dir w !! LogFileName db k).
Proof.
  intros [_ Hc] [i Hd] Ht. rw /sys_readdir /pop_ctl Hc Hd.
  assert (Hin : forall p, p ∈ (map_to_list (w_dir w)).*1 <-> is_Some (w_dir w !! p)).
  { intros p. rw list_elem_of_fmap. split.
    - intros ([q j] & -> & Hq%elem_of_map_to_list). by exists j.
    - intros [j Hj]. exists (p, j). split; [done|]. by apply elem_of_map_to_list. }
  destruct (log_files_scan db lg (map_to_list (w_dir w))) as (nums & E & Hn & Hk); [apply NoDup_fst_map_to_list|by intros p ?%Hin; apply Ht|].
  eexists _, nums. split; [done|]. split; [exact E|]. split; [done|]. intros k. by rw Hk Hin.
Qed.

#[local] Instance number_key : SortKey Z.ltb (fun x : Z => x).
Proof. split; intros *; lia. Qed.

(** Sorted, they are in the order in which they were written. *)
Lemma sorted_numbers nums l :
  NoDup nums -> StronglySorted (fun a b => Z.ltb a b = true) l -> (forall k, k ∈ nums <-> k ∈ l) -> std_sort Z.ltb nums = l.
Proof.
  intros Hn Hs Hk. assert (Hp : nums ≡ₚ l).
  { apply NoDup_Permutation; [done| |done]. pose proof (sorted_NoDup Z.ltb (fun x => x) l Hs) as H. by rw list_fmap_id in H. }
  apply (sorted_perm_eq Z.ltb (fun x => x)); [|done|by rewrite -> std_sort_perm].
  apply (std_sort_sorted Z.ltb (fun x => x)). by rw list_fmap_id.
Qed.

(** ** The scan for obsolete tables *)

Lemma sst_entry_inv db p fname :
  scan_name db p -> entry_name db p = Some fname ->
  (sst_entry_number fname = None /\ forall k, 0 <= k < 2 ^ 64 -> p <> TableFileName db k) \/
  exists k, 0 <= k < 2 ^ 64 /\ p = TableFileName db k /\ sst_entry_number fname = Some (Some k).
Proof.
  intros Hs He. rw /sst_entry_number. destruct (has_suffix4 fname (str ".sst")) eqn:E.
  - right. destruct (Hs fname He) as [_ Hl]. destruct (Hl E) as (k & Hk & ->). exists k. split; [done|]. split; [done|].
    destruct (sst_entry_name db k Hk) as (f' & _ & He' & En). assert (f' = fname) as -> by congruence. by rw /sst_entry_number E in En.
  - left. split; [done|]. intros k Hk ->. destruct (sst_entry_name db k Hk) as (f' & _ & He' & En).
    assert (f' = fname) as -> by congruence. by rw /sst_entry_number E in En.
Qed.

(** The tables that are not live, by name. *)
Definition obsolete (db : bytes) (live : gset Z) (p : bytes) : Prop := exists k, 0 <= k < 2 ^ 64 /\ (k ∉ live) /\ p = TableFileName db k.

Lemma remove_loop_run {A} db live (L : list (bytes * A)) w :
  calm w -> (forall p, p ∈ L.*1 -> scan_name db p) ->
  exists paths w', DBImpl.remove_loop db live (omap (fun p : bytes * A => entry_name db p.1) L) w = Some (tt, w') /\
    unlinked paths w w' /\ forall p, p ∈ paths <-> p ∈ L.*1 /\ obsolete db live p.
Proof.
  revert w; induction L as [|[p a] L IH]; intros w Hc Hs.
  { exists [], w. split; [done|]. split; [by apply unlinked_refl|]. intros p. split; [by intros ?%elem_of_nil|by intros [?%elem_of_nil _]]. }
  rw fmap_cons in Hs. assert (Hs' : forall q, q ∈ L.*1 -> scan_name db q) by (intros q Hq; apply Hs; by right).
  specialize (Hs p ltac:(by left)). rw fmap_cons. cbn [omap list_omap fst].
  assert (Hskip : (obsolete db live p -> False) -> forall paths : list bytes, (forall q, q ∈ paths <-> q ∈ L.*1 /\ obsolete db live q) ->
    forall q, q ∈ paths <-> q ∈ p :: L.*1 /\ obsolete db live q).
  { intros Hno paths H q. rw H elem_of_cons. naive_solver. }
  destruct (entry_name db p) as [fname|] eqn:En.
  2:{ destruct (IH w Hc Hs') as (paths & w' & E & U & H). exists paths, w'. split; [done|]. split; [done|]. apply Hskip; [|done].
      intros (k & Hr & _ & ->). destruct (sst_entry_name db k Hr) as (f & _ & Ef & _). congruence. }
  cbn [DBImpl.remove_loop]. destruct (sst_entry_inv db p fname Hs En) as [[-> Hno]|(k & Hr & -> & ->)].
  { destruct (IH w Hc Hs') as (paths & w' & E & U & H). exists paths, w'. split; [done|]. split; [done|]. apply Hskip; [|done].
    intros (k & Hr & _ & ->). by apply (Hno k). }
  rw (bind_lift _ _ _ k) //. destruct (bool_decide (k ∈ live)) eqn:El.
  - apply bool_decide_eq_true in El. destruct (IH w Hc Hs') as (paths & w' & E & U & H). exists paths, w'.
    split; [rw (bind_run _ _ w tt w) //|]. split; [done|]. apply Hskip; [|done]. intros (j & Hj & Hn & Ej).
    apply TableFileName_inj in Ej; [congruence|done|done].
  - apply bool_decide_eq_false in El. pose proof (proj1 (entry_name_Some _ _ _ En)) as Ep. rw -Ep.
    destruct (sys_unlink_run (TableFileName db k) w Hc) as (r & w1 & E1 & U1).
    destruct (IH w1 (ul_calm _ _ _ U1) Hs') as (paths & w' & E & U & H). exists ([TableFileName db k] ++ paths), w'.
    split; [rw (bind_run _ _ w tt w1) //; rw (bind_run _ _ w r w1) //; by rw /sys E1|]. split; [by eapply unlinked_app|].
    intros q. rw !elem_of_cons H. split; [|naive_solver]. intros [->|[? ?]]; [|auto]. split; [by left|]. exists k. auto.
Qed.

(** [RemoveObsoleteFiles] removes the tables that are not live and nothing else. *)
Lemma RemoveObsoleteFiles_run d w :
  let db := DBImpl.dbname_ d in
  calm w -> is_Some (w_dir w !! db) -> tidy db w ->
  exists paths w', DBImpl.RemoveObsoleteFiles d w = Some (tt, w') /\ unlinked paths w w' /\
    forall p, p ∈ paths <-> is_Some (w_dir w !! p) /\ obsolete db (VersionSet.AddLiveFiles (DBImpl.versions_ d) ∅) p.
Proof.
  intros db Hc [i Hd] Ht. rw /DBImpl.RemoveObsoleteFiles.
  assert (Hin : forall p, p ∈ (map_to_list (w_dir w)).*1 <-> is_Some (w_dir w !! p)).
  { intros p. rw list_elem_of_fmap. split.
    - intros ([q j] & -> & Hq%elem_of_map_to_list). by exists j.
    - intros [j Hj]. exists (p, j). split; [done|]. by apply elem_of_map_to_list. }
  destruct (remove_loop_run db (VersionSet.AddLiveFiles (DBImpl.versions_ d) ∅) (map_to_list (w_dir w)) w Hc)
    as (paths & w' & E & U & H); [by intros p ?%Hin; apply Ht|].
  exists paths, w'. split; [|split; [done|by intros p; rw H Hin]].
  rw (bind_run _ _ w (Some (omap (fun p : bytes * nat => entry_name db p.1) (map_to_list (w_dir w)))) w); [|exact E].
  by rw /sys /sys_readdir /pop_ctl (proj2 Hc) -/db Hd.
Qed.

Lemma AddLiveFiles_spec vs n :
  n ∈ VersionSet.AddLiveFiles vs ∅ <-> exists fs f, fs ∈ Version.files_ (VersionSet.current_ vs) /\ f ∈ fs /\ number f = n.
Proof.
  rw /VersionSet.AddLiveFiles.
  assert (Hin : forall (fs : list FileMetaData) (live : gset Z),
    n ∈ foldl (fun live f => {[number f]} ∪ live) live fs <-> n ∈ live \/ exists f, f ∈ fs /\ number f = n).
  { induction fs as [|f fs IH]; intros live; simpl; [set_solver|]. rw IH. set_solver. }
  assert (H : forall (files : list (list FileMetaData)) (live : gset Z),
    n ∈ foldl (fun live fs => foldl (fun live f => {[number f]} ∪ live) live fs) live files <->
    n ∈ live \/ exists fs f, fs ∈ files /\ f ∈ fs /\ number f = n).
  { induction files as [|fs files IH]; intros live; simpl; [set_solver|]. rw IH Hin. set_solver. }
  rw H. set_solver.
Qed.
