(* ===== verification/Flush.v ===== *)
(** * Flush: a memtable becomes a table

    [WriteLevel0Table] followed by [LogAndApply], as the background thread runs them for
    the immutable memtable and [Recover] for a log: the entries of the memtable become
    the newest table of level 0, and the manifest says so. *)

From S2P Require Import Prelude Status Slice Coding Format Posix Env Filename Wal SkipList Entry Iterator Memtable.
From S2P Require Import MergingIterator DBIterator Block BlockCache Options.
From S2P Require Import SSTableBuilder SSTableReader TwoLevelIterator VersionEdit Version Storage VersionSet Manifest NewManifest Compaction DBImpl.

#[local] Open Scope Z_scope.

(** ** Memtables that fit into a table *)

(** Settings within which a memtable always fits: a write buffer of up to 8 MiB and up
    to 256 filter bits per key, blocks of up to 2 MiB and tables of up to 8 MiB. *)
Record options_ok (o : Options) : Prop := {
  oo_buffer : 0 < write_buffer_size o <= 2 ^ 23;
  oo_bits : 0 <= bloom_bits_per_key o <= 256;
  oo_block : block_size o <= 2 ^ 21;
  oo_file : max_file_size o <= 2 ^ 23;
}.

(** Keys and values of up to 4 MiB together. *)
Definition write_ok (key value : bytes) : Prop := size_of key + size_of value <= 2 ^ 22.

(** What is stored is of one of the two types and not too large. *)
Definition stored_ok (x : MemtableEntry) : Prop := known_type x /\ write_ok (user_key x) (value x).

Lemma stored_types es : Forall stored_ok es -> Forall known_type es.
Proof. intros H. eapply Forall_impl; [exact H|]. by intros x [? _]. Qed.

Record mem_ok (m : Memtable) : Prop := {
  mo_inv : mem_inv m;
  mo_usage : usage_of (mem_entries m) < 2 ^ 23 + 2 ^ 22 + 144 + 1;
  mo_seqs : Forall (fun e => 0 <= seq e <= kMaxSequenceNumber) (mem_entries m);
  mo_types : Forall stored_ok (mem_entries m);
}.

Lemma body_usage es : size_of (body es) + 127 * Z.of_nat (length es) <= usage_of es.
Proof.
  induction es as [|e es IH]; [done|].
  rw body_cons (size_of_app (encode_entry e)) size_encode_entry. cbn [usage_of foldr length]. rw -/(usage_of es).
  rw /entry_usage /sizeof_MemtableEntry /sizeof_ptr. lia.
Qed.

Lemma entries_ok es :
  Forall (fun e => 0 <= seq e <= kMaxSequenceNumber) es -> Forall known_type es -> Forall entry_ok es.
Proof.
  rw /kMaxSequenceNumber. intros Hs Ht. rewrite -> Forall_forall in Hs, Ht. apply Forall_forall. intros e He.
  specialize (Hs e He). split; [change (Z.shiftl 1 56) with (2 ^ 56) in Hs; lia|]. by destruct (Ht e He) as [-> | ->].
Qed.

Lemma mem_table_small o m : options_ok o -> mem_ok m -> table_small (bloom_bits_per_key o) (mem_entries m).
Proof.
  intros [O1 O2 _ _] [M1 M2 M3 M4]. pose proof (body_usage (mem_entries m)) as Hb. pose proof (size_of_nonneg (body (mem_entries m))).
  split; try lia; [nia|]. by apply entries_ok, stored_types.
Qed.

Lemma mem_count m : mem_ok m -> Count m = Z.of_nat (length (mem_entries m)).
Proof.
  intros [M1 M2 M3 M4]. rw /Count (mi_count _ M1) u64_small //. pose proof (body_usage (mem_entries m)).
  pose proof (size_of_nonneg (body (mem_entries m))). lia.
Qed.

Lemma mem_usage m : mem_ok m -> ApproximateMemoryUsage m = usage_of (mem_entries m).
Proof.
  intros [M1 M2 M3 M4]. rw /ApproximateMemoryUsage (mi_usage _ M1) u64_small //. pose proof (body_usage (mem_entries m)).
  pose proof (size_of_nonneg (body (mem_entries m))). lia.
Qed.

Lemma NewMemtable_ok : mem_ok NewMemtable.
Proof. destruct NewMemtable_inv as [H E]. split; rw ?E //. Qed.

(** ** WriteLevel0Table *)

(** The loop over the memtable adds its entries in order. *)
Lemma add_memtable_run fuel it es i b w :
  mem_rep it es i -> (length es - i < fuel)%nat ->
  DBImpl.add_memtable fuel it b w = SSTableBuilder_AddAll b (drop i es) w.
Proof.
  revert it i b w; induction fuel as [|fuel IH]; intros it i b w Hr Hf; [lia|]. cbn [DBImpl.add_memtable].
  change (mem_Valid it) with (It.Valid it). rw (fwd_valid _ _ _ Hr). destruct (Nat.ltb_spec i (length es)) as [Hi|Hi].
  - destruct (lookup_lt_is_Some_2 es i Hi) as [x Hx]. rw (bind_lift _ _ _ _ (current_entry_run _ _ _ _ Hr Hx)) (drop_S _ _ _ Hx).
    cbn [SSTableBuilder_AddAll]. rw /mbind /SM_bind. destruct (SSTableBuilder.Add _ _ _ _ _ _) as [[b1 w1]|]; [|done].
    destruct (runs_pure _ _ (fwd_next (inv := pure) it es i Hr Hi)) as (it' & E & Hr'). rw /= /lift in E *.
    destruct (mem_Next it) as [it1|]; [|done]. injection E as ->. apply IH; [done|lia].
  - by rw drop_ge.
Qed.

(** An iterator that has not been positioned yet. *)
Lemma fresh_mem_rep m : mem_ok m -> mem_rep (NewIterator m) (mem_entries m) (length (mem_entries m)).
Proof.
  intros [Hm _ Hk _]. split_and!; auto; [apply Hm| |].
  - rw /= lookup_ge_None_2 //. rw nodes_length //. apply Hm.
  - eapply Forall_impl; [exact Hk|]. simpl. lia.
Qed.

Lemma memtable_scan_run m fuel b w :
  mem_ok m -> (length (mem_entries m) < fuel)%nat ->
  exists it, mem_SeekToFirst (NewIterator m) = Some it /\
    DBImpl.add_memtable fuel it b w = SSTableBuilder_AddAll b (mem_entries m) w.
Proof.
  intros Hm Hf. destruct (runs_pure _ _ (fwd_first (inv := pure) _ _ _ (fresh_mem_rep m Hm))) as (it & E & Hr'). exists it. split.
  - rw /= /lift in E. destruct (mem_SeekToFirst _); [|done]. by injection E as ->.
  - rw (add_memtable_run fuel it (mem_entries m) 0) //. lia.
Qed.

(** The table of a memtable: written, opened and added to the edit. *)
Lemma WriteLevel0Table_run R m edit d e :
  store (DBImpl.dbname_ d) R e -> options_ok (DBImpl.options_ d) -> mem_ok m -> mem_entries m <> [] ->
  let n := VersionSet.next_file_number_ (DBImpl.versions_ d) in
  0 <= n < 2 ^ 64 -> rg_files R !! n = None ->
  exists f ti R' e', DBImpl.WriteLevel0Table m edit d e =
      Some ((Status.OK, PushFile edit 0 f, DBImpl.set_versions (VersionSet.set_next (u64 (n + 1)) (DBImpl.versions_ d)) d), e') /\
    store (DBImpl.dbname_ d) R' e' /\ evolves R R' /\ rg_files R' = <[n := ti]> (rg_files R) /\
    rg_paths R' = <[TableFileName (DBImpl.dbname_ d) n := n]> (rg_paths R) /\
    changes [TableFileName (DBImpl.dbname_ d) n] [] (e_world e) (e_world e') /\
    ti_entries ti = mem_entries m /\ number f = n /\ is_Some (reader f) /\ file_rep R' (DBImpl.dbname_ d) f ti.
Proof.
  intros Hs Ho Hm Hne n Hn Hf. pose proof (mem_table_small _ _ Ho Hm) as Hsmall.
  destruct (BuildTable_run (DBImpl.options_ d) (TableFileName (DBImpl.dbname_ d) n) (mem_entries m) (e_world e))
    as (b & blocks & filter & content & w1 & Eb & Ht & Hr & Hw); [by eapply store_wf|apply calm_benign, Hs|done|].
  destruct (store_new_table _ R e (DBImpl.options_ d) n _ b blocks filter content w1 Hs Hn Hf Ht Hsmall) as
    (r & R' & e2 & Eo & Hs2 & Hev & Hfiles & Hpaths & Hch & Hent & Hrep); [apply mem_sorted, Hm|done|done|done|].
  destruct (SyncDirectory_kept (DBImpl.dbname_ d) (e_world e2)) as (ss & w3 & E3 & K3).
  exists (mkFile n (SSTableBuilder.FileSize b) (SSTableBuilder.SmallestKey b) (SSTableBuilder.LargestKey b) (Some r)),
    (mkTable blocks filter), (rebase R' w3), (mkEnv w3 (e_cache e2)). split.
  { rw /DBImpl.WriteLevel0Table. cbn [VersionSet.NewFileNumber]. fold n. cbn [DBImpl.dbname_ DBImpl.options_ DBImpl.set_versions].
    destruct (bind_inv _ _ _ _ Eb) as (b0 & w0 & E0 & Eb0). destruct (bind_inv _ _ _ _ Eb0) as (b1 & w1' & E1 & Eb1). rw (bind_run _ _ _ _ _ (on_world_run _ e _ _ E0)).
    destruct (memtable_scan_run m (S (length (mem_entries m))) b0 w0 Hm) as (it & Ei & Ea); [lia|]. rw (bind_lift _ _ _ _ Ei).
    rw E1 in Ea. rw (bind_run _ _ _ _ _ (on_world_run _ (mkEnv w0 (e_cache e)) _ _ Ea)). cbn [e_cache].
    rw (bind_run _ _ _ _ _ (on_world_run _ (mkEnv w1' (e_cache e)) _ _ Eb1)). cbn iota beta.
    change (negb (Status.ok Status.OK)) with false. cbn iota. cbn [e_cache]. rw (bind_run _ _ _ _ _ Eo). cbn iota beta.
    change (negb (Status.ok Status.OK)) with false. cbn iota zeta. rw (bind_run _ _ _ _ _ (on_world_run _ e2 _ _ E3)).
    rw (bind_run _ _ (mkEnv w3 (e_cache e2)) tt (mkEnv w3 (e_cache e2))); [|done].
    rw /on_world /SSTableBuilder.Destroy (tr_closed _ _ _ Hr). done. }
  split.
  { apply (store_changes (DBImpl.dbname_ d) R' e2 w3 [] []); [done|by apply files_kept_changes|by intros ? ?%elem_of_nil..]. }
  split; [by etrans; [|apply rebase_evolves]|]. split; [done|]. split; [done|].
  split; [by eapply changes_trans; [|apply files_kept_changes]|]. split; [done|]. split; [done|]. split; [by eexists|].
  eapply file_rep_evolves; [apply rebase_evolves| |exact Hrep]. apply Hrep.
Qed.

(** ** Flushing *)

Lemma retain_levels_none edit level files : deleted_files_ edit = [] -> VersionSet.retain_levels edit level files = files.
Proof.
  intros Hd. revert level; induction files as [|fs files IH]; intros level; [done|]. simpl. rw IH. f_equal.
  rw /VersionSet.retained Hd. induction fs as [|f fs IHf]; [done|]. simpl. by rw IHf.
Qed.

Lemma levels_std_sort_id levels :
  Forall (StronglySorted (fun a b => smaller_key a b = true)) levels -> std_sort smaller_key <$> levels = levels.
Proof. induction 1 as [|fs levels Hs _ IH]; [done|]. rw fmap_cons IH. f_equal. by apply (std_sort_id smaller_key smallest_key). Qed.

Lemma strip_keys (fs : list FileMetaData) : smallest_key <$> (forget_reader <$> fs) = smallest_key <$> fs.
Proof. rw -list_fmap_compose. by apply list_fmap_ext. Qed.

Lemma strip_numbers (fs : list FileMetaData) : number <$> (forget_reader <$> fs) = number <$> fs.
Proof. rw -list_fmap_compose. by apply list_fmap_ext. Qed.

(** A new file of level 0 goes to the front. *)
Lemma flush_levels files f :
  levels_ok files -> Forall (Forall (fun g => number g < number f)) (strip files) ->
  exists fs0 levels, files = fs0 :: levels /\
    push_all [(0, f)] (fs0 :: levels) = Some ((fs0 ++ [f]) :: levels) /\
    keys_apart (strip ((fs0 ++ [f]) :: levels)) /\
    VersionSet.sort_levels ((fs0 ++ [f]) :: levels) = (f :: fs0) :: levels.
Proof.
  intros Hm Hn. destruct (levels_ok_sorted files Hm) as (fs0 & levels & -> & Hl & Hs0 & Hsl).
  exists fs0, levels. split; [done|]. split; [done|]. rw /strip fmap_cons in Hn. apply Forall_cons in Hn as [Hn _].
  rewrite -> Forall_fmap in Hn.
  assert (Hsf : StronglySorted (fun a b => newer_number a b = true) (f :: fs0)).
  { constructor; [done|]. eapply Forall_impl; [exact Hn|]. intros g Hg. simpl in Hg. rw /newer_number. lia. }
  pose proof (sorted_NoDup newer_number number _ Hsf) as Hnd. split.
  - split.
    + rw strip_numbers. rewrite <- (Permutation_cons_append fs0 f). exact Hnd.
    + rw /strip. apply Forall_fmap. eapply Forall_impl; [exact Hsl|]. intros fs Hfs. simpl. rw strip_keys.
      by apply (sorted_NoDup smaller_key smallest_key).
  - simpl. rw levels_std_sort_id //. f_equal. apply (sorted_perm_eq newer_number number); [|done|].
    + apply (std_sort_sorted newer_number number). by rewrite <- (Permutation_cons_append fs0 f).
    + rewrite -> std_sort_perm. by rewrite <- (Permutation_cons_append fs0 f).
Qed.

Lemma entry_key_size es x : x ∈ es -> size_of (user_key x) + 17 <= size_of (body es).
Proof.
  induction es as [|y es IH]; [by intros ?%elem_of_nil|]. rw body_cons (size_of_app (encode_entry y)) size_encode_entry.
  pose proof (size_of_nonneg (user_key y)). pose proof (size_of_nonneg (value y)). pose proof (size_of_nonneg (body es)).
  intros [->|Hx]%elem_of_cons; [lia|]. specialize (IH Hx). lia.
Qed.

(** The key range of a table. *)
Lemma table_key_sizes R db f ti :
  file_rep R db f ti -> table_ok ti -> size_of (smallest_key f) <= 2 ^ 24 /\ size_of (largest_key f) <= 2 ^ 24 /\
    0 <= file_size f < 2 ^ 64.
Proof.
  intros [F1 F2 F3 F4 F5 F6 F7] Hok. pose proof (to_body _ Hok) as Hb. split_and!.
  - rw F5. destruct (ti_entries ti) as [|x es] eqn:E; [done|]. simpl. pose proof (entry_key_size (x :: es) x ltac:(by left)). lia.
  - rw F6. destruct (last_key_elem _ F4) as (x & _ & Hx & ->). pose proof (entry_key_size _ x Hx). lia.
  - rw F3. apply size_of_nonneg.
  - rw F3. pose proof (table_sizes ti Hok). lia.
Qed.

(** The record of an edit with one small file. *)
Lemma flush_edit_fine edit f log next s :
  new_files_ edit = [(0, f)] -> deleted_files_ edit = [] -> has_comparator_ edit = false -> comparator_name_ edit = [] ->
  VersionEdit.log_number_ edit = log -> VersionEdit.next_file_number_ edit = next -> VersionEdit.last_sequence_ edit = s ->
  has_log_number_ edit = true -> has_next_file_number_ edit = true -> has_last_sequence_ edit = true ->
  0 <= log < 2 ^ 64 -> 0 <= next < 2 ^ 64 -> 0 <= s < 2 ^ 64 -> 0 <= number f < 2 ^ 64 -> 0 <= file_size f < 2 ^ 64 ->
  size_of (smallest_key f) <= 2 ^ 24 -> size_of (largest_key f) <= 2 ^ 24 -> edit_fine edit.
Proof.
  intros E1 E2 E3 E4 E5 E6 E7 E8 E9 E10 H1 H2 H3 H4 H5 H6 H7. split.
  - split; rw ?E1 ?E2 ?E3 ?E4 ?E5 ?E6 ?E7 ?E8 ?E9 ?E10 //.
    + split; [done|constructor].
    + constructor; [|constructor]. split; [done|]. split; auto; simpl; lia.
  - split; [done|]. split; [done|]. rw /edit_out /=.
    rw EncodeTo_segments E1 E2 E3 E8 E9 E10 /=. rw /put_new_file /put_string /PutFixed32 /PutFixed64 /kMaxRecordSize.
    pose proof (size_of_nonneg (smallest_key f)). pose proof (size_of_nonneg (largest_key f)).
    cbn [fst snd]. rw ?size_of_cons ?size_of_app. size_tac.
Qed.

(** ** The flush *)

(** The tables with a new one in front. *)
Definition push_table (ti : table_info) (tiss : list (list table_info)) : list (list table_info) :=
  match tiss with [] => [] | tis :: tiss' => (ti :: tis) :: tiss' end.

Lemma push_table_entries ti tiss :
  tiss <> [] -> version_entries (push_table ti tiss) = ti_entries ti ++ version_entries tiss.
Proof. by destruct tiss. Qed.

Lemma push_table_rep R v ti tiss f fs0 levels :
  Version.files_ v = fs0 :: levels -> version_rep R v tiss -> file_rep R (Version.dbname_ v) f ti ->
  newer_versions (ti_entries ti) (version_entries tiss) ->
  version_rep R (Version.mk (Version.dbname_ v) ((f :: fs0) :: levels)) (push_table ti tiss).
Proof.
  intros Ef [V1 V2 V3 V4] Hf Hn. rw Ef in V1. apply Forall2_cons_inv_l in V1 as (tis & tiss' & H0 & Hl & ->). split; simpl; auto.
  constructor; [exact V4|]. apply Forall_forall. intros t Ht a b Ha Hb. apply Hn; [done|].
  rw /version_entries. apply list_elem_of_In, in_concat. exists (ti_entries t). split; apply list_elem_of_In; [|done].
  apply list_elem_of_fmap. eauto.
Qed.

(** What a version set and its files must be like for a flush. *)
Section flush.
Context (d : DBImpl.t) (e : TableEnv) (R : registry) (tiss : list (list table_info)) (i : Memtable) (log : Z).
Let db := DBImpl.dbname_ d.
Let vs := DBImpl.versions_ d.
Let n := VersionSet.next_file_number_ vs.
Context (Hs : store db R e) (Ho : options_ok (DBImpl.options_ d))
  (Hnames : VersionSet.dbname_ vs = db /\ Version.dbname_ (VersionSet.current_ vs) = db)
  (Hv : version_rep R (VersionSet.current_ vs) tiss) (Hready : manifest_ready vs (e_world e))
  (Hi : mem_ok i) (Hne : mem_entries i <> []) (Hnew : newer_versions (mem_entries i) (version_entries tiss))
  (Hlog : 0 <= VersionSet.log_number_ vs <= log /\ log < 2 ^ 64) (Hnum : 0 <= n /\ n + 2 < 2 ^ 64)
  (Hseq : 0 <= VersionSet.last_sequence_ vs < 2 ^ 64) (Hfiles : forall k ti, rg_files R !! k = Some ti -> k < n).

Lemma flush_run :
  exists edit d1 e1 vs' ti R' e' edits' st' paths fds,
    DBImpl.WriteLevel0Table i NewVersionEdit d e = Some ((Status.OK, edit, d1), e1) /\
    VersionSet.LogAndApply (DBImpl.versions_ d1) (SetLogNumber edit log) e1 = Some ((Status.OK, vs'), e') /\
    (exists vs1, d1 = DBImpl.set_versions vs1 d) /\
    store db R' e' /\ ti_entries ti = mem_entries i /\ version_rep R' (VersionSet.current_ vs') (push_table ti tiss) /\
    manifest_open vs' edits' st' (e_world e') /\ VersionSet.rc_max_seq st' = VersionSet.last_sequence_ vs' /\
    VersionSet.rc_max_file st' = VersionSet.next_file_number_ vs' /\ VersionSet.log_number_ vs' = log /\ VersionSet.last_sequence_ vs' = VersionSet.last_sequence_ vs /\
    n + 1 <= VersionSet.next_file_number_ vs' <= n + 2 /\
    VersionSet.dbname_ vs' = db /\ Version.dbname_ (VersionSet.current_ vs') = db /\
    rg_files R' = <[n := ti]> (rg_files R) /\
    changes paths fds (e_world e) (e_world e') /\
    (forall p, p ∈ paths -> p = TableFileName db n \/ p ∈ manifest_paths db (VersionSet.manifest_file_number_ vs')) /\
    (forall fd, fd ∈ fds -> exists writer, VersionSet.descriptor_log_ vs = Some writer /\ fd = WalWriter.fd_ writer).
Proof.
  destruct Hnames as [N1 N2]. assert (Hfree : rg_files R !! n = None).
  { destruct (rg_files R !! n) as [ti|] eqn:E; [|done]. apply Hfiles in E. lia. }
  destruct (WriteLevel0Table_run R i NewVersionEdit d e Hs Ho Hi Hne) as
    (f & ti & R1 & e1 & E1 & Hs1 & Hev & Hf1 & Hp1 & Hch1 & Hent & Hnf & Hrd & Hrep); [fold vs n; lia|done|].
  fold db vs n in E1, Hs1, Hf1, Hp1, Hch1, Hnf, Hrep. rw u64_small in E1; [lia|].
  set (vs1 := VersionSet.set_next (n + 1) vs) in *. set (d1 := DBImpl.set_versions vs1 d) in *.
  pose proof (store_wf _ _ _ Hs) as Hw. assert (Htab : forall p, p ∈ [TableFileName db n] -> p = TableFileName db n) by (by intros p ->%list_elem_of_singleton).
  assert (Hready1 : manifest_ready vs1 (e_world e1)).
  { eapply (manifest_ready_changes vs vs1); [done|done|split; done || (simpl; lia)|simpl; lia|simpl; lia|exact Hch1|rw N1..|].
    - intros H%Htab. revert H. rw /TableFileName /MakeFileName. by apply longer_neq.
    - intros k H%Htab. by eapply (manifest_not_table db k n); [lia|].
    - intros H%Htab. by eapply (current_not_table db n); [lia|].
    - by intros writer _ ?%elem_of_nil. }
  destruct (ready_levels vs _ Hready) as [Hlev Hnums]. fold n in Hnums. rw -Hnf in Hnums.
  destruct (flush_levels _ f Hlev Hnums) as (fs0 & levels & Ef & Hpush & Hap & Hsort).
  set (edit := SetLogNumber (PushFile NewVersionEdit 0 f) log).
  destruct (table_key_sizes _ _ _ _ Hrep) as (Hk1 & Hk2 & Hk3); [by eapply (ei_files _ _ (so_env _ _ _ Hs1)), Hrep|].
  destruct (ready_LogAndApply db R1 vs1 edit ((fs0 ++ [f]) :: levels) e1 Hs1 N1 Hready1) as
    (vs' & edits' & st' & e' & paths & fds & E2 & Hs2 & Hch2 & Hpaths & Hfds & Hopen & Hq & Hmx & [G1 G2 G3 [G4 _] G5]).
  { split; simpl; try done; [intros _; apply Hlog|]. constructor; [|constructor]. simpl. lia. }
  { eapply (flush_edit_fine _ f log (n + 1) (VersionSet.last_sequence_ vs)); try done; lia. }
  { constructor; [exact Hrd|constructor]. }
  { rw retain_levels_none // /= Ef //. }
  { done. }
  simpl in G1, G2, G3, G4. change (VersionSet.dbname_ vs1) with (VersionSet.dbname_ vs) in G5. rw Hsort N1 in G5. exists (PushFile NewVersionEdit 0 f), d1, e1, vs', ti, (rebase R1 (e_world e')), e', edits', st'.
  exists (TableFileName db n :: paths), fds. split; [done|]. split; [exact E2|]. split; [by eexists|]. split; [done|]. split; [done|].
  split.
  { rw G5 -N2. eapply push_table_rep; [exact Ef| | |by rw Hent].
    - eapply version_rep_evolves; [etrans; [exact Hev|apply rebase_evolves]| |done]. simpl. rw Hp1. apply insert_subseteq.
      eapply new_table_path; [apply Hs|apply Hs|lia|done].
    - rw N2. eapply file_rep_evolves; [apply rebase_evolves| |exact Hrep]. apply Hrep. }
  split; [done|]. split; [done|]. split; [by apply Hmx; left|]. split; [done|]. split; [done|]. split; [lia|]. split; [congruence|].
  split; [by rw G5|]. split; [done|]. split.
  { eapply changes_trans; [eapply changes_mono; [| |exact Hch1]|eapply changes_mono; [| |exact Hch2]]; try done.
    - intros p ->%list_elem_of_singleton. by left.
    - by intros p ?%elem_of_nil.
    - intros p Hp. by right. }
  split; [|done]. intros p [->|Hp]%elem_of_cons; auto.
Qed.
End flush.
