(* ===== verification/Outputs.v ===== *)
(** * Outputs: the tables that a compaction writes

    The builder of the current output works while the iterators of the inputs read.  What
    is added to the outputs ends up, in order, in tables that can be read. *)

From S2P Require Import Prelude Status Slice Coding Format Posix Env Filename Wal Entry Kept Iterator MergingIterator Block BlockCache Options.
From S2P Require Import SSTableBuilder SSTableReader TwoLevelIterator VersionEdit Version Storage VersionSet Manifest NewManifest Compaction DBImpl Flush.
Import Compaction.

#[local] Open Scope Z_scope.

(** ** What the builder changes *)

Lemma closed_file_changes fd ino w w' path :
  w_dir w !! path = Some ino -> closed_file fd ino w w' -> changes [path] [fd] w w'.
Proof.
  intros Hp [C1 C2 C3 [C4 C4'] [C5 C5'] [l C6]]. split; try lia.
  - intros p _. by rw C1.
  - intros p i Hin. rw C1. eauto.
  - intros fd' _ Hn. apply C3. intros ->. apply Hn. by left.
  - intros i _ Hno. apply C2. intros ->. apply (Hno path); [by left|done].
  - intros [W1 W2 W3]. split; rw ?C1 ?C4 ?C4'; auto.
  - intros [Hi Hc]. split; [|done]. rw C6 in Hi. by apply app_nil in Hi as [_ ?].
Qed.

(** Reading tables does not disturb a builder. *)
Lemma table_building_kept opts b blocks cur ino w w' :
  table_building opts b blocks cur ino w -> SSTableBuilder.fd_ b < w_fresh_fd w -> files_kept w w' -> table_building opts b blocks cur ino w'.
Proof.
  intros [B1 B2 B3 B4 B5 B6 B7 B8 B9 B10 B11 B12 B13 B14 B15] Hfd K. split; auto.
  - by rw (fk_data _ _ K).
  - by eapply at_end_kept.
  - by eapply files_kept_benign.
Qed.

Lemma data_area_body blocks : size_of (body (concat blocks)) < 2 ^ 32 -> size_of (body (concat blocks)) <= size_of (data_area blocks).
Proof.
  induction blocks as [|b blocks IH]; [done|]. simpl. rw body_app size_of_app. intros H.
  pose proof (size_of_nonneg (body b)). pose proof (size_of_nonneg (body (concat blocks))). specialize (IH ltac:(lia)).
  rw /data_area fmap_cons /= -/(data_area blocks) size_of_app size_framed. pose proof (size_block_bytes 16 b ltac:(lia)). lia.
Qed.

(** ** The outputs so far *)

Lemma on_world_bind {A B} (m : M A) (f : A -> M B) e : on_world (m ≫= f) e = (x ← on_world m; on_world (f x)) e.
Proof. rw /on_world /mbind /SM_bind. by destruct (m (e_world e)) as [[x w]|]. Qed.

Lemma on_world_lift {A B} (o : option A) (f : A -> M B) x e : o = Some x -> on_world (lift o ≫= f) e = on_world (f x) e.
Proof. intros ->. done. Qed.

Section outputs.
Context (opts : Options) (db : bytes) (vs0 : VersionSet.t) (w0 : World).
Let n0 := VersionSet.next_file_number_ vs0.

(** The entries of the finished outputs and of the current one. *)
Definition written (done : list table_info) (cur : list MemtableEntry) : list MemtableEntry := concat (ti_entries <$> done) ++ cur.

Definition opened (o : outputs) : Z := match o_builder o with Some _ => 1 | None => 0 end.

Record out_at (R : registry) (e : TableEnv) (o : outputs) (done : list table_info) (cur : list MemtableEntry) : Prop := {
  oa_store : store db R e;
  oa_vset : o_vset o = VersionSet.set_next (n0 + Z.of_nat (length done) + opened o) vs0;
  oa_files : Forall2 (file_rep R db) (o_files o) done;
  oa_readers : Forall (fun f => is_Some (reader f)) (o_files o);
  oa_numbers : number <$> o_files o = seqZ n0 (Z.of_nat (length done));
  oa_tables : forall k ti, rg_files R !! k = Some ti -> 0 <= k < n0 + Z.of_nat (length done);
  oa_ascending : keys_ascending (written done cur);
  oa_entries : Forall entry_ok (written done cur);
  oa_changes : exists paths, changes paths [] w0 (e_world e) /\
    forall p, p ∈ paths -> exists k, n0 <= k < n0 + Z.of_nat (length done) + opened o /\ p = TableFileName db k;
  oa_builder : match o_builder o with
    | None => cur = []
    | Some b => o_number o = n0 + Z.of_nat (length done) /\
        exists blocks curb ino, table_building opts b blocks curb ino (e_world e) /\ concat blocks ++ curb = cur /\
          w_dir (e_world e) !! TableFileName db (o_number o) = Some ino /\ rg_fds R !! SSTableBuilder.fd_ b = None /\
          w_fresh_fd w0 <= SSTableBuilder.fd_ b < w_fresh_fd (e_world e) /\
          (curb = [] \/ size_of (body curb) < block_size opts)
    end;
}.

(** A current output that is not yet large enough. *)
Definition out_ready (o : outputs) (cur : list MemtableEntry) : Prop :=
  match o_builder o with Some _ => cur <> [] /\ size_of (body cur) <= 2 ^ 23 + 2 ^ 21 | None => True end.

Context (Hn0 : 0 <= n0).

Lemma written_snoc done cur x : written done (cur ++ [x]) = written done cur ++ [x].
Proof. by rw /written app_assoc. Qed.

Lemma opened_range o : 0 <= opened o <= 1.
Proof. rw /opened. destruct (o_builder o); lia. Qed.

(** Reading. *)
Lemma out_at_read R e e' o done cur :
  out_at R e o done cur -> env_inv R e' -> out_at (rebase R (e_world e')) e' o done cur.
Proof.
  intros [A1 A2 A3 A4 A5 A6 A7 A8 (paths & A9 & A9') A10] He.
  destruct (store_extends db R R e e' A1 ltac:(reflexivity) He) as [Hs K]. split; auto.
  - eapply Forall2_impl; [exact A3|]. intros f ti Hf. eapply file_rep_evolves; [apply rebase_evolves|apply Hf|done].
  - exists paths. split; [|done]. eapply changes_trans; [exact A9|by apply files_kept_changes].
  - destruct (o_builder o) as [b|]; [|done]. destruct A10 as (B1 & blocks & curb & ino & B2 & B3 & B4 & B5 & B6 & B7). split; [done|].
    exists blocks, curb, ino. destruct (fk_fresh _ _ K) as [_ Hf]. split; [eapply table_building_kept; [done|lia|done]|]. split; [done|].
    split; [by rw (fk_dir _ _ K)|]. split; [done|]. split; [lia|done].
Qed.

Lemma set_next_twice a b vs : VersionSet.set_next a (VersionSet.set_next b vs) = VersionSet.set_next a vs.
Proof. done. Qed.

(** [OpenNewOutputFile]. *)
Lemma open_output_run R e o done cur :
  out_at R e o done cur -> o_builder o = None -> n0 + Z.of_nat (length done) + 1 < 2 ^ 64 ->
  exists o' e' R', on_world (OpenNewOutputFile opts db o) e = Some (o', e') /\ out_at R' e' o' done [] /\
    is_Some (o_builder o') /\ evolves R R' /\ rg_paths R' = rg_paths R.
Proof.
  intros [A1 A2 A3 A4 A5 A6 A7 A8 (paths & A9 & A9') A10] Hb Hn. rw Hb in A10. subst cur. rw /opened Hb in A2 A9'. rw Z.add_0_r in A2 A9'.
  set (n := n0 + Z.of_nat (length done)) in *. pose proof (store_wf _ _ _ A1) as Hw.
  destruct (New_run opts (TableFileName db n) (e_world e) Hw (calm_benign _ (so_calm _ _ _ A1))) as (b & ino & w1 & E & Hfd & Ho & Hbd).
  pose proof (file_opened_changes _ _ _ _ Ho) as C1. pose proof (fo_fresh _ _ _ _ Ho) as [Hf1 _].
  assert (Hfree : rg_files R !! n = None) by (destruct (rg_files R !! n) as [ti|] eqn:E'; [apply A6 in E'; lia|done]).
  assert (Hpath : rg_paths R !! TableFileName db n = None) by (eapply new_table_path; [apply A1|apply A1|lia|done]).
  assert (Hs1 : store db (rebase R w1) (mkEnv w1 (e_cache e))).
  { eapply store_changes; [done|exact C1|by intros p ->%list_elem_of_singleton|by intros ? ?%elem_of_nil]. }
  exists (mkOutputs (VersionSet.set_next (n + 1) vs0) (Some b) n (o_files o)), (mkEnv w1 (e_cache e)), (rebase R w1). split.
  { rw /OpenNewOutputFile A2. cbn [VersionSet.NewFileNumber VersionSet.set_next VersionSet.next_file_number_]. rw u64_small; [lia|].
    by rw (on_world_run _ e _ w1 (bind_run _ _ _ _ _ E)). }
  split; [|split; [by eexists|split; [apply rebase_evolves|done]]]. split; simpl; auto.
  - eapply Forall2_impl; [exact A3|]. intros. by apply file_rep_rebase.
  - exists (TableFileName db n :: paths). split.
    + eapply changes_trans; [eapply changes_mono; [| |exact A9]|eapply changes_mono; [| |exact C1]]; try done; [by apply list_subseteq_cons|].
      intros p ->%list_elem_of_singleton. by left.
    + intros p [->|Hp]%elem_of_cons; [exists n; split; [rw /opened /=; lia|done]|]. destruct (A9' p Hp) as (k & Hk & ->). exists k. rw /opened /=. split; [lia|done].
  - split; [done|]. exists [], [], ino. split; [done|]. split; [done|]. split; [apply Ho|]. split.
    + destruct (rg_fds R !! SSTableBuilder.fd_ b) as [k|] eqn:Ek; [|done]. destruct (ei_fds _ _ (so_env _ _ _ A1) _ _ Ek) as (ti & _ & f & _ & _ & Hlt & _). lia.
    + split; [|by left]. rw Hfd Hf1. pose proof (ch_fresh _ _ _ _ A9) as [_ ?]. lia.
Qed.

(** Adding to the current output. *)
Lemma add_current_run R e o done cur b x :
  out_at R e o done cur -> o_builder o = Some b -> size_of (body (cur ++ [x])) <= 2 ^ 24 -> entry_ok x ->
  keys_ascending (written done (cur ++ [x])) -> n0 + Z.of_nat (length done) + 1 < 2 ^ 64 ->
  exists b' e' R', on_world (SSTableBuilder.Add b (seq x) (type x) (user_key x) (value x)) e = Some (b', e') /\
    out_at R' e' (mkOutputs (o_vset o) (Some b') (o_number o) (o_files o)) done (cur ++ [x]) /\ evolves R R' /\ rg_paths R' = rg_paths R /\
    (SSTableBuilder.FileSize b' < max_file_size opts -> max_file_size opts <= 2 ^ 23 -> block_size opts <= 2 ^ 21 ->
     size_of (body (cur ++ [x])) <= 2 ^ 23 + 2 ^ 21).
Proof.
  intros [A1 A2 A3 A4 A5 A6 A7 A8 (paths & A9 & A9') A10] Hb Hsz Hx Hasc Hn. rw Hb in A10. rw /opened Hb in A2 A9'.
  destruct A10 as (B1 & blocks & curb & ino & B2 & B3 & B4 & B5 & B6 & B7). set (n := n0 + Z.of_nat (length done)) in *.
  assert (Hsz' : size_of (body (concat blocks ++ curb ++ [x])) <= 2 ^ 24) by (by rw app_assoc B3).
  destruct (table_Add_run opts b blocks curb ino (e_world e) x B2 Hsz') as (b' & blocks' & curb' & w1 & E & Hbd & Hcat & Hfd & F & Hsmall).
  rw app_assoc B3 in Hcat. pose proof (io_frame_changes _ _ _ _ _ B4 F) as C1.
  assert (Hfree : rg_files R !! n = None) by (destruct (rg_files R !! n) as [ti|] eqn:E'; [apply A6 in E'; lia|done]).
  assert (Hpath : rg_paths R !! TableFileName db n = None) by (eapply new_table_path; [apply A1|apply A1|lia|done]). rw B1 in C1.
  assert (Hs1 : store db (rebase R w1) (mkEnv w1 (e_cache e))).
  { eapply store_changes; [done|exact C1|by intros p ->%list_elem_of_singleton|by intros ? ->%list_elem_of_singleton]. }
  exists b', (mkEnv w1 (e_cache e)), (rebase R w1). split; [by apply on_world_run|]. split; [|split; [apply rebase_evolves|split; [done|]]].
  - split; simpl; auto.
    + eapply Forall2_impl; [exact A3|]. intros. by apply file_rep_rebase.
    + rw written_snoc. apply Forall_app. split; [done|by constructor].
    + exists (TableFileName db n :: paths). split.
      * eapply (changes_new_fd _ _ (SSTableBuilder.fd_ b)); [eapply changes_mono; [| |exact A9]|lia|eapply changes_mono; [| |exact C1]]; try done.
        -- by apply list_subseteq_cons.
        -- intros p ->%list_elem_of_singleton. by left.
      * intros p [->|Hp]%elem_of_cons; [exists n; split; [rw /opened /=; lia|done]|]. destruct (A9' p Hp) as (k & Hk & ->). exists k. rw /opened /=. split; [lia|done].
    + split; [done|]. exists blocks', curb', ino. split; [done|]. split; [done|]. split; [by rw (fr_dir _ _ _ _ F)|]. rw Hfd. split; [done|].
      split; [|done]. destruct (fr_fresh _ _ _ _ F) as [_ ->]. lia.
  - intros H1 H2 H3. rw -Hcat body_app size_of_app. rw /SSTableBuilder.FileSize (tb_offset _ _ _ _ _ _ Hbd) in H1.
    rw -Hcat body_app size_of_app in Hsz. pose proof (size_of_nonneg (body curb')).
    pose proof (data_area_body blocks' ltac:(lia)) as Hda. destruct Hsmall as [-> |?]; [|lia]. change (size_of (body [])) with 0. lia.
Qed.

Lemma entries_table_small bits cur :
  0 <= bits <= 256 -> size_of (body cur) <= 2 ^ 24 -> Forall entry_ok cur -> table_small bits cur.
Proof. intros Hb Hs He. pose proof (length_body_17 cur). split; [done|lia|nia|done]. Qed.

Lemma written_finish done cur ti : ti_entries ti = cur -> written (done ++ [ti]) [] = written done cur.
Proof. intros <-. by rw /written fmap_app concat_app /= !app_nil_r. Qed.

(** The world while the current output is written. *)
Lemma written_cur done cur : keys_ascending (written done cur) -> Forall entry_ok (written done cur) -> entries_sorted cur /\ Forall entry_ok cur.
Proof.
  intros H1%StronglySorted_app_1_r [_ H2]%Forall_app. split; [by apply keys_ascending_sorted|done].
Qed.

(** [FinishOutputFile] with entries in the current output. *)
Lemma finish_output_run R e o done cur :
  out_at R e o done cur -> is_Some (o_builder o) -> cur <> [] -> size_of (body cur) <= 2 ^ 24 -> 0 <= bloom_bits_per_key opts <= 256 ->
  n0 + Z.of_nat (length done) + 1 < 2 ^ 64 ->
  exists o' e' R' ti, on_world (FinishOutputFile opts db o) e = Some ((Status.OK, o'), e') /\ o_builder o' = None /\
    out_at R' e' o' (done ++ [ti]) [] /\ ti_entries ti = cur /\ evolves R R' /\ rg_paths R ⊆ rg_paths R'.
Proof.
  intros [A1 A2 A3 A4 A5 A6 A7 A8 (paths & A9 & A9') A10] [b Hb] Hne Hsz Hbits Hn. rw Hb in A10. rw /opened Hb in A2 A9'.
  destruct A10 as (B1 & blocks & curb & ino & B2 & B3 & B4 & B5 & B6 & B7). set (n := n0 + Z.of_nat (length done)) in *.
  destruct (written_cur _ _ A7 A8) as [Hso Hent]. pose proof (entries_table_small _ _ Hbits Hsz Hent) as Hts.
  destruct (Finish_run opts b blocks curb ino (e_world e) B2) as (b' & blocks' & filter & w1 & E & Ht & Hr & Hcl); [by rw B3|]. rw B3 in Ht Hr.
  rw B1 in B4. pose proof (closed_file_changes _ _ _ _ _ B4 Hcl) as C1.
  assert (Hfree : rg_files R !! n = None) by (destruct (rg_files R !! n) as [ti|] eqn:E'; [apply A6 in E'; lia|done]).
  assert (Hpath : rg_paths R !! TableFileName db n = None) by (eapply new_table_path; [apply A1|apply A1|lia|done]).
  assert (Hs1 : store db (rebase R w1) (mkEnv w1 (e_cache e))).
  { eapply store_changes; [done|exact C1|by intros p ->%list_elem_of_singleton|by intros ? ->%list_elem_of_singleton]. }
  destruct (store_add_table db (rebase R w1) (mkEnv w1 (e_cache e)) opts n cur b' blocks' filter _ ino Hs1 ltac:(lia) Hfree Ht Hts Hso Hne Hr) as
    (r & R' & e' & Eo & Hs' & Hev & Hf' & Hp' & K & Hti & Hrep); [by rw /= (cf_dir _ _ _ _ Hcl)|done|]. simpl in K.
  set (ti := mkTable blocks' filter) in *. set (f := mkFile n _ _ _ (Some r)) in *.
  assert (Hsub : rg_paths R ⊆ rg_paths R') by (rw Hp' /=; by apply insert_subseteq).
  exists (mkOutputs (o_vset o) None n (o_files o ++ [f])), e', R', ti. split.
  { rw /on_world /FinishOutputFile Hb /SSTableBuilder.NumEntries (tb_num _ _ _ _ _ _ B2) B3.
    destruct (Z.gtb_spec (Z.of_nat (length cur)) 0) as [_|Hle]; [|destruct cur; [done|simpl in Hle; lia]].
    rw (bind_run _ _ _ _ _ E). cbn iota beta. change (negb (Status.ok Status.OK)) with false. cbn iota zeta. cbn [o_number o_vset o_files].
    rw B1. fold n. rw /on_world /= in Eo. destruct (SSTableReader.Open _ _ _ _ _) as [[res w2]|] eqn:Er; [|done]. injection Eo as -> <-.
    rw (bind_run _ _ _ _ _ Er). cbn iota beta. change (negb (Status.ok Status.OK)) with false. cbn iota zeta. cbn [o_number].
    rw /reset_builder. cbn [o_builder o_vset o_files o_number]. rw /SSTableBuilder.Destroy (tr_closed _ _ _ Hr). done. }
  split; [done|]. split; [|split; [done|split; [by etrans; [apply (rebase_evolves R w1)|]|done]]].
  rw /= in K. split; simpl; rw ?length_app /= ?(written_finish _ _ _ Hti) //.
  - rw A2 /opened /=. f_equal. lia.
  - apply Forall2_app; [|by constructor]. eapply Forall2_impl; [exact A3|]. intros g t Hg.
    eapply file_rep_evolves; [etrans; [apply (rebase_evolves R w1)|exact Hev]| |exact Hg]. eapply lookup_weaken; [apply Hg|done].
  - apply Forall_app. split; [done|]. constructor; [by eexists|constructor].
  - rw fmap_app A5 Nat2Z.inj_add seqZ_app; [lia|lia|]. done.
  - intros k t. rw Hf' /= lookup_insert_Some. intros [[<- _]|[_ Hk%A6]]; lia.
  - exists (TableFileName db n :: paths). split.
    + eapply changes_trans; [|by apply files_kept_changes].
      eapply (changes_new_fd _ _ (SSTableBuilder.fd_ b)); [eapply changes_mono; [| |exact A9]|lia|eapply changes_mono; [| |exact C1]]; try done.
      * by apply list_subseteq_cons.
      * intros p ->%list_elem_of_singleton. by left.
    + intros p [->|Hp]%elem_of_cons; [exists n; split; [rw /opened /=; lia|done]|]. destruct (A9' p Hp) as (k & Hk & ->). exists k. rw /opened /=. split; [lia|done].
Qed.

Context (Hopts : options_ok opts).

Lemma body_snoc_bound cur x b :
  size_of (body cur) <= b -> write_ok (user_key x) (value x) -> size_of (body (cur ++ [x])) <= b + 2 ^ 22 + 17.
Proof.
  intros H1 H2. rw body_app size_of_app /= (size_of_app (encode_entry x)) size_encode_entry. rw /write_ok in H2. change (size_of []) with 0. lia.
Qed.

(** Adding with the size check after it. *)
Lemma add_checked_run R e o done cur b x :
  out_at R e o done cur -> o_builder o = Some b -> size_of (body cur) <= 2 ^ 23 + 2 ^ 21 -> entry_ok x -> write_ok (user_key x) (value x) ->
  keys_ascending (written done (cur ++ [x])) -> n0 + Z.of_nat (length done) + 1 < 2 ^ 64 ->
  exists o' e' R' done' cur', on_world (b ← SSTableBuilder.Add b (seq x) (type x) (user_key x) (value x);
      let o := mkOutputs (o_vset o) (Some b) (o_number o) (o_files o) in
      if SSTableBuilder.FileSize b >=? max_file_size opts then FinishOutputFile opts db o else mret (Status.OK, o)) e
        = Some ((Status.OK, o'), e') /\
    out_at R' e' o' done' cur' /\ out_ready o' cur' /\ written done' cur' = written done (cur ++ [x]) /\ evolves R R' /\ rg_paths R ⊆ rg_paths R'.
Proof.
  intros Ho Hb Hsz Hx Hw Hasc Hn. pose proof (body_snoc_bound cur x _ Hsz Hw) as Hsz'.
  destruct (add_current_run R e o done cur b x Ho Hb ltac:(lia) Hx Hasc Hn) as (b' & e1 & R1 & E1 & Ho1 & Hev1 & Hp1 & Hsm).
  rw on_world_bind (bind_run _ _ _ _ _ E1). cbn zeta. destruct (Z.geb_spec (SSTableBuilder.FileSize b') (max_file_size opts)) as [Hge|Hlt].
  - destruct (finish_output_run R1 e1 _ done (cur ++ [x]) Ho1) as (o' & e' & R' & ti & E2 & Hb' & Ho' & Hti & Hev' & Hp');
      [by eexists|by destruct cur|lia|apply Hopts|done|].
    exists o', e', R', (done ++ [ti]), []. split; [done|]. split; [done|]. split; [by rw /out_ready Hb'|]. split; [by apply written_finish|].
    split; [by etrans|]. by rw -Hp1.
  - eexists _, e1, R1, done, (cur ++ [x]). split; [by rw /on_world /mret /SM_ret; destruct e1|]. split; [exact Ho1|]. split; [|split; [done|split; [done|by rw Hp1]]].
    split; [by destruct cur|]. destruct Hopts as [_ _ H3 H4]. by apply Hsm.
Qed.

Lemma add_output_run R e o done cur x :
  out_at R e o done cur -> out_ready o cur -> entry_ok x -> write_ok (user_key x) (value x) ->
  keys_ascending (written done (cur ++ [x])) -> n0 + Z.of_nat (length done) + 1 < 2 ^ 64 ->
  exists o' e' R' done' cur', on_world (add_output opts db x o) e = Some ((Status.OK, o'), e') /\
    out_at R' e' o' done' cur' /\ out_ready o' cur' /\ written done' cur' = written done (cur ++ [x]) /\ evolves R R' /\ rg_paths R ⊆ rg_paths R'.
Proof.
  intros Ho Hready Hx Hw Hasc Hn. rw /add_output. destruct (o_builder o) as [b|] eqn:Hb.
  - rw /out_ready Hb in Hready. rw on_world_bind (bind_run _ _ e o e); [by destruct e|].
    rw (on_world_lift _ _ _ _ Hb). by apply (add_checked_run R e o done cur b x Ho Hb (proj2 Hready)).
  - assert (cur = []) as -> by (pose proof (oa_builder _ _ _ _ _ Ho) as H; by rw Hb in H).
    destruct (open_output_run R e o done [] Ho Hb Hn) as (o1 & e1 & R1 & E1 & Ho1 & [b Hb1] & Hev1 & Hp1).
    rw on_world_bind (bind_run _ _ _ _ _ E1) (on_world_lift _ _ _ _ Hb1).
    destruct (add_checked_run R1 e1 o1 done [] b x Ho1 Hb1) as (o' & e' & R' & done' & cur' & E & H1 & H2 & H3 & H4 & H5); auto; [done|].
    exists o', e', R', done', cur'. split; [done|]. split; [done|]. split; [done|]. split; [done|]. split; [by etrans|]. by rw -Hp1.
Qed.

Lemma out_count R e o done cur : out_at R e o done cur -> (length done <= length (written done cur))%nat.
Proof.
  intros Ho. pose proof (oa_files _ _ _ _ _ Ho) as Hf. rw /written length_app. clear Ho.
  induction Hf as [|f ti fs tis Hft _ IH]; [simpl; lia|]. rw fmap_cons /= length_app. pose proof (fr_nonempty _ _ _ _ Hft).
  destruct (ti_entries ti); [done|]. simpl. lia.
Qed.
End outputs.
