(* ===== verification/MergeLoop.v ===== *)
(** * MergeLoop: the merge loop of a compaction

    The loop moves the merging iterator over the inputs, keeps the newest version of each
    key and drops tombstones that hide nothing: its outputs hold exactly [kept]. *)

From S2P Require Import Prelude Status Slice Coding Format Posix Env Filename Wal Entry Kept Iterator MergingIterator Block BlockCache Options.
From S2P Require Import SSTableBuilder SSTableReader TwoLevelIterator VersionEdit Version Storage VersionSet Manifest NewManifest Compaction DBImpl Flush Outputs.
Import Compaction.

#[local] Open Scope Z_scope.

(** ** Iterators of a growing set of tables *)

Lemma two_rep_evolves R R' it es i : evolves R R' -> two_rep R it es i -> two_rep R' it es i.
Proof.
  intros X (ti & j & He & [H1 H2 H3] & H). exists ti, j. split; [done|]. split; [|done]. split; auto. by eapply reader_rep_evolves.
Qed.

Lemma merging_rep_mono {I} `{It.View I} (rep rep' : cursor_rep I) m es i :
  (forall c es i, rep c es i -> rep' c es i) -> merging_rep rep m es i -> merging_rep rep' m es i.
Proof.
  intros Hr (sts & [M1 M2 M3 M4 M5] & Hc). exists sts. split; [|done]. split; auto.
  eapply Forall2_impl; [exact M1|]. intros c st. apply Hr.
Qed.

Abbreviation inputs_rep R := (merging_rep (two_rep R)).

Lemma inputs_rep_evolves R R' m es i : evolves R R' -> inputs_rep R m es i -> inputs_rep R' m es i.
Proof. intros X. apply merging_rep_mono. intros c es' i'. by apply two_rep_evolves. Qed.

(** ** The loop *)

Section loop.
Context (opts : Options) (db : bytes) (vs0 : VersionSet.t) (w0 : World) (c : t) (base : bytes -> bool) (es : list MemtableEntry).
Let n0 := VersionSet.next_file_number_ vs0.
Context (Hn0 : 0 <= n0) (Hopts : options_ok opts) (Hbase : forall k, IsBaseLevelForKey c k (VersionSet.current_ vs0) = Some (base k))
  (Hsort : entries_sorted es) (Hok : Forall entry_ok es) (Hsmall : Forall (fun x => write_ok (user_key x) (value x)) es)
  (Hroom : n0 + Z.of_nat (length es) + 1 < 2 ^ 64).
Abbreviation outs_at := (out_at opts db vs0 w0).

(** One step of the iterator. *)
Lemma input_next_run R e o done cur it i :
  outs_at R e o done cur -> inputs_rep R it es i -> (i < length es)%nat ->
  exists it' e' R', It.Next it e = Some (it', e') /\ outs_at R' e' o done cur /\ inputs_rep R' it' es (S i) /\ evolves R R' /\
    rg_paths R' = rg_paths R.
Proof.
  intros Ho Hit Hi. destruct (fwd_next (St := TableEnv) (inv := env_inv R) (rep := inputs_rep R) it es i Hit Hi e) as (it' & e' & E & He & Hit').
  { apply Ho. }
  exists it', e', (rebase R (e_world e')). split; [done|]. split; [by eapply out_at_read|]. split; [|split; [apply rebase_evolves|done]].
  eapply inputs_rep_evolves; [apply rebase_evolves|done].
Qed.

Lemma kept_prefix done cur last i x :
  written done cur ++ kept base last (drop i es) = kept base None es -> x ∈ written done cur ++ kept base last (drop i es) ->
  keys_ascending (written done cur ++ kept base last (drop i es)) /\ entry_ok x /\ write_ok (user_key x) (value x).
Proof.
  intros E Hx. rw E in Hx |- *. split; [by apply kept_ascending|]. apply kept_elem in Hx. rewrite -> Forall_forall in Hok, Hsmall. auto.
Qed.

Lemma kept_room R e o done cur last i :
  outs_at R e o done cur -> written done cur ++ kept base last (drop i es) = kept base None es ->
  n0 + Z.of_nat (length done) + 1 < 2 ^ 64.
Proof.
  intros Ho E. pose proof (out_count _ _ _ _ _ _ _ _ _ Ho) as H1. pose proof (sublist_length _ _ (kept_sublist base None es)) as H2.
  rw -E length_app in H2. lia.
Qed.

Lemma merge_loop_run fuel it last i R e o done cur :
  outs_at R e o done cur -> out_ready o cur -> inputs_rep R it es i -> (length es - i < fuel)%nat ->
  written done cur ++ kept base last (drop i es) = kept base None es ->
  exists o' e' R' done' cur', merge_loop fuel opts db c it last o e = Some ((Status.OK, o'), e') /\
    outs_at R' e' o' done' cur' /\ out_ready o' cur' /\ written done' cur' = kept base None es /\ evolves R R' /\ rg_paths R ⊆ rg_paths R'.
Proof.
  revert it last i R e o done cur; induction fuel as [|fuel IH]; intros it last i R e o done cur Ho Hr Hit Hf Hk; [lia|]. cbn [merge_loop].
  rw (fwd_valid _ _ _ Hit). destruct (Nat.ltb_spec i (length es)) as [Hi|Hi].
  2:{ rw drop_ge // in Hk. simpl in Hk. rw app_nil_r in Hk. exists o, e, R, done, cur. by split_and!. }
  destruct (lookup_lt_is_Some_2 es i Hi) as [x Hx]. rw (bind_lift _ _ _ _ (current_entry_run _ _ _ _ Hit Hx)).
  rw (drop_S _ _ _ Hx) in Hk. cbn [kept] in Hk.
  assert (Hnext : forall R1 e1 o1 done1 cur1 last1, outs_at R1 e1 o1 done1 cur1 -> out_ready o1 cur1 -> evolves R R1 -> rg_paths R ⊆ rg_paths R1 ->
    written done1 cur1 ++ kept base last1 (drop (S i) es) = kept base None es ->
    exists o' e' R' done' cur', (it ← It.Next it; merge_loop fuel opts db c it last1 o1) e1 = Some ((Status.OK, o'), e') /\
      outs_at R' e' o' done' cur' /\ out_ready o' cur' /\ written done' cur' = kept base None es /\ evolves R R' /\ rg_paths R ⊆ rg_paths R').
  { intros R1 e1 o1 done1 cur1 last1 Ho1 Hr1 X1 P1 Hk1.
    destruct (input_next_run R1 e1 o1 done1 cur1 it i Ho1 (inputs_rep_evolves _ _ _ _ _ X1 Hit) Hi) as (it' & e2 & R2 & E2 & Ho2 & Hit2 & X2 & P2).
    rw (bind_run _ _ _ _ _ E2). destruct (IH it' last1 (S i) R2 e2 o1 done1 cur1 Ho2 Hr1 Hit2 ltac:(lia) Hk1) as
      (o' & e' & R' & done' & cur' & E & H1 & H2 & H3 & H4 & H5).
    exists o', e', R', done', cur'. split; [done|]. split; [done|]. split; [done|]. split; [done|]. split; [by etrans; [|etrans]|].
    rw P2 in H5. by etrans. }
  case_bool_decide as Hl; [by apply (Hnext R e o done cur last)|].
  rw (oa_vset _ _ _ _ _ _ _ _ _ Ho). change (VersionSet.current_ (VersionSet.set_next _ vs0)) with (VersionSet.current_ vs0).
  rw (bind_run _ _ e ((type x =? kTypeDeletion) && base (user_key x)) e).
  { destruct (type x =? kTypeDeletion); [by rw Hbase|done]. }
  destruct ((type x =? kTypeDeletion) && base (user_key x)) eqn:Ed.
  - rw (bind_run _ _ e (Status.OK, o) e) //. cbn iota beta. change (negb (Status.ok Status.OK)) with false. cbn iota.
    by apply (Hnext R e o done cur (Some (user_key x))).
  - destruct (kept_prefix done cur last i x) as (Hasc & Hxo & Hxw); rw ?(drop_S _ _ _ Hx); cbn [kept]; rw ?bool_decide_false // ?Ed //.
    { apply elem_of_app. right. by left. }
    rw (drop_S _ _ _ Hx) in Hasc. cbn [kept] in Hasc. rw bool_decide_false // Ed in Hasc.
    destruct (add_output_run opts db vs0 w0 Hn0 Hopts R e o done cur x Ho Hr Hxo Hxw) as (o1 & e1 & R1 & done1 & cur1 & E1 & Ho1 & Hr1 & Hw1 & X1 & P1).
    { rw written_snoc. rw (app_assoc _ [x]) in Hasc. by apply StronglySorted_app_1_l in Hasc. }
    { eapply (kept_room R e o done cur last i); [done|]. rw (drop_S _ _ _ Hx). cbn [kept]. by rw bool_decide_false // Ed. }
    rw (bind_run _ _ _ _ _ E1). cbn iota beta. change (negb (Status.ok Status.OK)) with false. cbn iota.
    apply (Hnext R1 e1 o1 done1 cur1 (Some (user_key x))); auto. by rw Hw1 written_snoc -app_assoc.
Qed.
End loop.

(** ** The inputs *)

Section inputs.
Context (opts : Options) (db : bytes) (cache : bool).

Definition fresh_iter (R : registry) (it : TwoLevelIterator.t) (ti : table_info) : Prop := two_rep R it (ti_entries ti) (length (ti_entries ti)).

Lemma open_inputs_run R fs tis :
  quiet R -> Forall2 (file_rep R db) fs tis ->
  grows R (open_inputs opts db cache fs) (fun R' r => exists its, r = inr its /\ Forall2 (fresh_iter R') its tis).
Proof.
  revert R tis; induction fs as [|f fs IH]; intros R tis Hq Hf.
  { apply Forall2_nil_inv_l in Hf as ->. apply grows_ret. by exists []. }
  apply Forall2_cons_inv_l in Hf as (ti & tis' & Hf & Hfs & ->). cbn [open_inputs].
  eapply grows_bind; [by apply OpenReader_run|]. intros R1 [s f'] X1 (Es & _ & _ & r & Er & Hr). simpl in Es, Er. subst s. cbn iota beta.
  change (negb (Status.ok Status.OK)) with false. cbn iota. eapply grows_bind_lift; [exact Er|].
  destruct (New_two_rep R1 r ti cache Hr) as (it & En & Hit). eapply grows_bind_lift; [exact En|].
  eapply grows_bind; [eapply IH; [by eapply quiet_mono|]|].
  { eapply Forall2_impl; [exact Hfs|]. intros. by eapply file_rep_mono. }
  intros R2 r2 X2 (its & -> & Hits). apply grows_ret. exists (it :: its). split; [done|]. constructor; [|done].
  eapply two_rep_evolves; [by apply extends_evolves|done].
Qed.
End inputs.

(** ** The sorted merge *)

Lemma StronglySorted_impl {A} (P Q : A -> A -> Prop) l : (forall a b, P a b -> Q a b) -> StronglySorted P l -> StronglySorted Q l.
Proof. intros H. induction 1 as [|x l _ IH Hx]; constructor; [done|]. eapply Forall_impl; [exact Hx|]. auto. Qed.

Definition entry_ltb (a b : MemtableEntry) : bool := MemtableKeyComparator a b <? 0.
Definition entry_id (e : MemtableEntry) : bytes * Z := (user_key e, seq e).

#[global] Instance entry_ltb_key : SortKey entry_ltb entry_id.
Proof.
  split; intros *; rw /entry_ltb /entry_id.
  - intros [= H1 H2]. apply Z.ltb_ge. rw (_ : MemtableKeyComparator x y = 0) //. by apply CompareInternalKey_eq.
  - rw !Z.ltb_lt. apply cmp_trans.
  - intros Hne. rw !Z.ltb_lt. destruct (Z.eq_dec (MemtableKeyComparator x y) 0) as [E|E].
    + apply CompareInternalKey_eq in E as [E1 E2]. destruct Hne. by f_equal.
    + pose proof (CompareInternalKey_antisym (user_key x) (seq x) (user_key y) (seq y)). rw /MemtableKeyComparator in E |- *. lia.
Qed.

Definition merged (es : list MemtableEntry) : list MemtableEntry := std_sort entry_ltb es.

Lemma merged_perm es : merged es ≡ₚ es.
Proof. apply std_sort_perm. Qed.

Lemma merged_sorted es : NoDup (entry_id <$> es) -> entries_sorted (merged es).
Proof.
  intros H. eapply StronglySorted_impl; [|apply (std_sort_sorted entry_ltb entry_id); exact H]. intros a b. apply Z.ltb_lt.
Qed.

Lemma entries_sorted_ids es : entries_sorted es -> NoDup (entry_id <$> es).
Proof.
  intros H. apply (sorted_NoDup entry_ltb entry_id). eapply StronglySorted_impl; [|exact H]. intros a b Hab. by apply Z.ltb_lt.
Qed.

Lemma tables_ids tis :
  StronglySorted newer_table tis -> Forall (fun ti => entries_sorted (ti_entries ti)) tis -> NoDup (entry_id <$> concat (ti_entries <$> tis)).
Proof.
  induction 1 as [|ti tis _ IH Hn]; [constructor|]. intros [Hs Ht]%Forall_cons. rw fmap_cons /= fmap_app. apply NoDup_app.
  split; [by apply entries_sorted_ids|]. split; [|auto]. intros k (x & -> & Hx)%list_elem_of_fmap (y & E & Hy)%list_elem_of_fmap.
  apply list_elem_of_In, in_concat in Hy as (l & Hl%list_elem_of_In & Hy%list_elem_of_In).
  apply list_elem_of_fmap in Hl as (t & -> & Ht'). rewrite -> Forall_forall in Hn. injection E as E1 E2.
  pose proof (Hn t Ht' x y Hx Hy E1). lia.
Qed.

(** A table is larger than its entries. *)
Lemma table_body_size ti : table_ok ti -> size_of (body (ti_entries ti)) + 13 <= size_of (ti_content ti).
Proof.
  intros Hok. pose proof (to_body _ Hok) as Hb. pose proof (data_area_body (ti_blocks ti)) as Hd. fold (ti_entries ti) in Hd. specialize (Hd ltac:(lia)).
  rw /ti_content /table_bytes. rewrite -> !size_of_app, size_footer. size_tac.
Qed.

(** ** From the inputs to the outputs *)

Definition input_bytes (fs : list FileMetaData) : Z := foldr (fun f n => file_size f + n) 0 fs.

Lemma input_bytes_body R db fs tis :
  Forall2 (file_rep R db) fs tis -> Forall table_ok tis ->
  13 * Z.of_nat (length fs) + size_of (body (concat (ti_entries <$> tis))) <= input_bytes fs.
Proof.
  induction 1 as [|f ti fs tis Hf _ IH]; [done|]. intros [Hok Ht]%Forall_cons. rw fmap_cons. cbn [concat length]. rw body_app size_of_app.
  change (input_bytes (f :: fs)) with (file_size f + input_bytes fs). pose proof (table_body_size ti Hok).
  rw (fr_size _ _ _ _ Hf). specialize (IH Ht). lia.
Qed.

Lemma input_bytes_entries R db fs tis :
  Forall2 (file_rep R db) fs tis -> Forall table_ok tis -> Z.of_nat (length (concat (ti_entries <$> tis))) <= input_bytes fs.
Proof.
  intros Hf Hok. pose proof (input_bytes_body R db fs tis Hf Hok). pose proof (length_body_17 (concat (ti_entries <$> tis))). lia.
Qed.

Lemma files_table_ok R e db fs tis : env_inv R e -> Forall2 (file_rep R db) fs tis -> Forall table_ok tis.
Proof.
  intros He. induction 1 as [|f ti fs tis Hf _ IH]; constructor; [|done]. eapply (ei_files _ _ He), Hf.
Qed.

Lemma set_next_id vs : VersionSet.set_next (VersionSet.next_file_number_ vs) vs = vs.
Proof. by destruct vs. Qed.

Section merge.
Context (opts : Options) (db : bytes) (cache : bool) (vs0 : VersionSet.t) (c : t) (base : bytes -> bool) (R : registry) (e : TableEnv)
  (tis : list table_info).
Let n0 := VersionSet.next_file_number_ vs0.
Let es := merged (concat (ti_entries <$> tis)).
Context (Hs : store db R e) (Hopts : options_ok opts) (Hn0 : 0 <= n0)
  (Hbase : forall k, IsBaseLevelForKey c k (VersionSet.current_ vs0) = Some (base k))
  (Hf : Forall2 (file_rep R db) (inputs0_ c ++ inputs1_ c) tis) (Hne : inputs0_ c <> [])
  (Hnew : StronglySorted newer_table tis) (Hstored : Forall stored_ok (concat (ti_entries <$> tis)))
  (Hfiles : forall k ti, rg_files R !! k = Some ti -> 0 <= k < n0)
  (Hroom : n0 + input_bytes (inputs0_ c ++ inputs1_ c) + 1 < 2 ^ 64).

Lemma merge_run :
  exists o' e' R' done cur, DoCompaction opts db vs0 c cache e = install_outputs opts db c o' e' /\
    out_at opts db vs0 (e_world e) R' e' o' done cur /\ out_ready o' cur /\ written done cur = kept base None es /\
    evolves R R' /\ rg_paths R ⊆ rg_paths R'.
Proof.
  pose proof (files_table_ok R e db _ _ (so_env _ _ _ Hs) Hf) as Hok. pose proof (input_bytes_entries _ _ _ _ Hf Hok) as Hlen.
  assert (Hsort : entries_sorted es).
  { apply merged_sorted, tables_ids; [done|]. eapply Forall_impl; [exact Hok|]. intros ti Ht. apply Ht. }
  assert (Hes : length es = length (concat (ti_entries <$> tis))) by apply Permutation_length, merged_perm.
  destruct (store_grows db R e _ _ Hs (open_inputs_run opts db cache R _ tis (store_quiet _ _ _ Hs) Hf)) as
    (r & R1 & e1 & E1 & X1 & Hs1 & K1 & its & -> & Hits).
  pose proof (extends_evolves _ _ X1) as V1. set (R2 := rebase R1 (e_world e1)) in *.
  assert (Hits2 : Forall2 (child_at (two_rep R2)) its ((fun ti => (ti_entries ti, length (ti_entries ti))) <$> tis)).
  { apply Forall2_fmap_r. eapply Forall2_impl; [exact Hits|]. intros it ti Hit. eapply two_rep_evolves; [apply rebase_evolves|exact Hit]. }
  assert (Hperm : es ≡ₚ concat (((fun ti => (ti_entries ti, length (ti_entries ti))) <$> tis).*1)).
  { rw -list_fmap_compose. apply merged_perm. }
  destruct (merging_first_run (env_inv R2) (two_rep R2) its _ es None Hits2 Hsort Hperm e1 (so_env _ _ _ Hs1)) as (it & e2 & E2 & He2 & Hit).
  destruct (store_extends db R2 R2 e1 e2 Hs1 ltac:(reflexivity) He2) as [Hs2 K2]. set (R3 := rebase R2 (e_world e2)) in *.
  assert (Hin : forall x, x ∈ es -> x ∈ concat (ti_entries <$> tis)) by (intros x Hx; unfold es in Hx; by rewrite -> merged_perm in Hx).
  assert (Ho : out_at opts db vs0 (e_world e) R3 e2 (mkOutputs vs0 None 0 []) [] []).
  { split; simpl; auto; try done.
    - rw /opened /= !Z.add_0_r set_next_id //.
    - intros k ti. rw (ex_files _ _ X1). intros Hk%Hfiles. lia.
    - constructor.
    - exists []. split; [|by intros p ?%elem_of_nil]. apply files_kept_changes. by eapply files_kept_trans. }
  destruct (merge_loop_run opts db vs0 (e_world e) c base es Hn0 Hopts Hbase Hsort) with (fuel := merge_fuel c) (it := it) (last := @None bytes)
    (i := 0%nat) (R := R3) (e := e2) (o := mkOutputs vs0 None 0 []) (done := @nil table_info) (cur := @nil MemtableEntry)
    as (o' & e' & R' & done & cur & E3 & Ho' & Hr' & Hw' & V3 & P3); auto.
  { apply Forall_forall. intros x Hx%Hin. apply list_elem_of_In, in_concat in Hx as (l & Hl%list_elem_of_In & Hx%list_elem_of_In).
    apply list_elem_of_fmap in Hl as (ti & -> & Hti). rewrite -> Forall_forall in Hok. pose proof (to_entries _ (Hok ti Hti)) as He.
    by eapply Forall_forall in He. }
  { apply Forall_forall. intros x Hx%Hin. rewrite -> Forall_forall in Hstored. apply (Hstored x Hx). }
  { fold n0. rw Hes. lia. }
  { done. }
  { eapply inputs_rep_evolves; [apply rebase_evolves|exact Hit]. }
  { rw Hes /merge_fuel. fold (input_bytes (inputs0_ c ++ inputs1_ c)). lia. }
  exists o', e', R', done, cur. split.
  { rw /DoCompaction (bind_run _ _ _ _ _ E1). cbn iota beta.
    destruct its as [|it0 its]. { apply Forall2_nil_inv_l in Hits as ->. apply Forall2_nil_inv_r in Hf. by destruct (inputs0_ c). }
    cbn [NewMergingIterator]. cbn iota. rw (bind_run _ _ e1 it e2); [exact E2|]. rw (bind_run _ _ _ _ _ E3). cbn iota beta.
    by change (negb (Status.ok Status.OK)) with false. }
  split; [done|]. split; [done|]. split; [done|]. split; [by etrans; [exact V1|]; etrans; [apply (rebase_evolves R1 (e_world e1))|]; etrans; [apply (rebase_evolves R2 (e_world e2))|]|].
  rw /R3 /R2 /= (ex_paths _ _ X1) in P3. done.
Qed.
End merge.
