(* ===== verification/Replacement.v ===== *)
(** * Replacement: other tables in the place of the inputs

    Some tables of a level and the tables of the next level that they meet are taken out,
    and tables with some of their entries put into the next level.  The search order of the
    version stays right: what is found first is the newest. *)

From S2P Require Import Prelude Status Slice Format Posix Env Entry Kept Block BlockCache Options.
From S2P Require Import SSTableBuilder SSTableReader TwoLevelIterator VersionEdit Version.

#[local] Open Scope Z_scope.

Definition tables_entries (tis : list table_info) : list MemtableEntry := concat (ti_entries <$> tis).

Lemma tables_entries_app a b : tables_entries (a ++ b) = tables_entries a ++ tables_entries b.
Proof. by rw /tables_entries fmap_app concat_app. Qed.

Lemma tables_entries_elem tis x : x ∈ tables_entries tis <-> exists ti, ti ∈ tis /\ x ∈ ti_entries ti.
Proof.
  rw /tables_entries list_elem_of_In in_concat. split.
  - intros (l & Hl%list_elem_of_In & Hx%list_elem_of_In). apply list_elem_of_fmap in Hl as (ti & -> & Hti). eauto.
  - intros (ti & Hti & Hx). exists (ti_entries ti). rw -!list_elem_of_In. split; [|done]. apply list_elem_of_fmap. eauto.
Qed.

#[global] Instance tables_entries_perm : Proper (Permutation ==> Permutation) tables_entries.
Proof.
  induction 1 as [|t a b _ IH|t t' a|]; rw /tables_entries; simpl; [done|by rewrite -> IH| |by etrans].
  rw !app_assoc. by rewrite -> (Permutation_app_comm (ti_entries t)).
Qed.

(** All keys of the one before all keys of the other. *)
Definition keys_below (a b : list MemtableEntry) : Prop :=
  forall x y, x ∈ a -> y ∈ b -> Slice.compare (user_key x) (user_key y) < 0.

Lemma keys_below_newer a b : keys_below a b -> newer_versions a b /\ newer_versions b a.
Proof.
  intros H. split; intros x y Hx Hy E; [specialize (H x y Hx Hy)|specialize (H y x Hy Hx)]; rw E cmp_refl in H; lia.
Qed.

(** A table with entries in order. *)
Definition table_sorted (ti : table_info) : Prop := entries_sorted (ti_entries ti) /\ ti_entries ti <> [].

Lemma head_key_le es x : entries_sorted es -> x ∈ es -> Slice.compare (from_option user_key [] (head es)) (user_key x) <= 0.
Proof.
  intros Hs Hx. destruct es as [|y es]; [by apply elem_of_nil in Hx|]. simpl. apply elem_of_cons in Hx as [->|Hx]; [by rw cmp_refl|].
  apply StronglySorted_inv in Hs as [_ Hf]. rewrite -> Forall_forall in Hf. by apply entry_lt_key, Hf.
Qed.

Lemma head_key_elem es : es <> [] -> exists y, y ∈ es /\ from_option user_key [] (head es) = user_key y.
Proof. destruct es as [|y es]; [done|]. exists y. split; [by left|done]. Qed.

Lemma keys_below_level t t' :
  table_sorted t -> table_sorted t' ->
  Slice.compare (last_key (ti_entries t)) (from_option user_key [] (head (ti_entries t'))) < 0 <-> keys_below (ti_entries t) (ti_entries t').
Proof.
  intros [S1 N1] [S2 N2]. split.
  - intros H x y Hx Hy. eapply (cmp_le_lt_trans Slice.compare); [by apply (block_key_le_last (ti_entries t))|]. eapply (cmp_lt_le_trans Slice.compare); [exact H|].
    by apply head_key_le.
  - intros H. destruct (last_key_elem _ N1) as (x & _ & Hx & ->), (head_key_elem _ N2) as (y & Hy & ->). by apply H.
Qed.

Lemma keys_below_tables a b :
  keys_below (tables_entries a) (tables_entries b) <-> forall t t', t ∈ a -> t' ∈ b -> keys_below (ti_entries t) (ti_entries t').
Proof.
  split.
  - intros H t t' Ht Ht' x y Hx Hy. apply H; apply tables_entries_elem; eauto.
  - intros H x y (t & Ht & Hx)%tables_entries_elem (t' & Ht' & Hy)%tables_entries_elem. by eapply H.
Qed.

(** A sorted level that is cut in two. *)
Lemma level_sorted_app a b :
  Forall table_sorted (a ++ b) -> level_sorted (a ++ b) <-> level_sorted a /\ level_sorted b /\ keys_below (tables_entries a) (tables_entries b).
Proof.
  intros [Ha Hb]%Forall_app. rewrite -> Forall_forall in Ha, Hb. rw StronglySorted_app keys_below_tables. split.
  - intros (Hab & H1 & H2). split; [done|]. split; [done|]. intros t t' Ht Ht'. apply keys_below_level; auto.
  - intros (H1 & H2 & Hab). split; [|done]. intros t t' Ht Ht'. apply keys_below_level; auto.
Qed.

(** Tables whose entries, one after the other, have ascending keys. *)
Lemma ascending_level_sorted tis : Forall table_sorted tis -> keys_ascending (tables_entries tis) -> level_sorted tis.
Proof.
  induction tis as [|t tis IH]; [constructor|]. intros Hs. change (t :: tis) with ([t] ++ tis) in *. rw tables_entries_app.
  intros (Hc & _ & H2)%StronglySorted_app. apply level_sorted_app; [done|]. apply Forall_app in Hs as [_ Hs].
  split; [repeat constructor|]. split; [auto|]. exact Hc.
Qed.

Lemma level_sorted_newer tis : Forall table_sorted tis -> level_sorted tis -> StronglySorted newer_table tis.
Proof.
  induction tis as [|t tis IH]; [constructor|]. intros Hs Hl. apply StronglySorted_inv in Hl as [Hl Hf]. apply Forall_cons in Hs as [Ht Hs].
  constructor; [auto|]. rewrite -> Forall_forall in Hf, Hs. apply Forall_forall. intros t' Ht'.
  by apply (keys_below_newer (ti_entries t) (ti_entries t')), keys_below_level; auto.
Qed.

(** Tables between others, with entries of tables that were there. *)
Lemma newer_between A I O B :
  StronglySorted newer_table (A ++ B) -> StronglySorted newer_table O -> (forall x, x ∈ tables_entries O -> x ∈ tables_entries I) ->
  newer_versions (tables_entries A) (tables_entries I) -> newer_versions (tables_entries I) (tables_entries B) ->
  StronglySorted newer_table (A ++ O ++ B).
Proof.
  rw !StronglySorted_app. intros (Hab & Ha & Hb) Ho Hin HA HB.
  assert (Hel : forall L t x, t ∈ L -> x ∈ ti_entries t -> x ∈ tables_entries L) by (intros; apply tables_entries_elem; eauto).
  split_and!; auto.
  - intros t t' Ht [Ht'|Ht']%elem_of_app; [|by apply Hab]. intros x y Hx Hy. apply HA; [by eapply Hel|]. apply Hin. by eapply Hel.
  - intros t t' Ht Ht' x y Hx Hy. apply HB; [|by eapply Hel]. apply Hin. by eapply Hel.
Qed.

(** ** A level and the next *)

Section replacement.
Context (tpre : list (list table_info)) (t0 tr0 ta t1 tb outs : list table_info) (tdeep : list (list table_info)).
Let old := tpre ++ (t0 ++ tr0) :: (ta ++ t1 ++ tb) :: tdeep.
Let new := tpre ++ tr0 :: (ta ++ outs ++ tb) :: tdeep.
Let inputs := tables_entries (t0 ++ t1).
Context (Hnewer : StronglySorted newer_table (concat old)) (Hsorted : Forall level_sorted (tail old)) (Htables : Forall table_sorted (concat old))
  (Hrest : tpre = [] -> tr0 = []) (Hbelow : keys_below (tables_entries ta) (tables_entries t0)) (Habove : keys_below (tables_entries t0) (tables_entries tb))
  (Houts : Forall table_sorted outs) (Hasc : keys_ascending (tables_entries outs))
  (Hin : forall x, x ∈ tables_entries outs -> x ∈ inputs).

(** What is searched before the inputs, and after them. *)
Definition before_inputs : list table_info := concat tpre ++ tr0 ++ ta.
Definition after_inputs : list table_info := tb ++ concat tdeep.

Lemma old_tables : concat old = concat tpre ++ t0 ++ tr0 ++ ta ++ t1 ++ tb ++ concat tdeep.
Proof. by rw /old concat_app /= -!app_assoc. Qed.

Lemma new_tables : concat new = before_inputs ++ outs ++ after_inputs.
Proof. by rw /new /before_inputs /after_inputs concat_app /= -!app_assoc. Qed.

Lemma table_parts : Forall table_sorted (t0 ++ tr0) /\ Forall table_sorted (ta ++ t1 ++ tb).
Proof.
  pose proof Htables as H. rw old_tables in H. apply Forall_app in H as [_ [H1 [H2 [H3 [H4 [H5 _]%Forall_app]%Forall_app]%Forall_app]%Forall_app]%Forall_app].
  by rw !Forall_app.
Qed.

Lemma next_level : level_sorted ta /\ level_sorted tb /\ keys_below (tables_entries ta) (tables_entries t1) /\
  keys_below (tables_entries ta) (tables_entries tb) /\ keys_below (tables_entries t1) (tables_entries tb).
Proof.
  destruct table_parts as [_ Hp]. pose proof Hp as [_ Hp']%Forall_app.
  assert (Hl : level_sorted (ta ++ t1 ++ tb)).
  { rewrite -> Forall_forall in Hsorted. apply Hsorted. rw /old. destruct tpre as [|x l]; simpl; [by left|].
    apply elem_of_app. right. right. by left. }
  apply level_sorted_app in Hl as (Ha & Hl & Hab); [|done]. apply level_sorted_app in Hl as (_ & Hb & H1b); [|done].
  rw tables_entries_app in Hab. split_and!; auto; intros x y Hx Hy; apply Hab; auto; apply elem_of_app; auto.
Qed.

Lemma same_level : keys_below (tables_entries t0) (tables_entries tr0) /\ (tpre <> [] -> level_sorted tr0).
Proof.
  destruct table_parts as [Hp _]. destruct (decide (tpre = [])) as [E|Hne].
  - split; [|done]. rw (Hrest E). by intros x y _ ?%elem_of_nil.
  - assert (Hl : level_sorted (t0 ++ tr0)).
    { rewrite -> Forall_forall in Hsorted. apply Hsorted. rw /old. destruct tpre as [|x l]; [done|]. simpl. apply elem_of_app. right. by left. }
    apply level_sorted_app in Hl as (_ & H1 & H2); [|done]. auto.
Qed.

Lemma ordered_parts (a b : list table_info) :
  (exists p q r, concat old = p ++ a ++ q ++ b ++ r) -> newer_versions (tables_entries a) (tables_entries b).
Proof.
  intros (p & q & r & E) x y (t & Ht & Hx)%tables_entries_elem (t' & Ht' & Hy)%tables_entries_elem.
  pose proof Hnewer as H. rw E in H. apply StronglySorted_app_1_r in H. apply StronglySorted_app in H as (H & _).
  specialize (H t t' Ht). apply H; auto. apply elem_of_app. right. apply elem_of_app. by left.
Qed.

Lemma newer_app_l a b c : newer_versions a c -> newer_versions b c -> newer_versions (a ++ b) c.
Proof. intros H1 H2 x y [Hx|Hx]%elem_of_app Hy; auto. Qed.

Lemma newer_app_r a b c : newer_versions a b -> newer_versions a c -> newer_versions a (b ++ c).
Proof. intros H1 H2 x y Hx [Hy|Hy]%elem_of_app; auto. Qed.

(** What is searched before the inputs is newer, what is searched after them is older. *)
Lemma inputs_newer : newer_versions (tables_entries before_inputs) inputs /\ newer_versions inputs (tables_entries after_inputs).
Proof.
  destruct next_level as (_ & _ & Ha1 & _ & H1b), same_level as [H0r _]. rw /before_inputs /after_inputs /inputs !tables_entries_app.
  split; repeat apply newer_app_l; repeat apply newer_app_r.
  - apply ordered_parts. rw old_tables. exists [], [], (tr0 ++ ta ++ t1 ++ tb ++ concat tdeep). done.
  - apply ordered_parts. rw old_tables. exists [], (t0 ++ tr0 ++ ta), (tb ++ concat tdeep). by rw -!app_assoc.
  - exact (proj2 (keys_below_newer _ _ H0r)).
  - apply ordered_parts. rw old_tables. exists (concat tpre ++ t0), ta, (tb ++ concat tdeep). by rw -!app_assoc.
  - exact (proj1 (keys_below_newer _ _ Hbelow)).
  - exact (proj1 (keys_below_newer _ _ Ha1)).
  - exact (proj1 (keys_below_newer _ _ Habove)).
  - apply ordered_parts. rw old_tables. exists (concat tpre), (tr0 ++ ta ++ t1 ++ tb), []. by rw app_nil_r -!app_assoc.
  - exact (proj1 (keys_below_newer _ _ H1b)).
  - apply ordered_parts. rw old_tables. exists (concat tpre ++ t0 ++ tr0 ++ ta), tb, []. by rw app_nil_r -!app_assoc.
Qed.

Lemma replaced_newer : StronglySorted newer_table (concat new).
Proof.
  rw new_tables. apply (newer_between before_inputs (t0 ++ t1) outs after_inputs); try apply inputs_newer; auto.
  - pose proof Hnewer as H. rw old_tables in H. apply StronglySorted_app in H as (Hp & H1 & H).
    rw (app_assoc t0) in H. rw /before_inputs /after_inputs -!app_assoc. apply StronglySorted_app. 
    apply StronglySorted_app in H as (Hr & H2 & H). apply StronglySorted_app in H2 as (_ & _ & H2).
    apply StronglySorted_app in H as (Ha & H3 & H). apply StronglySorted_app in H as (_ & _ & H4).
    assert (Hab : StronglySorted newer_table (ta ++ tb ++ concat tdeep)).
    { apply StronglySorted_app. split_and!; auto. intros t t' Ht Ht'. apply Ha; [done|]. apply elem_of_app. by right. }
    split_and!; [|done|].
    + intros t t' Ht Ht'. apply Hp; [done|]. revert Ht'. rw !elem_of_app. tauto.
    + apply StronglySorted_app. split_and!; auto. intros t t' Ht Ht'. apply Hr; [apply elem_of_app; by right|]. revert Ht'. rw !elem_of_app. tauto.
  - by apply level_sorted_newer, ascending_level_sorted.
Qed.

Lemma replaced_sorted : Forall level_sorted (tail new).
Proof.
  destruct next_level as (Sa & Sb & Ha1 & Hab & H1b), same_level as [H0r Hr].
  assert (Hmid : level_sorted (ta ++ outs ++ tb)).
  { destruct table_parts as [_ [Pa [_ Pb]%Forall_app]%Forall_app]. assert (Hso : Forall table_sorted (outs ++ tb)) by (by apply Forall_app).
    apply level_sorted_app; [by apply Forall_app|]. split; [done|]. split.
    - apply level_sorted_app; [done|]. split; [by apply ascending_level_sorted|]. split; [done|]. intros x y Hx%Hin Hy. revert Hx.
      rw /inputs tables_entries_app elem_of_app. intros [Hx|Hx]; [by apply Habove|by apply H1b].
    - rw tables_entries_app. intros x y Hx [Hy%Hin|Hy]%elem_of_app; [|by apply Hab]. revert Hy.
      rw /inputs tables_entries_app elem_of_app. intros [Hy|Hy]; [by apply Hbelow|by apply Ha1]. }
  pose proof Hsorted as H. rw /old in H. rw /new. destruct tpre as [|x l]; simpl in H |- *.
  - apply Forall_cons in H as [_ H]. by constructor.
  - apply Forall_app in H as [H1 [_ [_ H2]%Forall_cons]%Forall_cons]. apply Forall_app. split; [done|]. constructor; [by apply Hr|]. by constructor.
Qed.

Lemma old_entries_perm : tables_entries (concat old) ≡ₚ inputs ++ tables_entries (before_inputs ++ after_inputs).
Proof.
  rw old_tables /inputs -tables_entries_app. apply tables_entries_perm. rw /before_inputs /after_inputs. solve_Permutation.
Qed.

Lemma new_entries_perm : tables_entries (concat new) ≡ₚ tables_entries outs ++ tables_entries (before_inputs ++ after_inputs).
Proof.
  rw new_tables -tables_entries_app. apply tables_entries_perm. solve_Permutation.
Qed.
End replacement.
