(* ===== verification/Compacting.v ===== *)
(** * Compacting: compactions keep the database

    [PickCompaction] takes the oldest tables of a level, or all of level 0, and the
    tables of the next level whose keys they meet; replacing them by the tables that the
    merge loop writes gives a version that answers every read as before. *)

From S2P Require Import Prelude Status Slice Coding Format Posix Env Filename Wal Entry Kept Iterator MergingIterator Block BlockCache Options.
From S2P Require Import SSTableBuilder SSTableReader TwoLevelIterator VersionEdit Version Storage VersionSet Manifest NewManifest Compaction DBImpl Flush Outputs MergeLoop.
Import Compaction.

#[local] Open Scope Z_scope.

(** ** The choice *)

Lemma min_of_le m fs : Slice.compare (min_of m fs) m <= 0 /\ Forall (fun f => Slice.compare (min_of m fs) (smallest_key f) <= 0) fs.
Proof.
  rw /min_of. revert m; induction fs as [|f fs IH]; intros m; simpl; [by rw cmp_refl|].
  set (m' := if Slice.ltb (smallest_key f) m then smallest_key f else m). destruct (IH m') as [H1 H2].
  assert (Hm : Slice.compare m' m <= 0 /\ Slice.compare m' (smallest_key f) <= 0).
  { rw /m' /Slice.ltb. destruct (Z.ltb_spec (Slice.compare (smallest_key f) m) 0); [rw cmp_refl; lia|].
    rw cmp_refl. split; [lia|]. apply cmp_ge_le; [apply _|done]. }
  split; [by eapply (cmp_le_trans Slice.compare); [|apply Hm]|]. constructor; [by eapply (cmp_le_trans Slice.compare); [|apply Hm]|done].
Qed.

Lemma max_of_ge m fs : Slice.compare m (max_of m fs) <= 0 /\ Forall (fun f => Slice.compare (largest_key f) (max_of m fs) <= 0) fs.
Proof.
  rw /max_of. revert m; induction fs as [|f fs IH]; intros m; simpl; [by rw cmp_refl|].
  set (m' := if Slice.gtb (largest_key f) m then largest_key f else m). destruct (IH m') as [H1 H2].
  assert (Hm : Slice.compare m m' <= 0 /\ Slice.compare (largest_key f) m' <= 0).
  { rw /m' /Slice.gtb. destruct (Z.gtb_spec (Slice.compare (largest_key f) m) 0) as [H|H]; rw cmp_refl; [|lia].
    split; [|lia]. apply cmp_ge_le; [apply _|lia]. }
  split; [by eapply (cmp_le_trans Slice.compare); [apply Hm|]|]. constructor; [by eapply (cmp_le_trans Slice.compare); [apply Hm|]|done].
Qed.

Lemma List_filter_none {A} (p : A -> bool) l : Forall (fun x => p x = false) l -> List.filter p l = [].
Proof. induction 1 as [|x l Hx _ IH]; [done|]. by rw /= Hx. Qed.

(** In a sorted level the files that overlap are next to each other. *)
Lemma overlapping_split mn mx fs :
  files_sorted fs -> Forall range_ok fs ->
  exists a b, fs = a ++ overlapping mn mx fs ++ b /\ Forall (fun f => Slice.compare (largest_key f) mn < 0) a /\
    Forall (fun f => Slice.compare mx (smallest_key f) < 0) b.
Proof.
  induction fs as [|f fs IH]; intros Hs Hr; [by exists [], []|]. apply StronglySorted_inv in Hs as [Hs Hf]. apply Forall_cons in Hr as [Hrf Hr].
  cbn [overlapping List.filter]. fold (overlapping mn mx fs). rw /Slice.ltb /Slice.gtb.
  destruct (Z.ltb_spec (Slice.compare (largest_key f) mn) 0) as [Hlt|Hge]; cbn [orb negb].
  { destruct (IH Hs Hr) as (a & b & E & Ha & Hb). exists (f :: a), b. split; [by rw {1}E|]. split; [by constructor|done]. }
  destruct (Z.gtb_spec (Slice.compare (smallest_key f) mx) 0) as [Hgt|Hle]; cbn [negb].
  - assert (Hall : Forall (fun g => Slice.compare mx (smallest_key g) < 0) (f :: fs)).
    { assert (H0 : Slice.compare mx (smallest_key f) < 0) by (rw Slice.compare_antisym; lia). constructor; [done|].
      eapply Forall_impl; [exact Hf|]. intros g Hg. simpl in Hg. eapply (cmp_trans (cmp := Slice.compare)); [exact H0|].
      eapply (cmp_le_lt_trans Slice.compare); [exact Hrf|done]. }
    exists [], (f :: fs). split; [|split; [constructor|done]]. simpl. rw (_ : overlapping mn mx fs = []) //.
    apply List_filter_none. apply Forall_cons in Hall as [_ Hall]. eapply Forall_impl; [exact Hall|]. intros g Hg. simpl in Hg.
    rw /Slice.gtb (Slice.compare_antisym (smallest_key g)). destruct (Z.gtb_spec (- Slice.compare mx (smallest_key g)) 0); [|lia]. by rw orb_true_r.
  - destruct (IH Hs Hr) as (a & b & E & Ha & Hb). exists [], b. split; [|split; [constructor|done]]. simpl. f_equal.
    destruct a as [|g a]; [exact E|]. exfalso. apply Forall_cons in Ha as [Hg _].
    assert (Hin : g ∈ fs) by (rw E; by left). rewrite -> Forall_forall in Hf, Hr. specialize (Hf g Hin). specialize (Hr g Hin). simpl in Hf.
    assert (H1 : Slice.compare (largest_key f) (largest_key g) < 0) by (by eapply (cmp_lt_le_trans Slice.compare)).
    pose proof (cmp_trans (cmp := Slice.compare) _ _ _ H1 Hg). lia.
Qed.

(** A compaction of the version with these files: from the level below [pre], all of
    level 0 or the first file, and the overlapping part of the next level. *)
Record picked (files : list (list FileMetaData)) (c : t) (pre : list (list FileMetaData)) (rest0 a b : list FileMetaData)
    (deep : list (list FileMetaData)) (mn mx : bytes) : Prop := {
  pk_files : files = pre ++ (inputs0_ c ++ rest0) :: (a ++ inputs1_ c ++ b) :: deep;
  pk_level : level_ c = Z.of_nat (length pre);
  pk_inputs : inputs0_ c <> [];
  pk_rest : pre = [] -> rest0 = [];
  pk_range : Forall (fun f => Slice.compare mn (smallest_key f) <= 0 /\ Slice.compare (largest_key f) mx <= 0) (inputs0_ c);
  pk_below : Forall (fun f => Slice.compare (largest_key f) mn < 0) a;
  pk_above : Forall (fun f => Slice.compare mx (smallest_key f) < 0) b;
}.

Lemma Files_Some v lvl fs : Version.Files v lvl = Some fs -> 0 <= lvl /\ Version.files_ v !! Z.to_nat lvl = Some fs.
Proof. rw /Version.Files. destruct (Z.ltb_spec lvl 0); [done|]. intros ?. split; [lia|done]. Qed.

(** Two levels that follow each other. *)
Lemma split_levels (files : list (list FileMetaData)) i l0 l1 :
  files !! i = Some l0 -> files !! S i = Some l1 -> files = take i files ++ l0 :: l1 :: drop (S (S i)) files /\ length (take i files) = i.
Proof.
  intros H0 H1. split; [|rw length_take_le //; apply lookup_lt_Some in H0; lia]. rw -(drop_S _ _ _ H1) -(drop_S _ _ _ H0) take_drop //.
Qed.

Section pick.
Context (v : Version.t) (Hsorted : Forall files_sorted (tail (Version.files_ v))) (Hranges : Forall (Forall range_ok) (Version.files_ v)).

Lemma level_split lvl fs mn mx :
  Version.files_ v !! S lvl = Some fs ->
  exists a b, fs = a ++ overlapping mn mx fs ++ b /\ Forall (fun f => Slice.compare (largest_key f) mn < 0) a /\
    Forall (fun f => Slice.compare mx (smallest_key f) < 0) b.
Proof.
  intros H. apply overlapping_split.
  - rw -lookup_tail in H. by eapply Forall_lookup_1 in Hsorted.
  - by eapply Forall_lookup_1 in Hranges.
Qed.

Lemma pick_level_spec n lvl c :
  pick_level n lvl v = Some (Some c) -> 1 <= lvl -> exists pre rest0 a b deep mn mx, picked (Version.files_ v) c pre rest0 a b deep mn mx.
Proof.
  revert lvl; induction n as [|n IH]; intros lvl; cbn [pick_level]; [done|].
  destruct (Version.LevelBytes v lvl) as [total|]; [|done]. cbn [mbind option_bind].
  destruct (Version.Files v lvl) as [fs|] eqn:Ef; [|done]. cbn [mbind option_bind]. destruct fs as [|f fs]; [intros; eapply IH; [done|lia]|].
  destruct (total >? level_limit lvl); [|intros; eapply IH; [done|lia]].
  destruct (Version.Files v (lvl + 1)) as [next|] eqn:En; [|done]. cbn [mbind option_bind]. intros [= <-] Hl.
  apply Files_Some in Ef as [_ Ef], En as [_ En]. rw (_ : Z.to_nat (lvl + 1) = S (Z.to_nat lvl)) in En; [lia|].
  destruct (level_split _ _ (smallest_key f) (largest_key f) En) as (a & b & E & Ha & Hb).
  destruct (split_levels _ _ _ _ Ef En) as [Es Hlen].
  exists (take (Z.to_nat lvl) (Version.files_ v)), fs, a, b, (drop (S (S (Z.to_nat lvl))) (Version.files_ v)), (smallest_key f), (largest_key f).
  split; simpl; auto; try done.
  - by rw -E.
  - rw Hlen. lia.
  - intros E0. rw E0 in Hlen. simpl in Hlen. lia.
  - constructor; [by rw !cmp_refl|constructor].
Qed.

Lemma PickCompaction_spec options vs c :
  VersionSet.current_ vs = v -> PickCompaction options vs = Some (Some c) ->
  exists pre rest0 a b deep mn mx, picked (Version.files_ v) c pre rest0 a b deep mn mx.
Proof.
  intros Hv. rw /PickCompaction Hv. destruct (Version.NumLevelFiles v 0) as [n0|]; [|done]. cbn [mbind option_bind].
  destruct (n0 >=? max_level0_files options); [|intros H; by eapply pick_level_spec].
  destruct (Version.Files v 0) as [fs|] eqn:Ef; [|done]. cbn [mbind option_bind]. destruct fs as [|f fs]; [done|].
  destruct (Version.Files v 1) as [next|] eqn:En; [|done]. cbn [mbind option_bind]. intros [= <-].
  apply Files_Some in Ef as [_ Ef], En as [_ En]. change (Z.to_nat 0) with 0%nat in Ef. change (Z.to_nat 1) with 1%nat in En.
  set (mn := min_of (smallest_key f) (f :: fs)). set (mx := max_of (largest_key f) (f :: fs)).
  destruct (level_split _ _ mn mx En) as (a & b & E & Ha & Hb). destruct (split_levels _ _ _ _ Ef En) as [Es Hlen].
  exists [], [], a, b, (drop 2 (Version.files_ v)), mn, mx. split; simpl; auto; try done.
  - rw app_nil_r -E. exact Es.
  - destruct (min_of_le (smallest_key f) (f :: fs)) as [_ H1], (max_of_ge (largest_key f) (f :: fs)) as [_ H2].
    fold mn in H1. fold mx in H2. rewrite -> Forall_forall in H1, H2. apply Forall_forall. intros g Hg. auto.
Qed.
End pick.

(** ** Tombstones *)

Lemma base_loop_run files deep n lvl key v :
  Version.files_ v = files -> drop (Z.to_nat lvl) files = deep -> 0 <= lvl -> length deep = n ->
  base_loop n lvl key v = Some (negb (existsb (covers_key key) (concat deep))).
Proof.
  intros Hv Hd Hl Hn. revert lvl deep Hd Hl Hn; induction n as [|n IH]; intros lvl deep Hd Hl Hn.
  { by destruct deep. }
  destruct deep as [|fs deep]; [done|]. cbn [base_loop]. rw /Version.Files (proj2 (Z.ltb_ge _ _)) // Hv.
  assert (Hlk : files !! Z.to_nat lvl = Some fs).
  { rw -(Nat.add_0_r (Z.to_nat lvl)) -lookup_drop Hd //. }
  rw Hlk. cbn [mbind option_bind concat]. rw existsb_app. destruct (existsb (covers_key key) fs); [done|]. cbn [orb].
  apply IH; [|lia|by injection Hn]. rw (_ : Z.to_nat (lvl + 1) = S (Z.to_nat lvl)); [lia|]. rw (drop_S _ _ _ Hlk) in Hd. by injection Hd.
Qed.

Definition base_for (deep : list (list FileMetaData)) (key : bytes) : bool := negb (existsb (covers_key key) (concat deep)).

Lemma IsBaseLevel_run files c pre rest0 a b deep mn mx v key :
  picked files c pre rest0 a b deep mn mx -> Version.files_ v = files -> length files = Z.to_nat kNumLevels ->
  IsBaseLevelForKey c key v = Some (base_for deep key).
Proof.
  intros [P1 P2 _ _ _ _ _] Hv Hl. rw /IsBaseLevelForKey P2. eapply base_loop_run; [exact Hv| |lia|].
  - rw P1 (_ : Z.to_nat (Z.of_nat (length pre) + 2) = (length pre + 2)%nat); [lia|]. by rw drop_app_add.
  - rw P1 length_app /= in Hl. change (Z.to_nat kNumLevels) with 7%nat in Hl. change kNumLevels with 7. lia.
Qed.

Lemma base_for_false deep key f : f ∈ concat deep -> in_range key f -> base_for deep key = false.
Proof.
  intros Hf [H1 H2]. rw /base_for. apply negb_false_iff, existsb_exists. exists f. split; [by apply list_elem_of_In|].
  rw /covers_key /Slice.geb /Slice.leb (Slice.compare_antisym key). apply andb_true_iff. split; [apply Z.geb_le; lia|by apply Z.leb_le].
Qed.
