(* ===== verification/CompactionEdit.v ===== *)
(** * CompactionEdit: the edit of a compaction

    The edit deletes the inputs from their levels and adds the outputs to the next level.
    Applied to the version the inputs were picked from, it gives the levels with the
    outputs in the place of the inputs. *)

From S2P Require Import Prelude Status Slice Coding Format Posix Env Filename Wal Entry Kept Iterator MergingIterator Block BlockCache Options.
From S2P Require Import SSTableBuilder SSTableReader TwoLevelIterator VersionEdit Version Storage VersionSet Manifest NewManifest Compaction DBImpl Flush Outputs MergeLoop Replacement Compacting.
Import Compaction.

#[local] Open Scope Z_scope.

(** ** The set of deleted files *)

Lemma pair_ltb_total p q : pair_ltb p q = false -> pair_ltb q p = false -> p = q.
Proof. destruct p, q. rw /pair_ltb /=. intros. f_equal; lia. Qed.

Lemma pair_ltb_trans p q r : pair_ltb p q = true -> pair_ltb q r = true -> pair_ltb p r = true.
Proof. destruct p, q, r. rw /pair_ltb /=. lia. Qed.

Lemma set_insert_elem p s x : x ∈ set_insert p s <-> x = p \/ x ∈ s.
Proof.
  induction s as [|q s IH]; simpl; [by rw list_elem_of_singleton elem_of_nil; tauto|].
  destruct (pair_ltb p q) eqn:E1; [by rw elem_of_cons|]. destruct (pair_ltb q p) eqn:E2; rw !elem_of_cons ?IH; [tauto|].
  rw (pair_ltb_total p q) //. tauto.
Qed.

Lemma set_insert_sorted p s : pair_sorted s -> pair_sorted (set_insert p s).
Proof.
  induction s as [|q s IH]; simpl; [repeat constructor|]. intros Hs. pose proof Hs as [Hs' Hq]%StronglySorted_inv.
  destruct (pair_ltb p q) eqn:E1.
  - constructor; [done|]. constructor; [done|]. eapply Forall_impl; [exact Hq|]. intros r Hr. by eapply pair_ltb_trans.
  - destruct (pair_ltb q p) eqn:E2; [|done]. constructor; [auto|]. apply Forall_forall. intros r [->|Hr]%set_insert_elem; [done|].
    by eapply Forall_forall in Hq.
Qed.

Lemma set_insert_length p s : (length (set_insert p s) <= S (length s))%nat.
Proof. induction s as [|q s IH]; simpl; [done|]. destruct (pair_ltb p q); [done|]. destruct (pair_ltb q p); simpl; lia. Qed.

Definition delete_all (level : Z) (fs : list FileMetaData) (s : list (Z * Z)) : list (Z * Z) :=
  foldl (fun s f => set_insert (level, number f) s) s fs.

Lemma delete_all_elem level fs s x : x ∈ delete_all level fs s <-> x ∈ s \/ (x.1 = level /\ x.2 ∈ number <$> fs).
Proof.
  rw /delete_all. revert s; induction fs as [|f fs IH]; intros s; simpl; [by rw elem_of_nil; tauto|].
  rw IH set_insert_elem elem_of_cons. destruct x as [l n]. simpl. split; [intros [[[= -> ->]|?]|?]; tauto|]. intros [?|[-> [->|?]]]; tauto.
Qed.

Lemma delete_all_sorted level fs s : pair_sorted s -> pair_sorted (delete_all level fs s).
Proof. rw /delete_all. revert s; induction fs as [|f fs IH]; intros s Hs; simpl; [done|]. by apply IH, set_insert_sorted. Qed.

Lemma delete_all_length level fs s : (length (delete_all level fs s) <= length s + length fs)%nat.
Proof.
  rw /delete_all. revert s; induction fs as [|f fs IH]; intros s; simpl; [lia|]. etrans; [apply IH|].
  pose proof (set_insert_length (level, number f) s). lia.
Qed.

(** ** The edit *)

Definition deleted_of (c : t) : list (Z * Z) := delete_all (level_ c + 1) (inputs1_ c) (delete_all (level_ c) (inputs0_ c) []).

Definition added_of (c : t) (outs : list FileMetaData) : list (Z * FileMetaData) := (fun f => (level_ c + 1, f)) <$> outs.

Lemma fold_DeleteFile level fs e :
  foldl (fun edit f => DeleteFile edit level (number f)) e fs =
  mkEdit (has_comparator_ e) (comparator_name_ e) (has_log_number_ e) (VersionEdit.log_number_ e) (has_next_file_number_ e)
    (VersionEdit.next_file_number_ e) (has_last_sequence_ e) (VersionEdit.last_sequence_ e) (delete_all level fs (deleted_files_ e)) (new_files_ e).
Proof. revert e; induction fs as [|f fs IH]; intros e; simpl; [by destruct e|]. by rw IH. Qed.

Lemma fold_AddFile level fs e :
  foldl (fun edit f => AddFile edit level (number f) (file_size f) (smallest_key f) (largest_key f) (reader f)) e fs =
  mkEdit (has_comparator_ e) (comparator_name_ e) (has_log_number_ e) (VersionEdit.log_number_ e) (has_next_file_number_ e)
    (VersionEdit.next_file_number_ e) (has_last_sequence_ e) (VersionEdit.last_sequence_ e) (deleted_files_ e)
    (new_files_ e ++ ((fun f => (level, f)) <$> fs)).
Proof.
  revert e; induction fs as [|f fs IH]; intros e; simpl; [by rw app_nil_r; destruct e|]. rw IH /= -app_assoc. by destruct f.
Qed.

Lemma compaction_edit_eq c outs :
  compaction_edit c outs = mkEdit false [] false 0 false 0 false 0 (deleted_of c) (added_of c outs).
Proof. by rw /compaction_edit fold_AddFile !fold_DeleteFile. Qed.

Lemma deleted_of_elem c x :
  x ∈ deleted_of c <-> (x.1 = level_ c /\ x.2 ∈ number <$> inputs0_ c) \/ (x.1 = level_ c + 1 /\ x.2 ∈ number <$> inputs1_ c).
Proof. rw /deleted_of !delete_all_elem elem_of_nil. tauto. Qed.

(** ** Its record *)

Definition items_size (fs : list FileMetaData) : Z := foldr (fun f n => item_size f + n) 0 fs.

Lemma size_added c outs : size_of (concat (put_new_file [] <$> added_of c outs)) = items_size outs.
Proof.
  rw /added_of. induction outs as [|f outs IH]; [done|]. rw !fmap_cons. cbn [concat]. rw size_of_app IH size_put_new_file //.
Qed.

Lemma size_deleted ds : size_of (concat (put_deleted [] <$> ds)) = 13 * Z.of_nat (length ds).
Proof.
  induction ds as [|d ds IH]; [done|]. rw fmap_cons. cbn [concat length]. rw size_of_app IH /put_deleted /PutFixed32 /PutFixed64.
  rw ?size_of_app. size_tac.
Qed.

Lemma compaction_edit_fine c outs vs :
  0 <= level_ c < 100 -> Forall file_ok outs -> Forall (fun f => 0 <= number f < 2 ^ 64) (inputs0_ c ++ inputs1_ c) ->
  0 <= VersionSet.next_file_number_ vs < 2 ^ 64 -> 0 <= VersionSet.last_sequence_ vs < 2 ^ 64 ->
  13 * Z.of_nat (length (inputs0_ c ++ inputs1_ c)) + items_size outs <= 60 * 2 ^ 20 ->
  edit_fine (VersionSet.complete_edit vs (compaction_edit c outs)).
Proof.
  intros Hl Ho [H0 H1]%Forall_app Hn Hq Hsz. rw compaction_edit_eq. split.
  - split; simpl; split_and?; try done; try lia.
    + apply Forall_forall. intros [l n] Hx%deleted_of_elem. rewrite -> Forall_forall in H0, H1. simpl in *.
      destruct Hx as [[-> (f & -> & Hf)%list_elem_of_fmap]|[-> (f & -> & Hf)%list_elem_of_fmap]]; [specialize (H0 f Hf)|specialize (H1 f Hf)]; simpl in *; lia.
    + apply delete_all_sorted, delete_all_sorted. constructor.
    + apply Forall_fmap. eapply Forall_impl; [exact Ho|]. intros f Hf. simpl. split; [lia|done].
  - split; [done|]. split; [done|]. rw /edit_out. cbn [WalReader.o_key WalReader.o_value]. rw EncodeTo_segments. cbn.
    repeat rw ?size_of_cons ?size_of_app. rw size_added size_deleted /kMaxRecordSize.
    assert (Hd : (length (deleted_of c) <= length (inputs0_ c ++ inputs1_ c))%nat).
    { rw /deleted_of length_app. etrans; [apply delete_all_length|]. pose proof (delete_all_length (level_ c) (inputs0_ c) []). simpl in *. lia. }
    size_tac.
Qed.

(** ** The levels after it *)

Lemma retain_levels_app e l x y :
  VersionSet.retain_levels e l (x ++ y) = VersionSet.retain_levels e l x ++ VersionSet.retain_levels e (l + Z.of_nat (length x)) y.
Proof.
  revert l; induction x as [|fs x IH]; intros l; simpl; [by rw Z.add_0_r|]. rw IH. do 2 f_equal. f_equal. lia.
Qed.

Lemma retained_all e l fs : (forall n, (l, n) ∉ deleted_files_ e) -> VersionSet.retained e l fs = fs.
Proof.
  intros H. rw /VersionSet.retained. induction fs as [|f fs IH]; [done|]. simpl. rw bool_decide_false // IH //.
Qed.

Lemma retain_levels_all e l files :
  (forall i n, (i < length files)%nat -> (l + Z.of_nat i, n) ∉ deleted_files_ e) -> VersionSet.retain_levels e l files = files.
Proof.
  revert l; induction files as [|fs files IH]; intros l H; simpl; [done|]. rw retained_all.
  { intros n. pose proof (H 0%nat n ltac:(simpl; lia)) as H0. by rw Z.add_0_r in H0. }
  f_equal. apply IH. intros i n Hi. pose proof (H (S i) n ltac:(simpl; lia)) as H0. by rw (_ : l + 1 + Z.of_nat i = l + Z.of_nat (S i)); [lia|].
Qed.

(** Files with different numbers, some of which are deleted. *)
Lemma retained_app e l x y : VersionSet.retained e l (x ++ y) = VersionSet.retained e l x ++ VersionSet.retained e l y.
Proof. apply List.filter_app. Qed.

Lemma retained_none e l fs : Forall (fun f => (l, number f) ∈ deleted_files_ e) fs -> VersionSet.retained e l fs = [].
Proof. intros H. apply List_filter_none. eapply Forall_impl; [exact H|]. intros f Hf. simpl in Hf. by rw bool_decide_true. Qed.

Lemma retained_id e l fs : Forall (fun f => (l, number f) ∉ deleted_files_ e) fs -> VersionSet.retained e l fs = fs.
Proof. rw /VersionSet.retained. induction 1 as [|f fs Hf _ IH]; [done|]. simpl. rw bool_decide_false // IH //. Qed.

Section levels.
Context (files : list (list FileMetaData)) (c : t) (pre : list (list FileMetaData)) (rest0 a b : list FileMetaData)
  (deep : list (list FileMetaData)) (mn mx : bytes).
Context (Hpk : picked files c pre rest0 a b deep mn mx) (Hnum : NoDup (number <$> concat files)).

Lemma concat_files : concat files = concat pre ++ inputs0_ c ++ rest0 ++ a ++ inputs1_ c ++ b ++ concat deep.
Proof. by rw (pk_files _ _ _ _ _ _ _ _ _ Hpk) concat_app /= -!app_assoc. Qed.

(** No other file has the number of an input. *)
Lemma other_numbers fs f : 
  (fs = inputs0_ c /\ (f ∈ rest0)) \/ (fs = inputs1_ c /\ (f ∈ a \/ f ∈ b)) -> number f ∉ number <$> fs.
Proof.
  pose proof Hnum as Hn. rw concat_files !fmap_app in Hn. apply NoDup_app in Hn as (_ & _ & Hn). apply NoDup_app in Hn as (_ & H0 & Hn).
  apply NoDup_app in Hn as (_ & _ & Hn). apply NoDup_app in Hn as (_ & Ha & Hn). apply NoDup_app in Hn as (_ & H1 & _).
  assert (Hf : forall l, f ∈ l -> number f ∈ number <$> l) by (intros l Hl; apply list_elem_of_fmap; eauto).
  intros [[-> Hr]|[-> [Hfa|Hfb]]] Hin.
  - apply (H0 _ Hin). rewrite -> elem_of_app. left. by apply Hf.
  - apply (Ha _ (Hf _ Hfa)). rewrite -> elem_of_app. by left.
  - apply (H1 _ Hin). rewrite -> elem_of_app. left. by apply Hf.
Qed.

Lemma compaction_retains outs :
  VersionSet.retain_levels (compaction_edit c outs) 0 files = pre ++ rest0 :: (a ++ b) :: deep.
Proof.
  pose proof Hpk as [P1 P2 _ _ _ _ _]. rw P1 compaction_edit_eq. set (edit := mkEdit _ _ _ _ _ _ _ _ _ _).
  assert (Hd : forall l n, (l, n) ∈ deleted_files_ edit <-> (l = level_ c /\ n ∈ number <$> inputs0_ c) \/ (l = level_ c + 1 /\ n ∈ number <$> inputs1_ c)).
  { intros l n. apply (deleted_of_elem c (l, n)). }
  rw retain_levels_app retain_levels_all. { intros i n Hi. rw Hd P2. lia. }
  rw Z.add_0_l -P2. cbn [VersionSet.retain_levels]. f_equal. f_equal; [|f_equal].
  - rw retained_app retained_none ?retained_id //; apply Forall_forall; intros f Hf; rw Hd.
    + left. split; [done|]. apply list_elem_of_fmap. eauto.
    + intros [[_ Hin]|[? _]]; [|lia]. by eapply other_numbers in Hin; [|left].
  - rw !retained_app (retained_none _ _ (inputs1_ c)) ?(retained_id _ _ a) ?(retained_id _ _ b) //; apply Forall_forall; intros f Hf; rw Hd.
    + right. split; [done|]. apply list_elem_of_fmap. eauto.
    + intros [[? _]|[_ Hin]]; [lia|]. by eapply other_numbers in Hin; [|right; auto].
    + intros [[? _]|[_ Hin]]; [lia|]. by eapply other_numbers in Hin; [|right; auto].
  - apply retain_levels_all. intros i n _. rw Hd. lia.
Qed.

Lemma push_all_level items pre' fs deep' :
  push_all ((fun f => (Z.of_nat (length pre'), f)) <$> items) (pre' ++ fs :: deep') = Some (pre' ++ (fs ++ items) :: deep').
Proof.
  revert fs; induction items as [|f items IH]; intros fs; simpl; [by rw app_nil_r|]. rw /VersionSet.push_file (proj2 (Z.ltb_ge _ _)); [lia|].
  rw Nat2Z.id list_lookup_middle //. cbn [mbind option_bind]. rw insert_app_r_alt // Nat.sub_diag. cbn [insert list_insert]. rw IH -app_assoc //.
Qed.

Lemma compaction_pushes outs :
  push_all (new_files_ (compaction_edit c outs)) (VersionSet.retain_levels (compaction_edit c outs) 0 files) =
  Some (pre ++ rest0 :: ((a ++ b) ++ outs) :: deep).
Proof.
  rw compaction_retains compaction_edit_eq /= /added_of (pk_level _ _ _ _ _ _ _ _ _ Hpk).
  rw (_ : Z.of_nat (length pre) + 1 = Z.of_nat (length (pre ++ [rest0]))); [rw length_app /=; lia|].
  rw (_ : pre ++ rest0 :: (a ++ b) :: deep = (pre ++ [rest0]) ++ (a ++ b) :: deep); [by rw -app_assoc|].
  rw push_all_level -(app_assoc pre) //.
Qed.
End levels.

(** Sorting puts the outputs where they belong. *)
Lemma sort_levels_stay files :
  match files with
  | [] => True
  | fs0 :: levels => StronglySorted (fun f g => newer_number f g = true) fs0 /\ Forall (StronglySorted (fun f g => smaller_key f g = true)) levels
  end -> VersionSet.sort_levels files = files /\ keys_apart (strip files).
Proof.
  destruct files as [|fs0 levels]; [done|]. intros [H0 Hl]. simpl. split.
  - rw levels_std_sort_id //. f_equal. by apply (std_sort_id newer_number number).
  - split; [rw strip_numbers; by apply (sorted_NoDup newer_number number)|]. rw /strip. apply Forall_fmap. eapply Forall_impl; [exact Hl|].
    intros fs Hfs. simpl. rw strip_keys. by apply (sorted_NoDup smaller_key smallest_key).
Qed.

Lemma same_levels_sort a b :
  same_levels a b -> VersionSet.sort_levels b = b /\ keys_apart (strip b) -> VersionSet.sort_levels a = b /\ keys_apart (strip a).
Proof.
  intros Hs [E Hk]. assert (Hs' : same_levels (strip b) (strip a)).
  { rw /strip. apply Forall2_fmap. apply Forall2_flip. eapply Forall2_impl; [exact Hs|]. intros x y Hxy. simpl. by rewrite -> Hxy. }
  pose proof (keys_apart_perm _ _ Hs' Hk) as Hka. split; [|done]. rw -{1}E. apply sort_levels_unique; [done|].
  destruct a as [|fs0 a]; [done|]. destruct Hka as [H1 H2]. rw strip_numbers in H1. split; [done|]. rw /strip in H2. rewrite -> Forall_fmap in H2.
  eapply Forall_impl; [exact H2|]. intros fs Hfs. simpl in Hfs. by rw strip_keys in Hfs.
Qed.
