(* ===== verification/Compacted.v ===== *)
(** * Compacted: a compaction from end to end

    [DoCompaction] with the inputs that [PickCompaction] chose: the merge, the edit and the
    removal of the inputs.  The version it leaves has, of the entries of the inputs, what
    is kept, and the other tables as they were. *)

From S2P Require Import Prelude Status Slice Coding Format Posix Env Filename Wal Entry Kept Iterator MergingIterator Block BlockCache Options.
From S2P Require Import SSTableBuilder SSTableReader TwoLevelIterator VersionEdit Version Storage VersionSet Manifest NewManifest Compaction DBImpl Flush Outputs MergeLoop.
From S2P Require Import Replacement Compacting CompactionEdit.
Import Compaction.

#[local] Open Scope Z_scope.

(** ** The tables of the chosen files *)

Lemma files_concat R db files tiss : Forall2 (Forall2 (file_rep R db)) files tiss -> Forall2 (file_rep R db) (concat files) (concat tiss).
Proof. induction 1 as [|fs tis l l' H _ IH]; cbn [concat]; [apply Forall2_nil; done|by apply Forall2_app]. Qed.

(** The tables of the levels that [picked] tells apart. *)
Record picked_tables (R : registry) (db : bytes) (c : t) (pre : list (list FileMetaData)) (rest0 a b : list FileMetaData)
    (deep : list (list FileMetaData)) (tpre : list (list table_info)) (t0 tr0 ta t1 tb : list table_info) (tdeep : list (list table_info)) : Prop := {
  pt_pre : Forall2 (Forall2 (file_rep R db)) pre tpre;
  pt_inputs0 : Forall2 (file_rep R db) (inputs0_ c) t0;
  pt_rest : Forall2 (file_rep R db) rest0 tr0;
  pt_a : Forall2 (file_rep R db) a ta;
  pt_inputs1 : Forall2 (file_rep R db) (inputs1_ c) t1;
  pt_b : Forall2 (file_rep R db) b tb;
  pt_deep : Forall2 (Forall2 (file_rep R db)) deep tdeep;
}.

Lemma picked_split R db c files pre rest0 a b deep mn mx tiss :
  picked files c pre rest0 a b deep mn mx -> Forall2 (Forall2 (file_rep R db)) files tiss ->
  exists tpre t0 tr0 ta t1 tb tdeep, tiss = tpre ++ (t0 ++ tr0) :: (ta ++ t1 ++ tb) :: tdeep /\
    picked_tables R db c pre rest0 a b deep tpre t0 tr0 ta t1 tb tdeep.
Proof.
  intros [P1 _ _ _ _ _ _] H. rw P1 in H. apply Forall2_app_inv_l in H as (tpre & x & Hp & H & ->).
  apply Forall2_cons_inv_l in H as (l0 & y & H0 & H & ->). apply Forall2_cons_inv_l in H as (l1 & tdeep & H1 & Hd & ->).
  apply Forall2_app_inv_l in H0 as (t0 & tr0 & H0 & Hr & ->). apply Forall2_app_inv_l in H1 as (ta & z & Ha & H1 & ->).
  apply Forall2_app_inv_l in H1 as (t1 & tb & H1 & Hb & ->). exists tpre, t0, tr0, ta, t1, tb, tdeep. split; [done|]. by split.
Qed.

Lemma file_table_sorted R db f ti : file_rep R db f ti -> table_ok ti -> table_sorted ti.
Proof. intros Hf Hok. split; [apply Hok|apply Hf]. Qed.

(** Files whose keys end before others begin. *)
Lemma files_below R db fs gs tis tjs :
  Forall2 (file_rep R db) fs tis -> Forall2 (file_rep R db) gs tjs -> Forall table_ok tis -> Forall table_ok tjs ->
  (forall f g, f ∈ fs -> g ∈ gs -> Slice.compare (largest_key f) (smallest_key g) < 0) -> keys_below (tables_entries tis) (tables_entries tjs).
Proof.
  intros Hf Hg Ok1 Ok2 Hlt. apply keys_below_tables. intros t t' Ht Ht' x y Hx Hy.
  apply list_elem_of_lookup_1 in Ht as [i Hi], Ht' as [j Hj].
  destruct (Forall2_lookup_r _ _ _ _ _ Hf Hi) as (f & Hfi & Hft), (Forall2_lookup_r _ _ _ _ _ Hg Hj) as (g & Hgj & Hgt).
  pose proof (Hlt f g ltac:(by eapply list_elem_of_lookup_2) ltac:(by eapply list_elem_of_lookup_2)) as H.
  destruct (file_range _ _ _ _ x Hft (Forall_lookup_1 _ _ _ _ Ok1 Hi) Hx) as [_ H3].
  destruct (file_range _ _ _ _ y Hgt (Forall_lookup_1 _ _ _ _ Ok2 Hj) Hy) as [H4 _].
  eapply (cmp_le_lt_trans Slice.compare); [exact H3|]. by eapply (cmp_lt_le_trans Slice.compare).
Qed.

(** Files of different tables have different numbers. *)
Lemma files_numbers_NoDup R db fs tis : Forall2 (file_rep R db) fs tis -> StronglySorted newer_table tis -> NoDup (number <$> fs).
Proof.
  induction 1 as [|f ti fs tis Hf Hfs IH]; [constructor|]. intros [Hs Hn]%StronglySorted_inv. rw fmap_cons. constructor; [|auto].
  intros (g & Eg & Hg)%list_elem_of_fmap. apply list_elem_of_lookup_1 in Hg as [i Hi].
  destruct (Forall2_lookup_l _ _ _ _ _ Hfs Hi) as (tj & Hj & Hgj). pose proof (fr_table _ _ _ _ Hf) as E1. pose proof (fr_table _ _ _ _ Hgj) as E2.
  rw Eg E2 in E1. injection E1 as ->. pose proof (Forall_lookup_1 _ _ _ _ Hn Hj) as H. simpl in H.
  destruct (head_key_elem _ (fr_nonempty _ _ _ _ Hf)) as (y & Hy & _). specialize (H y y Hy Hy eq_refl). lia.
Qed.

Lemma level_smaller_keys R db fs tis :
  Forall2 (file_rep R db) fs tis -> Forall table_ok tis -> level_sorted tis -> StronglySorted (fun f g => smaller_key f g = true) fs.
Proof.
  intros Hf Hok Hl. pose proof (files_range_ok db R fs tis Hf Hok) as Hr. pose proof (files_sorted_tables db R fs tis Hf Hl) as Hs. clear -Hr Hs.
  induction Hs as [|f fs _ IH Hf]; [constructor|]. apply Forall_cons in Hr as [Hr0 Hr]. constructor; [auto|].
  eapply Forall_impl; [exact Hf|]. intros g Hg. simpl in Hg. rw /smaller_key /Slice.ltb. apply Z.ltb_lt.
  by eapply (cmp_le_lt_trans Slice.compare).
Qed.

(** ** The last output *)

Lemma finish_last_run opts db vs0 w0 R e o done cur :
  let n0 := VersionSet.next_file_number_ vs0 in
  0 <= n0 -> options_ok opts -> out_at opts db vs0 w0 R e o done cur -> out_ready o cur -> n0 + Z.of_nat (length done) + 1 < 2 ^ 64 ->
  exists o' e' R' outs, on_world (FinishOutputFile opts db o) e = Some ((Status.OK, o'), e') /\ o_builder o' = None /\
    out_at opts db vs0 w0 R' e' o' outs [] /\ tables_entries outs = written done cur /\ evolves R R' /\ rg_paths R ⊆ rg_paths R'.
Proof.
  intros n0 Hn0 Hopts Ho Hr Hn. destruct (o_builder o) as [b|] eqn:Hb.
  - rw /out_ready Hb in Hr. destruct Hr as [Hne Hsz].
    destruct (finish_output_run opts db vs0 w0 Hn0 R e o done cur Ho) as (o' & e' & R' & ti & E & Hb' & Ho' & Hti & X & P);
      [by eexists|done|lia|apply Hopts|done|].
    exists o', e', R', (done ++ [ti]). split; [done|]. split; [done|]. split; [done|]. split; [|done].
    rw -(written_finish done cur ti Hti) /written app_nil_r //.
  - exists o, e, R, done. pose proof (oa_builder _ _ _ _ _ _ _ _ _ Ho) as Hc. rw Hb in Hc. subst cur. split.
    { rw /on_world /FinishOutputFile Hb. cbn. rw /reset_builder Hb. destruct o; simpl in *; subst; by destruct e. }
    split; [done|]. split; [done|]. split; [by rw /written app_nil_r|]. done.
Qed.

(** ** Removing the inputs *)

Lemma unlink_files_run db fs w :
  calm w -> exists w', unlink_files db fs w = Some (tt, w') /\ unlinked ((fun f => TableFileName db (number f)) <$> fs) w w'.
Proof.
  revert w; induction fs as [|f fs IH]; intros w Hc; [by exists w; split; [|apply unlinked_refl]|]. cbn [unlink_files].
  destruct (sys_unlink_run (TableFileName db (number f)) w Hc) as (r & w1 & E1 & U1). destruct (IH w1 (ul_calm _ _ _ U1)) as (w2 & E2 & U2).
  exists w2. split; [rw (bind_run _ _ w r w1); [by rw /sys E1|done]|]. rw fmap_cons. by eapply (unlinked_app [_]).
Qed.

(** ** The tables before and after *)

(** What a compaction does to the entries: some of them are replaced by what is kept of
    them, and nothing that stays is hidden by what is dropped. *)
Definition compacted (old new : list MemtableEntry) : Prop :=
  exists base I T, old ≡ₚ I ++ T /\ new ≡ₚ kept base None (merged I) ++ T /\ entries_sorted (merged I) /\
    forall x y, x ∈ I -> y ∈ T -> user_key x = user_key y -> base (user_key x) = true -> seq x < seq y.

Lemma compacted_elem old new x : compacted old new -> x ∈ new -> x ∈ old.
Proof.
  intros (base & I & T & Ho & Hn & _). rewrite -> Hn, Ho. rw !elem_of_app. intros [Hx%kept_elem|?]; [left|by right].
  by rewrite -> merged_perm in Hx.
Qed.

Section tables.
Context (R : registry) (db : bytes) (e : TableEnv) (c : t) (files : list (list FileMetaData)) (tiss : list (list table_info))
  (pre : list (list FileMetaData)) (rest0 a b : list FileMetaData) (deep : list (list FileMetaData)) (mn mx : bytes)
  (tpre : list (list table_info)) (t0 tr0 ta t1 tb : list table_info) (tdeep : list (list table_info)).
Context (He : env_inv R e) (Hpk : picked files c pre rest0 a b deep mn mx) (Hpt : picked_tables R db c pre rest0 a b deep tpre t0 tr0 ta t1 tb tdeep).
Context (Hf : Forall2 (Forall2 (file_rep R db)) files tiss) (Htiss : tiss = tpre ++ (t0 ++ tr0) :: (ta ++ t1 ++ tb) :: tdeep)
  (Hsorted : Forall level_sorted (tail tiss)) (Hnewer : StronglySorted newer_table (concat tiss)).

Lemma tables_rest : tpre = [] -> tr0 = [].
Proof.
  intros ->. pose proof (pt_pre _ _ _ _ _ _ _ _ _ _ _ _ _ _ _ Hpt) as H. apply Forall2_nil_inv_r in H.
  pose proof (pt_rest _ _ _ _ _ _ _ _ _ _ _ _ _ _ _ Hpt) as Hr. rw (pk_rest _ _ _ _ _ _ _ _ _ Hpk H) in Hr. by apply Forall2_nil_inv_l in Hr.
Qed.

Lemma tables_below : keys_below (tables_entries ta) (tables_entries t0) /\ keys_below (tables_entries t0) (tables_entries tb).
Proof.
  pose proof Hpk as [_ _ _ _ P5 P6 P7]. rewrite -> Forall_forall in P5, P6, P7. pose proof Hpt as [_ Q0 _ Qa _ Qb _].
  split; (eapply files_below; [done|done|by eapply files_table_ok|by eapply files_table_ok|]).
  - intros f g Hfa Hg. eapply (cmp_lt_le_trans Slice.compare); [by apply P6|by apply P5].
  - intros f g Hf0 Hg. eapply (cmp_le_lt_trans Slice.compare); [by apply P5|by apply P7].
Qed.

Lemma all_files : Forall2 (file_rep R db) (concat files) (concat tiss).
Proof. by apply files_concat. Qed.

Lemma all_tables_sorted : Forall table_sorted (concat tiss).
Proof.
  pose proof all_files as H. pose proof (files_table_ok R e db _ _ He H) as Hok. clear -H Hok.
  induction H as [|f ti fs tis Hft _ IH]; [constructor|]. apply Forall_cons in Hok as [Hok Hoks]. constructor; [by eapply file_table_sorted|auto].
Qed.

Lemma all_numbers : NoDup (number <$> concat files).
Proof. by eapply files_numbers_NoDup; [apply all_files|]. Qed.

(** A key that a deeper level has is not dropped. *)
Lemma deep_keys y : y ∈ tables_entries (concat tdeep) -> base_for deep (user_key y) = false.
Proof.
  intros (ti & Hti & Hy)%tables_entries_elem. pose proof (pt_deep _ _ _ _ _ _ _ _ _ _ _ _ _ _ _ Hpt) as Hd.
  apply files_concat in Hd as Hc.
  pose proof (files_table_ok R e db _ _ He Hc) as Hok. apply list_elem_of_lookup_1 in Hti as [i Hi].
  destruct (Forall2_lookup_r _ _ _ _ _ Hc Hi) as (f & Hfi & Hft). eapply base_for_false; [by eapply list_elem_of_lookup_2|].
  eapply file_range; [exact Hft|by eapply Forall_lookup_1 in Hok|done].
Qed.

Let inputs := tables_entries (t0 ++ t1).

Lemma inputs_tables : StronglySorted newer_table (t0 ++ t1).
Proof.
  pose proof Hnewer as H. rw Htiss old_tables in H. apply StronglySorted_app_1_r in H. apply StronglySorted_app in H as (Hc & H0 & H).
  do 2 apply StronglySorted_app_1_r in H. apply StronglySorted_app_1_l in H. apply StronglySorted_app. split_and!; auto.
  intros t t' Ht Ht'. apply Hc; [done|]. rw !elem_of_app. tauto.
Qed.

Lemma inputs_sorted : entries_sorted (merged inputs).
Proof.
  apply merged_sorted, tables_ids; [apply inputs_tables|]. pose proof all_tables_sorted as H. rw Htiss old_tables in H.
  rewrite -> Forall_forall in H. apply Forall_forall. intros ti Hti. apply (H ti). revert Hti. rw !elem_of_app. tauto.
Qed.

Section outs.
Context (outs : list table_info) (Houts : Forall table_sorted outs) (Hent : tables_entries outs = kept (base_for deep) None (merged inputs)).
Let tiss' := tpre ++ tr0 :: (ta ++ outs ++ tb) :: tdeep.

Lemma outs_in x : x ∈ tables_entries outs -> x ∈ inputs.
Proof. rw Hent. intros Hx%kept_elem. by rewrite -> merged_perm in Hx. Qed.

Lemma outs_ascending : keys_ascending (tables_entries outs).
Proof. rw Hent. apply kept_ascending, inputs_sorted. Qed.

Lemma outs_version : Forall level_sorted (tail tiss') /\ StronglySorted newer_table (concat tiss').
Proof.
  destruct tables_below as [Hb Ha]. pose proof all_tables_sorted as Hall.
  pose proof Hsorted as Hso. pose proof Hnewer as Hne. rw Htiss in Hall Hso Hne. split.
  - by apply (replaced_sorted tpre t0 tr0 ta t1 tb outs tdeep Hne Hso Hall tables_rest Hb Ha Houts outs_ascending outs_in).
  - by apply (replaced_newer tpre t0 tr0 ta t1 tb outs tdeep Hne Hso Hall tables_rest Hb Ha Houts outs_ascending outs_in).
Qed.

Lemma outs_compacted : compacted (version_entries tiss) (version_entries tiss').
Proof.
  destruct tables_below as [Hb Ha]. pose proof all_tables_sorted as Hall.
  pose proof Hsorted as Hso. pose proof Hnewer as Hne. rw Htiss in Hall Hso Hne.
  exists (base_for deep), inputs, (tables_entries (before_inputs tpre tr0 ta ++ after_inputs tb tdeep)). split; [|split; [|split; [apply inputs_sorted|]]].
  - rw Htiss. apply old_entries_perm.
  - rw -Hent. apply new_entries_perm.
  - intros x y Hx Hy E Hbase. destruct (inputs_newer tpre t0 tr0 ta t1 tb outs tdeep Hne Hso Hall tables_rest Hb Ha) as [H1 _].
    destruct (next_level tpre t0 tr0 ta t1 tb outs tdeep Hne Hso Hall tables_rest) as (_ & _ & _ & _ & H1b).
    rw /after_inputs !tables_entries_app in Hy. apply elem_of_app in Hy as [Hy|[Hy|Hy]%elem_of_app].
    + apply H1; [rw /before_inputs !tables_entries_app; exact Hy|exact Hx|by symmetry].
    + exfalso. unfold inputs in Hx. rw tables_entries_app in Hx. assert (Hlt : Slice.compare (user_key x) (user_key y) < 0).
      { apply elem_of_app in Hx as [Hx|Hx]; [by apply Ha|by apply H1b]. }
      rw E cmp_refl in Hlt. lia.
    + rw E (deep_keys y Hy) in Hbase. done.
Qed.
End outs.
End tables.

(** ** Entries sink *)

(** The number of entries, each counted as often as there are levels from its own on. *)
Fixpoint level_weight (tiss : list (list table_info)) : nat :=
  match tiss with [] => 0 | tis :: tiss' => length (tables_entries tis) * length tiss + level_weight tiss' end.

Lemma level_weight_sinks tpre t0 tr0 ta t1 tb outs tdeep :
  tables_entries t0 <> [] -> (length (tables_entries outs) <= length (tables_entries (t0 ++ t1)))%nat ->
  (level_weight (tpre ++ tr0 :: (ta ++ outs ++ tb) :: tdeep) < level_weight (tpre ++ (t0 ++ tr0) :: (ta ++ t1 ++ tb) :: tdeep))%nat.
Proof.
  intros Hne Hle. rw tables_entries_app length_app in Hle. assert (0 < length (tables_entries t0))%nat by (by destruct (tables_entries t0); [|simpl; lia]).
  induction tpre as [|tis tpre IH].
  - cbn [app level_weight length]. rw !tables_entries_app !length_app. nia.
  - cbn [app level_weight]. cbn [length]. rw !length_app. cbn [length]. lia.
Qed.

(** ** The size of the edit *)

#[global] Instance body_size_perm : Proper (Permutation ==> eq) (fun es => size_of (body es)).
Proof.
  induction 1 as [|x a b _ IH|x y a|a b d _ IH1 _ IH2]; [done| | |by rewrite -> IH1].
  - rw !body_cons (size_of_app (encode_entry x)) (size_of_app (encode_entry x)) IH //.
  - rw !body_cons !(size_of_app (encode_entry x)) !(size_of_app (encode_entry y)). rw (size_of_app (encode_entry x)). lia.
Qed.

Lemma body_size_sublist a b : a `sublist_of` b -> size_of (body a) <= size_of (body b).
Proof.
  induction 1 as [|x a b _ IH|x a b _ IH]; [done| |]; rw !body_cons ?(size_of_app (encode_entry x)).
  - lia.
  - pose proof (size_of_nonneg (encode_entry x)). lia.
Qed.

Lemma items_size_body R db fs tis : Forall2 (file_rep R db) fs tis -> items_size fs <= 2 * size_of (body (tables_entries tis)).
Proof.
  induction 1 as [|f ti fs tis Hf _ IH]; [done|]. change (items_size (f :: fs)) with (item_size f + items_size fs).
  rw /tables_entries fmap_cons. cbn [concat]. rw body_app size_of_app. fold (tables_entries tis). rw /item_size (fr_smallest _ _ _ _ Hf) (fr_largest _ _ _ _ Hf).
  pose proof (fr_nonempty _ _ _ _ Hf) as Hne. destruct (head_key_elem _ Hne) as (x & Hx & ->), (last_key_elem _ Hne) as (y & _ & Hy & ->).
  pose proof (entry_key_size _ x Hx). pose proof (entry_key_size _ y Hy). lia.
Qed.

(** ** Levels of files and their tables *)

Lemma levels_smaller_keys R db files tiss :
  Forall2 (Forall2 (file_rep R db)) files tiss -> Forall table_ok (concat tiss) -> Forall level_sorted (tail tiss) ->
  Forall (StronglySorted (fun f g => smaller_key f g = true)) (tail files).
Proof.
  destruct 1 as [|fs0 tis0 files tiss _ H]; [constructor|]. cbn [concat tail]. intros [_ Hok]%Forall_app.
  induction H as [|fs tis files tiss Hf _ IH]; [constructor|]. cbn [concat] in Hok. apply Forall_app in Hok as [Hok Hoks].
  intros [Hl Hls]%Forall_cons. constructor; [by eapply level_smaller_keys|auto].
Qed.

(** Files stay what they are while their names stay. *)
Lemma files_evolve R R' db fs tis :
  Forall2 (file_rep R db) fs tis -> evolves R R' ->
  Forall (fun f => rg_paths R' !! TableFileName db (number f) = Some (number f)) fs -> Forall2 (file_rep R' db) fs tis.
Proof.
  intros H X. induction H as [|f ti fs tis Hf _ IH]; [constructor|]. intros [Hp Hps]%Forall_cons. constructor; [by eapply file_rep_evolves|auto].
Qed.

Lemma levels_evolve R R' db files tiss :
  Forall2 (Forall2 (file_rep R db)) files tiss -> evolves R R' ->
  Forall (fun f => rg_paths R' !! TableFileName db (number f) = Some (number f)) (concat files) -> Forall2 (Forall2 (file_rep R' db)) files tiss.
Proof.
  intros H X. induction H as [|fs tis files tiss Hf _ IH]; [constructor|]. cbn [concat]. intros [Hp Hps]%Forall_app. constructor; [by eapply files_evolve|auto].
Qed.

(** ** From the choice to the edit *)

(** The steps of [install_outputs] after the last output. *)
Definition apply_outputs (db : bytes) (c : t) (o : outputs) : SM TableEnv (Status.t * VersionSet.t) :=
  '(s, vset) ← VersionSet.LogAndApply (o_vset o) (compaction_edit c (o_files o));
  if negb (Status.ok s) then mret (s, vset)
  else
    _ ← on_world (unlink_files db (inputs0_ c ++ inputs1_ c));
    _ ← on_world (SyncDirectory db);
    mret (Status.OK, vset).

Section compaction.
Context (opts : Options) (db : bytes) (cache : bool) (vs0 : VersionSet.t) (c : t) (R : registry) (e : TableEnv)
  (tiss : list (list table_info)) (edits : list VersionEdit) (st : VersionSet.recovered).
Let n0 := VersionSet.next_file_number_ vs0.
Let ib := input_bytes (inputs0_ c ++ inputs1_ c).
Context (Hs : store db R e) (Hopts : options_ok opts) (Hnames : VersionSet.dbname_ vs0 = db /\ Version.dbname_ (VersionSet.current_ vs0) = db)
  (Hv : version_rep R (VersionSet.current_ vs0) tiss) (Hstored : Forall stored_ok (version_entries tiss))
  (Hopen : manifest_open vs0 edits st (e_world e)) (Hpick : PickCompaction opts vs0 = Some (Some c))
  (Hseq : 0 <= VersionSet.last_sequence_ vs0 < 2 ^ 64) (Hn0 : 0 <= n0) (Hfiles : forall k ti, rg_files R !! k = Some ti -> 0 <= k < n0)
  (Hbytes : ib <= 30 * 2 ^ 20) (Hroom : n0 + ib + 2 < 2 ^ 64).

Lemma picked_here :
  exists pre rest0 a b deep mn mx tpre t0 tr0 ta t1 tb tdeep,
    picked (Version.files_ (VersionSet.current_ vs0)) c pre rest0 a b deep mn mx /\ tiss = tpre ++ (t0 ++ tr0) :: (ta ++ t1 ++ tb) :: tdeep /\
    picked_tables R db c pre rest0 a b deep tpre t0 tr0 ta t1 tb tdeep.
Proof.
  pose proof Hv as [V1 V2 V3 V4]. destruct Hnames as [_ N2]. rw N2 in V1.
  pose proof (version_tables_ok R e _ tiss (so_env _ _ _ Hs) Hv) as Hok.
  destruct (PickCompaction_spec (VersionSet.current_ vs0)) with (options := opts) (vs := vs0) (c := c) as (pre & rest0 & a & b & deep & mn & mx & Hpk); auto.
  - destruct V1 as [|fs tis l l' _ V1]; [constructor|]. simpl in V3 |- *. apply Forall_cons in Hok as [_ Hok]. clear -V1 V3.
    induction V1 as [|fs tis l l' H _ IH]; [constructor|]. apply Forall_cons in V3 as [H3 V3]. constructor; [by eapply files_sorted_tables|auto].
  - clear -V1 Hok. induction V1 as [|fs tis l l' H _ IH]; [constructor|]. apply Forall_cons in Hok as [H3 Hok]. constructor; [by eapply files_range_ok|auto].
  - destruct (picked_split _ _ _ _ _ _ _ _ _ _ _ _ Hpk V1) as (tpre & t0 & tr0 & ta & t1 & tb & tdeep & E & Hpt).
    by exists pre, rest0, a, b, deep, mn, mx, tpre, t0, tr0, ta, t1, tb, tdeep.
Qed.

Section here.
Context (pre : list (list FileMetaData)) (rest0 a b : list FileMetaData) (deep : list (list FileMetaData)) (mn mx : bytes)
  (tpre : list (list table_info)) (t0 tr0 ta t1 tb : list table_info) (tdeep : list (list table_info)).
Context (Hpk : picked (Version.files_ (VersionSet.current_ vs0)) c pre rest0 a b deep mn mx)
  (Htiss : tiss = tpre ++ (t0 ++ tr0) :: (ta ++ t1 ++ tb) :: tdeep) (Hpt : picked_tables R db c pre rest0 a b deep tpre t0 tr0 ta t1 tb tdeep).

Lemma inputs_rep_here : Forall2 (file_rep R db) (inputs0_ c ++ inputs1_ c) (t0 ++ t1).
Proof. apply Forall2_app; apply Hpt. Qed.

Lemma inputs_stored : Forall stored_ok (tables_entries (t0 ++ t1)).
Proof.
  rewrite -> Forall_forall in Hstored. apply Forall_forall. intros x (ti & Hti & Hx)%tables_entries_elem. apply Hstored.
  apply tables_entries_elem. exists ti. split; [|done]. rw Htiss old_tables. revert Hti. rw !elem_of_app. tauto.
Qed.

Lemma outputs_written :
  exists o e3 R3 outs, DoCompaction opts db vs0 c cache e = apply_outputs db c o e3 /\
    out_at opts db vs0 (e_world e) R3 e3 o outs [] /\ o_builder o = None /\
    tables_entries outs = kept (base_for deep) None (merged (tables_entries (t0 ++ t1))) /\ evolves R R3 /\ rg_paths R ⊆ rg_paths R3.
Proof.
  pose proof Hv as [V1 V2 V3 V4]. destruct Hnames as [N1 N2]. rw N2 in V1. pose proof (files_table_ok R e db _ _ (so_env _ _ _ Hs) inputs_rep_here) as Hok.
  destruct (merge_run opts db cache vs0 c (base_for deep) R e (t0 ++ t1) Hs Hopts Hn0) as (o1 & e1 & R1 & done & cur & E1 & Ho1 & Hr1 & Hw1 & X1 & P1).
  { intros k. eapply IsBaseLevel_run; [exact Hpk|done|]. by rw (Forall2_length _ _ _ V1). }
  { apply inputs_rep_here. }
  { apply Hpk. }
  { by eapply inputs_tables. }
  { apply inputs_stored. }
  { done. }
  { fold n0 ib. lia. }
  assert (Hlen : n0 + Z.of_nat (length done) + 1 < 2 ^ 64).
  { pose proof (out_count _ _ _ _ _ _ _ _ _ Ho1) as H1. rw Hw1 in H1.
    pose proof (sublist_length _ _ (kept_sublist (base_for deep) None (merged (tables_entries (t0 ++ t1))))) as H2.
    rw (Permutation_length (merged_perm _)) in H2. pose proof (input_bytes_entries _ _ _ _ inputs_rep_here Hok) as H3.
    fold (tables_entries (t0 ++ t1)) in H1. fold (tables_entries (t0 ++ t1)) ib in H3. lia. }
  destruct (finish_last_run opts db vs0 (e_world e) R1 e1 o1 done cur Hn0 Hopts Ho1 Hr1 Hlen) as (o & e2 & R2 & outs & E2 & Hb & Ho2 & Hw2 & X2 & P2).
  destruct (SyncDirectory_kept db (e_world e2)) as (s & w3 & E3 & K3).
  pose proof (env_inv_kept R2 e2 w3 (so_env _ _ _ (oa_store _ _ _ _ _ _ _ _ _ Ho2)) K3) as He3.
  exists o, (mkEnv w3 (e_cache e2)), (rebase R2 w3), outs. split.
  { rw E1 /install_outputs (bind_run _ _ _ _ _ E2). cbn iota beta. change (negb (Status.ok Status.OK)) with false. cbn iota.
    by rw (bind_run _ _ _ _ _ (on_world_run _ e2 _ _ E3)). }
  split; [by apply (out_at_read _ _ _ _ R2 e2 (mkEnv w3 (e_cache e2)))|]. split; [done|]. split; [by rw Hw2 Hw1|].
  split; [|by etrans]. etrans; [exact X1|]. etrans; [exact X2|]. apply rebase_evolves.
Qed.

(** ** From the edit to the end *)

Section apply.
Context (o : outputs) (e3 : TableEnv) (R3 : registry) (outs : list table_info).
Context (Ho : out_at opts db vs0 (e_world e) R3 e3 o outs []) (Hb : o_builder o = None)
  (Hent : tables_entries outs = kept (base_for deep) None (merged (tables_entries (t0 ++ t1)))) (X3 : evolves R R3) (P3 : rg_paths R ⊆ rg_paths R3).
Let files' := pre ++ rest0 :: (a ++ o_files o ++ b) :: deep.
Let tiss' := tpre ++ tr0 :: (ta ++ outs ++ tb) :: tdeep.
Let n3 := n0 + Z.of_nat (length outs).

Lemma outs_sorted : Forall table_sorted outs.
Proof.
  pose proof (oa_files _ _ _ _ _ _ _ _ _ Ho) as H. pose proof (files_table_ok R3 e3 db _ _ (so_env _ _ _ (oa_store _ _ _ _ _ _ _ _ _ Ho)) H) as Hok.
  clear -H Hok. induction H as [|f ti fs tis Hft _ IH]; [constructor|]. apply Forall_cons in Hok as [Hok Hoks]. constructor; [by eapply file_table_sorted|auto].
Qed.

Lemma outs_count : Z.of_nat (length outs) <= ib /\ 13 * Z.of_nat (length (inputs0_ c ++ inputs1_ c)) + items_size (o_files o) <= 2 * ib.
Proof.
  pose proof (files_table_ok R e db _ _ (so_env _ _ _ Hs) inputs_rep_here) as Hok.
  pose proof (input_bytes_body _ _ _ _ inputs_rep_here Hok) as H1. fold (tables_entries (t0 ++ t1)) ib in H1.
  pose proof (items_size_body _ _ _ _ (oa_files _ _ _ _ _ _ _ _ _ Ho)) as H2. rw Hent in H2.
  pose proof (body_size_sublist _ _ (kept_sublist (base_for deep) None (merged (tables_entries (t0 ++ t1))))) as H3.
  rw (body_size_perm _ _ (merged_perm (tables_entries (t0 ++ t1)))) in H3. split; [|lia].
  pose proof (out_count _ _ _ _ _ _ _ _ _ Ho) as H4. rw /written app_nil_r -/(tables_entries outs) Hent in H4.
  pose proof (length_body_17 (kept (base_for deep) None (merged (tables_entries (t0 ++ t1))))). lia.
Qed.

Lemma version_after : Forall2 (Forall2 (file_rep R3 db)) files' tiss' /\ Forall level_sorted (tail tiss') /\ StronglySorted newer_table (concat tiss') /\
  compacted (version_entries tiss) (version_entries tiss').
Proof.
  pose proof Hv as [V1 V2 V3 V4]. destruct Hnames as [_ N2]. rw N2 in V1. pose proof outs_sorted as Hos.
  assert (Hm : forall fs tis, Forall2 (file_rep R db) fs tis -> Forall2 (file_rep R3 db) fs tis).
  { intros fs tis H. eapply Forall2_impl; [exact H|]. intros f ti Hft. eapply file_rep_evolves; [done| |exact Hft]. eapply lookup_weaken; [apply Hft|done]. }
  split; [|split; [|split]].
  - destruct Hpt as [Q1 Q2 Q3 Q4 Q5 Q6 Q7]. apply Forall2_app; [eapply Forall2_impl; [exact Q1|]; intros; by apply Hm|].
    constructor; [by apply Hm|]. constructor; [|eapply Forall2_impl; [exact Q7|]; intros; by apply Hm].
    apply Forall2_app; [by apply Hm|]. apply Forall2_app; [apply Ho|by apply Hm].
  - by eapply outs_version; [apply Hs|exact Hpk|exact Hpt|exact V1|exact Htiss|..].
  - by eapply outs_version; [apply Hs|exact Hpk|exact Hpt|exact V1|exact Htiss|..].
  - by eapply outs_compacted; [apply Hs|exact Hpk|exact Hpt|exact V1|exact Htiss|..].
Qed.

Lemma outs_sink : (level_weight tiss' < level_weight tiss)%nat.
Proof.
  rw Htiss. apply level_weight_sinks.
  - pose proof Hpk as [_ _ Hne _ _ _ _]. pose proof (pt_inputs0 _ _ _ _ _ _ _ _ _ _ _ _ _ _ _ Hpt) as H0.
    destruct H0 as [|f ti fs tis Hf _]; [done|]. pose proof (fr_nonempty _ _ _ _ Hf). rw /tables_entries fmap_cons. cbn [concat]. by destruct (ti_entries ti).
  - rw Hent. etrans; [apply sublist_length, kept_sublist|]. by rw (Permutation_length (merged_perm _)).
Qed.

Lemma levels_after : VersionSet.sort_levels (pre ++ rest0 :: ((a ++ b) ++ o_files o) :: deep) = files' /\
  keys_apart (strip (pre ++ rest0 :: ((a ++ b) ++ o_files o) :: deep)).
Proof.
  apply same_levels_sort.
  { apply Forall2_app; [reflexivity|]. constructor; [done|]. constructor; [solve_Permutation|reflexivity]. }
  apply sort_levels_stay. destruct version_after as (Hf & Hl & _).
  pose proof (files_table_ok R3 e3 db _ _ (so_env _ _ _ (oa_store _ _ _ _ _ _ _ _ _ Ho)) (files_concat _ _ _ _ Hf)) as Hok.
  pose proof (levels_smaller_keys _ _ _ _ Hf Hok Hl) as Ht.
  destruct (levels_ok_sorted _ (manifest_state_levels _ _ (mo_state _ _ _ _ Hopen))) as (fs0 & levels & E & _ & H0 & _).
  pose proof Hpk as [P1 _ _ P4 _ _ _]. rw E in P1. rw /files' in Ht *. destruct pre as [|p pre'].
  - rw P4 // in Ht |- *. split; [constructor|exact Ht].
  - injection P1 as <- _. split; [done|exact Ht].
Qed.

Lemma table_paths_other p : (exists k, 0 <= k < 2 ^ 64 /\ p = TableFileName db k) -> forall q, not_table db q -> q <> p.
Proof. intros (k & Hk & ->) q Hq E. by apply (Hq k). Qed.

(** The outputs have numbers of their own. *)
Lemma output_numbers f : f ∈ o_files o -> n0 <= number f < n3.
Proof.
  intros Hf. assert (Hin : number f ∈ number <$> o_files o) by (apply list_elem_of_fmap; eauto).
  rw (oa_numbers _ _ _ _ _ _ _ _ _ Ho) elem_of_seqZ in Hin. done.
Qed.

Lemma old_numbers f : f ∈ concat (Version.files_ (VersionSet.current_ vs0)) -> 0 <= number f < n0.
Proof.
  intros Hf. pose proof Hv as [V1 _ _ _]. apply files_concat in V1. apply list_elem_of_lookup_1 in Hf as [i Hi].
  destruct (Forall2_lookup_l _ _ _ _ _ V1 Hi) as (ti & _ & Hft). eapply Hfiles, Hft.
Qed.

Lemma input_numbers f : f ∈ inputs0_ c ++ inputs1_ c -> 0 <= number f < n0.
Proof. intros Hf. apply old_numbers. rw (concat_files _ _ _ _ _ _ _ _ _ Hpk). revert Hf. rw !elem_of_app. tauto. Qed.

(** No file of the new version is unlinked. *)
Lemma new_files_stay f : f ∈ concat files' -> number f ∉ number <$> (inputs0_ c ++ inputs1_ c).
Proof.
  pose proof Hv as [V1 V2 V3 V4]. pose proof (all_numbers _ _ _ _ V1 V4) as Hnd. rw (concat_files _ _ _ _ _ _ _ _ _ Hpk) in Hnd.
  assert (Hperm : concat pre ++ inputs0_ c ++ rest0 ++ a ++ inputs1_ c ++ b ++ concat deep ≡ₚ
    (inputs0_ c ++ inputs1_ c) ++ (concat pre ++ rest0 ++ a ++ b ++ concat deep)) by solve_Permutation.
  rewrite -> Hperm, fmap_app in Hnd. apply NoDup_app in Hnd as (_ & Hd & _). intros Hf Hin.
  assert (Hf' : f ∈ o_files o \/ f ∈ concat pre ++ rest0 ++ a ++ b ++ concat deep).
  { revert Hf. rw /files' concat_app /=. rw !elem_of_app. tauto. }
  destruct Hf' as [Hf'|Hf'].
  - apply output_numbers in Hf'. apply list_elem_of_fmap in Hin as (g & E & Hg). apply input_numbers in Hg. lia.
  - apply (Hd _ Hin). apply list_elem_of_fmap. eauto.
Qed.

(** Unlinking the inputs leaves the tables of the new version where they are. *)
Lemma files_unlinked w4 w5 w6 :
  Forall2 (Forall2 (file_rep (rebase (drop_paths ((fun f => TableFileName db (number f)) <$> inputs0_ c ++ inputs1_ c) (rebase R3 w4) w5) w6) db)) files' tiss'.
Proof.
  destruct version_after as (Hf & _), outs_count as [Hc _]. pose proof (oa_store _ _ _ _ _ _ _ _ _ Ho) as Hs3.
  eapply levels_evolve; [exact Hf|by split|]. apply Forall_forall. intros f Hff. pose proof (new_files_stay f Hff) as Hnin.
  pose proof (files_concat _ _ _ _ Hf) as Hfc. apply list_elem_of_lookup_1 in Hff as [i Hi]. destruct (Forall2_lookup_l _ _ _ _ _ Hfc Hi) as (ti & _ & Hft).
  apply (proj2 (drop_paths_lookup _ (rebase R3 w4) w5 _ _)). split; [apply Hft|]. intros (g & E & Hg)%list_elem_of_fmap. apply TableFileName_inj in E.
  - apply Hnin. rw E. apply list_elem_of_fmap. eauto.
  - eapply (ly_numbers _ _ (so_layout _ _ _ Hs3)), Hft.
  - pose proof (input_numbers g Hg). lia.
Qed.

(** The paths the compaction unlinks are those of tables numbered before it began. *)
Lemma gone_paths p : p ∈ ((fun f => TableFileName db (number f)) <$> inputs0_ c ++ inputs1_ c) -> exists k, 0 <= k < n0 /\ p = TableFileName db k.
Proof. intros (f & -> & Hf)%list_elem_of_fmap. exists (number f). split; [by apply input_numbers|done]. Qed.

Lemma manifest_before : manifest_open (o_vset o) edits st (e_world e3).
Proof.
  pose proof (oa_changes _ _ _ _ _ _ _ _ _ Ho) as (paths & Hch & Hp). rw (oa_vset _ _ _ _ _ _ _ _ _ Ho) /opened Hb Z.add_0_r.
  destruct outs_count as [Hc _]. destruct Hnames as [N1 _].
  assert (Hno : forall q, not_table db q -> q ∉ paths).
  { intros q Hq (k & Hk & Hkp)%Hp. eapply table_paths_other; [|exact Hq|exact Hkp]. exists k. split; [|done]. rw /opened Hb in Hk. lia. }
  eapply (manifest_open_advanced vs0); [split; try done; simpl; lia|]. eapply manifest_open_changes; [exact Hopen|by eapply store_wf|exact Hch|rw N1..|].
  - apply Hno, manifest_not_table.
  - apply Hno, current_not_table.
  - by intros writer _ ?%elem_of_nil.
Qed.

Lemma edit_before : edit_fits (o_vset o) (compaction_edit c (o_files o)) /\
  edit_fine (VersionSet.complete_edit (o_vset o) (compaction_edit c (o_files o))).
Proof.
  destruct outs_count as [Hc Hsz]. rw (oa_vset _ _ _ _ _ _ _ _ _ Ho) /opened Hb Z.add_0_r. split.
  - rw compaction_edit_eq. split; simpl; try done. rw /added_of. apply Forall_fmap, Forall_forall. intros f Hf%output_numbers. simpl. fold n0. lia.
  - apply compaction_edit_fine.
    + rw (pk_level _ _ _ _ _ _ _ _ _ Hpk). pose proof Hv as [V1 V2 _ _]. apply Forall2_length in V1. rw V2 (pk_files _ _ _ _ _ _ _ _ _ Hpk) length_app /= in V1.
      change (Z.to_nat kNumLevels) with 7%nat in V1. lia.
    + apply Forall_forall. intros f Hf. pose proof (output_numbers f Hf) as Hn. apply list_elem_of_lookup_1 in Hf as [i Hi].
      destruct (Forall2_lookup_l _ _ _ _ _ (oa_files _ _ _ _ _ _ _ _ _ Ho) Hi) as (ti & _ & Hft).
      destruct (table_key_sizes _ _ _ _ Hft) as (H1 & H2 & H3). { eapply (ei_files _ _ (so_env _ _ _ (oa_store _ _ _ _ _ _ _ _ _ Ho))), Hft. }
      split; lia.
    + apply Forall_forall. intros f Hf%input_numbers. lia.
    + simpl. fold n0. lia.
    + done.
    + lia.
Qed.

Lemma apply_outputs_run :
  exists vs' e' R' edits' st' paths fds, apply_outputs db c o e3 = Some ((Status.OK, vs'), e') /\
    store db R' e' /\ version_rep R' (VersionSet.current_ vs') tiss' /\
    (compacted (version_entries tiss) (version_entries tiss') /\ (level_weight tiss' < level_weight tiss)%nat) /\
    manifest_open vs' edits' st' (e_world e') /\ VersionSet.rc_max_seq st' = VersionSet.last_sequence_ vs' /\
    VersionSet.rc_max_file st' = VersionSet.next_file_number_ vs' /\ n0 <= VersionSet.next_file_number_ vs' <= n0 + ib /\
    VersionSet.log_number_ vs' = VersionSet.log_number_ vs0 /\ VersionSet.last_sequence_ vs' = VersionSet.last_sequence_ vs0 /\
    VersionSet.dbname_ vs' = db /\ Version.dbname_ (VersionSet.current_ vs') = db /\
    (forall k ti, rg_files R' !! k = Some ti -> 0 <= k < VersionSet.next_file_number_ vs') /\
    VersionSet.manifest_file_number_ vs' = VersionSet.manifest_file_number_ vs0 /\
    changes paths fds (e_world e3) (e_world e') /\
    (forall p, p ∈ paths -> (exists k, 0 <= k < 2 ^ 64 /\ p = TableFileName db k) \/ p = ManifestFileName db (VersionSet.manifest_file_number_ vs0)) /\
    (forall fd, fd ∈ fds -> exists writer, VersionSet.descriptor_log_ vs0 = Some writer /\ fd = WalWriter.fd_ writer) /\
    Forall (fun f => w_dir (e_world e') !! TableFileName db (number f) = None) (inputs0_ c ++ inputs1_ c).
Proof.
  destruct Hnames as [N1 N2]. destruct version_after as (Hf & Hl & Hne & Hcomp), levels_after as [Hsort Hap], edit_before as [Hfits Hfine].
  pose proof (oa_store _ _ _ _ _ _ _ _ _ Ho) as Hs3. pose proof (oa_vset _ _ _ _ _ _ _ _ _ Ho) as Hvs. rw /opened Hb Z.add_0_r in Hvs.
  destruct outs_count as [Hc _]. pose proof Hv as [V1 V2 V3 V4].
  destruct (store_LogAndApply db R3 (o_vset o) edits st (compaction_edit c (o_files o)) (pre ++ rest0 :: ((a ++ b) ++ o_files o) :: deep) e3 Hs3)
    as (vs' & st' & e4 & E4 & Hs4 & (fd & Hch4 & wr & Hwr & Hfd) & Ho4 & Hq & Hmx & [A1 A2 A3 A4 (A5 & A6 & A7)] & Hcur); auto.
  { by rw Hvs. } { apply manifest_before. }
  { rw compaction_edit_eq /= /added_of. apply Forall_fmap. apply Ho. }
  { rw Hvs. eapply compaction_pushes; [exact Hpk|]. eapply all_numbers; [exact V1|done]. }
  rw Hsort in Hcur. rw Hvs in A2 A3 A4 A5 A7 Hmx Hwr Hch4. rw compaction_edit_eq /= in A2 A3 A4 A5 A7 Hmx Hwr.
  set (R4 := rebase R3 (e_world e4)) in *.
  destruct (unlink_files_run db (inputs0_ c ++ inputs1_ c) (e_world e4) (so_calm _ _ _ Hs4)) as (w5 & E5 & U5).
  set (gone := (fun f => TableFileName db (number f)) <$> inputs0_ c ++ inputs1_ c) in *.
  pose proof (store_unlinked db R4 e4 w5 gone Hs4 U5) as Hs5. set (R5 := drop_paths gone R4 w5) in *.
  destruct (SyncDirectory_kept db w5) as (s6 & w6 & E6 & K6).
  pose proof gone_paths as Hgone. fold gone in Hgone.
  assert (Hno : forall q, not_table db q -> q ∉ gone).
  { intros q Hq' (k & Hk & Hkp)%Hgone. eapply table_paths_other; [|exact Hq'|exact Hkp]. exists k. split; [lia|done]. }
  exists vs', (mkEnv w6 (e_cache e4)), (rebase R5 w6), (edits ++ [VersionSet.complete_edit (o_vset o) (compaction_edit c (o_files o))]), st'.
  exists (ManifestFileName db (VersionSet.manifest_file_number_ vs0) :: gone), [fd]. split.
  { rw /apply_outputs (bind_run _ _ _ _ _ E4). cbn iota beta. change (negb (Status.ok Status.OK)) with false. cbn iota.
    rw (bind_run _ _ _ _ _ (on_world_run _ e4 _ _ E5)) (bind_run _ _ _ _ _ (on_world_run _ (mkEnv w5 (e_cache e4)) _ _ E6)) //. }
  split.
  { apply (store_changes db R5 (mkEnv w5 (e_cache e4)) w6 [] []); [done|by apply files_kept_changes|by intros ? ?%elem_of_nil..]. }
  split.
  { split; rw ?Hcur //=.
    - apply files_unlinked.
    - rw Htiss !length_app /= in V2. rw /tiss' !length_app //. }
  split; [split; [done|apply outs_sink]|]. simpl. split.
  { eapply manifest_open_kept; [exact K6|]. eapply manifest_open_changes; [exact Ho4|by eapply store_wf|by apply unlinked_changes|rw A5 /= N1..|].
    - apply Hno, manifest_not_table.
    - apply Hno, current_not_table.
    - by intros writer _ ?%elem_of_nil. }
  split; [done|]. split.
  { rw Hmx A4. pose proof (ms_next _ _ (mo_state _ _ _ _ Hopen)). lia. }
  split; [rw A4; fold n0; lia|]. split; [done|]. split; [done|]. split; [by rw A5|]. split; [by rw Hcur|].
  split; [intros k ti Hk; rw A4; by apply (oa_tables _ _ _ _ _ _ _ _ _ Ho k ti)|]. split; [done|]. split.
  { eapply changes_trans; [eapply changes_mono; [| |exact Hch4]|eapply changes_mono; [| |eapply changes_trans; [by apply unlinked_changes|by apply files_kept_changes]]]; try done.
    - intros p ->%list_elem_of_singleton. by left.
    - by apply list_subseteq_cons.
    - by intros p ?%elem_of_nil. }
  split.
  - intros p [->|(k & Hk & ->)%Hgone]%elem_of_cons; [by right|]. left. exists k. split; [lia|done].
  - split; [intros x ->%list_elem_of_singleton; eauto|]. apply Forall_forall. intros f Hff. simpl. rw (fk_dir _ _ K6).
    apply (ul_gone _ _ _ U5), list_elem_of_fmap. eauto.
Qed.
End apply.
End here.

(** The compaction succeeds; the version it leaves has the same tables but for the inputs,
    which have been replaced. *)
Lemma DoCompaction_run :
  exists vs' e' R' tiss' edits' st' paths fds, DoCompaction opts db vs0 c cache e = Some ((Status.OK, vs'), e') /\
    store db R' e' /\ version_rep R' (VersionSet.current_ vs') tiss' /\
    (compacted (version_entries tiss) (version_entries tiss') /\ (level_weight tiss' < level_weight tiss)%nat) /\
    manifest_open vs' edits' st' (e_world e') /\ VersionSet.rc_max_seq st' = VersionSet.last_sequence_ vs' /\
    VersionSet.rc_max_file st' = VersionSet.next_file_number_ vs' /\ n0 <= VersionSet.next_file_number_ vs' <= n0 + ib /\
    VersionSet.log_number_ vs' = VersionSet.log_number_ vs0 /\ VersionSet.last_sequence_ vs' = VersionSet.last_sequence_ vs0 /\
    VersionSet.dbname_ vs' = db /\ Version.dbname_ (VersionSet.current_ vs') = db /\
    (forall k ti, rg_files R' !! k = Some ti -> 0 <= k < VersionSet.next_file_number_ vs') /\
    changes paths fds (e_world e) (e_world e') /\
    (forall p, p ∈ paths -> (exists k, 0 <= k < 2 ^ 64 /\ p = TableFileName db k) \/ p = ManifestFileName db (VersionSet.manifest_file_number_ vs')) /\
    (forall fd, fd ∈ fds -> exists writer, VersionSet.descriptor_log_ vs0 = Some writer /\ fd = WalWriter.fd_ writer) /\
    VersionSet.manifest_file_number_ vs' = VersionSet.manifest_file_number_ vs0 /\
    Forall (fun f => w_dir (e_world e') !! TableFileName db (number f) = None) (inputs0_ c ++ inputs1_ c).
Proof.
  destruct picked_here as (pre & rest0 & a & b & deep & mn & mx & tpre & t0 & tr0 & ta & t1 & tb & tdeep & Hpk & Htiss & Hpt).
  destruct (outputs_written _ _ _ _ _ _ _ _ _ _ _ _ _ _ Hpk Htiss Hpt) as (o & e3 & R3 & outs & E1 & Ho & Hb & Hent & X3 & P3).
  destruct (apply_outputs_run _ _ _ _ _ _ _ _ _ _ _ _ _ _ Hpk Htiss Hpt o e3 R3 outs Ho Hb Hent X3 P3) as
    (vs' & e' & R' & edits' & st' & paths & fds & E2 & B1 & B2 & B3 & B4 & B5 & B6 & B7 & B8 & B9 & B10 & B11 & B12 & B13 & B14 & B15 & B16 & B17).
  destruct (oa_changes _ _ _ _ _ _ _ _ _ Ho) as (paths0 & Hch & Hp0). rw /opened Hb in Hp0.
  exists vs', e', R', (tpre ++ tr0 :: (ta ++ outs ++ tb) :: tdeep), edits', st', (paths0 ++ paths), fds.
  split; [by rw E1|]. do 11 (split; [done|]). split; [done|]. split.
  { eapply changes_trans; [eapply changes_mono; [| |exact Hch]|eapply changes_mono; [| |exact B14]]; try done.
    - intros p Hp. apply elem_of_app. by left.
    - by intros p ?%elem_of_nil.
    - intros p Hp. apply elem_of_app. by right. }
  split; [|done]. intros p [(k & Hk & ->)%Hp0|Hp]%elem_of_app.
  - left. exists k. split; [|done]. assert (Hc : Z.of_nat (length outs) <= ib) by (eapply outs_count; eauto). fold n0 in Hk. lia.
  - rw B13. by apply B15.
Qed.
End compaction.
