(* ===== verification/Database.v ===== *)
(** * Database: what a database promises

    The invariant of [DBImpl] between its critical sections, and what each of them does
    to the contents: the log, the memtables, the tables and the manifest together are
    one map from keys to values. *)

From S2P Require Import Prelude Status Slice Coding Format Posix Env Filename Wal SkipList Entry Iterator Memtable.
From S2P Require Import MergingIterator DBIterator Block BlockCache Options.
From S2P Require Import SSTableBuilder SSTableReader TwoLevelIterator VersionEdit Version Storage VersionSet Manifest NewManifest Compaction DBImpl Directory Flush.

#[local] Open Scope Z_scope.

(** ** The invariant *)

(** The log record of a write. *)
Definition out_of (x : MemtableEntry) : WalReader.out := WalReader.mkOut (seq x) (type x) (user_key x) (value x).

(** The log file [n] holds the writes of the memtable, in order. *)
Definition log_holds (db : bytes) (w : World) (n : Z) (m : Memtable) : Prop :=
  exists log, content_at w (LogFileName db n) = Some (encode_log (out_of <$> log)) /\ mem_entries m ≡ₚ log /\
    log_ordered log /\ Forall out_ok (out_of <$> log).

Definition imm_entries (d : DBImpl.t) : list MemtableEntry := from_option mem_entries [] (DBImpl.imm_ d).

(** The log files that recovery would replay. *)
Definition live_log (d : DBImpl.t) (w : World) (n : Z) : Prop :=
  VersionSet.log_number_ (DBImpl.versions_ d) <= n < 2 ^ 64 /\ is_Some (w_dir w !! LogFileName (DBImpl.dbname_ d) n).

Section invariant.
Context (d : DBImpl.t) (e : TableEnv) (R : registry) (tiss : list (list table_info)) (m : Memtable)
  (edits : list VersionEdit) (st : VersionSet.recovered).
Let db := DBImpl.dbname_ d.
Let vs := DBImpl.versions_ d.

(** What holds whatever is known of the logs before the active one ([logs]) and of the file
    number that the manifest has ([next]). *)
Record db_with (logs next : Prop) : Prop := {
  da_store : store db R e;
  da_options : options_ok (DBImpl.options_ d);
  da_names : VersionSet.dbname_ vs = db /\ Version.dbname_ (VersionSet.current_ vs) = db;
  da_version : version_rep R (VersionSet.current_ vs) tiss;
  da_types : Forall stored_ok (version_entries tiss);
  da_manifest : manifest_open vs edits st (e_world e);
  da_mem : DBImpl.mem_ d = Some m /\ mem_ok m;
  da_imm : match DBImpl.imm_ d with Some i => mem_ok i /\ mem_entries i <> [] | None => True end;
  da_seqs : Forall (fun x => 0 <= seq x <= VersionSet.last_sequence_ vs) (mem_entries m ++ imm_entries d ++ version_entries tiss);
  da_newer : newer_versions (mem_entries m) (imm_entries d ++ version_entries tiss) /\
    newer_versions (imm_entries d) (version_entries tiss);
  da_wal : exists w ino, DBImpl.wal_writer_ d = Some w /\ 0 <= WalWriter.fd_ w < w_fresh_fd (e_world e) /\
    0 <= WalWriter.file_size_ w < 2 ^ 64 /\ at_end (e_world e) (WalWriter.fd_ w) ino /\
    w_dir (e_world e) !! LogFileName db (DBImpl.log_file_number_ d) = Some ino;
  da_log : log_holds db (e_world e) (DBImpl.log_file_number_ d) m;
  da_logs : logs;
  da_seq : 0 <= VersionSet.last_sequence_ vs <= kMaxSequenceNumber;
  da_numbers : 0 <= VersionSet.log_number_ vs <= DBImpl.log_file_number_ d /\
    DBImpl.log_file_number_ d < VersionSet.next_file_number_ vs < 2 ^ 64;
  da_files : forall n ti, rg_files R !! n = Some ti -> 0 <= n < VersionSet.next_file_number_ vs;
  da_new_logs : forall n, VersionSet.next_file_number_ vs <= n < 2 ^ 64 -> w_dir (e_world e) !! LogFileName db n = None;
  da_manifests : forall n, VersionSet.rc_max_file st <= n < 2 ^ 64 -> w_dir (e_world e) !! ManifestFileName db n = None;
  da_table_seqs : Forall (fun x => seq x <= VersionSet.rc_max_seq st) (version_entries tiss);
  da_tidy : tidy db (e_world e) /\ is_Some (w_dir (e_world e) !! db);
  da_log_next : next;
}.

(** The logs that recovery would replay are those of the two memtables, and the manifest
    has a number past them. *)
Definition db_at : Prop := db_with
  (match DBImpl.imm_ d with
   | Some i => exists k, VersionSet.log_number_ vs <= k < DBImpl.log_file_number_ d /\ log_holds db (e_world e) k i /\
       forall n, live_log d (e_world e) n -> n = k \/ n = DBImpl.log_file_number_ d
   | None => forall n, live_log d (e_world e) n -> n = DBImpl.log_file_number_ d
   end)
  (VersionSet.log_number_ vs < VersionSet.rc_max_file st /\ DBImpl.log_file_number_ d <= VersionSet.rc_max_file st /\
   (DBImpl.imm_ d = None -> VersionSet.next_file_number_ vs = VersionSet.rc_max_file st)).

(** All versions of all keys. *)
Definition db_entries : list MemtableEntry := mem_entries m ++ imm_entries d ++ version_entries tiss.
End invariant.

#[global] Arguments da_store d e R tiss m edits st {logs next} _ : rename.
#[global] Arguments da_options d e R tiss m edits st {logs next} _ : rename.
#[global] Arguments da_names d e R tiss m edits st {logs next} _ : rename.
#[global] Arguments da_version d e R tiss m edits st {logs next} _ : rename.
#[global] Arguments da_types d e R tiss m edits st {logs next} _ : rename.
#[global] Arguments da_manifest d e R tiss m edits st {logs next} _ : rename.
#[global] Arguments da_mem d e R tiss m edits st {logs next} _ : rename.
#[global] Arguments da_imm d e R tiss m edits st {logs next} _ : rename.
#[global] Arguments da_seqs d e R tiss m edits st {logs next} _ : rename.
#[global] Arguments da_newer d e R tiss m edits st {logs next} _ : rename.
#[global] Arguments da_wal d e R tiss m edits st {logs next} _ : rename.
#[global] Arguments da_log d e R tiss m edits st {logs next} _ : rename.
#[global] Arguments da_logs d e R tiss m edits st {logs next} _ : rename.
#[global] Arguments da_seq d e R tiss m edits st {logs next} _ : rename.
#[global] Arguments da_numbers d e R tiss m edits st {logs next} _ : rename.
#[global] Arguments da_files d e R tiss m edits st {logs next} _ : rename.
#[global] Arguments da_new_logs d e R tiss m edits st {logs next} _ : rename.
#[global] Arguments da_manifests d e R tiss m edits st {logs next} _ : rename.
#[global] Arguments da_table_seqs d e R tiss m edits st {logs next} _ : rename.
#[global] Arguments da_tidy d e R tiss m edits st {logs next} _ : rename.
#[global] Arguments da_log_next d e R tiss m edits st {logs next} _ : rename.

(** The database holds the versions [es]. *)
Definition db_inv (d : DBImpl.t) (e : TableEnv) (es : list MemtableEntry) : Prop :=
  exists R tiss m edits st, db_at d e R tiss m edits st /\ es = db_entries d tiss m.

(** What a user sees of them: the newest version of each key, unless it is a tombstone. *)
Definition db_map (es : list MemtableEntry) (key : bytes) : option bytes :=
  x ← newest es key kMaxSequenceNumber; if type x =? kTypeValue then Some (value x) else None.

(** ** Get *)

Lemma newest_seqs es key s s' :
  Forall (fun x => seq x <= s) es -> Forall (fun x => seq x <= s') es -> newest es key s = newest es key s'.
Proof.
  intros Hs Hs'. induction es as [|x es IH]; [done|]. apply Forall_cons in Hs as [Hx Hs], Hs' as [Hx' Hs']. rw !newest_cons IH //.
  rw /sees (proj2 (Z.leb_le _ _) Hx) (proj2 (Z.leb_le _ _) Hx') //.
Qed.

(** Reading opens tables and remembers their readers. *)
Record reading (d : DBImpl.t) (e : TableEnv) (R : registry) (tiss : list (list table_info)) (v : Version.t) (R' : registry) (e' : TableEnv) : Prop := {
  rd_kept : files_kept (e_world e) (e_world e');
  rd_extends : extends R R';
  rd_store : store (DBImpl.dbname_ d) (rebase R' (e_world e')) e';
  rd_version : version_rep R' v tiss;
  rd_name : Version.dbname_ v = DBImpl.dbname_ d;
  rd_files : strip (Version.files_ v) = strip (Version.files_ (VersionSet.current_ (DBImpl.versions_ d)));
}.

Lemma db_at_advanced d e R R' e' tiss m edits st v :
  db_at d e R tiss m edits st -> reading d e R tiss v R' e' ->
  db_at (DBImpl.set_versions (VersionSet.set_current v (DBImpl.versions_ d)) d) e' (rebase R' (e_world e')) tiss m edits st.
Proof.
  intros [A1 A2 A3 A4 A5 A6 A7 A8 A9 A10 A11 A12 A13 A14 A15 A16 A17 A18 A19 A20 A21] [K X Hs Hv Hdb Hstrip].
  assert (Hcont : forall p, content_at (e_world e') p = content_at (e_world e) p) by (intros p; by apply files_kept_content_at).
  split; auto; simpl.
  - by split; [apply A3|].
  - destruct Hv as [V1 V2 V3 V4]. split; auto. eapply Forall2_impl; [exact V1|]. intros fs tis Hf.
    eapply Forall2_impl; [exact Hf|]. intros f ti Hft. eapply file_rep_evolves; [apply rebase_evolves|apply Hft|exact Hft].
  - eapply manifest_open_advanced; [|by eapply manifest_open_kept]. by split.
  - destruct A11 as (w & ino & H1 & H2 & H3 & H4 & H5). exists w, ino. destruct (fk_fresh _ _ K). split_and!; auto; try lia.
    + eapply at_end_kept; [done|lia|done].
    + by rw (fk_dir _ _ K).
  - destruct A12 as (log & H1 & H2). exists log. by rw Hcont.
  - rw /live_log /= (fk_dir _ _ K). destruct (DBImpl.imm_ d); [|exact A13]. destruct A13 as (k & H1 & (log & H2 & H3) & H4).
    exists k. split; [done|]. split; [exists log; by rw Hcont|done].
  - rw (ex_files _ _ X). exact A16.
  - by rw (fk_dir _ _ K).
  - by rw (fk_dir _ _ K).
  - by rw /tidy (fk_dir _ _ K).
Qed.

Lemma lookup_result_types es key s v st :
  Forall known_type es ->
  match newest es key s with
  | Some x => if type x =? kTypeValue then (true, (fun _ => value x) <$> v, Status.OK)
              else if type x =? kTypeDeletion then (true, v, Status.NotFound []) else (false, v, st)
  | None => (false, v, st)
  end = lookup_result (newest es key s) v st.
Proof.
  intros Ht. destruct (newest es key s) as [x|] eqn:En; [|done]. apply newest_Some in En as (Hx & _).
  rewrite -> Forall_forall in Ht. rw /lookup_result. by destruct (Ht x Hx) as [E|E]; rw E.
Qed.

(** What [Get] answers. *)
Definition get_answer (es : list MemtableEntry) (key : bytes) (v : option bytes) : Status.t * option bytes :=
  match db_map es key with Some x => (Status.OK, (fun _ => x) <$> v) | None => (Status.NotFound [], v) end.

Lemma get_answer_result es key s v st found v' s' :
  Forall (fun x => seq x <= s) es -> Forall (fun x => seq x <= kMaxSequenceNumber) es ->
  lookup_result (newest es key s) v st = (found, v', s') ->
  if (found : bool) then (s', v') = get_answer es key v else get_answer es key v = (Status.NotFound [], v) /\ v' = v.
Proof.
  intros Hs Hk. rw /lookup_result /get_answer /db_map (newest_seqs _ _ _ _ Hs Hk).
  destruct (newest es key kMaxSequenceNumber) as [x|]; simpl; [|by intros [= <- <- <-]].
  destruct (type x =? kTypeValue); by intros [= <- <- <-].
Qed.

Lemma db_with_Get_run d e R tiss m edits st logs next key v :
  db_with d e R tiss m edits st logs next ->
  exists d' e', DBImpl.Get key v d e = Some ((get_answer (db_entries d tiss m) key v, d'), e') /\
    (d' = d /\ e' = e \/ exists v' R', d' = DBImpl.set_versions (VersionSet.set_current v' (DBImpl.versions_ d)) d /\ reading d e R tiss v' R' e').
Proof.
  intros Hd. pose proof Hd as [A1 A2 A3 A4 A5 A6 [A7 A7'] A8 A9 A10 A11 A12 A13 A14 A15 A16 A17 A18 A19 A20 A21].
  set (s := VersionSet.last_sequence_ (DBImpl.versions_ d)) in *. rw /DBImpl.Get (bind_lift _ _ _ _ A7).
  assert (Hs : Forall (fun x => seq x <= s) (db_entries d tiss m)) by (eapply Forall_impl; [exact A9|]; simpl; lia).
  assert (Hk : Forall (fun x => seq x <= kMaxSequenceNumber) (db_entries d tiss m)) by (eapply Forall_impl; [exact Hs|]; simpl; lia).
  rw /db_entries in Hs Hk. pose proof Hs as [Hs1 [Hs2 Hs3]%Forall_app]%Forall_app. pose proof Hk as [Hk1 [Hk2 Hk3]%Forall_app]%Forall_app.
  assert (Hsplit : forall a b, newer_versions a b -> newest (a ++ b) key s = match newest a key s with Some x => Some x | None => newest b key s end)
    by (intros; by apply newest_app_newer).
  pose proof (Get_run m key s v Status.OK (mo_inv _ A7')) as E1. rw (lookup_result_types _ _ _ _ _ (stored_types _ (mo_types _ A7'))) in E1.
  rw (bind_lift _ _ _ _ E1).
  assert (Hans : forall r, newest (db_entries d tiss m) key s = r -> forall found v' s', lookup_result r v Status.OK = (found, v', s') ->
    found = true -> (s', v') = get_answer (db_entries d tiss m) key v).
  { intros r <- found v' s' El ->. exact (get_answer_result _ key s v Status.OK true v' s' Hs Hk El). }
  assert (Hnone : newest (db_entries d tiss m) key s = None -> get_answer (db_entries d tiss m) key v = (Status.NotFound [], v)).
  { intros En. pose proof (get_answer_result (db_entries d tiss m) key s v Status.OK false v Status.OK Hs Hk) as H.
    rw En in H. by apply H. }
  rw {1}/db_entries (Hsplit _ _ (proj1 A10)) in Hans Hnone. rw (Hsplit _ _ (proj2 A10)) in Hans Hnone.
  destruct (newest (mem_entries m) key s) as [x|] eqn:En1.
  { destruct (lookup_result (Some x) v Status.OK) as [[found v'] s'] eqn:El.
    assert (found = true) as -> by (rw /lookup_result in El; case_match; congruence).
    cbn iota beta. exists d, e. split; [by rw -(Hans _ eq_refl _ _ _ El eq_refl)|]. by left. }
  cbn [lookup_result]. cbn iota beta.
  assert (E2 : (match DBImpl.imm_ d with Some imm => Memtable.Get imm key s v Status.OK | None => Some (false, v, Status.OK) end)
    = Some (lookup_result (newest (imm_entries d) key s) v Status.OK)).
  { rw /imm_entries. destruct (DBImpl.imm_ d) as [i|]; [|done]. destruct A8 as [A8 _]. simpl.
    rw (Get_run i key s v Status.OK (mo_inv _ A8)) (lookup_result_types _ _ _ _ _ (stored_types _ (mo_types _ A8))) //. }
  rw (bind_lift _ _ _ _ E2). destruct (newest (imm_entries d) key s) as [x|] eqn:En2.
  { destruct (lookup_result (Some x) v Status.OK) as [[found v'] s'] eqn:El.
    assert (found = true) as -> by (rw /lookup_result in El; case_match; congruence).
    cbn iota beta. exists d, e. split; [by rw -(Hans _ eq_refl _ _ _ El eq_refl)|]. by left. }
  cbn [lookup_result]. cbn iota beta.
  destruct (store_grows _ R e _ _ A1 (Version_Get_run R (VersionSet.current_ (DBImpl.versions_ d)) tiss (DBImpl.options_ d) key s v
    Status.OK true (store_quiet _ _ _ A1) A4 (stored_types _ A5) ltac:(intros x Hx _; revert x Hx; by apply Forall_forall)))
    as ([x v'] & R1 & e' & E & X & Hs' & K & Ex & Hv'). simpl in Ex, Hv'.
  rw (bind_run _ _ _ _ _ E). destruct (Version_Get_forget _ _ _ _ _ _ _ _ _ _ _ E) as [Hdb Hfg]. destruct x as [[found v1] s1].
  exists (DBImpl.set_versions (VersionSet.set_current v' (DBImpl.versions_ d)) d), e'.
  split.
  { destruct (newest (version_entries tiss) key s) as [y|] eqn:En3.
    - assert (found = true) as -> by (rw /lookup_result in Ex; case_match; congruence).
      by rw -(Hans _ eq_refl _ _ _ (eq_sym Ex) eq_refl).
    - injection Ex as -> -> ->. by rw Hnone. }
  right. exists v', R1. split; [done|]. split; auto. rw Hdb. apply A3.
Qed.

Lemma db_Get_run d e R tiss m edits st key v :
  db_at d e R tiss m edits st ->
  exists d' R' e', DBImpl.Get key v d e = Some ((get_answer (db_entries d tiss m) key v, d'), e') /\
    db_at d' e' R' tiss m edits st /\ db_entries d' tiss m = db_entries d tiss m /\
    (d' = d \/ exists v', d' = DBImpl.set_versions (VersionSet.set_current v' (DBImpl.versions_ d)) d).
Proof.
  intros Hd. destruct (db_with_Get_run d e R tiss m edits st _ _ key v Hd) as (d' & e' & E & [[-> ->]|(v' & R' & -> & Hr)]); [exists d, R, e; auto|].
  eexists _, (rebase R' (e_world e')), e'. split; [exact E|]. split; [by eapply db_at_advanced|]. split; [done|eauto].
Qed.

(** ** Switching memtables *)

Lemma log_holds_changes db w w' paths fds n m :
  fs_wf w -> changes paths fds w w' -> LogFileName db n ∉ paths -> log_holds db w n m -> log_holds db w' n m.
Proof. intros Hw Hch Hn (log & H1 & H2). exists log. by rw (changes_content_at _ _ _ _ _ Hw Hch Hn). Qed.

(** The world after a new log was opened and the old one closed. *)
Lemma new_wal_run d w n old :
  fs_wf w -> calm w -> 0 <= n < 2 ^ 64 -> w_dir w !! LogFileName (DBImpl.dbname_ d) n = None ->
  DBImpl.wal_writer_ d = Some old -> 0 <= WalWriter.fd_ old < w_fresh_fd w ->
  exists w', DBImpl.new_wal (LogFileName (DBImpl.dbname_ d) n) d w =
      Some (DBImpl.set_wal (Some (WalWriter.mk (LogFileName (DBImpl.dbname_ d) n) (w_fresh_fd w) 0)) d, w') /\
    changes [LogFileName (DBImpl.dbname_ d) n] [WalWriter.fd_ old] w w' /\ w_fresh_fd w < w_fresh_fd w' /\
    at_end w' (w_fresh_fd w) (w_fresh_ino w) /\ w_dir w' !! LogFileName (DBImpl.dbname_ d) n = Some (w_fresh_ino w) /\
    file_content w' (w_fresh_ino w) = [].
Proof.
  intros Hw Hc Hn Hnone Hold Hfd. destruct (WalWriter_Open_run w _ Hw Hc Hnone) as (w1 & E & He & Ho).
  rw /DBImpl.new_wal (bind_run _ _ _ _ _ E) Hold /WalWriter.Close. destruct (Z.geb_spec (WalWriter.fd_ old) 0); [|lia].
  eexists. split; [done|]. pose proof (fo_fresh _ _ _ _ Ho) as [Hff _]. split_and!.
  - eapply changes_trans; [eapply changes_mono; [| |by eapply file_opened_changes]; [set_solver..]|]. apply (close_changes _ (WalWriter.fd_ old)).
  - simpl. lia.
  - destruct He as (f & Hf & Hi & Hpos). exists f. simpl. rw lookup_delete_ne; [lia|]. done.
  - apply Ho.
  - apply Ho.
Qed.

(** The database after its memtable has become the immutable one and a log was opened for the new memtable. *)
Record switched (d : DBImpl.t) (m : Memtable) (w : World) (d' : DBImpl.t) (w' : World) : Prop := {
  sw_imm : DBImpl.imm_ d' = Some m;
  sw_name : DBImpl.dbname_ d' = DBImpl.dbname_ d;
  sw_seq : VersionSet.last_sequence_ (DBImpl.versions_ d') = VersionSet.last_sequence_ (DBImpl.versions_ d);
  sw_next : VersionSet.next_file_number_ (DBImpl.versions_ d') = VersionSet.next_file_number_ (DBImpl.versions_ d) + 1;
  sw_first : VersionSet.log_number_ (DBImpl.versions_ d') = VersionSet.log_number_ (DBImpl.versions_ d);
  sw_log : DBImpl.log_file_number_ d' = VersionSet.next_file_number_ (DBImpl.versions_ d);
  sw_changes : exists fds, changes [LogFileName (DBImpl.dbname_ d) (VersionSet.next_file_number_ (DBImpl.versions_ d))] fds w w';
}.

(** Whatever becomes of the immutable memtable that is replaced. *)
Lemma switch_with_run d e R tiss m edits st logs next :
  db_with d e R tiss m edits st logs next -> mem_entries m <> [] -> VersionSet.next_file_number_ (DBImpl.versions_ d) + 1 < 2 ^ 64 ->
  exists d' w', DBImpl.SwitchMemtable d (e_world e) = Some (d', w') /\ switched d m (e_world e) d' w' /\
    db_entries d' tiss NewMemtable = mem_entries m ++ version_entries tiss /\
    forall logs' next' : Prop, logs' -> next' -> db_with d' (mkEnv w' (e_cache e)) (rebase R w') tiss NewMemtable edits st logs' next'.
Proof.
  intros [A1 A2 A3 A4 A5 A6 [A7 A7'] A8 A9 A10 A11 A12 A13 A14 A15 A16 A17 A18 A19 A20 A21] Hne Hnext.
  set (n := VersionSet.next_file_number_ (DBImpl.versions_ d)) in *. destruct A11 as (old & ino & B1 & B2 & B3 & B4 & B5).
  destruct NewMemtable_inv as [_ E0]. pose proof (store_wf _ _ _ A1) as Hw.
  set (d1 := DBImpl.set_log_number n (DBImpl.set_versions (VersionSet.set_next (u64 (n + 1)) (DBImpl.versions_ d))
    (DBImpl.set_mem (Some NewMemtable) (DBImpl.set_imm (DBImpl.mem_ d) d)))).
  destruct (new_wal_run d1 (e_world e) n old Hw (so_calm _ _ _ A1)) as (w' & E & Hch & Hff & He & Hd & Hc);
    [lia|apply A17; lia|done|done|].
  exists (DBImpl.set_wal (Some (WalWriter.mk (LogFileName (DBImpl.dbname_ d) n) (w_fresh_fd (e_world e)) 0)) d1), w'.
  split; [exact E|].
  assert (Hlog : forall k, 0 <= k < n -> LogFileName (DBImpl.dbname_ d) k ∉ [LogFileName (DBImpl.dbname_ d) n]).
  { intros k Hk ?%list_elem_of_singleton. by assert (k = n) by (eapply LogFileName_inj; eauto; lia); lia. }
  change (DBImpl.dbname_ d1) with (DBImpl.dbname_ d) in *.
  split; [split; simpl; eauto; rw u64_small //; lia|]. split; [rw /db_entries /imm_entries /= A7 E0 //|]. intros logs' next' Hlogs' Hnext'.
  split; simpl; auto.
  - eapply store_changes; [done|exact Hch| |].
    + intros p ->%list_elem_of_singleton. eapply layout_not_table; [apply A1|]. apply log_not_table. lia.
    + intros fd ->%list_elem_of_singleton. destruct B4 as (f & Hf & Hfi & _).
      eapply (store_private_fd _ R e _ ino _ f A1); [apply (log_not_table _ (DBImpl.log_file_number_ d)); lia|done..].
  - eapply version_rep_evolves; [apply rebase_evolves|done|done].
  - eapply (manifest_open_advanced (DBImpl.versions_ d)); [split; try done; simpl; rw ?u64_small; lia|].
    destruct A3 as [N1 _]. pose proof A6 as [(mw & mi & D1 & D2 & D3 & D4 & D5 & D6) _ _ _ _ _].
    eapply manifest_open_changes; [done|done|exact Hch| | |].
    + rw N1. intros Hin%list_elem_of_singleton. eapply log_not_manifest; [|symmetry; exact Hin]. lia.
    + rw N1. intros Hin%list_elem_of_singleton. eapply log_not_current; [|symmetry; exact Hin]. lia.
    + intros wr Hwr Hin%list_elem_of_singleton. assert (wr = mw) as -> by congruence.
      eapply (at_end_fd_neq _ _ _ _ _ _ _ Hw D4 B4 D5 B5); [|done]. rw N1. intros Heq.
      eapply log_not_manifest; [|symmetry; exact Heq]. lia.
  - split; [done|apply NewMemtable_ok].
  - rw A7. split; [done|exact Hne].
  - rw E0 /imm_entries /= A7 /=. apply Forall_app in A9 as [H1 [_ H2]%Forall_app]. by apply Forall_app.
  - rw E0 /imm_entries /= A7 /=. split; [by intros ? ? ?%elem_of_nil|]. intros x y Hx Hy. apply (proj1 A10 x y Hx), elem_of_app. by right.
  - eexists _, (w_fresh_ino (e_world e)). split; [done|]. pose proof (fw_fd _ Hw). simpl. split_and!; auto; lia.
  - exists []. split_and!; [|by rw E0|constructor|constructor]. rw /content_at Hd /= Hc //.
  - rw u64_small; lia.
  - intros k ti Hk. rw u64_small; [lia|]. specialize (A16 k ti Hk). lia.
  - intros k. rw u64_small; [lia|]. intros Hk. rw (ch_dir _ _ _ _ Hch); [|apply A17; lia].
    intros Hin%list_elem_of_singleton. assert (k = n) by (eapply LogFileName_inj; eauto; lia). lia.
  - intros k Hk. rw (ch_dir _ _ _ _ Hch); [|by apply A18]. intros Hin%list_elem_of_singleton.
    eapply log_not_manifest; [|symmetry; exact Hin]. lia.
  - destruct A20 as [Ht Hdir]. split.
    + eapply tidy_changes; [done|exact Hch|]. intros p ->%list_elem_of_singleton. apply scan_log. lia.
    + rw (ch_dir _ _ _ _ Hch) //. intros Hin%list_elem_of_singleton. by eapply db_not_log.
Qed.

(** The logs that recovery would replay afterwards. *)
Lemma switched_logs d m w d' w' n :
  switched d m w d' w' -> 0 <= VersionSet.log_number_ (DBImpl.versions_ d) -> 0 <= VersionSet.next_file_number_ (DBImpl.versions_ d) < 2 ^ 64 ->
  live_log d' w' n -> n = VersionSet.next_file_number_ (DBImpl.versions_ d) \/ live_log d w n.
Proof.
  intros [S1 S2 S3 S4 S5 S6 (fds & Hch)] H0 Hn [Hr Hs]. rw S5 in Hr. rw S2 in Hs.
  destruct (decide (n = VersionSet.next_file_number_ (DBImpl.versions_ d))) as [->|Hne]; [by left|right]. split; [lia|].
  rw (ch_dir _ _ _ _ Hch) // in Hs. intros Hin%list_elem_of_singleton. apply Hne. eapply LogFileName_inj; eauto; lia.
Qed.

Lemma SwitchMemtable_run d e R tiss m edits st :
  db_at d e R tiss m edits st -> DBImpl.imm_ d = None -> mem_entries m <> [] ->
  VersionSet.next_file_number_ (DBImpl.versions_ d) + 1 < 2 ^ 64 ->
  exists d' w', DBImpl.SwitchMemtable d (e_world e) = Some (d', w') /\
    db_at d' (mkEnv w' (e_cache e)) (rebase R w') tiss NewMemtable edits st /\ DBImpl.imm_ d' = Some m /\
    VersionSet.last_sequence_ (DBImpl.versions_ d') = VersionSet.last_sequence_ (DBImpl.versions_ d) /\
    VersionSet.next_file_number_ (DBImpl.versions_ d') = VersionSet.next_file_number_ (DBImpl.versions_ d) + 1 /\
    db_entries d' tiss NewMemtable = db_entries d tiss m.
Proof.
  intros Hd Hi Hne Hnext. destruct (switch_with_run d e R tiss m edits st _ _ Hd Hne Hnext) as (d' & w' & E & Hsw & He & Hw).
  pose proof Hsw as [S1 S2 S3 S4 S5 S6 (fds & Hch)]. pose proof (da_numbers _ _ _ _ _ _ _ Hd) as Hnum.
  pose proof (da_logs _ _ _ _ _ _ _ Hd) as Hl. destruct (da_log_next _ _ _ _ _ _ _ Hd) as (N1 & N2 & N3). specialize (N3 Hi). rw Hi in Hl.
  exists d', w'. split; [done|]. split; [|split_and!; auto]. 2:{ by rw He /db_entries /imm_entries Hi. }
  apply Hw; rw S1 S5 S6.
  - exists (DBImpl.log_file_number_ d). split; [lia|]. split.
    + rw S2. eapply log_holds_changes; [by eapply store_wf, Hd|exact Hch| |apply Hd]. intros Hin%list_elem_of_singleton.
      assert (DBImpl.log_file_number_ d = VersionSet.next_file_number_ (DBImpl.versions_ d)) by (eapply LogFileName_inj; eauto; lia). lia.
    + intros n Hn. destruct (switched_logs _ _ _ _ _ _ Hsw ltac:(lia) ltac:(lia) Hn) as [->|Hn']; [by right|left; auto].
  - split; [lia|]. split; [lia|done].
Qed.

(** ** Writing *)

Lemma encode_log_snoc es x : encode_log (es ++ [x]) = encode_log es ++ encode_out x.
Proof. by rw /encode_log fmap_app concat_app /= app_nil_r. Qed.

Lemma write_ok_record key val t s :
  write_ok key val -> t = kTypeValue \/ t = kTypeDeletion -> 0 <= s <= kMaxSequenceNumber -> wal_ok s t key val.
Proof.
  rw /write_ok /kMaxSequenceNumber. change (Z.shiftl 1 56) with (2 ^ 56). intros Hw Ht Hs.
  split; [lia|]. split; [by destruct Ht as [-> | ->]|]. rw /kMaxRecordSize. lia.
Qed.

Section write.
Context (draw : nat -> Z) (d : DBImpl.t) (e : TableEnv) (R : registry) (tiss : list (list table_info)) (m : Memtable)
  (edits : list VersionEdit) (st : VersionSet.recovered).
Context (Hd : db_at d e R tiss m edits st).

(** The writes that are not visible yet have larger sequence numbers. *)
Lemma newer_write key val t n :
  VersionSet.last_sequence_ (DBImpl.versions_ d) < n -> newer_versions [mkEntry key n t val] (imm_entries d ++ version_entries tiss).
Proof.
  intros Hn x y ->%list_elem_of_singleton Hy _. pose proof (da_seqs _ _ _ _ _ _ _ Hd) as Hs.
  apply Forall_app in Hs as [_ Hs]. rewrite -> Forall_forall in Hs. specialize (Hs y Hy). simpl. lia.
Qed.

Lemma ApplyWrite_run key val t :
  usage_of (mem_entries m) < write_buffer_size (DBImpl.options_ d) -> write_ok key val -> t = kTypeValue \/ t = kTypeDeletion ->
  VersionSet.last_sequence_ (DBImpl.versions_ d) < kMaxSequenceNumber ->
  let x := mkEntry key (VersionSet.last_sequence_ (DBImpl.versions_ d) + 1) t val in
  exists d' m' w', DBImpl.ApplyWrite draw t key val d (e_world e) = Some ((Status.OK, d'), w') /\
    db_at d' (mkEnv w' (e_cache e)) (rebase R w') tiss m' edits st /\
    mem_entries m' ≡ₚ x :: mem_entries m /\ imm_entries d' = imm_entries d /\
    VersionSet.last_sequence_ (DBImpl.versions_ d') = seq x /\
    VersionSet.next_file_number_ (DBImpl.versions_ d') = VersionSet.next_file_number_ (DBImpl.versions_ d).
Proof.
  intros Husage Hwr Ht Hlast x. pose proof Hd as [A1 A2 A3 A4 A5 A6 [A7 A7'] A8 A9 A10 A11 A12 A13 A14 A15 A16 A17 A18 A19 A20 A21].
  set (s := VersionSet.last_sequence_ (DBImpl.versions_ d)) in *. pose proof (store_wf _ _ _ A1) as Hw.
  destruct A11 as (wr & ino & B1 & B2 & B3 & B4 & B5).
  assert (Hs : u64 (s + 1) = s + 1) by (apply u64_small; rw /kMaxSequenceNumber in Hlast; change (Z.shiftl 1 56) with (2 ^ 56) in Hlast; lia).
  rw /DBImpl.ApplyWrite /VersionSet.LastSequence -/s Hs (bind_lift _ _ _ _ B1).
  destruct (AppendRecord_run wr (s + 1) t key val (sync (DBImpl.options_ d)) (e_world e) ino) as (ss & wr' & k & w' & E & Rr); [lia|done|done|].
  pose proof (ar_benign _ _ _ _ _ _ _ _ Rr (calm_benign _ (so_calm _ _ _ A1))) as Hok.
  pose proof (ar_ok _ _ _ _ _ _ _ _ Rr Hok) as Hk. pose proof (ar_frame _ _ _ _ _ _ _ _ Rr) as F.
  rw (bind_run _ _ (e_world e) (ss, wr') w'); [by rw /with_fuel (bind_run _ _ _ _ _ E)|]. cbn iota beta zeta. rw Hok. cbn [negb].
  cbn [DBImpl.mem_ DBImpl.set_wal]. rw (bind_lift _ _ _ _ A7).
  apply Forall_app in A9 as [A9 A9']. destruct (Add_run draw m (s + 1) t key val (mo_inv _ A7')) as (m' & Em & Hm' & Hp).
  { eapply Forall_impl; [exact A9|]. intros y Hy [_ Hseq]. simpl in Hy. lia. }
  rw (bind_lift _ _ _ _ Em). eexists _, m', w'. split; [done|]. fold x in Hp.
  assert (Hset : VersionSet.SetLastSequence (s + 1) (DBImpl.versions_ d) = VersionSet.set_seq (s + 1) (DBImpl.versions_ d)).
  { rw /VersionSet.SetLastSequence -/s Z.gtb_ltb (proj2 (Z.ltb_lt _ _)) //. lia. }
  cbn [DBImpl.set_mem DBImpl.set_wal DBImpl.versions_ DBImpl.set_versions]. rw Hset.
  destruct (store_append _ R e _ ino (WalWriter.fd_ wr) w' A1 (log_not_table _ (DBImpl.log_file_number_ d) ltac:(lia)) B5 B4 F) as [Hs' Hch].
  split; [|by split_and!]. split; simpl; auto.
  - eapply version_rep_evolves; [apply rebase_evolves|done|done].
  - eapply (manifest_open_advanced (DBImpl.versions_ d)); [split; try done; simpl; lia|].
    destruct A3 as [N1 _]. pose proof A6 as [(mw & mi & D1 & D2 & D3 & D4 & D5 & D6) _ _ _ _ _].
    eapply manifest_open_changes; [done|done|exact Hch| | |].
    + rw N1. intros Hin%list_elem_of_singleton. eapply log_not_manifest; [|symmetry; exact Hin]. lia.
    + rw N1. intros Hin%list_elem_of_singleton. eapply log_not_current; [|symmetry; exact Hin]. lia.
    + intros w0 Hw0 Hin%list_elem_of_singleton. assert (w0 = mw) as -> by congruence.
      eapply (at_end_fd_neq _ _ _ _ _ _ _ Hw D4 B4 D5 B5); [|done]. rw N1. intros Heq.
      eapply log_not_manifest; [|symmetry; exact Heq]. lia.
  - split; [done|]. destruct A7' as [M1 M2 M3 M4]. destruct A2 as [O1 _ _ _]. split; auto.
    + rewrite -> Hp. rw /= /entry_usage /sizeof_MemtableEntry /sizeof_ptr /x /=. rw -/(usage_of (mem_entries m)). rw /write_ok in Hwr. lia.
    + rewrite -> Hp. constructor; [rw /x /=; lia|done].
    + rewrite -> Hp. constructor; [done|done].
  - rw app_assoc Forall_app. rewrite -> Forall_app in A9'. destruct A9' as [A9i A9v]. split; [|by eapply Forall_impl; [exact A9v|]; simpl; lia].
    apply Forall_app. split; [|by eapply Forall_impl; [exact A9i|]; simpl; lia]. rewrite -> Hp. constructor; [rw /x /=; lia|].
    eapply Forall_impl; [exact A9|]. simpl. lia.
  - split; [|apply A10]. intros a b Ha Hb. rewrite -> Hp in Ha. apply elem_of_cons in Ha as [->|Ha]; [|by apply (proj1 A10)].
    apply (newer_write key val t (s + 1) ltac:(lia)); [by left|done].
  - exists wr', ino. rw (ar_fd _ _ _ _ _ _ _ _ Rr) (ar_size _ _ _ _ _ _ _ _ Rr) (fr_dir _ _ _ _ F). destruct (fr_fresh _ _ _ _ F) as [_ ->].
    split_and!; auto; try lia; try apply u64_range. apply Rr.
  - destruct A12 as (log & L1 & L2 & L3 & L4). exists (log ++ [x]). split.
    { rw /content_at (fr_dir _ _ _ _ F) B5 /= (ar_content _ _ _ _ _ _ _ _ Rr) Hk firstn_all fmap_app /= encode_log_snoc.
      rw /content_at B5 /= in L1. injection L1 as ->. done. }
    split; [rewrite -> Hp, L2; by rewrite -> Permutation_cons_append|]. split.
    + apply StronglySorted_app. split_and!; [|done|repeat constructor]. rewrite -> L2 in A9. rewrite -> Forall_forall in A9.
      intros a b Ha ->%list_elem_of_singleton. specialize (A9 a Ha). rw /x /=. lia.
    + rw fmap_app. apply Forall_app. split; [done|]. constructor; [|constructor]. apply write_ok_record; auto. rw /x /=. lia.
  - rw /live_log /= (fr_dir _ _ _ _ F). destruct (DBImpl.imm_ d); [|exact A13]. destruct A13 as (k0 & H1 & H2 & H3).
    exists k0. split; [done|]. split; [|done]. eapply log_holds_changes; [done|exact Hch| |done].
    intros Hin%list_elem_of_singleton. assert (k0 = DBImpl.log_file_number_ d) by (eapply LogFileName_inj; eauto; lia). lia.
  - rw /kMaxSequenceNumber in Hlast *. lia.
  - by rw (fr_dir _ _ _ _ F).
  - by rw (fr_dir _ _ _ _ F).
  - by rw /tidy (fr_dir _ _ _ _ F).
Qed.
End write.

(** A newer version of a key hides the others, and none of the other keys. *)
Lemma db_map_cons x es key :
  Forall (fun y => seq y < seq x) es -> seq x <= kMaxSequenceNumber ->
  db_map (x :: es) key = if decide (key = user_key x) then (if type x =? kTypeValue then Some (value x) else None) else db_map es key.
Proof.
  intros Hs Hx. rw /db_map newest_cons. destruct (decide (key = user_key x)) as [->|Hne].
  - rw (proj2 (sees_true _ _ _)) //. destruct (newest es (user_key x) kMaxSequenceNumber) as [y|] eqn:Ey; [|done]. simpl.
    apply newest_Some in Ey as (Hy & _). rewrite -> Forall_forall in Hs. specialize (Hs y Hy).
    rw (proj2 (Z.ltb_ge _ _)) //. lia.
  - rw (_ : sees key kMaxSequenceNumber x = false) //. apply not_true_iff_false. intros [? _]%sees_true. congruence.
Qed.

Lemma newest_mem_perm m es x rest key s :
  mem_inv m -> mem_entries m ≡ₚ x :: es -> newest (mem_entries m ++ rest) key s = newest (x :: es ++ rest) key s.
Proof.
  intros Hm Hp. change (x :: es ++ rest) with ((x :: es) ++ rest). rw !newest_app. f_equal. apply newest_perm; [|done].
  by apply entries_sorted_unique, mem_sorted.
Qed.

(** A write waits for the background thread, or it is done. *)
Lemma db_Write_run draw d e R tiss m edits st t key val :
  db_at d e R tiss m edits st -> write_ok key val -> t = kTypeValue \/ t = kTypeDeletion ->
  VersionSet.last_sequence_ (DBImpl.versions_ d) < kMaxSequenceNumber ->
  VersionSet.next_file_number_ (DBImpl.versions_ d) + 1 < 2 ^ 64 ->
  (is_Some (DBImpl.imm_ d) /\ DBImpl.Write draw t key val d (e_world e) = Some (Waits, e_world e)) \/
  exists d' m' w', DBImpl.Write draw t key val d (e_world e) = Some (Returns (Status.OK, d'), w') /\
    db_at d' (mkEnv w' (e_cache e)) (rebase R w') tiss m' edits st /\
    VersionSet.last_sequence_ (DBImpl.versions_ d') = VersionSet.last_sequence_ (DBImpl.versions_ d) + 1 /\
    VersionSet.next_file_number_ (DBImpl.versions_ d') <= VersionSet.next_file_number_ (DBImpl.versions_ d) + 1 /\
    forall k, db_map (db_entries d' tiss m') k =
      if decide (k = key) then (if t =? kTypeValue then Some val else None) else db_map (db_entries d tiss m) k.
Proof.
  intros Hd Hw Ht Hl Hn. pose proof (da_mem _ _ _ _ _ _ _ Hd) as [Hm Hmo]. rw /DBImpl.Write.
  set (x := mkEntry key (VersionSet.last_sequence_ (DBImpl.versions_ d) + 1) t val).
  assert (Hseen : forall m0 m' d0 d', mem_inv m' -> mem_entries m' ≡ₚ x :: mem_entries m0 -> imm_entries d' = imm_entries d0 ->
    db_entries d0 tiss m0 = db_entries d tiss m -> forall k, db_map (db_entries d' tiss m') k =
      if decide (k = key) then (if t =? kTypeValue then Some val else None) else db_map (db_entries d tiss m) k).
  { intros m0 m' d0 d' Hm' Hp Hi He k. rw -(db_map_cons x (db_entries d tiss m) k).
    - eapply Forall_impl; [exact (da_seqs _ _ _ _ _ _ _ Hd)|]. rw /x /=. lia.
    - rw /x /=. lia.
    - rw -He /db_map /db_entries (newest_mem_perm m' (mem_entries m0) x) // Hi //. }
  destruct (Z.ltb_spec (usage_of (mem_entries m)) (write_buffer_size (DBImpl.options_ d))) as [Hlt|Hge].
  - right. rw (bind_run _ _ (e_world e) (Returns d) (e_world e)).
    { rw /DBImpl.MakeRoomForWrite (bind_lift _ _ _ _ Hm) (mem_usage _ Hmo) (proj2 (Z.ltb_lt _ _)) //. }
    destruct (ApplyWrite_run draw d e R tiss m edits st Hd key val t Hlt Hw Ht Hl) as (d' & m' & w' & E & Hd' & Hp & Hi & Hs & Hnx).
    cbn iota. rw (bind_run _ _ _ _ _ E). exists d', m', w'. split; [done|]. split; [done|]. split; [done|]. split; [lia|].
    apply (Hseen m m' d d'); auto. apply Hd'.
  - destruct (DBImpl.imm_ d) as [i|] eqn:Ei.
    { left. split; [eauto|]. rw (bind_run _ _ (e_world e) Waits (e_world e)) //.
      rw /DBImpl.MakeRoomForWrite (bind_lift _ _ _ _ Hm) (mem_usage _ Hmo) (proj2 (Z.ltb_ge _ _)) // Ei //. }
    right. destruct (SwitchMemtable_run d e R tiss m edits st Hd Ei) as (d1 & w1 & E1 & Hd1 & Hi1 & Hs1 & Hn1 & He1); [|done|].
    { intros Hz. rw Hz /= in Hge. pose proof (oo_buffer _ (da_options _ _ _ _ _ _ _ Hd)). lia. }
    rw (bind_run _ _ (e_world e) (Returns d1) w1).
    { rw /DBImpl.MakeRoomForWrite (bind_lift _ _ _ _ Hm) (mem_usage _ Hmo) (proj2 (Z.ltb_ge _ _)) // Ei.
      by rw (bind_run _ _ _ _ _ E1). }
    destruct (ApplyWrite_run draw d1 (mkEnv w1 (e_cache e)) (rebase R w1) tiss NewMemtable edits st Hd1 key val t)
      as (d' & m' & w' & E & Hd' & Hp & Hi & Hs & Hnx); [|done|done|lia|].
    { destruct NewMemtable_inv as [_ ->]. simpl. pose proof (oo_buffer _ (da_options _ _ _ _ _ _ _ Hd1)). lia. }
    cbn iota. rw (bind_run _ _ _ _ _ E). exists d', m', w'. split; [done|]. split; [exact Hd'|]. rw Hs1 in Hp Hs.
    split; [done|]. split; [lia|]. apply (Hseen NewMemtable m' d1 d'); auto. apply Hd'.
Qed.

(** ** Flushing *)

(** The immutable memtable becomes a table; what the database holds stays the same. *)
Lemma flush_with_run d e R tiss m edits st logs next i :
  db_with d e R tiss m edits st logs next -> (forall n, live_log d (e_world e) n -> n <= DBImpl.log_file_number_ d) ->
  DBImpl.imm_ d = Some i -> VersionSet.next_file_number_ (DBImpl.versions_ d) + 2 < 2 ^ 64 ->
  exists d' e' R' tiss' edits' st', DBImpl.FlushImmutable d e = Some (d', e') /\ db_at d' e' R' tiss' m edits' st' /\
    DBImpl.imm_ d' = None /\ db_entries d' tiss' m = db_entries d tiss m /\
    VersionSet.last_sequence_ (DBImpl.versions_ d') = VersionSet.last_sequence_ (DBImpl.versions_ d) /\
    VersionSet.next_file_number_ (DBImpl.versions_ d') <= VersionSet.next_file_number_ (DBImpl.versions_ d) + 2 /\
    DBImpl.shutting_down_ d' = DBImpl.shutting_down_ d.
Proof.
  intros [A1 A2 A3 A4 A5 A6 [A7 A7'] A8 A9 A10 A11 A12 A13 A14 A15 A16 A17 A18 A19 A20 A21] Hlive Hi Hnext.
  rw Hi in A8. destruct A8 as [Hmi Hne]. rw /imm_entries Hi /= in A9 A10. destruct A10 as [A10 A10'].
  destruct A3 as [N1 N2]. pose proof (store_wf _ _ _ A1) as Hw.
  destruct (flush_run d e R tiss i (DBImpl.log_file_number_ d) A1 A2 (conj N1 N2) A4) as
    (edit & d1 & e1 & vs' & ti & R' & e' & edits' & st' & paths & fds & E1 & E2 & (vs1 & ->) & Hs' & Hent & Hv' & Ho' & Hq & Hmx &
     Hlog & Hseq & Hnx & Hn1 & Hn2 & Hrf & Hch & Hp & Hf); auto.
  { left. eauto. } { lia. } { lia. } { rw /kMaxSequenceNumber in A14. change (Z.shiftl 1 56) with (2 ^ 56) in A14. lia. }
  { intros j tj Hj. specialize (A16 j tj Hj). lia. }
  set (db := DBImpl.dbname_ d) in *. set (n := VersionSet.next_file_number_ (DBImpl.versions_ d)) in *.
  exists (DBImpl.set_imm None (DBImpl.set_versions vs' d)), e', R', (push_table ti tiss), edits', st'.
  assert (Htiss : tiss <> []) by (intros ->; by pose proof (vr_levels _ _ _ A4)).
  assert (Hlogp : forall j, 0 <= j < 2 ^ 64 -> LogFileName db j ∉ paths).
  { intros j Hj [E|Hin]%Hp; [|by apply log_not_in_manifest_paths in Hin]. symmetry in E. by eapply (log_not_table db j Hj n); [lia|]. }
  split.
  { rw /DBImpl.FlushImmutable Hi (bind_run _ _ _ _ _ E1). cbn iota beta. change (Status.ok Status.OK) with true. cbn iota.
    rw (bind_run _ _ e1 (DBImpl.set_versions vs' d) e') //. rw (bind_run _ _ _ _ _ E2) //. }
  split.
  2:{ split; [done|]. split; [|split; [exact Hseq|split; [simpl; lia|done]]]. rw /db_entries /imm_entries /= Hi /= push_table_entries // Hent //. }
  pose proof (mo_number _ _ _ _ Ho') as [Hmn Hmn']. pose proof (ch_fresh _ _ _ _ Hch) as [_ Hff].
  split; simpl; fold db; rw /imm_entries /= ?push_table_entries ?Hent ?Hseq ?Hlog ?Hrf //.
  - apply Forall_app. split; [apply Hmi|done].
  - split; [done|]. by intros ? ? ?%elem_of_nil.
  - destruct A11 as (w & ino & B1 & B2 & B3 & B4 & B5). exists w, ino. split; [done|]. fold db in B5.
    pose proof A6 as [(mw & mi & D1 & D2 & D3 & D4 & D5 & D6) _ _ _ _ _]. rw N1 in D5.
    destruct (at_end_changes _ _ _ _ (WalWriter.fd_ w) ino (LogFileName db (DBImpl.log_file_number_ d)) Hch Hw) as (H1 & H2 & H3); auto.
    { lia. } { intros Hin%Hf. destruct Hin as (mw' & Hmw & Heq). assert (mw' = mw) as -> by congruence.
      eapply (at_end_fd_neq _ _ _ _ _ _ _ Hw B4 D4 B5 D5); [|done]. apply log_not_manifest. lia. }
    { apply Hlogp. lia. }
    split_and!; auto; lia.
  - eapply log_holds_changes; [done|exact Hch| |done]. apply Hlogp. lia.
  - intros j [Hj Hsome]. simpl in Hj, Hsome. fold db in Hsome. rw (ch_dir _ _ _ _ Hch) in Hsome; [apply Hlogp; lia|].
    specialize (Hlive j ltac:(split; [lia|done])). lia.
  - lia.
  - intros j tj [[<- <-]|[_ Hj]]%lookup_insert_Some; [lia|]. specialize (A16 j tj Hj). lia.
  - intros j Hj. rw (ch_dir _ _ _ _ Hch); [apply Hlogp; lia|]. apply A17. lia.
  - intros j Hj. rw (ch_dir _ _ _ _ Hch); [|apply A18; pose proof (ms_next _ _ (mo_state _ _ _ _ A6)); lia].
    intros [E|Hin]%Hp; [symmetry in E; by eapply (manifest_not_table db j n); [lia|]|].
    apply manifest_in_manifest_paths in Hin; lia.
  - rw Hq Hseq. eapply Forall_impl; [exact (proj2 (proj1 (Forall_app _ _ _) A9))|]. simpl. lia.
  - destruct A20 as [Ht Hdir]. split.
    + eapply tidy_changes; [done|exact Hch|]. intros p [->|Hin]%Hp; [apply scan_table; lia|by eapply scan_manifest_paths].
    + rw (ch_dir _ _ _ _ Hch) //. intros [E|Hin]%Hp; [by eapply db_not_table|by eapply db_not_in_manifest_paths].
  - lia.
Qed.

Lemma FlushImmutable_run d e R tiss m edits st i :
  db_at d e R tiss m edits st -> DBImpl.imm_ d = Some i -> VersionSet.next_file_number_ (DBImpl.versions_ d) + 2 < 2 ^ 64 ->
  exists d' e' R' tiss' edits' st', DBImpl.FlushImmutable d e = Some (d', e') /\ db_at d' e' R' tiss' m edits' st' /\
    DBImpl.imm_ d' = None /\ db_entries d' tiss' m = db_entries d tiss m /\
    VersionSet.last_sequence_ (DBImpl.versions_ d') = VersionSet.last_sequence_ (DBImpl.versions_ d) /\
    VersionSet.next_file_number_ (DBImpl.versions_ d') <= VersionSet.next_file_number_ (DBImpl.versions_ d) + 2 /\
    DBImpl.shutting_down_ d' = DBImpl.shutting_down_ d.
Proof.
  intros Hd Hi. apply (flush_with_run d e R tiss m edits st _ _ i Hd); [|done]. intros n Hn.
  pose proof (da_logs _ _ _ _ _ _ _ Hd) as Hl. rw Hi in Hl. destruct Hl as (k & Hk & _ & Hlive). destruct (Hlive n Hn); lia.
Qed.
