(* ===== verification/CompactDatabase.v ===== *)
(** * CompactDatabase: a compaction of the database

    [DoCompaction] between the critical sections of [DBImpl]: the invariant of the
    database is kept, and it holds the same map as before. *)

From S2P Require Import Prelude Status Slice Coding Format Posix Env Filename Wal SkipList Entry Kept Iterator Memtable.
From S2P Require Import MergingIterator DBIterator Block BlockCache Options.
From S2P Require Import SSTableBuilder SSTableReader TwoLevelIterator VersionEdit Version Storage VersionSet Manifest NewManifest Compaction DBImpl Directory Flush Outputs MergeLoop.
From S2P Require Import Replacement Compacting CompactionEdit Compacted Database.

#[local] Open Scope Z_scope.

(** ** Versions with different sequence numbers *)

Lemma ids_unique es : NoDup (entry_id <$> es) -> seqs_unique es.
Proof.
  intros Hn x y Hx Hy Hc. apply CompareInternalKey_eq in Hc as [E1 E2].
  apply list_elem_of_lookup_1 in Hx as [i Hi], Hy as [j Hj]. assert (i = j) as ->; [|congruence].
  eapply (NoDup_lookup (entry_id <$> es) i j (entry_id x)); [done|..]; rw list_lookup_fmap ?Hi ?Hj //=. rw /entry_id E1 E2 //.
Qed.

Lemma ids_app a b : newer_versions a b -> NoDup (entry_id <$> a) -> NoDup (entry_id <$> b) -> NoDup (entry_id <$> a ++ b).
Proof.
  intros Hn Ha Hb. rw fmap_app. apply NoDup_app. split; [done|]. split; [|done].
  intros k (x & -> & Hx)%list_elem_of_fmap (y & E & Hy)%list_elem_of_fmap. injection E as E1 E2. specialize (Hn x y Hx Hy E1). lia.
Qed.

Lemma version_ids R e v tiss : env_inv R e -> version_rep R v tiss -> NoDup (entry_id <$> version_entries tiss).
Proof.
  intros He Hv. pose proof (version_tables_ok R e v tiss He Hv) as Hok. apply tables_ids; [apply Hv|]. apply Forall_concat in Hok.
  eapply Forall_impl; [exact Hok|]. intros ti Ht. apply Ht.
Qed.

Lemma db_ids d e R tiss m edits st : db_at d e R tiss m edits st -> NoDup (entry_id <$> db_entries d tiss m).
Proof.
  intros Hd. destruct (da_newer _ _ _ _ _ _ _ Hd) as [N1 N2]. apply ids_app; [done| |apply ids_app; [done| |]].
  - apply entries_sorted_ids, mem_sorted, (da_mem _ _ _ _ _ _ _ Hd).
  - rw /imm_entries. pose proof (da_imm _ _ _ _ _ _ _ Hd) as Hi. destruct (DBImpl.imm_ d) as [i|]; [|constructor]. apply entries_sorted_ids, mem_sorted, Hi.
  - eapply version_ids; [apply (da_store _ _ _ _ _ _ _ Hd)|apply (da_version _ _ _ _ _ _ _ Hd)].
Qed.

Lemma db_unique d e R tiss m edits st : db_at d e R tiss m edits st -> seqs_unique (db_entries d tiss m).
Proof. intros Hd. by eapply ids_unique, db_ids. Qed.

(** Compacting the tables below newer versions changes no answer. *)
Lemma compacted_map newer old new k :
  compacted old new -> newer_versions newer old -> seqs_unique (newer ++ old) -> Forall (fun x => seq x <= kMaxSequenceNumber) (newer ++ old) ->
  db_map (newer ++ new) k = db_map (newer ++ old) k.
Proof.
  intros (base & I & T & Ho & Hn & Hs & Hd) Hnew Hu Hq.
  change (visible (newest (newer ++ new) k kMaxSequenceNumber) = visible (newest (newer ++ old) k kMaxSequenceNumber)).
  apply (compacted_answers base (merged I) I (newer ++ T)); auto.
  - apply merged_perm.
  - rewrite -> Ho. solve_Permutation.
  - rewrite -> Hn. solve_Permutation.
  - intros x y Hx [Hy|Hy]%elem_of_app E Hb; [|by apply Hd]. apply Hnew; [done| |done]. rewrite -> Ho. apply elem_of_app. by left.
Qed.

(** ** The compaction *)

(** Inputs of up to 30 MiB, and file numbers for the outputs. *)
Definition compaction_room (d : DBImpl.t) (c : Compaction.t) : Prop :=
  let ib := input_bytes (Compaction.inputs0_ c ++ Compaction.inputs1_ c) in
  ib <= 30 * 2 ^ 20 /\ VersionSet.next_file_number_ (DBImpl.versions_ d) + ib + 2 < 2 ^ 64.

#[global] Instance compaction_room_dec d c : Decision (compaction_room d c) := and_dec _ _.

Lemma db_compaction_run d e R tiss m edits st c :
  db_at d e R tiss m edits st -> Compaction.PickCompaction (DBImpl.options_ d) (DBImpl.versions_ d) = Some (Some c) -> compaction_room d c ->
  exists vs' e' R' tiss' edits' st',
    Compaction.DoCompaction (DBImpl.options_ d) (DBImpl.dbname_ d) (DBImpl.versions_ d) c true e = Some ((Status.OK, vs'), e') /\
    db_at (DBImpl.set_versions vs' d) e' R' tiss' m edits' st' /\
    Forall (fun f => w_dir (e_world e') !! TableFileName (DBImpl.dbname_ d) (number f) = None) (Compaction.inputs0_ c ++ Compaction.inputs1_ c) /\
    (level_weight tiss' < level_weight tiss)%nat /\
    forall k, db_map (db_entries (DBImpl.set_versions vs' d) tiss' m) k = db_map (db_entries d tiss m) k.
Proof.
  intros Hd Hpick [Hb Hr]. pose proof (db_unique _ _ _ _ _ _ _ Hd) as Hu.
  pose proof Hd as [A1 A2 A3 A4 A5 A6 A7 A8 A9 A10 A11 A12 A13 A14 A15 A16 A17 A18 A19 A20 A21].
  pose proof (store_wf _ _ _ A1) as Hw.
  destruct (DoCompaction_run (DBImpl.options_ d) (DBImpl.dbname_ d) true (DBImpl.versions_ d) c R e tiss edits st A1 A2 A3 A4 A5 A6 Hpick) as
    (vs' & e' & R' & tiss' & edits' & st' & paths & fds & E & B1 & B2 & [B3 Bw] & B4 & B5 & B6 & B7 & B8 & B9 & B10 & B11 & B12 & B13 & B14 & B15 & B16 & B17); auto.
  { rw /kMaxSequenceNumber in A14. change (Z.shiftl 1 56) with (2 ^ 56) in A14. lia. } { lia. }
  set (db := DBImpl.dbname_ d) in *. exists vs', e', R', tiss', edits', st'. split; [exact E|]. destruct A3 as [N1 N2].
  assert (Hsub : forall x, x ∈ version_entries tiss' -> x ∈ version_entries tiss) by (intros x; by apply compacted_elem).
  assert (Hlogp : forall j, 0 <= j < 2 ^ 64 -> LogFileName db j ∉ paths).
  { intros j Hj [(k & Hk & E')|E']%B14; [symmetry in E'; by eapply (log_not_table db j Hj k)|]. revert E'. by apply log_not_manifest. }
  pose proof A6 as [(mw & mi & D1 & D2 & D3 & D4 & D5 & D6) Hmn _ _ _ _]. rw N1 in D5. pose proof (ch_fresh _ _ _ _ B13) as [_ Hff].
  split.
  2:{ split; [done|]. split; [done|]. intros k. rw /db_entries /imm_entries /= !app_assoc. apply compacted_map; [done| |by rw -app_assoc|rw -app_assoc].
      - destruct A10 as [M1 M2]. intros x y [Hx|Hx]%elem_of_app Hy; [|by apply M2]. apply M1; [done|]. apply elem_of_app. by right.
      - eapply Forall_impl; [exact A9|]. intros x Hx. simpl in Hx. lia. }
  split; simpl; fold db; rw ?B8 ?B9 //.
  - rewrite -> Forall_forall in A5. apply Forall_forall. auto.
  - rw /imm_entries /=. rewrite -> !Forall_app in A9. destruct A9 as (H1 & H2 & H3). rw !Forall_app. split; [done|]. split; [done|].
    rewrite -> Forall_forall in H3. apply Forall_forall. auto.
  - rw /imm_entries /=. destruct A10 as [H1 H2]. split; [|intros x y Hx Hy; by apply H2; auto].
    intros x y Hx [Hy|Hy]%elem_of_app; apply H1; auto; apply elem_of_app; auto.
  - destruct A11 as (w & ino & C1 & C2 & C3 & C4 & C5). exists w, ino. split; [done|]. fold db in C5.
    destruct (at_end_changes _ _ _ _ (WalWriter.fd_ w) ino (LogFileName db (DBImpl.log_file_number_ d)) B13 Hw) as (H1 & H2 & H3); auto.
    { lia. } { intros Hin%B15. destruct Hin as (mw' & Hmw & Heq). assert (mw' = mw) as -> by congruence.
      eapply (at_end_fd_neq _ _ _ _ _ _ _ Hw C4 D4 C5 D5); [|done]. apply log_not_manifest. lia. }
    { apply Hlogp. lia. }
    split_and!; auto; lia.
  - eapply log_holds_changes; [done|exact B13| |done]. apply Hlogp. lia.
  - assert (Hl : forall n, live_log (DBImpl.set_versions vs' d) (e_world e') n -> live_log d (e_world e) n).
    { intros n [Hn Hsome]. simpl in Hn, Hsome. fold db in Hsome. rw B8 in Hn. split; [done|]. fold db. rw (ch_dir _ _ _ _ B13) // in Hsome. apply Hlogp. lia. }
    destruct (DBImpl.imm_ d); [|by auto]. destruct A13 as (k & Hk & Hh & Hlive). exists k. split; [done|]. split; [|auto].
    eapply log_holds_changes; [done|exact B13| |done]. apply Hlogp. lia.
  - lia.
  - intros n Hn. rw (ch_dir _ _ _ _ B13); [apply Hlogp; lia|]. apply A17. lia.
  - intros n Hn. rw (ch_dir _ _ _ _ B13); [|apply A18; pose proof (ms_next _ _ (mo_state _ _ _ _ A6)); lia].
    intros [(k & Hk & E')|E']%B14; [symmetry in E'; by eapply (manifest_not_table db n k)|]. rw B16 in E'.
    pose proof (ms_next _ _ (mo_state _ _ _ _ A6)). destruct Hmn as [Hm1 Hm2]. apply ManifestFileName_inj in E'; lia.
  - rw B5 B9. rewrite -> !Forall_app in A9. destruct A9 as (_ & _ & H3). rewrite -> Forall_forall in H3. apply Forall_forall. intros x Hx%Hsub. apply (H3 x Hx).
  - destruct A20 as [Ht Hdir]. split.
    + eapply tidy_changes; [done|exact B13|]. intros p [(k & Hk & ->)| ->]%B14; [by apply scan_table|]. eapply scan_manifest_paths; [|by left]. rw B16. lia.
    + rw (ch_dir _ _ _ _ B13) //. intros [(k & Hk & E')|E']%B14; [by eapply db_not_table|]. eapply (db_not_in_manifest_paths db (VersionSet.manifest_file_number_ vs')). apply elem_of_cons. by left.
  - lia.
Qed.

(** ** The choice is always defined *)

Lemma Files_level v lvl : length (Version.files_ v) = Z.to_nat kNumLevels -> 0 <= lvl < kNumLevels -> exists fs, Version.Files v lvl = Some fs.
Proof.
  intros Hl Hlvl. rw /Version.Files (proj2 (Z.ltb_ge _ _)); [lia|]. destruct (lookup_lt_is_Some_2 (Version.files_ v) (Z.to_nat lvl)) as [fs Hfs]; [lia|eauto].
Qed.

Lemma pick_level_total v n lvl :
  length (Version.files_ v) = Z.to_nat kNumLevels -> 1 <= lvl -> lvl + Z.of_nat n < kNumLevels -> exists r, Compaction.pick_level n lvl v = Some r.
Proof.
  intros Hl. revert lvl; induction n as [|n IH]; intros lvl H1 H2; cbn [Compaction.pick_level]; [eauto|].
  destruct (Files_level v lvl Hl ltac:(lia)) as [fs Hfs]. rw /Version.LevelBytes Hfs. cbn [mbind option_bind].
  destruct fs as [|f fs]; [apply IH; lia|]. destruct (_ >? _); [|apply IH; lia].
  destruct (Files_level v (lvl + 1) Hl ltac:(lia)) as [gs ->]. cbn [mbind option_bind]. eauto.
Qed.

Lemma PickCompaction_total options vs :
  length (Version.files_ (VersionSet.current_ vs)) = Z.to_nat kNumLevels -> exists r, Compaction.PickCompaction options vs = Some r.
Proof.
  intros Hl. rw /Compaction.PickCompaction /Version.NumLevelFiles. destruct (Files_level _ 0 Hl ltac:(done)) as [fs0 ->]. cbn [mbind option_bind].
  destruct (_ >=? _); [|by apply pick_level_total]. destruct fs0; [eauto|]. destruct (Files_level _ 1 Hl ltac:(done)) as [fs1 ->]. cbn [mbind option_bind]. eauto.
Qed.

(** A compaction fits if one is due. *)
Definition compaction_fits (d : DBImpl.t) : Prop :=
  match Compaction.PickCompaction (DBImpl.options_ d) (DBImpl.versions_ d) with Some (Some c) => compaction_room d c | _ => True end.

#[global] Instance compaction_fits_dec d : Decision (compaction_fits d).
Proof. rw /compaction_fits. destruct (Compaction.PickCompaction _ _) as [[c|]|]; apply _. Defined.

Lemma db_levels d e R tiss m edits st :
  db_at d e R tiss m edits st -> length (Version.files_ (VersionSet.current_ (DBImpl.versions_ d))) = Z.to_nat kNumLevels.
Proof. intros Hd. pose proof (da_version _ _ _ _ _ _ _ Hd) as [V1 V2 _ _]. by rw (Forall2_length _ _ _ V1). Qed.

(** The choice and the compaction, as the background thread and [CompactRange] run them. *)
Lemma db_major_run d e R tiss m edits st :
  db_at d e R tiss m edits st -> compaction_fits d ->
  Compaction.PickCompaction (DBImpl.options_ d) (DBImpl.versions_ d) = Some None \/
  exists c vs' e' R' tiss' edits' st', Compaction.PickCompaction (DBImpl.options_ d) (DBImpl.versions_ d) = Some (Some c) /\
    Compaction.DoCompaction (DBImpl.options_ d) (DBImpl.dbname_ d) (DBImpl.versions_ d) c true e = Some ((Status.OK, vs'), e') /\
    db_at (DBImpl.set_versions vs' d) e' R' tiss' m edits' st' /\ (level_weight tiss' < level_weight tiss)%nat /\
    forall k, db_map (db_entries (DBImpl.set_versions vs' d) tiss' m) k = db_map (db_entries d tiss m) k.
Proof.
  intros Hd Hfit. destruct (PickCompaction_total (DBImpl.options_ d) _ (db_levels _ _ _ _ _ _ _ Hd)) as [[c|] Hp]; [right|by left].
  rw /compaction_fits Hp in Hfit. destruct (db_compaction_run d e R tiss m edits st c Hd Hp Hfit) as (vs' & e' & R' & tiss' & edits' & st' & E & Hd' & _ & Hw & Hm).
  by exists c, vs', e', R', tiss', edits', st'.
Qed.
