(* ===== verification/FullScan.v ===== *)
(** * FullScan: iterating over the database

    [NewIterator] merges the iterators of the memtables and of all tables; the database
    iterator over them shows the rows of the map, in order. *)

From S2P Require Import Prelude Status Slice Coding Format Posix Env Filename Wal SkipList Entry Kept Iterator Memtable.
From S2P Require Import MergingIterator DBIterator Block BlockCache Options.
From S2P Require Import SSTableBuilder SSTableReader TwoLevelIterator VersionEdit Version Storage VersionSet Manifest NewManifest Compaction DBImpl Directory Flush MergeLoop.
From S2P Require Import Database CompactDatabase.

#[local] Open Scope Z_scope.

(** ** The version keeps its files *)

Lemma AddFileIterators_forget opts db cache fs e its fs' e' :
  Version.AddFileIterators opts db cache fs e = Some ((its, fs'), e') -> forget_files fs' = forget_files fs.
Proof.
  revert its fs' e e'; induction fs as [|f fs IH]; intros its fs' e e'; cbn [Version.AddFileIterators]; [by intros [= _ <- _]|].
  intros ([st f1] & e1 & E1%OpenReader_forget & E)%bind_inv. apply bind_inv in E as (it & e2 & _ & E).
  apply bind_inv in E as ([its1 fs1] & e3 & E3%IH & E). injection E as _ <- _. by rw !fmap_cons E1 E3.
Qed.

Lemma AddLevelIterators_forget opts db cache levels e its levels' e' :
  Version.AddLevelIterators opts db cache levels e = Some ((its, levels'), e') -> (forget_files <$> levels') = (forget_files <$> levels).
Proof.
  revert its levels' e e'; induction levels as [|fs levels IH]; intros its levels' e e'; cbn [Version.AddLevelIterators]; [by intros [= _ <- _]|].
  intros ([its1 fs1] & e1 & E1%AddFileIterators_forget & E)%bind_inv. apply bind_inv in E as ([its2 lv2] & e2 & E2%IH & E).
  injection E as _ <- _. by rw !fmap_cons E1 E2.
Qed.

Lemma AddIterators_forget v opts cache e its v' e' :
  Version.AddIterators v opts cache e = Some ((its, v'), e') ->
  Version.dbname_ v' = Version.dbname_ v /\ (forget_files <$> Version.files_ v') = (forget_files <$> Version.files_ v).
Proof.
  rw /Version.AddIterators. intros ([its1 lv] & e1 & E1%AddLevelIterators_forget & E)%bind_inv. injection E as _ <- _. by split.
Qed.

(** ** Iterators that have not been positioned *)

Lemma merging_fresh {St I : Type} `{HI : It.Internal St I} (inv : St -> Prop) (rep : cursor_rep I) `{!ForwardIterator St I inv rep} (cs : list I)
    (ess : list (list MemtableEntry)) es :
  Forall2 (fun c l => rep c l (length l)) cs ess -> entries_sorted es -> es ≡ₚ concat ess -> merging_rep rep (NewMerging cs) es (length es).
Proof.
  intros Hc Hs Hp. exists ((fun l => (l, length l)) <$> ess). split; [|by rw lookup_ge_None_2].
  split; [by apply Forall2_fmap_r|done| | |done].
  - by rw -list_fmap_compose list_fmap_id.
  - apply Forall_fmap, Forall_forall. intros l Hl. split; simpl.
    + rw !firstn_all. intros x Hx. rewrite -> Hp. apply list_elem_of_In, in_concat. exists l. by rw -!list_elem_of_In.
    + rw drop_all. by intros x ?%elem_of_nil.
Qed.

Abbreviation child_rep R := (sum_rep mem_rep (two_rep R)).

(** ** NewIterator *)

Section new_iterator.
Context (d : DBImpl.t) (e : TableEnv) (R : registry) (tiss : list (list table_info)) (m : Memtable)
  (edits : list VersionEdit) (st : VersionSet.recovered) (Hd : db_at d e R tiss m edits st).
Let es := merged (db_entries d tiss m).

Lemma all_sorted : entries_sorted es.
Proof. apply merged_sorted. by eapply db_ids. Qed.

Lemma NewIterator_run :
  exists mi d' R' e', DBImpl.NewIterator d e =
      Some ((NewDBIterator (Some mi) (VersionSet.last_sequence_ (DBImpl.versions_ d)), d'), e') /\
    db_at d' e' R' tiss m edits st /\ db_entries d' tiss m = db_entries d tiss m /\ merging_rep (child_rep R') mi es (length es).
Proof.
  pose proof Hd as [A1 A2 A3 A4 A5 A6 [A7 A7'] A8 A9 A10 A11 A12 A13 A14 A15 A16 A17 A18 A19 A20 A21].
  destruct (store_grows _ R e _ _ A1 (AddIterators_run R _ tiss (DBImpl.options_ d) true (store_quiet _ _ _ A1) A4)) as
    ([its v'] & R1 & e' & E & X & Hs' & K & Hits & Hv'). simpl in Hits, Hv'. destruct (AddIterators_forget _ _ _ _ _ _ _ E) as [Hdb Hfg].
  set (cs := inl (NewIterator m) :: (match DBImpl.imm_ d with Some imm => [inl (NewIterator imm)] | None => [] end) ++ (inr <$> its) : list (MemTableIterator + TwoLevelIterator.t)).
  exists (NewMerging cs), (DBImpl.set_versions (VersionSet.set_current v' (DBImpl.versions_ d)) d), (rebase R1 (e_world e')), e'. split.
  { rw /DBImpl.NewIterator (bind_lift _ _ _ _ A7) (bind_run _ _ _ _ _ E) //. }
  split; [|split; [done|]].
  { eapply db_at_advanced; [done|]. split; auto. rw Hdb. apply A3. }
  set (ess := mem_entries m :: (match DBImpl.imm_ d with Some imm => [mem_entries imm] | None => [] end) ++ (ti_entries <$> concat tiss)).
  apply (merging_fresh (env_inv (rebase R1 (e_world e'))) _ _ ess); [|apply all_sorted|].
  - constructor; [by apply fresh_mem_rep|]. apply Forall2_app.
    + destruct (DBImpl.imm_ d) as [i|]; [|constructor]. constructor; [|constructor]. apply fresh_mem_rep, A8.
    + apply Forall2_fmap. eapply Forall2_impl; [exact Hits|]. intros it ti Hit. simpl. eapply two_rep_evolves; [apply rebase_evolves|exact Hit].
  - rw /es. rewrite -> merged_perm. rw /db_entries /ess /imm_entries /version_entries. cbn [concat]. apply Permutation_app_head.
    rw concat_app. apply Permutation_app_tail. destruct (DBImpl.imm_ d); simpl; by rw ?app_nil_r.
Qed.

(** The rows of the iterator are those of the map. *)
Lemma rows_of_map k v :
  (k, v) ∈ user_view es (VersionSet.last_sequence_ (DBImpl.versions_ d)) <-> db_map (db_entries d tiss m) k = Some v.
Proof.
  pose proof Hd as [_ _ _ _ _ _ _ _ A9 _ _ _ _ A14 _ _ _ _ _ _ _].
  rw elem_of_user_view /db_map (newest_perm es (db_entries d tiss m)); [by apply entries_sorted_unique, all_sorted|apply merged_perm|].
  rw (newest_seqs _ k (VersionSet.last_sequence_ (DBImpl.versions_ d)) kMaxSequenceNumber).
  { eapply Forall_impl; [exact A9|]. simpl. lia. } { eapply Forall_impl; [exact A9|]. simpl. lia. }
  destruct (newest _ k _) as [x|]; simpl; [|by split; [intros (? & ? & _)|]]. split.
  - intros (y & [= <-] & -> & ->). done.
  - destruct (Z.eqb_spec (type x) kTypeValue) as [Et|]; [|done]. intros [= <-]. eauto.
Qed.

Lemma db_types : Forall known_type (db_entries d tiss m).
Proof.
  pose proof Hd as [_ _ _ _ A5 _ [_ A7] A8 _ _ _ _ _ _ _ _ _ _ _ _ _]. rw /db_entries !Forall_app. split_and!.
  - apply stored_types, A7.
  - rw /imm_entries. destruct (DBImpl.imm_ d) as [i|]; [|constructor]. apply stored_types, A8.
  - by apply stored_types.
Qed.

Lemma rows_sorted s : StronglySorted row_lt (user_view es s).
Proof. apply view_sorted, all_sorted. Qed.
End new_iterator.

(** ** Scanning *)

(** [for (it->Seek(target); it->Valid(); it->Next())], collecting the rows. *)
Definition scan_from {St I : Type} `{HI : It.Internal St I} (fuel : nat) (target : bytes) (d : DBIterator I) : SM St (list (bytes * bytes)) :=
  d ← db_Seek fuel target d; collect_rows fuel fuel d.

Lemma scan_from_run {St I : Type} `{HI : It.Internal St I} (inv : St -> Prop) (rep : cursor_rep I) `{!ForwardIterator St I inv rep} fuel it es i s t :
  rep it es i -> Forall known_type es -> (length es < fuel)%nat ->
  runs inv (scan_from fuel t (NewDBIterator (Some it) s)) (fun rows => rows = drop (row_pos (user_view es s) t) (user_view es s)).
Proof.
  intros Hr Ht Hf. pose proof (NewDBIterator_rep rep it es i s Hr Ht) as Hd.
  eapply runs_bind; [by apply (db_Seek_run inv rep fuel _ es s _ t Hd)|]. intros d Hd'.
  apply (collect_rows_run inv rep fuel fuel d es s); auto; [by apply db_fresh_rep|]. pose proof (view_length es s). lia.
Qed.
