(* ===== verification/Recovery.v ===== *)
(** * Recovery: opening a database

    What [DB::Open] makes of a directory: a new database when there is none, and after a
    crash the database as it was.  The manifest gives the tables, and the logs that are
    not older than its log number are replayed, each into a table of level 0. *)

From S2P Require Import Prelude Status Slice Coding Format Posix Env Filename Wal SkipList Entry Iterator Memtable.
From S2P Require Import MergingIterator DBIterator Block BlockCache Options.
From S2P Require Import SSTableBuilder SSTableReader TwoLevelIterator VersionEdit Version Storage VersionSet Manifest NewManifest.
From S2P Require Import Compaction DBImpl Directory Flush Database.

#[local] Open Scope Z_scope.

(** ** Replaying a log *)

(** The largest sequence number of a log, if it is larger than [s]. *)
Definition max_seq (s : Z) (log : list MemtableEntry) : Z := foldl (fun s x => if seq x >? s then seq x else s) s log.

Lemma max_seq_le s log : s <= max_seq s log /\ Forall (fun x => seq x <= max_seq s log) log.
Proof.
  rw /max_seq. revert s; induction log as [|x log IH]; intros s; simpl; [split; [lia|constructor]|].
  destruct (IH (if seq x >? s then seq x else s)) as [H1 H2]. rw Z.gtb_ltb in H1 H2 *.
  split; [|constructor; [|done]]; revert H1; case_bool; lia.
Qed.

Lemma max_seq_bound s log b : s <= b -> Forall (fun x => seq x <= b) log -> max_seq s log <= b.
Proof.
  rw /max_seq. revert s; induction log as [|x log IH]; intros s Hs; simpl; [done|]. intros [Hx Hl]%Forall_cons.
  apply IH; [|done]. rw Z.gtb_ltb. case_bool; lia.
Qed.

Lemma replay_log_records draw log fuel r o m s ino pos w tail :
  Forall out_ok (out_of <$> log) -> log_ordered log -> Forall (fun y => Forall (fun x => seq y < seq x) log) (mem_entries m) ->
  mem_inv m -> reader_at w r ino pos -> benign w -> rest_of w ino pos = encode_log (out_of <$> log) ++ tail ->
  exists w' pos' o' m', reader_at w' r ino pos' /\ benign w' /\ rest_of w' ino pos' = tail /\
    read_frame (WalReader.fd_ r) ino w w' /\ mem_inv m' /\ mem_entries m' ≡ₚ log ++ mem_entries m /\
    DBImpl.replay_log draw (length log + fuel) r o m s w = DBImpl.replay_log draw fuel r o' m' (max_seq s log) w'.
Proof.
  revert o m s pos w; induction log as [|x log IH]; intros o m s pos w Hok Hord Hm Hinv HR Hb Hr.
  { exists w, pos, o, m. split_and!; auto; try apply HR. apply read_frame_refl. }
  rw fmap_cons in Hok Hr. apply Forall_cons in Hok as [Ho Hes]. apply StronglySorted_inv in Hord as [Hord Hx].
  rw /encode_log /= -app_assoc in Hr.
  destruct (ReadRecord_record _ _ _ _ true o _ _ _ _ _ HR Hb Ho Hr) as (w1 & pos1 & E & F & Hb1 & HR1 & Hr1).
  destruct (Add_run draw m (seq x) (type x) (user_key x) (value x) Hinv) as (m1 & Em & Hinv1 & Hp1).
  { eapply Forall_impl; [exact Hm|]. intros y Hy [_ Hs]. apply Forall_cons in Hy as [Hy _]. lia. }
  assert (Hp1' : mem_entries m1 ≡ₚ x :: mem_entries m) by (rewrite -> Hp1; by destruct x).
  destruct (IH (out_of x) m1 (if seq x >? s then seq x else s) pos1 w1) as (w2 & pos2 & o2 & m2 & HR2 & Hb2 & Hr2 & F2 & I2 & P2 & E2); auto.
  { rewrite -> Hp1'. constructor; [done|]. eapply Forall_impl; [exact Hm|]. intros y Hy. by apply Forall_cons in Hy as [_ ?]. }
  exists w2, pos2, o2, m2. split_and!; auto; [by eapply read_frame_trans|..].
  { rewrite -> P2, Hp1'. simpl. by rewrite -> Permutation_middle. }
  cbn [length Nat.add DBImpl.replay_log]. rw (bind_run _ _ w (Status.OK, out_of x) w1).
  { rw /with_fuel (bind_run _ _ _ _ _ E). done. }
  cbn iota beta. change (Status.ok Status.OK) with true. cbn iota. by rw (bind_lift _ _ _ _ Em).
Qed.

(** A log and a torn record at its end: the log is what is replayed. *)
Lemma replay_log_torn draw log e k fuel r o s ino w :
  Forall out_ok (out_of <$> log) -> log_ordered log -> out_ok e -> (k < length (encode_out e))%nat -> (length log < fuel)%nat ->
  reader_at w r ino 0 -> benign w -> file_content w ino = encode_log (out_of <$> log) ++ take k (encode_out e) ->
  exists m w', DBImpl.replay_log draw fuel r o NewMemtable s w = Some ((m, max_seq s log), w') /\
    read_frame (WalReader.fd_ r) ino w w' /\ mem_inv m /\ mem_entries m ≡ₚ log.
Proof.
  intros Hok Hord He Hk Hf HR Hb Hc. destruct NewMemtable_inv as [Hi E0].
  destruct (replay_log_records draw log (fuel - length log) r o NewMemtable s ino 0 w (take k (encode_out e)) Hok Hord)
    as (w1 & pos1 & o1 & m & HR1 & Hb1 & Hr1 & F1 & I1 & P1 & E1); auto.
  rw -Nat.le_add_sub in E1; [lia|]. rw E1. destruct (fuel - length log)%nat as [|n] eqn:En; [lia|].
  destruct (ReadRecord_torn _ _ _ _ true o1 _ _ _ _ _ HR1 Hb1 He Hk Hr1) as (st & w2 & E2 & F2 & Hs).
  cbn [DBImpl.replay_log]. rw (bind_run _ _ w1 (st, o1) w2).
  { rw /with_fuel (bind_run _ _ _ _ _ E2). done. }
  cbn iota beta. rw /Status.ok Hs /=. exists m, w2. split; [done|]. split; [by eapply read_frame_trans|]. split; [done|].
  by rw E0 app_nil_r in P1.
Qed.

(** A log on disk, perhaps with a torn record at its end. *)
Definition log_shows (db : bytes) (w : World) (n : Z) (log : list MemtableEntry) : Prop :=
  log_ordered log /\ Forall out_ok (out_of <$> log) /\ exists o k, out_ok o /\ (k < length (encode_out o))%nat /\
    content_at w (LogFileName db n) = Some (encode_log (out_of <$> log) ++ take k (encode_out o)).

Lemma encode_log_length log : (length log <= length (encode_log (out_of <$> log)))%nat.
Proof.
  induction log as [|x log IH]; [simpl; lia|]. rw fmap_cons /encode_log fmap_cons. cbn [concat]. rw length_app.
  pose proof (length_encode_out (out_of x)). rw /encode_log in IH. simpl. lia.
Qed.

(** Opening a log and replaying it. *)
Lemma open_log_run draw db n log s w :
  fs_wf w -> calm w -> log_shows db w n log ->
  exists r ino m w1 w2, WalReader.Open (LogFileName db n) w = Some (r, w1) /\
    DBImpl.replay_log draw (VersionSet.manifest_fuel r w1) r (WalReader.mkOut 0 kTypeValue [] []) NewMemtable s w1
      = Some ((m, max_seq s log), w2) /\
    mem_inv m /\ mem_entries m ≡ₚ log /\ files_kept w w2 /\ WalReader.fd_ r = w_fresh_fd w /\ w_fresh_fd w < w_fresh_fd w2 /\
    w_dir w !! LogFileName db n = Some ino /\ exists f, w_fds w2 !! w_fresh_fd w = Some f /\ f_ino f = ino.
Proof.
  intros Hw Hc (Hord & Hok & o & k & Ho & Hk & Hcont). pose proof (fw_fd _ Hw) as Hfd.
  destruct (content_at_Some _ _ _ Hcont) as (ino & Hd & Hci).
  set (r := WalReader.mk (LogFileName db n) (w_fresh_fd w)). set (w1 := open_ro ino w).
  assert (Hf1 : w_fds w1 !! w_fresh_fd w = Some (mkOpenFile ino 0 false)) by rw /w1 /= lookup_insert_eq //.
  assert (Hc1 : file_content w1 ino = encode_log (out_of <$> log) ++ take k (encode_out o)) by exact Hci.
  assert (HR : reader_at w1 r ino 0).
  { split; [done|]. split; [by eexists|]. pose proof (size_of_nonneg (file_content w1 ino)). lia. }
  destruct (replay_log_torn draw log o k (VersionSet.manifest_fuel r w1) r (WalReader.mkOut 0 kTypeValue [] []) s ino w1)
    as (m & w2 & E & F & Hm & Hp); auto.
  { rw /VersionSet.manifest_fuel /= Hf1 /= Hc1 length_app. pose proof (encode_log_length log). lia. }
  { by apply calm_benign. }
  exists r, ino, m, w1, w2. split.
  { rw /WalReader.Open (bind_run _ _ w (w_fresh_fd w) w1); [|done]. by rw /sys (open_ro_run _ _ _ (proj2 Hc) Hd). }
  split; [exact E|]. split; [done|]. split; [done|]. split.
  { eapply (only_fd_opened ino w w); [apply files_kept_refl|done|]. by eapply read_frame_only_fd. }
  split; [done|]. destruct F as (F & _ & Ff). split.
  { destruct (fr_fresh _ _ _ _ F) as [_ ->]. rw /w1 /=. lia. }
  split; [done|]. destruct (Ff _ Hf1) as (f & Hf & Hi). exists f. auto.
Qed.

(** ** Between the manifest and the new log *)

(** The version set has been recovered; the logs [pending] are still to be replayed.
    All logs that are not older than [first] are among them. *)
Section recovering.
Context (d : DBImpl.t) (e : TableEnv) (R : registry) (tiss : list (list table_info)) (first : Z) (pending : list Z).
Let db := DBImpl.dbname_ d.
Let vs := DBImpl.versions_ d.

Record recovering : Prop := {
  rv_store : store db R e;
  rv_options : options_ok (DBImpl.options_ d);
  rv_names : VersionSet.dbname_ vs = db /\ Version.dbname_ (VersionSet.current_ vs) = db;
  rv_version : version_rep R (VersionSet.current_ vs) tiss;
  rv_types : Forall stored_ok (version_entries tiss);
  rv_manifest : manifest_ready vs (e_world e);
  rv_free : forall k, VersionSet.next_file_number_ vs <= k < 2 ^ 64 -> w_dir (e_world e) !! ManifestFileName db k = None;
  rv_seq : 0 <= VersionSet.last_sequence_ vs <= kMaxSequenceNumber;
  rv_seqs : Forall (fun x => 0 <= seq x <= VersionSet.last_sequence_ vs) (version_entries tiss);
  rv_log : 0 <= first <= VersionSet.log_number_ vs;
  rv_next : first < VersionSet.next_file_number_ vs /\ VersionSet.log_number_ vs < VersionSet.next_file_number_ vs;
  rv_files : forall k ti, rg_files R !! k = Some ti -> 0 <= k < VersionSet.next_file_number_ vs;
  rv_tidy : tidy db (e_world e) /\ is_Some (w_dir (e_world e) !! db);
  rv_pending : forall j, first <= j < 2 ^ 64 -> is_Some (w_dir (e_world e) !! LogFileName db j) -> j ∈ pending;
  rv_fresh : DBImpl.wal_writer_ d = None /\ DBImpl.imm_ d = None;
}.
End recovering.

(** A descriptor of the log [n] is none of the manifest's or of a table. *)
Lemma log_fd_private d e R tiss first pending n ino fd f :
  recovering d e R tiss first pending -> 0 <= n < 2 ^ 64 -> w_dir (e_world e) !! LogFileName (DBImpl.dbname_ d) n = Some ino ->
  w_fds (e_world e) !! fd = Some f -> f_ino f = ino ->
  rg_fds R !! fd = None /\ forall writer, VersionSet.descriptor_log_ (DBImpl.versions_ d) = Some writer -> WalWriter.fd_ writer <> fd.
Proof.
  intros Hrv Hn Hd Hf Hi. split.
  - eapply store_private_fd; [apply Hrv|by apply (log_not_table _ n)|done..].
  - intros writer Hwr E. destruct (rv_manifest _ _ _ _ _ _ Hrv) as [(edits & st & [(wr & mi & D & _ & _ & (g & Hg & Hgi & _) & Hm & _) _ _ _ _ _])|Hnew].
    + assert (wr = writer) as -> by congruence. rw E Hf in Hg. injection Hg as <-.
      pose proof (store_wf _ _ _ (rv_store _ _ _ _ _ _ Hrv)) as Hw. rw (proj1 (rv_names _ _ _ _ _ _ Hrv)) in Hm.
      eapply (log_not_manifest (DBImpl.dbname_ d) n); [done|]. eapply (fw_inj _ Hw); [exact Hd|]. rw -Hi Hgi. exact Hm.
    + rw (mn_none _ _ Hnew) in Hwr. done.
Qed.

(** Files other than the manifest and the tables change. *)
Lemma recovering_changes d e R tiss first pending w' paths fds s :
  recovering d e R tiss first pending -> VersionSet.next_file_number_ (DBImpl.versions_ d) + 1 < 2 ^ 64 ->
  VersionSet.last_sequence_ (DBImpl.versions_ d) <= s <= kMaxSequenceNumber ->
  changes paths fds (e_world e) w' -> paths = [] \/ (exists n, 0 <= n < 2 ^ 64 /\ paths = [LogFileName (DBImpl.dbname_ d) n]) ->
  (forall fd, fd ∈ fds -> rg_fds R !! fd = None /\
     forall writer, VersionSet.descriptor_log_ (DBImpl.versions_ d) = Some writer -> WalWriter.fd_ writer <> fd) ->
  (forall p, p ∈ paths -> w_dir w' !! p = w_dir (e_world e) !! p \/ w_dir w' !! p = None) ->
  recovering (DBImpl.set_versions (VersionSet.set_seq s (DBImpl.versions_ d)) d) (mkEnv w' (e_cache e)) (rebase R w') tiss first pending.
Proof.
  intros [A1 A2 [A3 A3'] A4 A5 A6 A7 A8 A9 A10 A11 A12 [A13 A13'] A14 A15] Hn Hs Hch Hpaths Hfds Hdir. set (db := DBImpl.dbname_ d) in *.
  assert (Hp : forall p, p ∈ paths -> exists n, 0 <= n < 2 ^ 64 /\ p = LogFileName db n).
  { intros p Hin. destruct Hpaths as [->|(n & Hr & ->)]; [by apply elem_of_nil in Hin|]. apply list_elem_of_singleton in Hin. eauto. }
  pose proof (store_wf _ _ _ A1) as Hw.
  assert (Hadv : vs_advanced (DBImpl.versions_ d) (VersionSet.set_seq s (DBImpl.versions_ d))) by (split; try done; simpl; lia).
  split; simpl; auto.
  - eapply store_changes; [done|exact Hch| |by intros fd [? _]%Hfds].
    intros p (n & Hr & ->)%Hp. eapply layout_not_table; [apply A1|by apply log_not_table].
  - eapply version_rep_evolves; [apply rebase_evolves|done|done].
  - eapply manifest_ready_changes; [exact A6|done|exact Hadv|done| |exact Hch|rw A3..|].
    + rw /= /kMaxSequenceNumber in Hs *. change (Z.shiftl 1 56) with (2 ^ 56) in Hs. lia.
    + intros (n & Hr & E)%Hp. by eapply db_not_log.
    + intros k (n & Hr & E)%Hp. symmetry in E. by eapply log_not_manifest.
    + intros (n & Hr & E)%Hp. symmetry in E. by eapply log_not_current.
    + intros writer Hwr Hin. destruct (Hfds _ Hin) as [_ H]. by eapply H.
  - intros k Hk. rw (ch_dir _ _ _ _ Hch); [|by apply A7]. intros (n & Hr & E)%Hp. symmetry in E. by eapply log_not_manifest.
  - lia.
  - eapply Forall_impl; [exact A9|]. simpl. lia.
  - split; [eapply tidy_changes; [done|exact Hch|]; intros p (n & Hr & ->)%Hp; by apply scan_log|].
    rw (ch_dir _ _ _ _ Hch) //. intros (n & Hr & E)%Hp. by eapply db_not_log.
  - intros j Hj Hsome. apply A14; [done|]. destruct (decide (LogFileName db j ∈ paths)) as [Hin|Hin]; [|by rw -(ch_dir _ _ _ _ Hch)].
    destruct (Hdir _ Hin) as [E|E]; rw E in Hsome; [done|by destruct Hsome].
Qed.

Lemma set_versions_id d : DBImpl.set_versions (VersionSet.set_seq (VersionSet.last_sequence_ (DBImpl.versions_ d)) (DBImpl.versions_ d)) d = d.
Proof. destruct d as [? ? ? [] ? ? ? ? ?]. done. Qed.

(** Descriptors are opened or closed. *)
Lemma recovering_same d e R tiss first pending w' fds :
  recovering d e R tiss first pending -> VersionSet.next_file_number_ (DBImpl.versions_ d) + 1 < 2 ^ 64 ->
  changes [] fds (e_world e) w' ->
  (forall fd, fd ∈ fds -> rg_fds R !! fd = None /\
     forall writer, VersionSet.descriptor_log_ (DBImpl.versions_ d) = Some writer -> WalWriter.fd_ writer <> fd) ->
  recovering d (mkEnv w' (e_cache e)) (rebase R w') tiss first pending.
Proof.
  intros Hrv Hn Hch Hf. pose proof (recovering_changes d e R tiss first pending w' [] fds (VersionSet.last_sequence_ (DBImpl.versions_ d)) Hrv Hn) as H.
  rw set_versions_id in H. apply H; auto; [|by intros p ?%elem_of_nil]. pose proof (rv_seq _ _ _ _ _ _ Hrv). lia.
Qed.

(** A log has gone. *)
Lemma recovering_gone d e R tiss first n rest w' :
  recovering d e R tiss first (n :: rest) -> VersionSet.next_file_number_ (DBImpl.versions_ d) + 1 < 2 ^ 64 -> 0 <= n < 2 ^ 64 ->
  unlinked [LogFileName (DBImpl.dbname_ d) n] (e_world e) w' -> recovering d (mkEnv w' (e_cache e)) (rebase R w') tiss first rest.
Proof.
  intros Hrv Hn Hr U. pose proof (recovering_changes d e R tiss first (n :: rest) w' [LogFileName (DBImpl.dbname_ d) n] []
    (VersionSet.last_sequence_ (DBImpl.versions_ d)) Hrv Hn) as H.
  rw set_versions_id in H. destruct H as [A1 A2 A3 A4 A5 A6 A7 A8 A9 A10 A11 A12 A13 A14 A15].
  { pose proof (rv_seq _ _ _ _ _ _ Hrv). lia. } { by apply unlinked_changes. } { right. eauto. } { by intros fd ?%elem_of_nil. }
  { intros p Hp. right. by apply U. }
  split; auto. intros j Hj Hs. specialize (A14 j Hj Hs). apply elem_of_cons in A14 as [->|?]; [|done].
  simpl in Hs. rw (ul_gone _ _ _ U) in Hs; [by left|]. by destruct Hs.
Qed.

(** A replayed log becomes a table. *)
Lemma recovering_flush d e R tiss first pending m n :
  recovering d e R tiss first pending -> mem_ok m -> mem_entries m <> [] -> newer_versions (mem_entries m) (version_entries tiss) ->
  Forall (fun x => seq x <= VersionSet.last_sequence_ (DBImpl.versions_ d)) (mem_entries m) ->
  VersionSet.log_number_ (DBImpl.versions_ d) <= n <= VersionSet.next_file_number_ (DBImpl.versions_ d) ->
  VersionSet.next_file_number_ (DBImpl.versions_ d) + 2 < 2 ^ 64 ->
  exists edit vs1 e1 vs' e' R' ti,
    DBImpl.WriteLevel0Table m NewVersionEdit d e = Some ((Status.OK, edit, DBImpl.set_versions vs1 d), e1) /\
    VersionSet.LogAndApply vs1 (SetLogNumber edit n) e1 = Some ((Status.OK, vs'), e') /\
    recovering (DBImpl.set_versions vs' d) e' R' (push_table ti tiss) first pending /\ ti_entries ti = mem_entries m /\
    VersionSet.log_number_ vs' = n /\ VersionSet.last_sequence_ vs' = VersionSet.last_sequence_ (DBImpl.versions_ d) /\
    VersionSet.next_file_number_ (DBImpl.versions_ d) <= VersionSet.next_file_number_ vs' <= VersionSet.next_file_number_ (DBImpl.versions_ d) + 2 /\
    (forall j, 0 <= j < 2 ^ 64 -> content_at (e_world e') (LogFileName (DBImpl.dbname_ d) j) =
       content_at (e_world e) (LogFileName (DBImpl.dbname_ d) j) /\
       w_dir (e_world e') !! LogFileName (DBImpl.dbname_ d) j = w_dir (e_world e) !! LogFileName (DBImpl.dbname_ d) j) /\
    (forall fd, fd < w_fresh_fd (e_world e) ->
       (forall writer, VersionSet.descriptor_log_ (DBImpl.versions_ d) = Some writer -> WalWriter.fd_ writer <> fd) ->
       w_fds (e_world e') !! fd = w_fds (e_world e) !! fd).
Proof.
  intros Hrv Hm Hne Hnew Hseqs Hn Hnext. pose proof Hrv as [A1 A2 [A3 A3'] A4 A5 A6 A7 A8 A9 A10 A11 A12 [A13 A13'] A14 A15].
  pose proof (store_wf _ _ _ A1) as Hw. assert (Hk : VersionSet.last_sequence_ (DBImpl.versions_ d) < 2 ^ 64).
  { rw /kMaxSequenceNumber in A8. change (Z.shiftl 1 56) with (2 ^ 56) in A8. lia. }
  destruct (flush_run d e R tiss m n A1 A2 (conj A3 A3') A4 A6 Hm Hne Hnew) as
    (edit & d1 & e1 & vs' & ti & R' & e' & edits' & st' & paths & fds & E1 & E2 & (vs1 & ->) & Hs' & Hent & Hv' & Ho' & Hq & Hmx &
     Hlog & Hseq & Hnx & Hn1 & Hn2 & Hrf & Hch & Hp & Hf); [lia|lia|lia|by intros k ti Hkt; apply A12 in Hkt; lia|].
  set (db := DBImpl.dbname_ d) in *. set (nx := VersionSet.next_file_number_ (DBImpl.versions_ d)) in *.
  assert (Htiss : tiss <> []) by (intros ->; by pose proof (vr_levels _ _ _ A4)).
  assert (Hlogp : forall j, 0 <= j < 2 ^ 64 -> LogFileName db j ∉ paths).
  { intros j Hj [E|Hin]%Hp; [|by apply log_not_in_manifest_paths in Hin]. symmetry in E. eapply (log_not_table db j Hj nx); [lia|done]. }
  pose proof (mo_number _ _ _ _ Ho') as [Hmn Hmn']. pose proof (ch_fresh _ _ _ _ Hch) as [_ Hff].
  exists edit, vs1, e1, vs', e', R', ti. split; [exact E1|]. split; [exact E2|]. split; [|split; [done|split; [done|split; [done|split; [lia|]]]]].
  2:{ split; [intros j Hj; split; [by apply (changes_content_at _ _ _ _ _ Hw Hch), Hlogp|by apply (ch_dir _ _ _ _ Hch), Hlogp]|].
      intros fd Hfd Hwr. apply (ch_fds _ _ _ _ Hch); [done|]. intros (writer & Hwr' & ->)%Hf. by eapply Hwr. }
  split; simpl; fold db; rw ?push_table_entries ?Hent ?Hseq ?Hlog ?Hrf //; try lia.
  - apply Forall_app. split; [apply Hm|done].
  - left. eauto.
  - intros j Hj. rw (ch_dir _ _ _ _ Hch); [|apply A7; lia]. intros [E|Hin]%Hp; [symmetry in E; by eapply (manifest_not_table db j nx); [lia|]|].
    apply manifest_in_manifest_paths in Hin; lia.
  - apply Forall_app. split; [|done]. pose proof (mo_seqs _ Hm) as Hms. rewrite -> Forall_forall in Hms, Hseqs. apply Forall_forall. intros x Hx.
    specialize (Hms x Hx). specialize (Hseqs x Hx). lia.
  - intros j tj [[<- <-]|[_ Hj]]%lookup_insert_Some; [lia|]. specialize (A12 j tj Hj). lia.
  - split; [eapply tidy_changes; [done|exact Hch|]; intros p [->|Hin]%Hp; [apply scan_table; lia|by eapply scan_manifest_paths]|].
    rw (ch_dir _ _ _ _ Hch) //. intros [E|Hin]%Hp; [by eapply db_not_table|by eapply db_not_in_manifest_paths].
  - intros j Hj Hsome. apply A14; [done|]. rw -(ch_dir _ _ _ _ Hch) //. apply Hlogp. lia.
Qed.

(** What a replayed memtable holds becomes a table of the version, and an empty one becomes nothing; either way the logs stay. *)
Lemma replayed_table_run d e R tiss first pending m n fd :
  recovering d e R tiss first pending -> mem_ok m -> newer_versions (mem_entries m) (version_entries tiss) ->
  Forall (fun x => seq x <= VersionSet.last_sequence_ (DBImpl.versions_ d)) (mem_entries m) ->
  VersionSet.log_number_ (DBImpl.versions_ d) <= n <= VersionSet.next_file_number_ (DBImpl.versions_ d) ->
  VersionSet.next_file_number_ (DBImpl.versions_ d) + 2 < 2 ^ 64 -> fd < w_fresh_fd (e_world e) ->
  (forall writer, VersionSet.descriptor_log_ (DBImpl.versions_ d) = Some writer -> WalWriter.fd_ writer <> fd) ->
  exists d' e' R' tiss',
    (if Count m >? 0 then
       '(s, edit, d) ← DBImpl.WriteLevel0Table m NewVersionEdit d;
       if negb (Status.ok s) then mret (s, d)
       else '(s, vs) ← VersionSet.LogAndApply (DBImpl.versions_ d) (SetLogNumber edit n); mret (s, DBImpl.set_versions vs d)
     else mret (Status.OK, d)) e = Some ((Status.OK, d'), e') /\
    recovering d' e' R' tiss' first pending /\ version_entries tiss' = mem_entries m ++ version_entries tiss /\
    DBImpl.dbname_ d' = DBImpl.dbname_ d /\ DBImpl.options_ d' = DBImpl.options_ d /\ VersionSet.log_number_ (DBImpl.versions_ d') <= n /\
    VersionSet.next_file_number_ (DBImpl.versions_ d) <= VersionSet.next_file_number_ (DBImpl.versions_ d') <= VersionSet.next_file_number_ (DBImpl.versions_ d) + 2 /\
    (forall j, 0 <= j < 2 ^ 64 -> content_at (e_world e') (LogFileName (DBImpl.dbname_ d) j) = content_at (e_world e) (LogFileName (DBImpl.dbname_ d) j) /\
       w_dir (e_world e') !! LogFileName (DBImpl.dbname_ d) j = w_dir (e_world e) !! LogFileName (DBImpl.dbname_ d) j) /\
    w_fds (e_world e') !! fd = w_fds (e_world e) !! fd.
Proof.
  intros Hrv Hm Hnew Hseqs Hn Hnext Hfd Hwr. rw (mem_count _ Hm). destruct (decide (mem_entries m = [])) as [Ee|Hne].
  { exists d, e, R, tiss. rw Ee. split_and!; auto; lia. }
  assert ((Z.of_nat (length (mem_entries m)) >? 0) = true) as ->.
  { rw Z.gtb_ltb. apply Z.ltb_lt. destruct (mem_entries m); [done|]. cbn [length]. lia. }
  destruct (recovering_flush d e R tiss first pending m n Hrv Hm Hne Hnew Hseqs Hn Hnext) as
    (edit & vs1 & e1' & vs' & e' & R' & ti & F1 & F2 & Hrv' & Hent & Hlg & Hlq & Hnx & Hlogs & Hfds).
  eexists _, e', R', (push_table ti tiss). split.
  { rw (bind_run _ _ _ _ _ F1). cbn iota beta. change (negb (Status.ok Status.OK)) with false. cbn iota. by rw (bind_run _ _ _ _ _ F2). }
  split; [exact Hrv'|]. split; [rw push_table_entries; [intros ->; by pose proof (vr_levels _ _ _ (rv_version _ _ _ _ _ _ Hrv))|congruence]|].
  split; [done|]. split; [done|]. split; [simpl; lia|]. split; [done|]. split; [exact Hlogs|]. by apply Hfds.
Qed.

Lemma SetLastSequence_set s vs : VersionSet.last_sequence_ vs <= s -> VersionSet.SetLastSequence s vs = VersionSet.set_seq s vs.
Proof.
  intros Hs. rw /VersionSet.SetLastSequence Z.gtb_ltb. destruct (Z.ltb_spec (VersionSet.last_sequence_ vs) s); [done|].
  assert (s = VersionSet.last_sequence_ vs) as -> by lia. by destruct vs.
Qed.

(** Memtables with the same writes have the same entries. *)
Lemma same_entries m m0 : mem_inv m -> mem_inv m0 -> mem_entries m ≡ₚ mem_entries m0 -> mem_entries m = mem_entries m0.
Proof.
  intros H H0 Hp. eapply (StronglySorted_unique_strong entry_lt); [|by apply mem_sorted..|done].
  intros x y _ _ Hxy Hyx. exfalso. rw /cmp_lt in Hxy Hyx. apply (cmp_lt_gt (cmp := MemtableKeyComparator)) in Hxy. lia.
Qed.

Section recover_log.
Context (draw : nat -> Z) (d : DBImpl.t) (e : TableEnv) (R : registry) (tiss : list (list table_info)) (first n : Z) (rest : list Z)
  (m0 : Memtable) (log : list MemtableEntry).
Let db := DBImpl.dbname_ d.
Let vs := DBImpl.versions_ d.
Context (Hrv : recovering d e R tiss first (n :: rest)) (Hn : VersionSet.log_number_ vs <= n <= VersionSet.next_file_number_ vs) (Hfirst : first <= n)
  (Hlog : log_shows db (e_world e) n log) (Hm : mem_ok m0) (Hperm : mem_entries m0 ≡ₚ log)
  (Hnew : newer_versions (mem_entries m0) (version_entries tiss)) (Hnext : VersionSet.next_file_number_ vs + 3 < 2 ^ 64).

(** The log is replayed into a table, if there is anything in it, and removed. *)
Lemma recover_log_run :
  exists d' e' R' tiss', DBImpl.recover_log draw n d e = Some ((Status.OK, d'), e') /\
    recovering d' e' R' tiss' first rest /\ version_entries tiss' = mem_entries m0 ++ version_entries tiss /\
    DBImpl.dbname_ d' = db /\ DBImpl.options_ d' = DBImpl.options_ d /\
    VersionSet.log_number_ (DBImpl.versions_ d') <= n /\
    VersionSet.next_file_number_ vs <= VersionSet.next_file_number_ (DBImpl.versions_ d') <= VersionSet.next_file_number_ vs + 2 /\
    forall j, 0 <= j < 2 ^ 64 -> j <> n -> content_at (e_world e') (LogFileName db j) = content_at (e_world e) (LogFileName db j).
Proof.
  pose proof (rv_store _ _ _ _ _ _ Hrv) as Hs. pose proof (store_wf _ _ _ Hs) as Hw. fold db in Hs.
  pose proof (rv_log _ _ _ _ _ _ Hrv) as Hl0. pose proof (rv_seq _ _ _ _ _ _ Hrv) as Hsq. fold vs in Hl0, Hsq.
  destruct (open_log_run draw db n log (VersionSet.last_sequence_ vs) (e_world e) Hw (so_calm _ _ _ Hs) Hlog)
    as (r & ino & m & w1 & w2 & E1 & E2 & Him & Hpm & K & Hfd & Hff & Hd & f & Hf & Hfi).
  assert (Hem : mem_entries m = mem_entries m0) by (apply same_entries; [done|apply Hm|by rewrite -> Hperm]).
  assert (Hmo : mem_ok m) by (destruct Hm as [M1 M2 M3 M4]; split; rw ?Hem //).
  set (s := max_seq (VersionSet.last_sequence_ vs) log) in *. destruct (max_seq_le (VersionSet.last_sequence_ vs) log) as [Hs1 Hs2].
  fold s in Hs1, Hs2. rewrite <- Hpm in Hs2.
  assert (Hs3 : s <= kMaxSequenceNumber).
  { apply max_seq_bound; [lia|]. rewrite <- Hperm. eapply Forall_impl; [apply Hm|]. simpl. lia. }
  pose proof (recovering_changes d e R tiss first (n :: rest) w2 [] [] s Hrv ltac:(fold vs; lia) ltac:(fold vs; lia)
    (files_kept_changes _ _ _ _ K) ltac:(by left) ltac:(by intros ? ?%elem_of_nil) ltac:(by intros ? ?%elem_of_nil)) as Hrv2.
  fold vs in Hrv2. set (d2 := DBImpl.set_versions (VersionSet.set_seq s vs) d) in *. set (e2 := mkEnv w2 (e_cache e)) in *.
  destruct (log_fd_private d2 e2 (rebase R w2) tiss first (n :: rest) n ino (w_fresh_fd (e_world e)) f Hrv2) as [Hp1 Hp2];
    [lia|by rw /= (fk_dir _ _ K)|done|done|].
  destruct (replayed_table_run d2 e2 (rebase R w2) tiss first (n :: rest) m n (w_fresh_fd (e_world e)) Hrv2 Hmo) as
    (d3 & e3 & R3 & tiss3 & E3 & Hrv3 & He3 & Hdb3 & Ho3 & Hlg3 & Hnx3 & Hlogs3 & Hfd3);
    [by rw Hem|done|done|simpl; lia|done|done|]. rw Hem in He3. simpl in Hnx3, Hdb3, Ho3. change (e_world e2) with w2 in Hlogs3, Hfd3. change (DBImpl.dbname_ d2) with db in Hdb3, Hlogs3.
  destruct (Hlogs3 n ltac:(lia)) as [_ Hd3]. rw (fk_dir _ _ K) Hd in Hd3.
  destruct (log_fd_private d3 e3 R3 tiss3 first (n :: rest) n ino (w_fresh_fd (e_world e)) f Hrv3) as [Hq1 Hq2];
    [lia|by rw Hdb3|congruence|done|].
  destruct (sys_unlink_run (LogFileName db n) (e_world e3)) as (x & w4 & E4 & U4); [apply Hrv3|].
  pose proof (recovering_gone d3 e3 R3 tiss3 first n rest w4 Hrv3 ltac:(lia) ltac:(lia) ltac:(by rw Hdb3)) as Hrv4.
  pose proof (recovering_same d3 (mkEnv w4 (e_cache e3)) (rebase R3 w4) tiss3 first rest (sys_close (w_fresh_fd (e_world e)) w4).2 [w_fresh_fd (e_world e)]
    Hrv4 ltac:(lia) (close_changes _ _ _)) as Hrv5.
  exists d3, (mkEnv (sys_close (w_fresh_fd (e_world e)) w4).2 (e_cache e3)). eexists _, tiss3. split.
  { rw /DBImpl.recover_log. fold db vs. rw (bind_run _ _ e r (mkEnv w1 (e_cache e))); [by rw /on_world E1|].
    rw (bind_run _ _ (mkEnv w1 (e_cache e)) (m, s) e2); [by rw /on_world; cbn [e_world e_cache]; rw /VersionSet.LastSequence E2|]. cbn iota beta zeta. rw SetLastSequence_set //. fold d2.
    rw (bind_run _ _ _ _ _ E3). cbn iota beta. change (negb (Status.ok Status.OK)) with false. cbn iota.
    rw (bind_run _ _ e3 x (mkEnv w4 (e_cache e3))); [by rw /on_world /sys E4|]. rw /WalReader.Destroy Hfd.
    pose proof (fw_fd _ Hw). by destruct (Z.geb_spec (w_fresh_fd (e_world e)) 0); [|lia]. }
  split; [apply Hrv5; by intros fd ->%list_elem_of_singleton|]. split; [done|]. split; [done|]. split; [done|]. split; [done|]. split; [done|].
  intros j Hj Hne. rw (_ : content_at (e_world _) _ = content_at (e_world e3) (LogFileName db j)).
  { rw /content_at /= (ul_dir _ _ _ U4); [intros E%list_elem_of_singleton; apply Hne; by eapply LogFileName_inj; eauto; lia|].
    destruct (w_dir (e_world e3) !! LogFileName db j); [|done]. by rw /= /file_content /= (ul_data _ _ _ U4). }
  rw (proj1 (Hlogs3 j Hj)). by apply files_kept_content_at.
Qed.
End recover_log.

(** ** All logs *)

(** What a list of logs adds to the versions [es], oldest first. *)
Definition replayed (logs : list (Z * Memtable)) (es : list MemtableEntry) : list MemtableEntry :=
  foldl (fun es l => mem_entries l.2 ++ es) es logs.

Fixpoint newer_logs (logs : list (Z * Memtable)) (es : list MemtableEntry) : Prop :=
  match logs with
  | [] => True
  | l :: logs' => newer_versions (mem_entries l.2) es /\ newer_logs logs' (mem_entries l.2 ++ es)
  end.

(** The log of a memtable. *)
Definition log_of (db : bytes) (w : World) (l : Z * Memtable) : Prop :=
  mem_ok l.2 /\ exists log, mem_entries l.2 ≡ₚ log /\ log_shows db w l.1 log.

Lemma recover_logs_run draw logs d e R tiss first :
  recovering d e R tiss first logs.*1 ->
  StronglySorted (fun a b : Z * Memtable => a.1 < b.1) logs -> Forall (log_of (DBImpl.dbname_ d) (e_world e)) logs ->
  Forall (fun l : Z * Memtable => first <= l.1 <= VersionSet.next_file_number_ (DBImpl.versions_ d) /\ VersionSet.log_number_ (DBImpl.versions_ d) <= l.1) logs ->
  newer_logs logs (version_entries tiss) ->
  VersionSet.next_file_number_ (DBImpl.versions_ d) + 2 * Z.of_nat (length logs) + 1 < 2 ^ 64 ->
  exists d' e' R' tiss', DBImpl.recover_logs draw logs.*1 d e = Some ((Status.OK, d'), e') /\
    recovering d' e' R' tiss' first [] /\ version_entries tiss' = replayed logs (version_entries tiss) /\
    DBImpl.dbname_ d' = DBImpl.dbname_ d /\ DBImpl.options_ d' = DBImpl.options_ d /\
    VersionSet.next_file_number_ (DBImpl.versions_ d') <= VersionSet.next_file_number_ (DBImpl.versions_ d) + 2 * Z.of_nat (length logs).
Proof.
  revert d e R tiss; induction logs as [|[n m] logs IH]; intros d e R tiss Hrv Hs Hl Hn Hnew Hnext.
  { exists d, e, R, tiss. split_and!; auto. simpl. lia. }
  apply StronglySorted_inv in Hs as [Hs Hlt]. apply Forall_cons in Hl as [(Hm & log & Hp & Hlog) Hl], Hn as [[Hn1 Hn2] Hn].
  destruct Hnew as [Hnew1 Hnew]. simpl in Hm, Hp, Hlog, Hn1, Hn2, Hnew1, Hnew, Hlt. cbn [length] in Hnext.
  destruct (recover_log_run draw d e R tiss first n logs.*1 m log Hrv) as
    (d1 & e1 & R1 & tiss1 & E1 & Hrv1 & Hv1 & Hdb1 & Ho1 & Hlg1 & Hnx1 & Hlogs1); auto; try lia.
  destruct (IH d1 e1 R1 tiss1 Hrv1) as (d' & e' & R' & tiss' & E & Hrv' & Hv' & Hdb' & Ho' & Hnx'); auto.
  { rewrite -> Forall_forall in Hl, Hlt, Hn. apply Forall_forall. intros [j mj] Hj. destruct (Hl _ Hj) as (H1 & log' & H2 & H3 & H4 & o & k & H5 & H6 & H7).
    specialize (Hlt _ Hj). destruct (Hn _ Hj) as [H8 _]. simpl in *. pose proof (rv_log _ _ _ _ _ _ Hrv).
    split; [done|]. exists log'. split; [done|]. split; [done|]. split; [done|]. exists o, k. split; [done|]. split; [done|].
    rw Hdb1 Hlogs1 //=; lia. }
  { rewrite -> Forall_forall in Hlt, Hn. apply Forall_forall. intros l Hl'. specialize (Hlt l Hl'). specialize (Hn l Hl'). simpl in *. lia. }
  { by rw Hv1. } { lia. }
  exists d', e', R', tiss'. split.
  { rw fmap_cons. cbn [DBImpl.recover_logs fst]. rw (bind_run _ _ _ _ _ E1). cbn iota beta. by change (negb (Status.ok Status.OK)) with false. }
  split; [done|]. split; [by rw Hv' Hv1|]. split; [congruence|]. split; [congruence|]. cbn [length]. lia.
Qed.

(** ** The new log *)

Lemma new_wal_first d w n :
  fs_wf w -> calm w -> w_dir w !! LogFileName (DBImpl.dbname_ d) n = None -> DBImpl.wal_writer_ d = None ->
  exists w', DBImpl.new_wal (LogFileName (DBImpl.dbname_ d) n) d w =
      Some (DBImpl.set_wal (Some (WalWriter.mk (LogFileName (DBImpl.dbname_ d) n) (w_fresh_fd w) 0)) d, w') /\
    at_end w' (w_fresh_fd w) (w_fresh_ino w) /\ file_opened (LogFileName (DBImpl.dbname_ d) n) (w_fresh_ino w) w w'.
Proof.
  intros Hw Hc Hn Hnone. destruct (WalWriter_Open_run w _ Hw Hc Hn) as (w1 & E & He & Ho). exists w1.
  split; [|done]. by rw /DBImpl.new_wal (bind_run _ _ _ _ _ E) Hnone.
Qed.

Lemma sort_levels_id files : levels_ok files -> VersionSet.sort_levels files = files.
Proof.
  intros H. destruct (levels_ok_sorted files H) as (fs0 & levels & -> & _ & H0 & Hl). simpl. rw levels_std_sort_id //. f_equal.
  by apply (std_sort_id newer_number number).
Qed.

Lemma ready_writer vs w writer : manifest_ready vs w -> VersionSet.descriptor_log_ vs = Some writer -> WalWriter.fd_ writer < w_fresh_fd w.
Proof.
  intros [(edits & st & [(wr & ino & D & H & _) _ _ _ _ _])|Hn] Hwr; [|by rw (mn_none _ _ Hn) in Hwr].
  assert (wr = writer) as -> by congruence. apply H.
Qed.

Section start_log.
Context (d : DBImpl.t) (e : TableEnv) (R : registry) (tiss : list (list table_info)) (first : Z).
Let db := DBImpl.dbname_ d.
Let vs := DBImpl.versions_ d.
Let n := VersionSet.next_file_number_ vs.
Context (Hrv : recovering d e R tiss first []) (Hnext : n + 3 < 2 ^ 64).

Lemma start_log_run :
  exists d' e' R' edits' st', DBImpl.start_log d e = Some ((Status.OK, d'), e') /\
    db_at d' e' R' tiss NewMemtable edits' st' /\ db_entries d' tiss NewMemtable = version_entries tiss /\
    DBImpl.dbname_ d' = db /\ DBImpl.options_ d' = DBImpl.options_ d /\
    VersionSet.next_file_number_ (DBImpl.versions_ d') <= n + 2.
Proof.
  destruct Hrv as [A1 A2 [A3 A3'] A4 A5 A6 A7 A8 A9 A10 A11 A12 [A13 A13'] A14 [A15 A15']].
  fold db vs n in A1, A3, A3', A4, A6, A7, A8, A9, A10, A11, A12, A13, A13', A14.
  pose proof (store_wf _ _ _ A1) as Hw. pose proof (so_calm _ _ _ A1) as Hc. destruct NewMemtable_inv as [_ E0]. pose proof NewMemtable_ok as Hnm.
  assert (Hfree : forall j, first <= j < 2 ^ 64 -> w_dir (e_world e) !! LogFileName db j = None).
  { intros j Hj. destruct (w_dir (e_world e) !! LogFileName db j) as [i|] eqn:E; [|done]. by apply A14 in Hj as ?%elem_of_nil; rw ?E. }
  set (vs1 := VersionSet.set_next (n + 1) vs). set (d1 := DBImpl.set_log_number n (DBImpl.set_versions vs1 d)).
  destruct (new_wal_first d1 (e_world e) n Hw Hc (Hfree n ltac:(lia)) A15) as (w1 & Ew & He1 & Ho1).
  change (DBImpl.dbname_ d1) with db in *. pose proof (file_opened_changes _ _ _ _ Ho1) as C1. pose proof (fo_fresh _ _ _ _ Ho1) as [Hf1 _].
  assert (Hlog1 : forall p, p ∈ [LogFileName db n] -> p = LogFileName db n) by (by intros p ->%list_elem_of_singleton).
  assert (Hs1 : store db (rebase R w1) (mkEnv w1 (e_cache e))).
  { eapply store_changes; [done|exact C1| |by intros fd ?%elem_of_nil]. intros p ->%Hlog1. eapply layout_not_table; [apply A1|]. apply log_not_table. lia. }
  assert (Hk : VersionSet.last_sequence_ vs < 2 ^ 64).
  { rw /kMaxSequenceNumber in A8. change (Z.shiftl 1 56) with (2 ^ 56) in A8. lia. }
  assert (Hr1 : manifest_ready vs1 w1).
  { eapply (manifest_ready_changes vs vs1); [done|done|split; done || (simpl; lia)|simpl; lia|done|exact C1|rw A3..|by intros ? _ ?%elem_of_nil].
    - intros E%Hlog1. by eapply db_not_log.
    - intros k E%Hlog1. symmetry in E. eapply log_not_manifest; [|exact E]. lia.
    - intros E%Hlog1. symmetry in E. eapply log_not_current; [|exact E]. lia. }
  destruct (ready_levels _ _ Hr1) as [Hlev _]. change (VersionSet.current_ vs1) with (VersionSet.current_ vs) in Hlev.
  set (edit := SetLogNumber NewVersionEdit n).
  destruct (ready_LogAndApply db (rebase R w1) vs1 edit (Version.files_ (VersionSet.current_ vs)) (mkEnv w1 (e_cache e)) Hs1 A3 Hr1) as
    (vs' & edits' & st' & e' & paths & fds & E2 & Hs2 & Hch2 & Hpaths & Hfds & Hopen & Hq & Hmx & [G1 G2 G3 [G4 _] G5]).
  { split; simpl; try done. intros _. lia. }
  { apply size_edit_fine; [|rw EncodeTo_segments; cbn; rw ?size_of_app; size_tac].
    split; simpl; split_and?; try done; try lia; constructor. }
  { constructor. }
  { rw retain_levels_none //. }
  { apply Hlev. }
  simpl in G1, G2, G3, G4, Hch2. specialize (Hmx (or_introl eq_refl)). change (VersionSet.dbname_ vs1) with (VersionSet.dbname_ vs) in G5.
  rw (sort_levels_id _ Hlev) A3 in G5. pose proof (mo_number _ _ _ _ Hopen) as [Hmn Hmn'].
  assert (Hw1 : fs_wf w1) by (by eapply ch_wf). pose proof (ch_fresh _ _ _ _ Hch2) as [_ Hf2].
  assert (Hlogp : forall j, 0 <= j < 2 ^ 64 -> LogFileName db j ∉ paths) by (intros j Hj Hin%Hpaths; by eapply log_not_in_manifest_paths).
  set (wr := WalWriter.mk (LogFileName db n) (w_fresh_fd (e_world e)) 0) in *.
  set (d' := DBImpl.set_mem (Some NewMemtable) (DBImpl.set_versions vs' (DBImpl.set_wal (Some wr) d1))).
  exists d', e', (rebase (rebase R w1) (e_world e')), edits', st'. split.
  { rw /DBImpl.start_log. cbn [VersionSet.NewFileNumber]. fold vs n. rw u64_small; [lia|]. fold vs1 d1.
    rw (bind_run _ _ e _ (mkEnv w1 (e_cache e)) (on_world_run _ _ _ _ Ew)). by rw (bind_run _ _ _ _ _ E2). }
  subst d'. revert E0 Hnm. generalize NewMemtable. intros nm E0 Hnm.
  split; [|split; [by rw /db_entries /imm_entries /= A15' E0|split; [done|split; [done|simpl; lia]]]].
  destruct (at_end_changes _ _ _ _ (w_fresh_fd (e_world e)) (w_fresh_ino (e_world e)) (LogFileName db n) Hch2 Hw1) as (He3 & Hc3 & Hd3).
  { lia. } { intros (writer & Hwr & Heq)%Hfds. pose proof (ready_writer _ _ _ A6 Hwr). lia. } { apply Ho1. } { apply Hlogp. lia. } { done. }
  split; simpl; fold db; rw /imm_entries /= ?A15' ?E0 ?G1 ?G2 //; try lia.
  - split; [congruence|by rw G5].
  - eapply (version_rep_evolves R); [etrans; [apply (rebase_evolves R w1)|apply rebase_evolves]|done|]. rw G5 -A3'. by destruct (VersionSet.current_ vs).
  - split; by intros ? ? ?%elem_of_nil.
  - exists wr, (w_fresh_ino (e_world e)). split; [done|]. pose proof (fw_fd _ Hw). split; [simpl; lia|]. split; [done|]. auto.
  - exists []. split_and!; [|by rw E0|constructor|constructor]. rw /content_at Hd3 /= Hc3 (fo_empty _ _ _ _ Ho1) //.
  - intros j [Hj Hsome]. simpl in Hj, Hsome. rw G1 in Hj. fold db in Hsome.
    rw (ch_dir _ _ _ _ Hch2) in Hsome; [apply Hlogp; lia|]. destruct (decide (j = n)) as [->|Hne]; [done|].
    rw (fo_dir _ _ _ _ Ho1) in Hsome; [intros E; apply Hne; eapply LogFileName_inj; eauto; lia|]. rw Hfree in Hsome; [lia|]. by destruct Hsome.
  - intros k ti Hkt. specialize (A12 k ti Hkt). lia.
  - intros j Hj. rw (ch_dir _ _ _ _ Hch2); [apply Hlogp; lia|]. rw (fo_dir _ _ _ _ Ho1); [|apply Hfree; lia].
    intros E. assert (j = n) by (eapply LogFileName_inj; eauto; lia). lia.
  - intros j Hj. rw (ch_dir _ _ _ _ Hch2); [|rw (fo_dir _ _ _ _ Ho1); [|apply A7; lia]].
    + intros Hin%Hpaths. apply manifest_in_manifest_paths in Hin; lia.
    + intros E. symmetry in E. eapply log_not_manifest; [|exact E]. lia.
  - rw Hq G2. eapply Forall_impl; [exact A9|]. simpl. lia.
  - split.
    + eapply tidy_changes; [eapply tidy_changes; [exact A13|exact C1|]|exact Hch2|].
      * intros p ->%Hlog1. apply scan_log. lia.
      * intros p Hin%Hpaths. by eapply scan_manifest_paths.
    + rw (ch_dir _ _ _ _ Hch2); [intros Hin%Hpaths; by eapply db_not_in_manifest_paths|]. rw (fo_dir _ _ _ _ Ho1) //. apply db_not_log.
Qed.
End start_log.

(** ** From the manifest to the open database *)

Lemma sorted_fst {A} (logs : list (Z * A)) :
  StronglySorted (fun a b => a.1 < b.1) logs -> StronglySorted (fun a b => Z.ltb a b = true) logs.*1.
Proof.
  induction 1 as [|l logs _ IH Hlt]; [constructor|]. rw fmap_cons. constructor; [done|]. apply Forall_fmap.
  eapply Forall_impl; [exact Hlt|]. simpl. lia.
Qed.

Section recover_rest.
Context (draw : nat -> Z) (logs : list (Z * Memtable)) (d : DBImpl.t) (e : TableEnv) (R : registry) (tiss : list (list table_info)).
Let db := DBImpl.dbname_ d.
Let vs := DBImpl.versions_ d.
Context (Hrv : recovering d e R tiss (VersionSet.log_number_ vs) logs.*1)
  (Hs : StronglySorted (fun a b : Z * Memtable => a.1 < b.1) logs) (Hl : Forall (log_of db (e_world e)) logs)
  (Hn : Forall (fun l : Z * Memtable => VersionSet.log_number_ vs <= l.1 <= VersionSet.next_file_number_ vs) logs)
  (Hnew : newer_logs logs (version_entries tiss))
  (Hnext : VersionSet.next_file_number_ vs + 2 * Z.of_nat (length logs) + 3 < 2 ^ 64).

(** The part of [Recover] after the manifest. *)
Definition recover_rest (d : DBImpl.t) : SM TableEnv (Status.t * DBImpl.t) :=
  names ← on_world (sys (sys_readdir (DBImpl.dbname_ d)));
  '(s, d) ← (match names with
             | None => mret (Status.OK, d)
             | Some names =>
                 nums ← lift (DBImpl.log_files (VersionSet.LogNumber (DBImpl.versions_ d)) names);
                 DBImpl.recover_logs draw (std_sort Z.ltb nums) d
             end);
  if negb (Status.ok s) then mret (s, d) else DBImpl.start_log d.

Lemma recover_rest_run :
  exists d' e' R' tiss' edits' st', recover_rest d e = Some ((Status.OK, d'), e') /\
    db_at d' e' R' tiss' NewMemtable edits' st' /\ db_entries d' tiss' NewMemtable = replayed logs (version_entries tiss) /\
    DBImpl.dbname_ d' = db /\ DBImpl.options_ d' = DBImpl.options_ d.
Proof.
  pose proof (rv_store _ _ _ _ _ _ Hrv) as Hst. destruct (rv_tidy _ _ _ _ _ _ Hrv) as [Ht Hdir]. pose proof (rv_log _ _ _ _ _ _ Hrv) as Hl0.
  fold db vs in Hst, Ht, Hdir, Hl0.
  destruct (readdir_logs db (VersionSet.log_number_ vs) (e_world e) (so_calm _ _ _ Hst) Hdir Ht) as (names & nums & En & Ef & Hnd & Hk).
  assert (Hsort : std_sort Z.ltb nums = logs.*1).
  { apply sorted_numbers; [done| |].
    - by apply sorted_fst.
    - intros k. rw Hk. split; [intros (H1 & H2 & H3); apply (rv_pending _ _ _ _ _ _ Hrv); [fold vs; lia|done]|].
      intros ([j m] & -> & Hj)%list_elem_of_fmap. rewrite -> Forall_forall in Hl, Hn. destruct (Hl _ Hj) as (_ & log & _ & _ & _ & o & i & _ & _ & Hc).
      specialize (Hn _ Hj). simpl in *. split; [lia|]. split; [lia|]. apply content_at_Some in Hc as (ino & Hd & _). by exists ino. }
  destruct (recover_logs_run draw logs d e R tiss _ Hrv Hs Hl) as (d1 & e1 & R1 & tiss1 & E1 & Hrv1 & Hv1 & Hdb1 & Ho1 & Hnx1); auto.
  { eapply Forall_impl; [exact Hn|]. fold vs. simpl. lia. } { fold vs. lia. }
  destruct (start_log_run d1 e1 R1 tiss1 _ Hrv1) as (d' & e' & R' & edits' & st' & E2 & Hat & Hent & Hdb' & Ho' & _); [fold vs in Hnx1; lia|].
  exists d', e', R', tiss1, edits', st'. split; [|split; [done|split; [by rw Hent Hv1|split; [by rw Hdb' Hdb1|by rw Ho' Ho1]]]].
  rw /recover_rest. rw (bind_run _ _ e (Some names) e).
  { rw /on_world /sys. fold db. rw En. by destruct e. }
  cbn iota. rw (bind_run _ _ e (Status.OK, d1) e1); [by rw (bind_lift _ _ _ _ Ef) Hsort|]. done.
Qed.
End recover_rest.

(** ** Locking and looking for CURRENT *)

Lemma sys_open_lock w path :
  fs_wf w -> calm w -> exists w', sys_open path (mkFlags true false false) w = (w_fresh_fd w, w') /\ changes [path] [] w w'.
Proof.
  intros Hw [Hi Hc]. pose proof Hw as [W1 W2 W3]. rw /sys_open /pop_ctl Hc. destruct (w_dir w !! path) as [ino|] eqn:E; (eexists; split; [done|]).
  - split; simpl; auto; try lia.
    + intros p i Hp Hpi. right. eauto.
    + intros fd Hfd _. rw lookup_insert_ne //. lia.
    + intros _. split; simpl; auto. lia.
  - split; simpl; auto; try lia.
    + intros p Hp. rw lookup_insert_ne //. intros <-. apply Hp. by left.
    + intros p i ->%list_elem_of_singleton. rw lookup_insert_eq. intros [= <-]. left. lia.
    + intros fd Hfd _. rw lookup_insert_ne //. lia.
    + intros i Hlt _. rw /file_content /= lookup_insert_ne //. lia.
    + intros _. split; simpl; [..|lia].
      * intros p q i. rewrite -> !lookup_insert_Some. intros [[<- <-]|[Hp1 Hp2]] [[<- Eq]|[Hq1 Hq2]]; auto;
          [apply W2 in Hq2; lia|apply W2 in Hp2; lia|by eapply W1].
      * intros p i. rewrite -> lookup_insert_Some. intros [[<- <-]|[_ Hp2]]; [lia|]. apply W2 in Hp2. lia.
Qed.

Lemma sys_mkdir_run w path :
  fs_wf w -> calm w -> exists r w', sys_mkdir path w = (r, w') /\ changes [path] [] w w' /\ is_Some (w_dir w' !! path).
Proof.
  intros Hw [Hi Hc]. pose proof Hw as [W1 W2 W3]. rw /sys_mkdir /pop_ctl Hc. destruct (w_dir w !! path) as [ino|] eqn:E; do 2 eexists; (split; [done|]).
  - split; [|simpl; eauto]. split; simpl; auto; try lia.
    + intros p i Hp Hpi. right. eauto.
    + intros _. by split.
  - split; [|rw /= lookup_insert_eq; eauto]. split; simpl; auto; try lia.
    + intros p Hp. rw lookup_insert_ne //. intros <-. apply Hp. by left.
    + intros p i ->%list_elem_of_singleton. rw lookup_insert_eq. intros [= <-]. left. lia.
    + intros i Hlt _. rw /file_content /= lookup_insert_ne //. lia.
    + intros _. split; simpl; [..|lia].
      * intros p q i. rewrite -> !lookup_insert_Some. intros [[<- <-]|[Hp1 Hp2]] [[<- Eq]|[Hq1 Hq2]]; auto;
          [apply W2 in Hq2; lia|apply W2 in Hp2; lia|by eapply W1].
      * intros p i. rewrite -> lookup_insert_Some. intros [[<- <-]|[_ Hp2]]; [lia|]. apply W2 in Hp2. lia.
Qed.

Lemma check_exists_run d w :
  fs_wf w -> calm w ->
  exists w', changes [LockFileName (DBImpl.dbname_ d)] [] w w' /\
    DBImpl.check_exists d w = Some ((match w_dir w !! CurrentFileName (DBImpl.dbname_ d) with
      | None => if create_if_missing (DBImpl.options_ d) then inr true
                else inl (Status.InvalidArgument [Status.Lit "Database does not exist and create_if_missing is false"])
      | Some _ => if error_if_exists (DBImpl.options_ d)
                  then inl (Status.InvalidArgument [Status.Lit "Database exists and error_if_exists is true"]) else inr false
      end, DBImpl.set_lock (w_fresh_fd w) d), w').
Proof.
  intros Hw Hc. set (db := DBImpl.dbname_ d). pose proof (fw_fd _ Hw) as Hfd.
  destruct (sys_open_lock w (LockFileName db) Hw Hc) as (w1 & E1 & C1). destruct (ch_calm _ _ _ _ C1 Hc) as [Hi1 Hc1].
  assert (Hcur : w_dir w1 !! CurrentFileName db = w_dir w !! CurrentFileName db).
  { apply (ch_dir _ _ _ _ C1). intros E%list_elem_of_singleton. apply app_inv_head in E. discriminate E. }
  set (w2 := match w_dir w !! CurrentFileName db with None => set_errno ENOENT w1 | Some _ => w1 end).
  assert (C2 : changes [LockFileName db] [] w1 w2).
  { rw /w2. destruct (w_dir w !! _); [apply changes_refl|]. apply files_kept_changes. split; try done; by exists []. }
  exists w2. split; [by eapply changes_trans|]. rw /DBImpl.check_exists. fold db.
  rw (bind_run _ _ w (w_fresh_fd w) w1); [by rw /sys E1|]. cbn zeta. rw (proj2 (Z.ltb_ge _ _)) //.
  rw (bind_run _ _ w1 true w1); [by rw (bind_run _ _ w1 0 w1) //; rw /sys /sys_flock /pop_ctl Hc1|]. cbn [negb].
  cbn [DBImpl.set_lock DBImpl.dbname_ DBImpl.options_]. fold db.
  rw (bind_run _ _ w1 (match w_dir w !! CurrentFileName db with None => -1 | Some _ => 0 end) w2).
  { rw /sys /sys_access /pop_ctl Hc1 Hcur /w2. by destruct (w_dir w !! CurrentFileName db). }
  destruct (w_dir w !! CurrentFileName db); cbn [negb Z.eqb].
  - by destruct (error_if_exists (DBImpl.options_ d)).
  - by destruct (create_if_missing (DBImpl.options_ d)).
Qed.

(** The directory made and locked. *)
Definition entered (name : bytes) (w : World) : World -> Prop := changes [name; LockFileName name] [] w.

(** [DB::Open] is [Recover] in the locked directory. *)
Lemma Open_steps draw options name e :
  fs_wf (e_world e) -> calm (e_world e) ->
  exists w1 fd, entered name (e_world e) w1 /\ is_Some (w_dir w1 !! name) /\
    let d := DBImpl.set_lock fd (DBImpl.New options name) in
    let e1 := mkEnv w1 (NewBlockCache (block_cache_capacity_bytes options)) in
    (forall vs' e2 x e3, w_dir (e_world e) !! CurrentFileName name = None -> create_if_missing options = true ->
       VersionSet.LogAndApply (DBImpl.versions_ d) DBImpl.initial_edit e1 = Some ((Status.OK, vs'), e2) ->
       recover_rest draw (DBImpl.set_versions vs' d) e2 = Some ((Status.OK, x), e3) ->
       DBImpl.Open draw options name e = Some ((Status.OK, Some x), e3)) /\
    (forall vs' e2 x e3, is_Some (w_dir (e_world e) !! CurrentFileName name) -> error_if_exists options = false ->
       VersionSet.Recover (DBImpl.versions_ d) e1 = Some ((Status.OK, vs'), e2) ->
       recover_rest draw (DBImpl.set_versions vs' d) e2 = Some ((Status.OK, x), e3) ->
       DBImpl.Open draw options name e = Some ((Status.OK, Some x), e3)).
Proof.
  intros Hw Hc. destruct (sys_mkdir_run (e_world e) name Hw Hc) as (r & w0 & E0 & C0 & Hd0).
  pose proof (ch_wf _ _ _ _ C0 Hw) as Hw0. pose proof (ch_calm _ _ _ _ C0 Hc) as Hc0.
  destruct (check_exists_run (DBImpl.New options name) w0 Hw0 Hc0) as (w1 & C1 & E1). simpl in C1, E1.
  assert (Hcur : w_dir w0 !! CurrentFileName name = w_dir (e_world e) !! CurrentFileName name).
  { apply (ch_dir _ _ _ _ C0). intros E%list_elem_of_singleton. symmetry in E. revert E. by apply longer_neq. }
  exists w1, (w_fresh_fd w0). split.
  { eapply changes_trans; eapply changes_mono; [| |exact C0| | |exact C1]; set_solver. }
  split.
  { rw (ch_dir _ _ _ _ C1) //. intros E%list_elem_of_singleton. revert E. by apply longer_neq. }
  cbn zeta. rw Hcur in E1.
  set (e0 := mkEnv w0 (NewBlockCache (block_cache_capacity_bytes options))).
  set (d := DBImpl.set_lock (w_fresh_fd w0) (DBImpl.New options name)) in *.
  assert (Hrun : forall x e3, DBImpl.Recover draw (DBImpl.New options name) e0 = Some ((Status.OK, x), e3) ->
    DBImpl.Open draw options name e = Some ((Status.OK, Some x), e3)).
  { intros x e3 E. rw /DBImpl.Open (bind_run _ _ e r (mkEnv w0 (e_cache e))); [by rw /on_world /sys E0|].
    rw (bind_run _ _ (mkEnv w0 (e_cache e)) tt e0) //. rw (bind_run _ _ _ _ _ E) //. }
  split; intros vs' e2 x e3 Hcr Hopt Hvs Hrest; apply Hrun; rw /DBImpl.Recover.
  - rw Hcr Hopt in E1. rw (bind_run _ _ _ _ _ (on_world_run _ e0 _ _ E1)). cbn iota beta. rw (bind_run _ _ _ _ _ Hvs).
    cbn iota beta zeta. change (negb (Status.ok Status.OK)) with false. cbn iota. exact Hrest.
  - destruct Hcr as [ino Hcr]. rw Hcr Hopt in E1. rw (bind_run _ _ _ _ _ (on_world_run _ e0 _ _ E1)). cbn iota beta. rw (bind_run _ _ _ _ _ Hvs).
    cbn iota beta zeta. change (negb (Status.ok Status.OK)) with false. cbn iota. exact Hrest.
Qed.
