(* ===== verification/Reopen.v ===== *)
(** * Reopen: [VersionSet::Recover] in the directory of a database

    After the process has gone the files are still there.  Reading the manifest again
    gives a version whose tables are those of the database. *)

From S2P Require Import Prelude Status Slice Coding Format Posix Env Filename Wal SkipList Entry Iterator Memtable.
From S2P Require Import MergingIterator DBIterator Block BlockCache Options.
From S2P Require Import SSTableBuilder SSTableReader TwoLevelIterator VersionEdit Version Storage VersionSet Manifest NewManifest.

#[local] Open Scope Z_scope.

(** ** Opening the tables of all levels *)

Lemma open_files_run R opts db fs tis :
  quiet R -> Forall2 (file_rep R db) fs tis ->
  grows R (VersionSet.open_files opts db fs) (fun R' fs' => Forall2 (file_rep R' db) fs' tis).
Proof.
  revert R tis; induction fs as [|f fs IH]; intros R tis Hq Hf.
  { apply Forall2_nil_inv_l in Hf as ->. by apply grows_ret. }
  apply Forall2_cons_inv_l in Hf as (ti & tis' & Hf & Hfs & ->). cbn [VersionSet.open_files].
  eapply grows_bind; [by apply OpenReader_run|]. intros R1 [s f'] X1 (_ & Hf' & _).
  eapply grows_bind; [eapply IH; [by eapply quiet_mono|]|].
  { eapply Forall2_impl; [exact Hfs|]. intros. by eapply file_rep_mono. }
  intros R2 fs' X2 Hfs'. apply grows_ret. constructor; [by eapply file_rep_mono|done].
Qed.

Lemma open_levels_run R opts db files tiss :
  quiet R -> Forall2 (Forall2 (file_rep R db)) files tiss ->
  grows R (VersionSet.open_levels opts db files) (fun R' files' => Forall2 (Forall2 (file_rep R' db)) files' tiss).
Proof.
  revert R tiss; induction files as [|fs files IH]; intros R tiss Hq Hf.
  { apply Forall2_nil_inv_l in Hf as ->. by apply grows_ret. }
  apply Forall2_cons_inv_l in Hf as (tis & tiss' & Hf & Hfs & ->). cbn [VersionSet.open_levels].
  eapply grows_bind; [by apply open_files_run|]. intros R1 fs' X1 Hf'.
  eapply grows_bind; [eapply IH; [by eapply quiet_mono|by eapply levels_mono]|].
  intros R2 files' X2 Hfs'. apply grows_ret. constructor; [|done].
  eapply Forall2_impl; [exact Hf'|]. intros. by eapply file_rep_mono.
Qed.

Lemma files_rep_rebase R w db files tiss :
  Forall2 (Forall2 (file_rep R db)) files tiss -> Forall2 (Forall2 (file_rep (rebase R w) db)) files tiss.
Proof.
  intros H. eapply Forall2_impl; [exact H|]. intros fs tis Hf. eapply Forall2_impl; [exact Hf|]. intros. by apply file_rep_rebase.
Qed.

Section recover.
Context (db : bytes) (R : registry) (vs : VersionSet.t) (opts : Options) (n : Z) (edits : list VersionEdit)
  (o : WalReader.out) (k : nat) (st : VersionSet.recovered) (e : TableEnv) (tiss : list (list table_info)).
Context (Hs : store db R e) (Hdb : VersionSet.dbname_ vs = db) (Hopts : VersionSet.options_ vs = Some opts)
  (Hm : shows_manifest db n (manifest_bytes edits ++ take k (encode_out o)) (e_world e))
  (Ho : out_ok o) (Hk : (k < length (encode_out o))%nat) (Hok : Forall edit_fine edits) (Hst : replay nothing_recovered edits = Some st)
  (Hf : Forall2 (Forall2 (file_rep R db)) (VersionSet.sort_levels (VersionSet.rc_files st)) tiss).

(** [Recover] gives a version of the tables that the manifest lists. *)
Lemma Recover_store :
  exists vs' e' R', VersionSet.Recover vs e = Some ((Status.OK, vs'), e') /\ store db R' e' /\
    (exists fd, changes [] [fd] (e_world e) (e_world e')) /\
    rg_files R' = rg_files R /\ Forall2 (Forall2 (file_rep R' db)) (Version.files_ (VersionSet.current_ vs')) tiss /\
    recovered_as vs' st /\ VersionSet.descriptor_log_ vs' = VersionSet.descriptor_log_ vs /\
    VersionSet.dbname_ vs' = db /\ Version.dbname_ (VersionSet.current_ vs') = db.
Proof.
  pose proof (store_wf _ _ _ Hs) as Hw. pose proof (calm_benign _ (so_calm _ _ _ Hs)) as Hb.
  destruct e as [w c]. simpl in *.
  destruct (recover_manifest_run _ _ _ _ _ _ _ Hw Hb Hm Ho Hk Hok Hst)
    as (line & w1 & r & w2 & w3 & E1 & Hne & K1 & E2 & Hfd & E3 & K3 & Hlt & ino & f & Hd & Hf3 & Hi).
  pose proof (files_kept_trans _ _ _ K1 K3) as K13.
  assert (Hs3 : store db (rebase R w3) (mkEnv w3 c)).
  { eapply (store_changes db R (mkEnv w c)); [done|by apply files_kept_changes|..]; by intros ? ?%elem_of_nil. }
  destruct (store_grows db (rebase R w3) (mkEnv w3 c) _ _ Hs3 (open_levels_run (rebase R w3) opts db _ tiss
    (store_quiet _ _ _ Hs3) (files_rep_rebase R w3 _ _ _ Hf))) as (files & R4 & e4 & E4 & X4 & Hs4 & K4 & Hf4).
  simpl in K4. set (w5 := (sys_close (w_fresh_fd w1) (e_world e4)).2).
  pose proof (close_changes [] (w_fresh_fd w1) (e_world e4)) as C5. fold w5 in C5.
  assert (Hs5 : store db (rebase (rebase R4 (e_world e4)) w5) (mkEnv w5 (e_cache e4))).
  { eapply store_changes; [exact Hs4|exact C5|by intros ? ?%elem_of_nil|]. intros fd ->%list_elem_of_singleton.
    eapply (store_private_fd db _ e4 (ManifestFileName db n) ino _ f); [exact Hs4|apply manifest_not_table| |..|done].
    - by rw (fk_dir _ _ K4) (fk_dir _ _ K13).
    - by rw (fk_fds _ _ K4). }
  assert (E : exists vs', VersionSet.Recover vs (mkEnv w c) = Some ((Status.OK, vs'), mkEnv w5 (e_cache e4)) /\
    Version.files_ (VersionSet.current_ vs') = files /\ VersionSet.dbname_ vs' = db /\ Version.dbname_ (VersionSet.current_ vs') = db).
  { rw /VersionSet.Recover Hdb (bind_run _ _ _ (Some line) (mkEnv w1 c)); [by rw /on_world E1|]. cbn iota.
    rw bool_decide_false //. rw (bind_run _ _ _ r (mkEnv w2 c)); [by rw /on_world E2|].
    rw (bind_run _ _ _ (inr st) (mkEnv w3 c)); [rw /on_world; cbn [e_world]; by rw E3|]. cbn iota.
    rw Hopts (bind_run _ _ _ _ _ E4) (bind_run _ _ e4 tt (mkEnv w5 (e_cache e4))).
    { rw /on_world /WalReader.Destroy Hfd. pose proof (fw_fd _ (files_kept_wf _ _ K1 Hw)). by rw (proj2 (Z.geb_le _ _)). }
    eexists. split; [done|]. simpl. auto. }
  destruct E as (vs' & E & H1 & H2 & H3). pose proof Hm as Hm'. rw -Hdb in Hm'.
  destruct (Recover_run vs n edits o k st (mkEnv w c) Hw Hb Hm' Ho Hk Hok Hst) as (vs2 & e2 & E' & _ & Hra & Hdl).
  rw E in E'. injection E' as <- <-. exists vs'. eexists _, _. split; [done|]. split; [exact Hs5|]. split.
  { exists (w_fresh_fd w1). eapply changes_trans; [|exact C5]. apply files_kept_changes. by eapply files_kept_trans. }
  simpl. split; [by rw (ex_files _ _ X4)|]. rw H1. split; [by do 2 apply files_rep_rebase|]. auto.
Qed.
End recover.

(** ** The tables of a database that has gone *)

Section gone.
Context (db : bytes) (R : registry) (e : TableEnv) (w2 : World) (limit : Z).

(** Of the tables below [limit], what a new process finds. *)
Definition reopened : registry :=
  mkRegistry w2 (filter (fun x : Z * table_info => x.1 < limit) (rg_files R))
    (map_imap (fun n _ => if decide (rg_paths R !! TableFileName db n = Some n /\ n < limit) then w_dir w2 !! TableFileName db n else None)
       (rg_files R)) ∅ (filter (fun x : bytes * Z => x.2 < limit) (rg_paths R)).

Lemma reopened_ino n i :
  rg_inos reopened !! n = Some i -> rg_paths R !! TableFileName db n = Some n /\ n < limit /\ w_dir w2 !! TableFileName db n = Some i.
Proof.
  simpl. rw map_lookup_imap. destruct (rg_files R !! n); [|done]. simpl. case_decide as Hd; [|done]. intros Hi. tauto.
Qed.

Lemma store_reopened cap :
  store db R e -> fs_wf w2 -> calm w2 -> small cap ->
  (forall p n, rg_paths R !! p = Some n -> n < limit -> content_at w2 p = content_at (e_world e) p) ->
  store db reopened (mkEnv w2 (NewBlockCache cap)).
Proof.
  intros [[H1 Hw Hk H2 H3 Hp [Hi1 Hi2] H4 H5] [L1 L0 L2 L3] Hb Hc] Hw2 Hc2 Hcap Hkept. split; [split|split|done|done]; simpl.
  - by apply calm_benign.
  - done.
  - apply files_kept_refl.
  - intros n ti [Hn _]%map_lookup_filter_Some. eauto.
  - done.
  - intros p n [Hn Hl]%map_lookup_filter_Some. simpl in Hl. destruct (Hp p n Hn) as (ti & Ht & Hct). exists ti. split.
    + by apply map_lookup_filter_Some.
    + by rw (Hkept p n).
  - split; [done|]. intros p n ino [Hn Hl]%map_lookup_filter_Some Hd. simpl in Hl. destruct (Hp p n Hn) as (ti & Ht & _).
    pose proof (L1 p n Hn). subst p. rw map_lookup_imap Ht /=. by rw decide_True.
  - by apply NewBlockCache_inv.
  - by intros c ?%elem_of_nil.
  - intros p n [Hn _]%map_lookup_filter_Some. auto.
  - intros p n [Hn _]%map_lookup_filter_Some. eauto.
  - intros n i (_ & _ & Hd)%reopened_ino. by apply (fw_fresh _ Hw2) in Hd.
  - intros p n i Hd (Hn & Hl & Hd')%reopened_ino. rw (fw_inj _ Hw2 _ _ _ Hd Hd'). by apply map_lookup_filter_Some.
Qed.

Lemma reopened_files files tiss :
  Forall2 (Forall2 (file_rep R db)) files tiss -> Forall (Forall (fun f => number f < limit)) (strip files) ->
  Forall2 (Forall2 (file_rep reopened db)) (strip files) tiss.
Proof.
  intros Hf. induction Hf as [|fs tis files tiss Hfs _ IH]; [constructor|]. intros [Hl Hl']%Forall_cons. constructor; [clear -Hfs Hl|by apply IH].
  induction Hfs as [|f ti fs tis [G1 G2 G3 G4 G5 G6 G7] _ IH]; [constructor|]. rw fmap_cons in Hl |- *. apply Forall_cons in Hl as [Hl Hl'].
  constructor; [|by apply IH]. split; simpl; auto; by apply map_lookup_filter_Some.
Qed.
End gone.
