(* ===== verification/OpenDB.v ===== *)
(** * OpenDB: what [DB::Open] makes of a directory

    A directory without files becomes an empty database; the directory of a database
    that has gone becomes a database with the same content. *)

From S2P Require Import Prelude Status Slice Coding Format Posix Env Filename Wal SkipList Entry Iterator Memtable.
From S2P Require Import MergingIterator DBIterator Block BlockCache Options.
From S2P Require Import SSTableBuilder SSTableReader TwoLevelIterator VersionEdit Version Storage VersionSet Manifest NewManifest Compaction DBImpl Directory Flush Database Recovery Reopen.

#[local] Open Scope Z_scope.

(** ** A new database *)

(** No name in the directory. *)
Definition empty_dir (name : bytes) (w : World) : Prop := forall fname, w_dir w !! (name ++ str "/" ++ fname) = None.

(** Tables of nothing. *)
Definition no_tables (w : World) : registry := mkRegistry w ∅ ∅ ∅ ∅.

Lemma store_no_tables db w cap :
  fs_wf w -> calm w -> small cap -> store db (no_tables w) (mkEnv w (NewBlockCache cap)).
Proof.
  intros Hw Hc Hcap. split; [|by split|done|done].
  split; simpl; try done; [by apply calm_benign|apply files_kept_refl|by apply NewBlockCache_inv|by intros c ?%elem_of_nil].
Qed.

(** The levels of a new version set. *)
Lemma new_levels_ok : levels_ok (replicate (Z.to_nat kNumLevels) []).
Proof. split; [done| |done]. split; simpl; repeat constructor. Qed.

Lemma new_version_rep R db : version_rep R (Version.New db) (replicate (Z.to_nat kNumLevels) []).
Proof. split; [simpl; repeat constructor|done|simpl; repeat constructor|constructor]. Qed.

Lemma entry_empty name w p : empty_dir name w -> (exists fname, p = name ++ str "/" ++ fname) -> w_dir w !! p = None.
Proof. by intros H [fname ->]. Qed.

Lemma manifest_entry db k : 0 <= k < 2 ^ 64 -> exists rest, ManifestFileName db k = db ++ str "/" ++ str "MANIFEST-" ++ rest.
Proof.
  intros Hk. destruct (format_06llu_spec k Hk) as (_ & _ & Hl & _). rw /ManifestFileName /snprintf64. rw take_ge; [simpl; lia|].
  by exists (format_06llu k).
Qed.

Section open_new.
Context (draw : nat -> Z) (options : Options) (name : bytes) (e : TableEnv).
Context (Hw : fs_wf (e_world e)) (Hc : calm (e_world e)) (Hnone : empty_dir name (e_world e))
  (Ho : options_ok options) (Hcap : small (block_cache_capacity_bytes options)) (Hcreate : create_if_missing options = true).

Lemma open_new_run :
  exists d e' R tiss edits st, DBImpl.Open draw options name e = Some ((Status.OK, Some d), e') /\
    db_at d e' R tiss NewMemtable edits st /\ db_entries d tiss NewMemtable = [] /\
    DBImpl.dbname_ d = name /\ DBImpl.options_ d = options.
Proof.
  destruct (Open_steps draw options name e Hw Hc) as (w1 & fd & Hent & Hdir & Hopen & _). cbn zeta in Hopen.
  set (d0 := DBImpl.set_lock fd (DBImpl.New options name)) in *. set (vs := DBImpl.versions_ d0) in *.
  pose proof (ch_wf _ _ _ _ Hent Hw) as Hw1. pose proof (ch_calm _ _ _ _ Hent Hc) as Hc1.
  assert (Hnone1 : forall fname, fname <> str "LOCK" -> w_dir w1 !! (name ++ str "/" ++ fname) = None).
  { intros fname Hne. rw (ch_dir _ _ _ _ Hent); [|apply Hnone]. intros [E|[E|[]%elem_of_nil]%elem_of_cons]%elem_of_cons.
    - symmetry in E. revert E. by apply longer_neq.
    - by apply app_inv_head, (app_inv_head (str "/")) in E. }
  pose proof (store_no_tables name w1 _ Hw1 Hc1 Hcap) as Hs.
  set (e1 := mkEnv w1 _) in *.
  assert (Hman : forall k, 0 <= k < 2 ^ 64 -> w_dir w1 !! ManifestFileName name k = None).
  { intros k Hk. destruct (manifest_entry name k Hk) as (rest & ->). by apply Hnone1. }
  assert (Hlog : forall k, 0 <= k < 2 ^ 64 -> w_dir w1 !! LogFileName name k = None).
  { intros k Hk. destruct (log_entry_name name k Hk) as (fname & -> & _ & En). apply Hnone1. intros ->. done. }
  assert (Hnew : manifest_new vs w1).
  { split; simpl; try done; try lia; [by intros k Hk; apply Hman; lia|apply new_levels_ok|repeat constructor..]. }
  destruct (ready_LogAndApply name (no_tables w1) vs DBImpl.initial_edit (replicate (Z.to_nat kNumLevels) []) e1 Hs eq_refl) as
    (vs' & edits' & st' & e2 & paths & fds & E2 & Hs2 & Hch2 & Hpaths & Hfds & Hop & Hq & Hmx & [G1 G2 G3 [G4 _] G5]).
  { by right. }
  { split; simpl; try done. }
  { apply size_edit_fine; [|rw EncodeTo_segments; cbn; rw ?size_of_app; size_tac].
    split; simpl; split_and?; try done; try lia; constructor. }
  { constructor. }
  { done. }
  { apply new_levels_ok. }
  specialize (Hmx (or_intror eq_refl)). simpl in G1, G2, G3, Hch2. pose proof (mo_number _ _ _ _ Hop) as [Hmn Hmn'].
  set (d1 := DBImpl.set_versions vs' d0).
  assert (Hrv : recovering d1 e2 (rebase (no_tables w1) (e_world e2)) (replicate (Z.to_nat kNumLevels) []) 0 []).
  { split; simpl; rw ?G1 ?G2 ?G5 //; try lia.
    - apply new_version_rep.
    - left. eauto.
    - intros k Hk. rw (ch_dir _ _ _ _ Hch2); [|apply Hman; lia]. intros Hin%Hpaths. apply manifest_in_manifest_paths in Hin; lia.
    - split.
      + eapply (tidy_changes _ w1); [eapply tidy_changes; [|exact Hent|]|exact Hch2|].
        * intros p [i Hp] fname [-> _]%entry_name_Some. by rw Hnone in Hp.
        * intros p [->|[->|[]%elem_of_nil]%elem_of_cons]%elem_of_cons; [apply scan_dir|apply scan_lock].
        * intros p Hin%Hpaths. by eapply scan_manifest_paths.
      + rw (ch_dir _ _ _ _ Hch2) //. intros Hin%Hpaths. by eapply db_not_in_manifest_paths.
    - intros j Hj [i Hi]. rw (ch_dir _ _ _ _ Hch2) in Hi; [|by rw Hlog in Hi]. intros Hin%Hpaths. by eapply log_not_in_manifest_paths. }
  destruct (recover_rest_run draw [] d1 e2 (rebase (no_tables w1) (e_world e2)) (replicate (Z.to_nat kNumLevels) [])) as (d' & e' & R' & tiss' & edits & st & E3 & Hat & Hent' & Hn' & Ho').
  { by rw /= G1. } { constructor. } { constructor. } { constructor. } { done. } { simpl. lia. }
  exists d', e', R', tiss', edits, st. split; [|by split_and!].
  eapply Hopen; [apply Hnone|done|exact E2|exact E3].
Qed.
End open_new.

(** ** A database that has gone *)

(** The file ends in a record that was not written to its end, if at all. *)
Definition torn_after (w w2 : World) (p : bytes) : Prop :=
  exists c o k, content_at w p = Some c /\ out_ok o /\ (k < length (encode_out o))%nat /\
    content_at w2 p = Some (c ++ take k (encode_out o)).

(** The file system after the process has died, perhaps while it was appending to the
    log or the manifest or writing a table. *)
Record crashed (d : DBImpl.t) (w w2 : World) : Prop := {
  cs_wf : fs_wf w2;
  cs_calm : calm w2;
  cs_log : torn_after w w2 (LogFileName (DBImpl.dbname_ d) (DBImpl.log_file_number_ d));
  cs_manifest : torn_after w w2 (ManifestFileName (DBImpl.dbname_ d) (VersionSet.manifest_file_number_ (DBImpl.versions_ d)));
  cs_kept : forall p, p <> LogFileName (DBImpl.dbname_ d) (DBImpl.log_file_number_ d) ->
    p <> ManifestFileName (DBImpl.dbname_ d) (VersionSet.manifest_file_number_ (DBImpl.versions_ d)) ->
    (forall k, VersionSet.next_file_number_ (DBImpl.versions_ d) <= k < 2 ^ 64 -> TableFileName (DBImpl.dbname_ d) k <> p) ->
    content_at w2 p = content_at w p;
}.

Lemma content_at_is_Some w p : is_Some (content_at w p) <-> is_Some (w_dir w !! p).
Proof. rw /content_at. destruct (w_dir w !! p); simpl; split; intros [x Hx]; try done; eauto. Qed.

(** ** Sizes of what is replayed *)

Lemma recover_new_files_Forall (P : FileMetaData -> Prop) items files m files' m' :
  VersionSet.recover_new_files items files m = Some (files', m') -> Forall (Forall P) files ->
  Forall (fun n : Z * FileMetaData => P n.2) items -> Forall (Forall P) files'.
Proof.
  revert files m; induction items as [|[level f] items IH]; intros files m E Hf Hi; [by injection E as <- <-|].
  apply Forall_cons in Hi as [Hfi Hi]. simpl in E, Hfi. rw /VersionSet.push_file in E. destruct (level <? 0); [done|].
  destruct (files !! Z.to_nat level) as [fs|] eqn:El; [|done]. simpl in E. eapply IH; [exact E| |done].
  apply Forall_insert; [done|]. apply Forall_app. split; [|by constructor]. rewrite -> Forall_lookup in Hf. eauto.
Qed.

Lemma replay_files_ok edits st st' :
  replay st edits = Some st' -> Forall edit_fine edits -> Forall (Forall file_ok) (VersionSet.rc_files st) ->
  Forall (Forall file_ok) (VersionSet.rc_files st').
Proof.
  revert st; induction edits as [|edit edits IH]; intros st E Hok Hf; [by injection E as <-|].
  apply Forall_cons in Hok as [[Hedit _] Hok]. cbn [replay] in E.
  destruct (VersionSet.recover_edit st (forget_readers edit)) as [st1|] eqn:E1; [|done]. eapply IH; [exact E|done|].
  rw /VersionSet.recover_edit in E1. destruct (VersionSet.recover_new_files _ _ _) as [[files mx]|] eqn:En; [|done]. injection E1 as <-. simpl.
  eapply recover_new_files_Forall; [exact En|by apply retain_levels_Forall|]. simpl. apply Forall_fmap.
  eapply Forall_impl; [exact (eo_new _ Hedit)|]. intros [l f] [_ [F1 F2 F3 F4]]. by split.
Qed.

(** A path is a table's, or it is not. *)
Lemma table_or_not db p : (exists k, 0 <= k < 2 ^ 64 /\ p = TableFileName db k) \/ not_table db p.
Proof.
  destruct (entry_name db p ≫= sst_entry_number) as [[k|]|] eqn:E.
  1: destruct (decide (0 <= k < 2 ^ 64 /\ p = TableFileName db k)) as [H|H]; [left; eauto|].
  all: right; intros j Hj <-; destruct (sst_entry_name db j Hj) as (fname & _ & E1 & E2); rewrite -> E1 in E; cbn [mbind option_bind] in E; rewrite -> E2 in E; try discriminate E; injection E as ->; auto.
Qed.

Lemma levels_ok_strip a b : strip a = strip b -> levels_ok a -> levels_ok b.
Proof. intros E [H1 H2 H3]. split; rw -?E //. by rw -strip_length -E strip_length. Qed.

(** ** Reopening *)

Section reopen.
Context (draw : nat -> Z) (options : Options) (cache : BlockCache Block) (d : DBImpl.t) (e : TableEnv) (R : registry)
  (tiss : list (list table_info)) (m : Memtable) (edits : list VersionEdit) (st : VersionSet.recovered) (w2 : World).
Let db := DBImpl.dbname_ d.
Let vs := DBImpl.versions_ d.
Let n := DBImpl.log_file_number_ d.
Let mn := VersionSet.manifest_file_number_ vs.
Context (Hd : db_at d e R tiss m edits st) (Hcr : crashed d (e_world e) w2).

(** A path whose file has not changed. *)
Definition steady (p : bytes) : Prop :=
  p <> db /\ p <> LockFileName db /\ p <> LogFileName db n /\ p <> ManifestFileName db mn /\
  forall k, VersionSet.next_file_number_ vs <= k < 2 ^ 64 -> TableFileName db k <> p.

Lemma db_numbers : 0 <= n < 2 ^ 64 /\ 0 <= mn < 2 ^ 64.
Proof. pose proof (da_numbers _ _ _ _ _ _ _ Hd). pose proof (mo_number _ _ _ _ (da_manifest _ _ _ _ _ _ _ Hd)). rw /n /mn /vs. lia. Qed.

Lemma steady_log j : 0 <= j < 2 ^ 64 -> j <> n -> steady (LogFileName db j).
Proof.
  intros Hj Hne. destruct db_numbers as [Hn _]. split_and!.
  - intros E. symmetry in E. revert E. apply db_not_log.
  - by apply log_not_letter.
  - intros E. apply Hne. by eapply LogFileName_inj.
  - by apply log_not_manifest.
  - intros k Hk. apply log_not_table; [done|]. pose proof (da_numbers _ _ _ _ _ _ _ Hd) as [_ Hx]. fold vs in Hx. lia.
Qed.

Lemma steady_manifest j : 0 <= j < 2 ^ 64 -> j <> mn -> steady (ManifestFileName db j).
Proof.
  intros Hj Hne. destruct db_numbers as [Hn Hmn]. destruct (manifest_entry db j Hj) as [rest E]. split_and!.
  - rw E. intros E'. symmetry in E'. revert E'. by apply longer_neq.
  - rw E. by intros E'%app_inv_head.
  - intros E'. symmetry in E'. revert E'. by apply log_not_manifest.
  - intros E'. apply Hne. by eapply ManifestFileName_inj.
  - intros k Hk. apply manifest_not_table. pose proof (da_numbers _ _ _ _ _ _ _ Hd) as [_ Hx]. fold vs in Hx. lia.
Qed.

Lemma steady_current : steady (CurrentFileName db).
Proof.
  destruct db_numbers as [Hn Hmn]. split_and!.
  - intros E'. symmetry in E'. revert E'. by apply longer_neq.
  - by intros E'%app_inv_head.
  - intros E'. symmetry in E'. revert E'. by apply log_not_current.
  - intros E'. symmetry in E'. revert E'. apply manifest_current_neq.
  - intros k Hk. apply current_not_table. pose proof (da_numbers _ _ _ _ _ _ _ Hd) as [_ Hx]. fold vs in Hx. lia.
Qed.

Lemma steady_table p j : rg_paths R !! p = Some j -> j < VersionSet.rc_max_file st -> steady p.
Proof.
  destruct db_numbers as [Hn Hmn]. pose proof (so_layout _ _ _ (da_store _ _ _ _ _ _ _ Hd)) as [L1 L0 _ _]. fold db in L1, L0.
  intros Hp Hlt. pose proof (L0 _ _ Hp) as Hj. rw (L1 _ _ Hp). pose proof (ms_next _ _ (mo_state _ _ _ _ (da_manifest _ _ _ _ _ _ _ Hd))) as Hx.
  fold vs in Hx. split_and!.
  - intros E'. symmetry in E'. revert E'. apply db_not_table.
  - by apply (not_table_letter db Byte.x4c).
  - by apply log_not_table.
  - by apply manifest_not_table.
  - intros k Hk E'. assert (k = j) by (eapply TableFileName_inj; [lia|lia|exact E']). lia.
Qed.

(** Taking the lock changes nothing of the database. *)
Lemma entered_torn w1 p : entered db w2 w1 -> p <> db -> p <> LockFileName db -> torn_after (e_world e) w2 p -> torn_after (e_world e) w1 p.
Proof.
  intros Hent H1 H2 (c & o & k & Hc & Ho & Hk & Hc2). exists c, o, k. split_and!; auto.
  rw (changes_content_at _ _ _ _ _ (cs_wf _ _ _ Hcr) Hent) //. by intros [?|[?|?%elem_of_nil]%elem_of_cons]%elem_of_cons.
Qed.

Lemma entered_steady w1 p : entered db w2 w1 -> steady p -> content_at w1 p = content_at (e_world e) p.
Proof.
  intros Hent (H1 & H2 & H3 & H4 & H5). rw (changes_content_at _ _ _ _ _ (cs_wf _ _ _ Hcr) Hent).
  - by intros [?|[?|?%elem_of_nil]%elem_of_cons]%elem_of_cons.
  - by apply (cs_kept _ _ _ Hcr).
Qed.

Lemma entered_tidy w1 : entered db w2 w1 -> tidy db w1.
Proof.
  intros Hent. destruct db_numbers as [Hn Hmn]. destruct (da_tidy _ _ _ _ _ _ _ Hd) as [Ht _]. fold db in Ht.
  eapply (tidy_changes _ w2); [|exact Hent|].
  - intros p Hp. destruct (decide (p = LogFileName db n)) as [->|H1]; [by apply scan_log|].
    destruct (decide (p = ManifestFileName db mn)) as [->|H2]; [by apply scan_manifest|].
    destruct (table_or_not db p) as [(k & Hk & ->)|Hnt]; [by apply scan_table|]. apply Ht, content_at_is_Some.
    rw -(cs_kept _ _ _ Hcr) //; [|by apply content_at_is_Some]. intros k Hk. apply Hnt.
    pose proof (da_numbers _ _ _ _ _ _ _ Hd) as [_ Hx]. fold vs in Hx, Hk. pose proof (da_numbers _ _ _ _ _ _ _ Hd). fold n vs in H. lia.
  - intros p [->|[->|[]%elem_of_nil]%elem_of_cons]%elem_of_cons; [apply scan_dir|apply scan_lock].
Qed.

(** The logs that are replayed. *)
Lemma gone_logs w1 :
  entered db w2 w1 ->
  exists logs, StronglySorted (fun a b : Z * Memtable => a.1 < b.1) logs /\ Forall (log_of db w1) logs /\
    Forall (fun l : Z * Memtable => VersionSet.log_number_ vs <= l.1 <= VersionSet.rc_max_file st) logs /\
    newer_logs logs (version_entries tiss) /\ replayed logs (version_entries tiss) = db_entries d tiss m /\ (length logs <= 2)%nat /\
    forall j, VersionSet.log_number_ vs <= j < 2 ^ 64 -> is_Some (w_dir w1 !! LogFileName db j) -> j ∈ logs.*1.
Proof.
  intros Hent. destruct db_numbers as [Hn Hmn].
  destruct Hd as [A1 A2 A3 A4 A5 A6 [A7 A7'] A8 A9 [A10 A10'] A11 A12 A13 A14 A15 A16 A17 A18 A19 A20 [A21 [A21' A21'']]].
  fold db vs n in A12, A13, A15, A21, A21', A21''.
  assert (Hlive : forall j, VersionSet.log_number_ vs <= j < 2 ^ 64 -> j <> n -> is_Some (w_dir w1 !! LogFileName db j) ->
    live_log d (e_world e) j).
  { intros j Hj Hne Hs. split; [done|]. fold db. apply content_at_is_Some. rw -(entered_steady w1) //; [apply steady_log; [lia|done]|].
    by apply content_at_is_Some. }
  assert (Hlog : log_of db w1 (n, m)).
  { split; [done|]. destruct A12 as (log & Hc & Hp & Hord & Hok). exists log. split; [done|]. split; [done|]. split; [done|].
    destruct (entered_torn w1 (LogFileName db n) Hent) as (c & o & k & Hc' & Ho & Hk & Hc2).
    - intros E. symmetry in E. revert E. apply db_not_log.
    - by apply log_not_letter.
    - apply Hcr.
    - exists o, k. split_and!; auto. simpl. rw Hc2. congruence. }
  rw /db_entries /imm_entries in A10 A10' |- *. destruct (DBImpl.imm_ d) as [i|] eqn:Ei; simpl in *.
  - destruct A13 as (k & Hk & (log & Hc & Hp & Hord & Hok) & Hl). exists [(k, i); (n, m)]. split.
    { repeat constructor. simpl. lia. }
    split.
    { constructor; [|by constructor]. split; [apply A8|]. exists log. split; [done|]. split; [done|]. split; [done|].
      exists (WalReader.mkOut 0 kTypeValue [] []), 0%nat. split; [done|]. split; [apply length_encode_out|]. simpl.
      rw (entered_steady w1) //; [apply steady_log; lia|]. by rw Hc app_nil_r. }
    split; [repeat constructor; simpl; lia|]. split; [by split|]. split; [by rw /= app_assoc|]. split; [done|].
    intros j Hj Hs. simpl. destruct (decide (j = n)) as [->|Hne]; [by right; left|]. destruct (Hl j) as [->|?]; [by apply Hlive|by left|done].
  - exists [(n, m)]. split; [repeat constructor|]. split; [by constructor|]. split; [repeat constructor; simpl; lia|].
    split; [by split|]. split; [done|]. split; [simpl; lia|]. intros j Hj Hs. simpl. destruct (decide (j = n)) as [->|Hne]; [by left|].
    exfalso. apply Hne, A13. by apply Hlive.
Qed.

Context (Ho : options_ok options) (Hcap : small (block_cache_capacity_bytes options)) (Hex : error_if_exists options = false)
  (Hsize : snapshot_size (Version.files_ (VersionSet.current_ vs)) <= 2 ^ 25) (Hnext : VersionSet.next_file_number_ vs + 8 < 2 ^ 64).

Lemma reopen_run :
  exists d' e' R' tiss' edits' st', DBImpl.Open draw options db (mkEnv w2 cache) = Some ((Status.OK, Some d'), e') /\
    db_at d' e' R' tiss' NewMemtable edits' st' /\ db_entries d' tiss' NewMemtable = db_entries d tiss m /\
    DBImpl.dbname_ d' = db /\ DBImpl.options_ d' = options.
Proof.
  destruct db_numbers as [Hn Hmn]. pose proof (da_numbers _ _ _ _ _ _ _ Hd) as Hnum. fold vs n in Hnum.
  pose proof (da_manifest _ _ _ _ _ _ _ Hd) as Hop. pose proof (mo_state _ _ _ _ Hop) as Hms. pose proof (mo_number _ _ _ _ Hop) as [_ Hmn'].
  pose proof (ms_next _ _ Hms) as Hnx. pose proof (ms_seq _ _ Hms) as Hsq. pose proof (da_seq _ _ _ _ _ _ _ Hd) as Hsq'. 
  destruct (da_log_next _ _ _ _ _ _ _ Hd) as [Hlg _]. fold vs in Hop, Hms, Hnx, Hsq, Hsq', Hlg, Hmn'.
  destruct (da_names _ _ _ _ _ _ _ Hd) as [Hdbn Hdbv]. fold vs db in Hdbn, Hdbv.
  destruct (Open_steps draw options db (mkEnv w2 cache) (cs_wf _ _ _ Hcr) (cs_calm _ _ _ Hcr)) as (w1 & fd & Hent & Hdir & _ & Hopen).
  cbn zeta in Hopen. simpl in Hent. set (d0 := DBImpl.set_lock fd (DBImpl.New options db)) in *.
  pose proof (ch_wf _ _ _ _ Hent (cs_wf _ _ _ Hcr)) as Hw1. pose proof (ch_calm _ _ _ _ Hent (cs_calm _ _ _ Hcr)) as Hc1.
  destruct (gone_logs w1 Hent) as (logs & L1 & L2 & L3 & L4 & L5 & L6 & L7).
  destruct (entered_torn w1 (ManifestFileName db mn) Hent) as (c & o & k & Hc & Hoo & Hk & Hc2).
  { destruct (manifest_entry db mn Hmn) as [rest ->]. intros E'. symmetry in E'. revert E'. by apply longer_neq. }
  { destruct (manifest_entry db mn Hmn) as [rest ->]. by intros E'%app_inv_head. }
  { apply Hcr. }
  assert (c = manifest_bytes edits) as ->.
  { destruct (mo_writer _ _ _ _ Hop) as (wr & ino & _ & _ & _ & _ & Hdm & Hcm). rw Hdbn in Hdm. rw /content_at in Hc. fold mn in Hdm.
    rw Hdm /= in Hc. congruence. }
  assert (Hsh : shows_manifest db mn (manifest_bytes edits ++ take k (encode_out o)) w1).
  { split; [done|]. split; [|done]. rw (entered_steady w1) //; [apply steady_current|]. rw -Hdbn. apply Hop. }
  pose proof (store_reopened db R e w1 (VersionSet.rc_max_file st) _ (da_store _ _ _ _ _ _ _ Hd) Hw1 Hc1 Hcap) as Hs1.
  specialize (Hs1 (fun p j Hp Hj => entered_steady w1 p Hent (steady_table p j Hp Hj))).
  pose proof (da_version _ _ _ _ _ _ _ Hd) as [V1 V2 V3 V4]. fold vs in V1. rw Hdbv in V1.
  destruct (Recover_store db _ (DBImpl.versions_ d0) options mn edits o k st _ tiss Hs1 eq_refl eq_refl Hsh Hoo Hk (mo_edits _ _ _ _ Hop)
    (mo_replay _ _ _ _ Hop)) as (vs' & e2 & R2 & E2 & Hs2 & (fd' & Hch2) & Hrf & Hrep & [Q1 Q2 Q3 Q4] & Hdl & Hdb' & Hdb'').
  { rw -(ms_files _ _ Hms). apply reopened_files; [done|]. rw (ms_files _ _ Hms). eapply same_levels_Forall; [apply sort_levels_perm|apply Hms]. }
  simpl in Hch2, Hdl. rw (_ : (VersionSet.rc_max_file st >? 0) = true) in Q2; [apply Z.gtb_lt; lia|]. rw (ms_log _ _ Hms) in Q4.
  pose proof (ch_dir _ _ _ _ Hch2) as Hdir2. rw -(ms_files _ _ Hms) in Q1. set (d1 := DBImpl.set_versions vs' d0).
  assert (Hd2 : forall p, w_dir (e_world e2) !! p = w_dir w1 !! p) by (intros p; apply Hdir2; by intros ?%elem_of_nil).
  assert (Hfree : forall j, VersionSet.rc_max_file st <= j < 2 ^ 64 -> w_dir w1 !! ManifestFileName db j = None).
  { intros j Hj. apply eq_None_not_Some. intros Hs%content_at_is_Some. rw (entered_steady w1) in Hs; [done|apply steady_manifest; lia|].
    apply content_at_is_Some in Hs. rw (da_manifests _ _ _ _ _ _ _ Hd) // in Hs. }
  assert (Hnumbers : Forall (Forall (fun f => number f < VersionSet.rc_max_file st)) (strip (Version.files_ (VersionSet.current_ vs)))).
  { rw (ms_files _ _ Hms). eapply same_levels_Forall; [apply sort_levels_perm|apply Hms]. }
  assert (Hnew : manifest_new vs' (e_world e2)).
  { rw /kMaxSequenceNumber in Hsq'. change (Z.shiftl 1 56) with (2 ^ 56) in Hsq'.
    split; rw ?Hdb' ?Q2 ?Q3 ?Q4 ?Q1 ?Hd2 //; try lia.
    - intros j Hj. rw Hd2. by apply Hfree.
    - eapply levels_ok_strip; [symmetry; exact Q1|]. by eapply manifest_state_levels.
    - rw (ms_files _ _ Hms). eapply same_levels_Forall; [apply sort_levels_perm|].
      eapply replay_files_ok; [apply (mo_replay _ _ _ _ Hop)|apply Hop|repeat constructor].
    - by rw -snapshot_size_strip Q1 snapshot_size_strip. }
  assert (Hrv : recovering d1 e2 R2 tiss (VersionSet.log_number_ vs') logs.*1).
  { split; simpl; rw ?Q2 ?Q3 ?Q4 //; try lia.
    - by split; rw ?Hdb''.
    - apply Hd.
    - by right.
    - intros j Hj. rw Hd2. by apply Hfree.
    - pose proof (da_table_seqs _ _ _ _ _ _ _ Hd) as T1. pose proof (da_seqs _ _ _ _ _ _ _ Hd) as T2.
      rewrite -> Forall_forall in T1, T2 |- *. intros x Hx. specialize (T1 x Hx).
      specialize (T2 x ltac:(apply elem_of_app; right; apply elem_of_app; by right)). lia.
    - intros j ti. rw Hrf. simpl. intros [Hj Hlt]%map_lookup_filter_Some. simpl in Hlt. pose proof (da_files _ _ _ _ _ _ _ Hd j ti Hj). lia.
    - split; [|by rw Hd2]. intros p Hp. rw Hd2 in Hp. by apply (entered_tidy w1).
    - intros j Hj Hs. rw Hd2 in Hs. by apply L7. }
  destruct (recover_rest_run draw logs d1 e2 R2 tiss Hrv) as (d' & e' & R' & tiss' & edits' & st' & E3 & Hat & Hent' & Hn' & Ho'); auto.
  { eapply Forall_impl; [exact L2|]. intros [j mj] (H1 & log & H2 & H3 & H4 & oj & kj & H5 & H6 & H7).
    split; [done|]. exists log. split; [done|]. split; [done|]. split; [done|]. exists oj, kj. split_and!; auto.
    rw (changes_content_at _ _ _ _ _ Hw1 Hch2) //. by intros ?%elem_of_nil. }
  { simpl. by rw Q2 Q4. } { simpl. rw Q2. lia. }
  exists d', e', R', tiss', edits', st'. split.
  { eapply Hopen; [|done|exact E2|exact E3]. simpl. apply content_at_is_Some.
    destruct steady_current as (_ & _ & H3 & H4 & H5). rw (cs_kept _ _ _ Hcr _ H3 H4 H5) -Hdbn (mo_current _ _ _ _ Hop). eauto. }
  split_and!; auto. congruence.
Qed.
End reopen.
