(* ===== verification/Refinement.v ===== *)
(** * Refinement: the database is a map from keys to values

    The abstract database is a finite map.  A run of the database is a sequence of
    calls, steps of the background thread and crashes, from the creation in an empty
    directory on; after every run the database answers as the map does that the
    acknowledged writes of the run make. *)

From S2P Require Import Prelude Status Slice Coding Format Posix Env Filename Wal SkipList Entry Iterator Memtable.
From S2P Require Import MergingIterator DBIterator Block BlockCache Options.
From S2P Require Import SSTableBuilder SSTableReader TwoLevelIterator VersionEdit Version Storage VersionSet Manifest NewManifest Compaction DBImpl Directory Flush MergeLoop Database CompactDatabase FullScan Recovery Reopen OpenDB.

#[local] Open Scope Z_scope.

(** ** Removing obsolete tables *)

Lemma live_tables_kept R v vs tiss paths w db :
  version_rep R v tiss -> layout db R -> Version.dbname_ v = db -> VersionSet.current_ vs = v ->
  (forall n, 0 <= n < 2 ^ 64 -> n ∈ VersionSet.AddLiveFiles vs ∅ -> TableFileName db n ∉ paths) ->
  version_rep (drop_paths paths R w) v tiss.
Proof.
  intros [V1 V2 V3 V4] Hly Hdb Hv Hp. split; auto. rw Hdb in V1 |- *. apply Forall2_same_length_lookup. split; [by eapply Forall2_length|].
  intros l fs tis Hfs Htis. pose proof (Forall2_lookup_lr _ _ _ _ _ _ V1 Hfs Htis) as Hl.
  apply Forall2_same_length_lookup. split; [by eapply Forall2_length|]. intros j f ti Hf Hti.
  pose proof (Forall2_lookup_lr _ _ _ _ _ _ Hl Hf Hti) as Hr. eapply file_rep_evolves; [apply drop_paths_evolves| |exact Hr].
  apply drop_paths_lookup. split; [apply Hr|]. apply Hp; [eapply (ly_numbers _ _ Hly); apply Hr|]. apply AddLiveFiles_spec. exists fs, f. rw Hv.
  split; [by eapply list_elem_of_lookup_2|]. split; [by eapply list_elem_of_lookup_2|done].
Qed.

Lemma db_RemoveObsolete_run d e R tiss m edits st :
  db_at d e R tiss m edits st ->
  exists w' R', DBImpl.RemoveObsoleteFiles d (e_world e) = Some (tt, w') /\ db_at d (mkEnv w' (e_cache e)) R' tiss m edits st.
Proof.
  intros [A1 A2 A3 A4 A5 A6 A7 A8 A9 A10 A11 A12 A13 A14 A15 A16 A17 A18 A19 [A20 A20'] A21].
  destruct (RemoveObsoleteFiles_run d (e_world e) (so_calm _ _ _ A1) A20' A20) as (paths & w' & E & U & Hin).
  set (db := DBImpl.dbname_ d) in *. pose proof (store_wf _ _ _ A1) as Hw. pose proof (unlinked_changes _ _ _ U) as Hch.
  exists w', (drop_paths paths R w'). split; [done|].
  assert (Hnt : forall p, not_table db p -> p ∉ paths).
  { intros p Hp [_ (k & Hk & _ & ->)]%Hin. by apply (Hp k). }
  assert (Hlogs : forall j, 0 <= j < 2 ^ 64 -> LogFileName db j ∉ paths) by (intros j Hj; by apply Hnt, log_not_table).
  split; auto; simpl; fold db.
  - by apply store_unlinked.
  - eapply live_tables_kept; [done|apply A1|apply A3|done|]. intros n Hr Hn [_ (k & Hk & Hnl & E')]%Hin.
    apply TableFileName_inj in E' as ->; auto.
  - destruct A3 as [N1 N2]. eapply manifest_open_changes; [done|done|exact Hch|rw N1..|by intros writer _ ?%elem_of_nil].
    + apply Hnt, manifest_not_table.
    + apply Hnt, current_not_table.
  - destruct A11 as (w & ino & B1 & B2 & B3 & B4 & B5). exists w, ino. fold db in B5.
    destruct (at_end_changes _ _ _ _ _ _ _ Hch Hw (proj2 B2) ltac:(by intros ?%elem_of_nil) B5 ltac:(apply Hlogs; lia) B4) as (H1 & _ & H3).
    destruct (ul_fresh _ _ _ U) as [_ ->]. auto.
  - eapply log_holds_changes; [done|exact Hch| |done]. apply Hlogs. lia.
  - assert (Hl : forall n, live_log d w' n -> live_log d (e_world e) n).
    { intros n [Hn Hs]. split; [done|]. fold db in Hs |- *. rw (ul_dir _ _ _ U) // in Hs. apply Hlogs. lia. }
    destruct (DBImpl.imm_ d); [|by auto]. destruct A13 as (k & Hk & Hh & Hlive). exists k. split; [done|]. split; [|auto].
    eapply log_holds_changes; [done|exact Hch| |done]. apply Hlogs. lia.
  - intros n Hn. rw (ul_dir _ _ _ U); [apply Hlogs; lia|auto].
  - intros n Hn. rw (ul_dir _ _ _ U); [apply Hnt, manifest_not_table|auto].
  - split.
    + eapply tidy_changes; [done|exact Hch|]. intros p [_ (k & Hk & _ & ->)]%Hin. by apply scan_table.
    + rw (ul_dir _ _ _ U) //. apply Hnt. intros k Hk E'. symmetry in E'. revert E'. apply db_not_table.
Qed.

(** ** The abstract database *)

(** What a user and the machine do, with the answers. *)
Inductive event :=
  | EvPut (key value : bytes) (s : Status.t)
  | EvDelete (key : bytes) (s : Status.t)
  | EvGet (key : bytes) (value : option bytes) (answer : Status.t * option bytes)
  | EvSwitch
  | EvBackground
  | EvCompact (s : Status.t)
  | EvCrash.

(** [Get] stores the value where there is room for it. *)
Definition map_answer (M : gmap bytes bytes) (key : bytes) (v : option bytes) : Status.t * option bytes :=
  match M !! key with Some x => (Status.OK, (fun _ => x) <$> v) | None => (Status.NotFound [], v) end.

(** Writes succeed, reads give the last write, and nothing else is seen. *)
Definition map_step (ev : event) (M M' : gmap bytes bytes) : Prop :=
  match ev with
  | EvPut key value s => s = Status.OK /\ M' = <[key := value]> M
  | EvDelete key s => s = Status.OK /\ M' = delete key M
  | EvGet key v answer => answer = map_answer M key v /\ M' = M
  | EvCompact s => s = Status.OK /\ M' = M
  | EvSwitch | EvBackground | EvCrash => M' = M
  end.

Inductive map_steps : list event -> gmap bytes bytes -> gmap bytes bytes -> Prop :=
  | map_steps_nil M : map_steps [] M M
  | map_steps_snoc evs ev M M1 M2 : map_steps evs M M1 -> map_step ev M1 M2 -> map_steps (evs ++ [ev]) M M2.

(** ** The database's steps *)

(** The counters are not exhausted and the list of tables fits in a record. *)
Record room (d : DBImpl.t) : Prop := {
  ro_seq : VersionSet.last_sequence_ (DBImpl.versions_ d) < kMaxSequenceNumber;
  ro_next : VersionSet.next_file_number_ (DBImpl.versions_ d) + 8 < 2 ^ 64;
  ro_size : snapshot_size (Version.files_ (VersionSet.current_ (DBImpl.versions_ d))) <= 2 ^ 25;
}.

(** Enough for a write. *)
Definition write_room (d : DBImpl.t) : Prop :=
  VersionSet.last_sequence_ (DBImpl.versions_ d) < kMaxSequenceNumber /\ VersionSet.next_file_number_ (DBImpl.versions_ d) + 1 < 2 ^ 64.

Lemma room_write d : room d -> write_room d.
Proof. intros [H1 H2 _]. split; [done|lia]. Qed.

(** Options under which the database is opened. *)
Definition can_open (o : Options) : Prop := options_ok o /\ small (block_cache_capacity_bytes o).

Section steps.
Context (draw : nat -> Z).

(** What the code does: a call that returns, a turn of the background thread, or a crash
    that leaves torn records and an unfinished table, with a reopening. *)
Inductive db_step : event -> DBImpl.t * TableEnv -> DBImpl.t * TableEnv -> Prop :=
  | step_put key value s d e d' w' :
      DBImpl.Put draw key value d (e_world e) = Some (Returns (s, d'), w') -> db_step (EvPut key value s) (d, e) (d', mkEnv w' (e_cache e))
  | step_delete key s d e d' w' :
      DBImpl.Delete draw key d (e_world e) = Some (Returns (s, d'), w') -> db_step (EvDelete key s) (d, e) (d', mkEnv w' (e_cache e))
  | step_get key v answer d e d' e' :
      DBImpl.Get key v d e = Some ((answer, d'), e') -> db_step (EvGet key v answer) (d, e) (d', e')
  | step_switch d e d' w' :
      DBImpl.FlushMemTable_start d (e_world e) = Some (d', w') -> db_step EvSwitch (d, e) (d', mkEnv w' (e_cache e))
  | step_background d e d' e' :
      DBImpl.BackgroundCompaction d e = Some (d', e') -> db_step EvBackground (d, e) (d', e')
  | step_compact s d e d' e' :
      DBImpl.CompactRange d e = Some ((s, d'), e') -> db_step (EvCompact s) (d, e) (d', e')
  | step_crash options d e w2 cache d' e' :
      crashed d (e_world e) w2 -> can_open options -> error_if_exists options = false ->
      DBImpl.Open draw options (DBImpl.dbname_ d) (mkEnv w2 cache) = Some ((Status.OK, Some d'), e') ->
      db_step EvCrash (d, e) (d', e').

(** The use of the database for which it is a map: the write fits in a log record and in a
    table, [FlushMemTable] is not called while an immutable memtable is pending
    ([flush_memtable_loses_writes] shows what happens then), and the inputs of a
    compaction that is due are not too large. *)
Definition within (ev : event) (x : DBImpl.t * TableEnv) : Prop :=
  match ev with
  | EvPut key value _ => write_ok key value
  | EvDelete key _ => write_ok key []
  | EvSwitch => DBImpl.imm_ x.1 = None
  | EvBackground => forall d1 e1, DBImpl.FlushImmutable x.1 x.2 = Some (d1, e1) -> compaction_fits d1
  | EvCompact _ => compaction_fits x.1
  | EvGet _ _ _ | EvCrash => True
  end.

(** Steps of such a use, from states with room. *)
Inductive db_steps : list event -> DBImpl.t * TableEnv -> DBImpl.t * TableEnv -> Prop :=
  | db_steps_nil x : db_steps [] x x
  | db_steps_snoc evs ev x y z : db_steps evs x y -> room y.1 -> within ev y -> db_step ev y z -> db_steps (evs ++ [ev]) x z.

(** The state shows the map. *)
Definition db_shows (x : DBImpl.t * TableEnv) (M : gmap bytes bytes) : Prop :=
  exists es, db_inv x.1 x.2 es /\ forall k, db_map es k = M !! k.

Lemma get_answer_map es M key v : (forall k, db_map es k = M !! k) -> get_answer es key v = map_answer M key v.
Proof. intros H. by rw /get_answer /map_answer H. Qed.

(** The steps that return, and what they do. *)
Lemma write_shows t key val d e M :
  db_shows (d, e) M -> write_room d -> write_ok key val -> t = kTypeValue \/ t = kTypeDeletion ->
  (is_Some (DBImpl.imm_ d) /\ DBImpl.Write draw t key val d (e_world e) = Some (Waits, e_world e)) \/
  exists d' w', DBImpl.Write draw t key val d (e_world e) = Some (Returns (Status.OK, d'), w') /\
    db_shows (d', mkEnv w' (e_cache e)) (if t =? kTypeValue then <[key := val]> M else delete key M).
Proof.
  intros (es & (R & tiss & m & edits & st & Hd & ->) & HM) [R1 R2] Hw Ht. simpl in Hd.
  destruct (db_Write_run draw d e R tiss m edits st t key val Hd Hw Ht R1) as [H|(d' & m' & w' & E & Hd' & _ & _ & Hs)]; [lia|by left|right].
  exists d', w'. split; [done|]. exists (db_entries d' tiss m'). split; [by do 5 eexists|]. intros k. rw Hs HM.
  destruct (decide (k = key)) as [->|Hne].
  - destruct Ht as [-> | ->]; simpl; [by rw lookup_insert_eq|by rw lookup_delete_eq].
  - destruct Ht as [-> | ->]; simpl; [by rw lookup_insert_ne|by rw lookup_delete_ne].
Qed.

Lemma get_shows d e M key v :
  db_shows (d, e) M -> exists d' e', DBImpl.Get key v d e = Some ((map_answer M key v, d'), e') /\ db_shows (d', e') M.
Proof.
  intros (es & (R & tiss & m & edits & st & Hd & ->) & HM). simpl in Hd.
  destruct (db_Get_run d e R tiss m edits st key v Hd) as (d' & R' & e' & E & Hd' & He & _). exists d', e'.
  rw -(get_answer_map _ _ key v HM). split; [done|]. exists (db_entries d tiss m). split; [|done]. rw -He. by do 5 eexists.
Qed.

Lemma switch_shows d e M :
  db_shows (d, e) M -> room d -> DBImpl.imm_ d = None ->
  exists d' w', DBImpl.FlushMemTable_start d (e_world e) = Some (d', w') /\ db_shows (d', mkEnv w' (e_cache e)) M.
Proof.
  intros (es & (R & tiss & m & edits & st & Hd & ->) & HM) [_ R2 _] Hi. simpl in Hd. destruct (da_mem _ _ _ _ _ _ _ Hd) as [Hm Hmo].
  rw /DBImpl.FlushMemTable_start (bind_lift _ _ _ _ Hm) (mem_count _ Hmo). destruct (Z.gtb_spec (Z.of_nat (length (mem_entries m))) 0) as [Hlt|Hge].
  - destruct (SwitchMemtable_run d e R tiss m edits st Hd Hi) as (d' & w' & E & Hd' & _ & _ & _ & He); [by intros E; rw E /= in Hlt|lia|].
    exists d', w'. split; [done|]. exists (db_entries d tiss m). split; [|done]. rw -He. by do 5 eexists.
  - exists d, (e_world e). split; [done|]. exists (db_entries d tiss m). split; [|done]. destruct e. by do 5 eexists.
Qed.

Lemma flush_shows d e M :
  db_shows (d, e) M -> room d ->
  exists d' e', DBImpl.FlushImmutable d e = Some (d', e') /\ db_shows (d', e') M /\ DBImpl.imm_ d' = None /\ write_room d'.
Proof.
  intros (es & (R & tiss & m & edits & st & Hd & ->) & HM) Hr. pose proof (room_write _ Hr) as Hwr. destruct Hr as [R1 R2 _]. simpl in Hd.
  destruct (DBImpl.imm_ d) as [i|] eqn:Ei.
  - destruct (FlushImmutable_run d e R tiss m edits st i Hd Ei) as (d' & e' & R' & tiss' & edits' & st' & E & Hd' & Hi & He & Hq & Hn & _); [lia|].
    exists d', e'. split; [done|]. split; [|split; [done|split; lia]]. exists (db_entries d tiss m). split; [|done]. rw -He. by do 5 eexists.
  - exists d, e. rw /DBImpl.FlushImmutable Ei. split; [done|]. split; [|done]. exists (db_entries d tiss m). split; [by do 5 eexists|done].
Qed.

Lemma obsolete_shows d e M :
  db_shows (d, e) M -> exists w', DBImpl.RemoveObsoleteFiles d (e_world e) = Some (tt, w') /\ db_shows (d, mkEnv w' (e_cache e)) M.
Proof.
  intros (es & (R & tiss & m & edits & st & Hd & ->) & HM). simpl in Hd.
  destruct (db_RemoveObsolete_run d e R tiss m edits st Hd) as (w' & R' & E & Hd'). exists w'. split; [done|].
  exists (db_entries d tiss m). split; [by do 5 eexists|done].
Qed.

Lemma compaction_shows d e M :
  db_shows (d, e) M -> compaction_fits d ->
  Compaction.PickCompaction (DBImpl.options_ d) (DBImpl.versions_ d) = Some None \/
  exists c vs' e', Compaction.PickCompaction (DBImpl.options_ d) (DBImpl.versions_ d) = Some (Some c) /\
    Compaction.DoCompaction (DBImpl.options_ d) (DBImpl.dbname_ d) (DBImpl.versions_ d) c true e = Some ((Status.OK, vs'), e') /\
    db_shows (DBImpl.set_versions vs' d, e') M.
Proof.
  intros (es & (R & tiss & m & edits & st & Hd & ->) & HM) Hfit. simpl in Hd.
  destruct (db_major_run d e R tiss m edits st Hd Hfit) as [Hp|(c & vs' & e' & R' & tiss' & edits' & st' & Hp & E & Hd' & _ & Hm)]; [by left|right].
  exists c, vs', e'. split; [done|]. split; [done|]. exists (db_entries (DBImpl.set_versions vs' d) tiss' m). split; [by do 5 eexists|].
  intros k. by rw Hm.
Qed.

Lemma background_shows d e M :
  db_shows (d, e) M -> room d ->
  exists d1 e1, DBImpl.FlushImmutable d e = Some (d1, e1) /\
    (compaction_fits d1 -> exists d' e', DBImpl.BackgroundCompaction d e = Some (d', e') /\ db_shows (d', e') M /\ DBImpl.imm_ d' = None).
Proof.
  intros Hs Hr. destruct (flush_shows d e M Hs Hr) as (d1 & e1 & E1 & Hs1 & Hi & _). exists d1, e1. split; [done|]. intros Hfit.
  rw /DBImpl.BackgroundCompaction (bind_run _ _ _ _ _ E1) /DBImpl.MajorCompaction.
  destruct (compaction_shows d1 e1 M Hs1 Hfit) as [Hp|(c & vs' & e2 & Hp & E2 & Hs2)].
  - destruct (obsolete_shows d1 e1 M Hs1) as (w' & E3 & Hs3). rw (bind_run _ _ e1 d1 e1); [by rw (bind_lift _ _ _ _ Hp)|].
    rw (bind_run _ _ _ _ _ (on_world_run _ e1 _ _ E3)). by exists d1, (mkEnv w' (e_cache e1)).
  - destruct (obsolete_shows _ e2 M Hs2) as (w' & E3 & Hs3).
    rw (bind_run _ _ e1 (DBImpl.set_versions vs' d1) e2); [by rw (bind_lift _ _ _ _ Hp) (bind_run _ _ _ _ _ E2)|].
    rw (bind_run _ _ _ _ _ (on_world_run _ e2 _ _ E3)). by exists (DBImpl.set_versions vs' d1), (mkEnv w' (e_cache e2)).
Qed.

Lemma compact_shows d e M :
  db_shows (d, e) M -> compaction_fits d -> exists d' e', DBImpl.CompactRange d e = Some ((Status.OK, d'), e') /\ db_shows (d', e') M.
Proof.
  intros Hs Hfit. rw /DBImpl.CompactRange. destruct (compaction_shows d e M Hs Hfit) as [Hp|(c & vs' & e2 & Hp & E2 & Hs2)]; rw (bind_lift _ _ _ _ Hp).
  - by exists d, e.
  - destruct (obsolete_shows _ e2 M Hs2) as (w' & E3 & Hs3). rw (bind_run _ _ _ _ _ E2). cbn iota beta zeta.
    rw (bind_run _ _ _ _ _ (on_world_run _ e2 _ _ E3)). by exists (DBImpl.set_versions vs' d), (mkEnv w' (e_cache e2)).
Qed.

Lemma crash_shows options d e w2 cache M :
  db_shows (d, e) M -> room d -> crashed d (e_world e) w2 -> can_open options -> error_if_exists options = false ->
  exists d' e', DBImpl.Open draw options (DBImpl.dbname_ d) (mkEnv w2 cache) = Some ((Status.OK, Some d'), e') /\ db_shows (d', e') M.
Proof.
  intros (es & (R & tiss & m & edits & st & Hd & ->) & HM) [_ R2 R3] Hc [Ho Hcap] Hex. simpl in Hd.
  destruct (reopen_run draw options cache d e R tiss m edits st w2 Hd Hc Ho Hcap Hex R3 R2) as (d' & e' & R' & tiss' & edits' & st' & E & Hd' & He & _).
  exists d', e'. split; [done|]. exists (db_entries d tiss m). split; [|done]. rw -He. by do 5 eexists.
Qed.

(** Forward simulation. *)
Lemma step_refines ev x y M : db_shows x M -> room x.1 -> within ev x -> db_step ev x y -> exists M', map_step ev M M' /\ db_shows y M'.
Proof.
  intros Hs Hr Hin Hst. destruct Hst as [key val s d e d' w' E|key s d e d' w' E|key v ans d e d' e' E|d e d' w' E|d e d' e' E|s d e d' e' E|
    options d e w2 cache d' e' Hc Ho Hex E]; simpl in Hr, Hin.
  - destruct (write_shows kTypeValue key val d e M Hs (room_write _ Hr) Hin ltac:(by left)) as [[_ E']|(d2 & w2 & E' & H)]; rw /DBImpl.Put E' in E; [done|].
    injection E as <- <- <-. eexists. split; [by split|exact H].
  - destruct (write_shows kTypeDeletion key [] d e M Hs (room_write _ Hr) Hin ltac:(by right)) as [[_ E']|(d2 & w2 & E' & H)]; rw /DBImpl.Delete E' in E; [done|].
    injection E as <- <- <-. eexists. split; [by split|exact H].
  - destruct (get_shows d e M key v Hs) as (d2 & e2 & E' & H). rw E' in E. injection E as <- <- <-. eexists. split; [by split|exact H].
  - destruct (switch_shows d e M Hs Hr Hin) as (d2 & w2 & E' & H). rw E' in E. injection E as <- <-. by exists M.
  - destruct (background_shows d e M Hs Hr) as (d2 & e2 & E' & Hb).
    destruct (Hb (Hin _ _ E')) as (d3 & e3 & E3 & H & _). rw E3 in E. injection E as <- <-. by exists M.
  - destruct (compact_shows d e M Hs Hin) as (d2 & e2 & E' & H). rw E' in E. injection E as <- <- <-. by exists M.
  - destruct (crash_shows options d e w2 cache M Hs Hr Hc Ho Hex) as (d2 & e2 & E' & H). rw E' in E. injection E as <- <-. by exists M.
Qed.

(** An empty directory becomes an empty database. *)
Lemma new_shows options name e :
  fs_wf (e_world e) -> calm (e_world e) -> empty_dir name (e_world e) -> can_open options -> create_if_missing options = true ->
  exists d e', DBImpl.Open draw options name e = Some ((Status.OK, Some d), e') /\ db_shows (d, e') ∅.
Proof.
  intros Hw Hc He [Ho Hcap] Hcr. destruct (open_new_run draw options name e Hw Hc He Ho Hcap Hcr) as (d & e' & R & tiss & edits & st & E & Hd & Hes & _).
  exists d, e'. split; [done|]. exists []. split; [rw -Hes; by do 5 eexists|]. intros k. by rw lookup_empty.
Qed.

Lemma steps_refine evs x y M : db_steps evs x y -> db_shows x M -> exists M', map_steps evs M M' /\ db_shows y M'.
Proof.
  induction 1 as [x|evs ev x y z _ IH Hr Hin Hst]; intros Hs; [exists M; split; [constructor|done]|].
  destruct (IH Hs) as (M1 & Hm & Hs1). destruct (step_refines ev y z M1 Hs1 Hr Hin Hst) as (M2 & Hm2 & Hs2).
  exists M2. split; [by econstructor|done].
Qed.
End steps.

(** ** Runs *)

(** What is reached from an empty directory. *)
Record reached (draw : nat -> Z) (evs : list event) (y : DBImpl.t * TableEnv) : Prop := mkReached {
  re_run : exists options name e d e1, fs_wf (e_world e) /\ calm (e_world e) /\ empty_dir name (e_world e) /\ can_open options /\
    create_if_missing options = true /\ DBImpl.Open draw options name e = Some ((Status.OK, Some d), e1) /\ db_steps draw evs (d, e1) y;
}.

Lemma reached_shows draw evs y : reached draw evs y -> exists M, map_steps evs ∅ M /\ db_shows y M.
Proof.
  intros [(options & name & e & d & e1 & Hw & Hc & He & Ho & Hcr & E & Hst)].
  destruct (new_shows draw options name e Hw Hc He Ho Hcr) as (d0 & e0 & E' & Hs). rw E in E'. injection E' as <- <-.
  by apply (steps_refine draw evs _ y ∅ Hst Hs).
Qed.

(** The files of a machine that has been restarted. *)
Definition restart (w : World) : World := mkWorld (w_dir w) (w_data w) ∅ (w_fresh_ino w) 3 0 [] [].

Lemma crashed_restart x M : db_shows x M -> crashed x.1 (e_world x.2) (restart (e_world x.2)).
Proof.
  destruct x as [d e]. intros (es & (R & tiss & m & edits & st & Hd & _) & _). simpl in *.
  pose proof (store_wf _ _ _ (da_store _ _ _ _ _ _ _ Hd)) as [W1 W2 W3].
  assert (Ht : forall p c, content_at (e_world e) p = Some c -> torn_after (e_world e) (restart (e_world e)) p).
  { intros p c Hc. exists c, (WalReader.mkOut 0 kTypeValue [] []), 0%nat. split_and!; auto; [done|apply length_encode_out|]. by rw app_nil_r -Hc. }
  split; auto; [by split|by split|..].
  - destruct (da_log _ _ _ _ _ _ _ Hd) as (log & Hc & _). by eapply Ht.
  - destruct (mo_writer _ _ _ _ (da_manifest _ _ _ _ _ _ _ Hd)) as (wr & ino & _ & _ & _ & _ & Hm & Hc).
    rw (proj1 (da_names _ _ _ _ _ _ _ Hd)) in Hm. eapply Ht. by rw /content_at Hm /= Hc.
Qed.

(** A record that was being appended to [p]. *)
Definition tear (p t : bytes) (w : World) : World :=
  match w_dir w !! p with
  | Some i => mkWorld (w_dir w) (<[i := file_content w i ++ t]> (w_data w)) (w_fds w) (w_fresh_ino w) (w_fresh_fd w) (w_errno w) (w_io w) (w_ctl w)
  | None => w
  end.

Lemma tear_content p t w q :
  fs_wf w -> content_at (tear p t w) q = if decide (q = p) then (fun c => c ++ t) <$> content_at w q else content_at w q.
Proof.
  intros [W1 _ _]. rw /tear. destruct (w_dir w !! p) as [i|] eqn:Ep.
  - rw /content_at /=. destruct (decide (q = p)) as [->|Hne].
    + rw Ep /= /file_content /= lookup_insert_eq //.
    + destruct (w_dir w !! q) as [j|] eqn:Eq; [|done]. simpl. rw /file_content /= lookup_insert_ne //. intros <-. apply Hne. by eapply W1.
  - destruct (decide (q = p)) as [->|Hne]; [|done]. by rw /content_at Ep.
Qed.

Lemma tear_wf p t w : fs_wf w -> fs_wf (tear p t w).
Proof. intros [W1 W2 W3]. rw /tear. by destruct (w_dir w !! p); split. Qed.

(** The process died while it was appending to the log. *)
Lemma crashed_torn x M o k :
  db_shows x M -> out_ok o -> (k < length (encode_out o))%nat ->
  crashed x.1 (e_world x.2) (tear (LogFileName (DBImpl.dbname_ x.1) (DBImpl.log_file_number_ x.1)) (take k (encode_out o)) (restart (e_world x.2))).
Proof.
  intros Hs Ho Hk. pose proof (crashed_restart x M Hs) as [C1 C2 (c & o1 & k1 & Hc & _) C4 C5].
  assert (Hr : forall q, content_at (restart (e_world x.2)) q = content_at (e_world x.2) q) by done.
  destruct Hs as (es & (R & tiss & m & edits & st & Hd & _) & _). pose proof (da_numbers _ _ _ _ _ _ _ Hd).
  split; [by apply tear_wf|rw /tear; by destruct (_ !! _)|..].
  - exists c, o, k. split_and!; auto. rw tear_content // decide_True // Hr Hc //.
  - destruct C4 as (c' & o' & k' & Hc' & Ho' & Hk' & Hr'). exists c', o', k'. split_and!; auto. rw tear_content // decide_False //.
    intros E. symmetry in E. revert E. apply log_not_manifest. lia.
  - intros p H1 H2 H3. rw tear_content // decide_False //.
Qed.

(** A machine with no files. *)
Definition blank : TableEnv := mkEnv (mkWorld ∅ ∅ ∅ 1 3 0 [] []) (NewBlockCache 0).

Definition heights (n : nat) : Z := 0.

(** ** Executing a run *)

#[global] Instance room_dec d : Decision (room d).
Proof.
  refine (cast_if (decide (VersionSet.last_sequence_ (DBImpl.versions_ d) < kMaxSequenceNumber /\
    VersionSet.next_file_number_ (DBImpl.versions_ d) + 8 < 2 ^ 64 /\
    snapshot_size (Version.files_ (VersionSet.current_ (DBImpl.versions_ d))) <= 2 ^ 25))).
  - by destruct a as (? & ? & ?); split.
  - by intros [? ? ?]; destruct n.
Defined.

#[global] Instance write_ok_dec key value : Decision (write_ok key value) := Z_le_dec _ _.

Inductive op :=
  | OpPut (key value : bytes)
  | OpDelete (key : bytes)
  | OpGet (key : bytes) (value : option bytes)
  | OpSwitch
  | OpBackground
  | OpCompact
  | OpRestart.

Section exec.
Context (draw : nat -> Z).

(** One operation, or nothing if it waits or is not [within] the limits. *)
Definition exec (o : op) (x : DBImpl.t * TableEnv) : option (event * (DBImpl.t * TableEnv)) :=
  let '(d, e) := x in
  match o with
  | OpPut key value =>
      if decide (write_ok key value) then
        '(r, w') ← DBImpl.Put draw key value d (e_world e);
        match r with Returns (s, d') => Some (EvPut key value s, (d', mkEnv w' (e_cache e))) | Waits => None end
      else None
  | OpDelete key =>
      if decide (write_ok key []) then
        '(r, w') ← DBImpl.Delete draw key d (e_world e);
        match r with Returns (s, d') => Some (EvDelete key s, (d', mkEnv w' (e_cache e))) | Waits => None end
      else None
  | OpGet key v => '((answer, d'), e') ← DBImpl.Get key v d e; Some (EvGet key v answer, (d', e'))
  | OpSwitch =>
      match DBImpl.imm_ d with
      | None => '(d', w') ← DBImpl.FlushMemTable_start d (e_world e); Some (EvSwitch, (d', mkEnv w' (e_cache e)))
      | Some _ => None
      end
  | OpBackground =>
      '(d1, e1) ← DBImpl.FlushImmutable d e;
      if decide (compaction_fits d1) then '(d', e') ← DBImpl.BackgroundCompaction d e; Some (EvBackground, (d', e')) else None
  | OpCompact =>
      if decide (compaction_fits d) then '((s, d'), e') ← DBImpl.CompactRange d e; Some (EvCompact s, (d', e')) else None
  | OpRestart =>
      '((s, r), e') ← DBImpl.Open draw default_options (DBImpl.dbname_ d) (mkEnv (restart (e_world e)) (e_cache e));
      match r with Some d' => if decide (s = Status.OK) then Some (EvCrash, (d', e')) else None | None => None end
  end.

Fixpoint exec_ops (ops : list op) (evs : list event) (x : DBImpl.t * TableEnv) : option (list event * (DBImpl.t * TableEnv)) :=
  match ops with
  | [] => Some (evs, x)
  | o :: ops' => if decide (room x.1) then '(ev, y) ← exec o x; exec_ops ops' (evs ++ [ev]) y else None
  end.

(** From a machine with no files. *)
Definition exec_new (options : Options) (ops : list op) : option (list event * (DBImpl.t * TableEnv)) :=
  '((s, r), e) ← DBImpl.Open draw options (str "db") blank;
  match r with Some d => if decide (s = Status.OK) then exec_ops ops [] (d, e) else None | None => None end.

Lemma default_can_open : can_open default_options.
Proof. by split; [split|]. Qed.

Lemma exec_step o x ev y M : db_shows x M -> exec o x = Some (ev, y) -> within ev x /\ db_step draw ev x y.
Proof.
  intros Hs. pose proof (crashed_restart _ _ Hs) as Hc. destruct x as [d e]. destruct o as [key value|key|key v| | | |]; cbn [exec].
  - destruct (decide _) as [Hw|]; [|done]. destruct (DBImpl.Put _ _ _ _ _) as [[[|[s d']] w']|] eqn:E; [done| |done].
    intros [= <- <-]. split; [done|by constructor].
  - destruct (decide _) as [Hw|]; [|done]. destruct (DBImpl.Delete _ _ _ _) as [[[|[s d']] w']|] eqn:E; [done| |done].
    intros [= <- <-]. split; [done|by constructor].
  - destruct (DBImpl.Get _ _ _ _) as [[[a d'] e']|] eqn:E; [|done]. intros [= <- <-]. split; [done|by constructor].
  - destruct (DBImpl.imm_ d) eqn:Ei; [done|]. destruct (DBImpl.FlushMemTable_start _ _) as [[d' w']|] eqn:E; [|done].
    intros [= <- <-]. split; [done|by constructor].
  - destruct (DBImpl.FlushImmutable _ _) as [[d1 e1]|] eqn:E1; [|done]. cbn [mbind option_bind].
    destruct (decide _) as [Hp|]; [|done]. destruct (DBImpl.BackgroundCompaction _ _) as [[d' e']|] eqn:E; [|done]. intros [= <- <-].
    split; [|by econstructor]. intros d2 e2 E2. cbn [fst snd] in E2. rw E1 in E2. by injection E2 as <- <-.
  - destruct (decide _) as [Hp|]; [|done]. destruct (DBImpl.CompactRange _ _) as [[[s d'] e']|] eqn:E; [|done]. intros [= <- <-]. split; [done|by constructor].
  - destruct (DBImpl.Open _ _ _ _) as [[[s r] e']|] eqn:E; [|done]. cbn [mbind option_bind].
    destruct r as [d'|]; [|done]. destruct (decide _) as [->|]; [|done]. intros [= <- <-].
    split; [done|]. by eapply step_crash; [exact Hc|apply default_can_open| |exact E].
Qed.

Lemma exec_ops_reached ops evs x evs' y : reached draw evs x -> exec_ops ops evs x = Some (evs', y) -> reached draw evs' y.
Proof.
  revert evs x; induction ops as [|o ops IH]; intros evs x Hx; cbn [exec_ops]; [by intros [= <- <-]|].
  destruct (decide _) as [Hr|]; [|done]. destruct (exec o x) as [[ev z]|] eqn:E; [|done]. apply IH.
  destruct (reached_shows _ _ _ Hx) as (M & _ & Hs). destruct (exec_step o x ev z M Hs E) as [Hin Hst].
  destruct Hx as [(options & name & e & d & e1 & H1 & H2 & H3 & H4 & H5 & H6 & H7)]. split. exists options, name, e, d, e1.
  split_and!; auto. by econstructor.
Qed.

Lemma exec_new_reached options ops evs y :
  can_open options -> create_if_missing options = true -> exec_new options ops = Some (evs, y) -> reached draw evs y.
Proof.
  intros Ho Hcr. rw /exec_new. destruct (DBImpl.Open _ _ _ _) as [[[s r] e']|] eqn:E; [|done]. cbn [mbind option_bind].
  destruct r as [d'|]; [|done]. destruct (decide _) as [->|]; [|done]. apply exec_ops_reached. split.
  exists options, (str "db"), blank, d', e'. split_and!; auto; [by split|by split|by intros p|constructor].
Qed.
End exec.

(** C1: the database is a map.  From the creation in an empty directory on, in a file system
    whose calls do not fail, any sequence of writes (a key and a value of up to 4 MiB),
    reads, memtable switches while no immutable memtable is pending, turns of the
    background thread (which flushes and compacts) and manual compactions (of up to 30 MiB
    of inputs), and crashes with a reopening, each of which may leave a torn record in the
    log and the manifest and an unfinished table, is a sequence of operations of a finite
    map: every write that returns succeeds, and every read gives the last value written
    for the key.  ([within] and [room] have the limits.) *)
Theorem db_refines_map draw evs y :
  reached draw evs y ->
  exists M, map_steps evs ∅ M /\ forall key v, exists d' e', DBImpl.Get key v y.1 y.2 = Some ((map_answer M key v, d'), e').
Proof.
  intros Hy. destruct (reached_shows draw evs y Hy) as (M & Hm & Hs). exists M. split; [done|]. intros key v.
  destruct y as [d' e']. destruct (get_shows d' e' M key v Hs) as (d2 & e2 & Eg & _). by exists d2, e2.
Qed.

(** An execution that writes, flushes, overwrites, deletes and restarts. *)
Definition sample_ops : list op :=
  [OpPut (str "a") (str "1"); OpPut (str "b") (str "2"); OpSwitch; OpPut (str "a") (str "3"); OpBackground; OpRestart;
   OpDelete (str "b"); OpGet (str "a") (Some []); OpRestart; OpGet (str "b") (Some [])].

(** With a compaction for every new table. *)
Definition eager_options : Options :=
  mkOptions true false (4 * 1024 * 1024) false 4096 10 (8 * 1024 * 1024) 1 (2 * 1024 * 1024).

Lemma eager_can_open : can_open eager_options.
Proof. by split; [split|]. Qed.

Definition compacting_ops : list op :=
  [OpPut (str "a") (str "1"); OpPut (str "b") (str "2"); OpSwitch; OpPut (str "a") (str "3"); OpBackground; OpDelete (str "b"); OpSwitch;
   OpBackground; OpGet (str "b") (Some []); OpCompact; OpRestart; OpGet (str "a") (Some [])].

Lemma db_refines_map_witness :
  exists evs y, exec_new heights eager_options compacting_ops = Some (evs, y) /\ length evs = 12%nat /\
    exists M, map_steps evs ∅ M /\ exists d' e', DBImpl.Get (str "a") (Some []) y.1 y.2 = Some ((map_answer M (str "a") (Some []), d'), e').
Proof.
  assert (H : (fun r => length r.1) <$> exec_new heights eager_options compacting_ops = Some 12%nat) by (vm_compute; reflexivity).
  destruct (exec_new heights eager_options compacting_ops) as [[evs y]|] eqn:E; [|done]. injection H as H. exists evs, y. split; [done|]. split; [done|].
  destruct (db_refines_map heights evs y (exec_new_reached _ _ _ _ _ eager_can_open eq_refl E)) as (M & Hm & Hg). exists M. split; [done|apply Hg].
Defined.

(** C2: nothing that was acknowledged is lost in a crash.  When the process dies in any
    state that the database can reach, and leaves a torn record at the end of the log
    and of the manifest or an unfinished table, then [DB::Open] succeeds and the
    database answers every read as before. *)
Theorem db_survives_crash draw evs d e w2 options cache :
  reached draw evs (d, e) -> room d -> crashed d (e_world e) w2 -> can_open options -> error_if_exists options = false ->
  exists d' e', DBImpl.Open draw options (DBImpl.dbname_ d) (mkEnv w2 cache) = Some ((Status.OK, Some d'), e') /\
    forall key v, exists answer d1 e1 d2 e2, DBImpl.Get key v d e = Some ((answer, d1), e1) /\ DBImpl.Get key v d' e' = Some ((answer, d2), e2).
Proof.
  intros Hy Hr Hc Ho Hex. destruct (reached_shows _ _ _ Hy) as (M & _ & Hs).
  destruct (crash_shows draw options d e w2 cache M Hs Hr Hc Ho Hex) as (d' & e' & E & Hs'). exists d', e'. split; [done|]. intros key v.
  destruct (get_shows d e M key v Hs) as (d1 & e1 & E1 & _), (get_shows d' e' M key v Hs') as (d2 & e2 & E2 & _).
  by exists (map_answer M key v), d1, e1, d2, e2.
Qed.

(** A record that did not get to the disk in full. *)
Definition torn_out : WalReader.out := WalReader.mkOut 4 kTypeValue (str "k") (str "v").

Lemma db_survives_crash_witness :
  exists evs d e, exec_new heights default_options (take 5 sample_ops) = Some (evs, (d, e)) /\
    exists d' e', DBImpl.Open heights default_options (DBImpl.dbname_ d)
      (mkEnv (tear (LogFileName (DBImpl.dbname_ d) (DBImpl.log_file_number_ d)) (take 20 (encode_out torn_out))
        (restart (e_world e))) (NewBlockCache 0)) = Some ((Status.OK, Some d'), e') /\
      exists d2 e2, DBImpl.Get (str "a") (Some []) d' e' = Some ((Status.OK, Some (str "3"), d2), e2).
Proof.
  assert (H : (fun r => (bool_decide (room r.2.1), fst <$> (fst <$> DBImpl.Get (str "a") (Some []) r.2.1 r.2.2))) <$>
    exec_new heights default_options (take 5 sample_ops) = Some (true, Some (Status.OK, Some (str "3")))) by (vm_compute; reflexivity).
  destruct (exec_new heights default_options (take 5 sample_ops)) as [[evs [d e]]|] eqn:E; [|done].
  injection H as Hr Hg.
  apply bool_decide_eq_true in Hr. pose proof (exec_new_reached _ _ _ _ _ default_can_open eq_refl E) as Hy.
  destruct (reached_shows _ _ _ Hy) as (M & _ & Hs). exists evs, d, e. split; [done|].
  assert (Hok : out_ok torn_out) by (by repeat split). assert (Hlt : (20 < length (encode_out torn_out))%nat) by (vm_compute; lia).
  pose proof (crashed_torn (d, e) M torn_out 20 Hs Hok Hlt) as Hc.
  destruct (db_survives_crash heights evs d e _ default_options (NewBlockCache 0) Hy Hr Hc default_can_open eq_refl) as (d' & e' & Eo & Hget).
  exists d', e'. split; [exact Eo|]. destruct (Hget (str "a") (Some [])) as (ans & d1 & e1 & d2 & e2 & E1 & E2). rewrite -> E1 in Hg.
  injection Hg as ->. by exists d2, e2.
Defined.

(** ** Writes that wait *)

(** C23: a write waits only for the background thread, and not for ever.  When there is
    no room in the memtable and the immutable memtable has not been flushed, a write
    waits without effect; flushing succeeds, changes no answer, and then the write
    returns with success. *)
Theorem waiting_write_returns draw evs d e w key val :
  reached draw evs (d, e) -> room d -> write_ok key val -> DBImpl.Put draw key val d (e_world e) = Some (Waits, w) ->
  w = e_world e /\ is_Some (DBImpl.imm_ d) /\
  exists d1 e1 M, DBImpl.FlushImmutable d e = Some (d1, e1) /\ map_steps evs ∅ M /\ db_shows (d1, e1) M /\
    exists d2 w2, DBImpl.Put draw key val d1 (e_world e1) = Some (Returns (Status.OK, d2), w2) /\
      db_shows (d2, mkEnv w2 (e_cache e1)) (<[key := val]> M).
Proof.
  intros Hy Hr Hw Hwait. destruct (reached_shows _ _ _ Hy) as (M & Hm & Hs).
  destruct (write_shows draw kTypeValue key val d e M Hs (room_write _ Hr) Hw ltac:(by left)) as [[Hi E]|(d' & w' & E & _)]; rw /DBImpl.Put E in Hwait; [|done].
  injection Hwait as <-. split; [done|]. split; [done|]. destruct (flush_shows d e M Hs Hr) as (d1 & e1 & E1 & Hs1 & Hi1 & Hr1).
  exists d1, e1, M. split; [done|]. split; [done|]. split; [done|].
  destruct (write_shows draw kTypeValue key val d1 e1 M Hs1 Hr1 Hw ltac:(by left)) as [[Hi2 _]|H]; [rw Hi1 in Hi2; by destruct Hi2|done].
Qed.

(** A write buffer of one byte: each write switches memtables. *)
Definition tiny_options : Options :=
  mkOptions true false 1 false 4096 10 (8 * 1024 * 1024) 4 (2 * 1024 * 1024).

Lemma tiny_can_open : can_open tiny_options.
Proof. by split; [split|]. Qed.

Definition two_puts : list op := [OpPut (str "a") (str "1"); OpPut (str "b") (str "2")].

Lemma waiting_write_returns_witness :
  exists evs d e, exec_new heights tiny_options two_puts = Some (evs, (d, e)) /\
    DBImpl.Put heights (str "c") (str "3") d (e_world e) = Some (Waits, e_world e) /\
    exists d1 e1 d2 w2, DBImpl.FlushImmutable d e = Some (d1, e1) /\
      DBImpl.Put heights (str "c") (str "3") d1 (e_world e1) = Some (Returns (Status.OK, d2), w2).
Proof.
  assert (Hok : write_ok (str "c") (str "3")) by (by vm_compute).
  assert (H : (fun r => (bool_decide (room r.2.1),
      match DBImpl.Put heights (str "c") (str "3") r.2.1 (e_world r.2.2) with Some (Waits, _) => true | _ => false end)) <$>
    exec_new heights tiny_options two_puts = Some (true, true)) by (vm_compute; reflexivity).
  destruct (exec_new heights tiny_options two_puts) as [[evs [d e]]|] eqn:E; [|done]. injection H as Hr Hw. apply bool_decide_eq_true in Hr.
  pose proof (exec_new_reached _ _ _ _ _ tiny_can_open eq_refl E) as Hy.
  destruct (DBImpl.Put heights (str "c") (str "3") d (e_world e)) as [[[|x] w]|] eqn:Ep; [|discriminate Hw..].
  destruct (waiting_write_returns heights evs d e w (str "c") (str "3") Hy Hr Hok Ep) as (-> & _ & d1 & e1 & M & E1 & _ & _ & d2 & w2 & E2 & _).
  exists evs, d, e. split; [reflexivity|]. split; [exact Ep|]. exists d1, e1, d2, w2. split; [exact E1|exact E2].
Defined.

(** ** Tables that are no longer needed *)

(** C24: removing obsolete files is safe and complete.  In any state that the database can
    reach, [RemoveObsoleteFiles] removes the tables that are not in the current version,
    keeps all other files, and changes no answer. *)
Theorem obsolete_tables_removed draw evs d e :
  reached draw evs (d, e) ->
  exists w', DBImpl.RemoveObsoleteFiles d (e_world e) = Some (tt, w') /\
    (forall k, 0 <= k < 2 ^ 64 -> w_dir w' !! TableFileName (DBImpl.dbname_ d) k =
       if decide (k ∈ VersionSet.AddLiveFiles (DBImpl.versions_ d) ∅) then w_dir (e_world e) !! TableFileName (DBImpl.dbname_ d) k else None) /\
    (forall p, not_table (DBImpl.dbname_ d) p -> content_at w' p = content_at (e_world e) p) /\
    exists M, map_steps evs ∅ M /\ db_shows (d, mkEnv w' (e_cache e)) M.
Proof.
  intros Hy. destruct (reached_shows _ _ _ Hy) as (M & Hm & es & (R & tiss & m & edits & st & Hd & ->) & HM). simpl in Hd.
  destruct (db_RemoveObsolete_run d e R tiss m edits st Hd) as (w' & R' & E & Hd'). exists w'. split; [done|].
  destruct (da_tidy _ _ _ _ _ _ _ Hd) as [Ht Hdir]. pose proof (da_store _ _ _ _ _ _ _ Hd) as Hst.
  destruct (RemoveObsoleteFiles_run d (e_world e) (so_calm _ _ _ Hst) Hdir Ht) as (paths & w2 & E' & U & Hin). rw E in E'. injection E' as <-.
  split_and!.
  - intros k Hk. destruct (decide _) as [Hl|Hl].
    + apply (ul_dir _ _ _ U). intros [_ (j & Hj & Hnl & Ej)]%Hin. apply TableFileName_inj in Ej as ->; auto.
    + destruct (w_dir (e_world e) !! TableFileName (DBImpl.dbname_ d) k) as [i|] eqn:Ek.
      * apply (ul_gone _ _ _ U), Hin. split; [eauto|]. exists k. auto.
      * rw (ul_dir _ _ _ U) //. rw Hin Ek. by intros [[? ?] _].
  - intros p Hp. apply (changes_content_at paths []); [by eapply store_wf|by apply unlinked_changes|]. intros [_ (j & Hj & _ & ->)]%Hin. by apply (Hp j).
  - exists M. split; [done|]. exists (db_entries d tiss m). split; [by do 5 eexists|done].
Qed.

Lemma obsolete_tables_removed_witness :
  exists evs d e, exec_new heights default_options (take 5 sample_ops) = Some (evs, (d, e)) /\
    exists w', DBImpl.RemoveObsoleteFiles d (e_world e) = Some (tt, w').
Proof.
  assert (H : bool_decide (is_Some (exec_new heights default_options (take 5 sample_ops))) = true) by (vm_compute; reflexivity).
  destruct (exec_new heights default_options (take 5 sample_ops)) as [[evs [d e]]|] eqn:E; [|done].
  destruct (obsolete_tables_removed heights evs d e (exec_new_reached _ _ _ _ _ default_can_open eq_refl E)) as (w' & E' & _).
  exists evs, d, e. split; [reflexivity|]. exists w'. exact E'.
Defined.

(** ** Compactions *)

(** C3: a compaction cannot be seen.  When a compaction is due in any state that the
    database can reach, with inputs of up to 30 MiB, [DoCompaction] succeeds, its inputs
    are removed from the directory, and every read is answered as before, though only the
    newest versions of the keys and the tombstones that hide something are kept. *)
Theorem compaction_keeps_answers draw evs d e c :
  reached draw evs (d, e) -> Compaction.PickCompaction (DBImpl.options_ d) (DBImpl.versions_ d) = Some (Some c) -> compaction_room d c ->
  exists vs' e', Compaction.DoCompaction (DBImpl.options_ d) (DBImpl.dbname_ d) (DBImpl.versions_ d) c true e = Some ((Status.OK, vs'), e') /\
    Forall (fun f => w_dir (e_world e') !! TableFileName (DBImpl.dbname_ d) (number f) = None) (Compaction.inputs0_ c ++ Compaction.inputs1_ c) /\
    forall key v, exists answer d1 e1 d2 e2, DBImpl.Get key v d e = Some ((answer, d1), e1) /\
      DBImpl.Get key v (DBImpl.set_versions vs' d) e' = Some ((answer, d2), e2).
Proof.
  intros Hy Hp Hr. destruct (reached_shows _ _ _ Hy) as (M & _ & Hs). pose proof Hs as (es & (R & tiss & m & edits & st & Hd & ->) & HM). simpl in Hd.
  destruct (db_compaction_run d e R tiss m edits st c Hd Hp Hr) as (vs' & e' & R' & tiss' & edits' & st' & E & Hd' & Hgone & _ & Hm).
  exists vs', e'. split; [done|]. split; [done|]. intros key v.
  assert (Hs' : db_shows (DBImpl.set_versions vs' d, e') M).
  { exists (db_entries (DBImpl.set_versions vs' d) tiss' m). split; [by do 5 eexists|]. intros k. by rw Hm. }
  destruct (get_shows d e M key v Hs) as (d1 & e1 & E1 & _), (get_shows _ e' M key v Hs') as (d2 & e2 & E2 & _).
  by exists (map_answer M key v), d1, e1, d2, e2.
Qed.

(** Three flushes, and a restart that makes a table of the log. *)
Definition due_ops : list op :=
  [OpPut (str "a") (str "1"); OpSwitch; OpBackground; OpPut (str "b") (str "2"); OpSwitch; OpBackground; OpDelete (str "a"); OpSwitch; OpBackground;
   OpPut (str "c") (str "4"); OpRestart].

Lemma compaction_keeps_answers_witness :
  exists evs d e c, exec_new heights default_options due_ops = Some (evs, (d, e)) /\
    Compaction.PickCompaction (DBImpl.options_ d) (DBImpl.versions_ d) = Some (Some c) /\
    exists vs' e', Compaction.DoCompaction (DBImpl.options_ d) (DBImpl.dbname_ d) (DBImpl.versions_ d) c true e = Some ((Status.OK, vs'), e').
Proof.
  assert (H : (fun r => match Compaction.PickCompaction (DBImpl.options_ r.2.1) (DBImpl.versions_ r.2.1) with
      Some (Some c) => bool_decide (compaction_room r.2.1 c) | _ => false end) <$> exec_new heights default_options due_ops = Some true)
    by (vm_compute; reflexivity).
  destruct (exec_new heights default_options due_ops) as [[evs [d e]]|] eqn:E; [|done]. injection H as H.
  cbn [snd fst] in H. destruct (Compaction.PickCompaction (DBImpl.options_ d) (DBImpl.versions_ d)) as [[c|]|] eqn:Ep; [|discriminate H..].
  apply bool_decide_eq_true in H. exists evs, d, e, c. split; [reflexivity|]. split; [exact Ep|].
  destruct (compaction_keeps_answers heights evs d e c (exec_new_reached _ _ _ _ _ default_can_open eq_refl E) Ep H) as (vs' & e' & Ed & _).
  by exists vs', e'.
Defined.

(** ** Iterating *)

(** C4: iterating over the database gives the map.  In any state that the database can
    reach, [NewIterator] returns an iterator, and a loop from [SeekToFirst] on gives the
    keys and values of the map that the acknowledged writes make, each once, in the order
    of the keys; a loop from [Seek(target)] on gives those whose key is not less than the
    target.  The database then answers as before. *)
Theorem scan_shows_map draw evs d e :
  reached draw evs (d, e) ->
  exists M it d' e' n rows, map_steps evs ∅ M /\ DBImpl.NewIterator d e = Some ((it, d'), e') /\ db_shows (d', e') M /\
    StronglySorted row_lt rows /\ (forall k v, (k, v) ∈ rows <-> M !! k = Some v) /\
    (forall fuel, (n < fuel)%nat -> exists e2, scan fuel it e' = Some (rows, e2)) /\
    (forall fuel target, (n < fuel)%nat -> exists e2, scan_from fuel target it e' = Some (drop (row_pos rows target) rows, e2)).
Proof.
  intros Hy. destruct (reached_shows _ _ _ Hy) as (M & Hm & es & (R & tiss & m & edits & st & Hd & ->) & HM). simpl in Hd.
  destruct (NewIterator_run d e R tiss m edits st Hd) as (mi & d' & R' & e' & E & Hd' & He & Hrep).
  set (all := merged (db_entries d tiss m)) in *. set (s := VersionSet.last_sequence_ (DBImpl.versions_ d)) in *.
  exists M, (NewDBIterator (Some mi) s), d', e', (length all), (user_view all s). pose proof (da_store _ _ _ _ _ _ _ Hd') as Hst.
  assert (Ht : Forall known_type all).
  { pose proof (db_types d e R tiss m edits st Hd) as Ht. rewrite -> Forall_forall in Ht. apply Forall_forall. intros x Hx. apply Ht.
    unfold all in Hx. by rewrite -> merged_perm in Hx. }
  split; [done|]. split; [done|]. split; [exists (db_entries d tiss m); split; [rw -He; by do 5 eexists|done]|].
  split; [by eapply rows_sorted|]. split; [intros k v; rw -HM; by eapply rows_of_map|]. split.
  - intros fuel Hf. destruct (scan_run (env_inv R') _ fuel mi all _ s Hrep Ht Hf e' (so_env _ _ _ Hst)) as (rows & e2 & E2 & _ & ->). eauto.
  - intros fuel t Hf. destruct (scan_from_run (env_inv R') _ fuel mi all _ s t Hrep Ht Hf e' (so_env _ _ _ Hst)) as (rows & e2 & E2 & _ & ->). eauto.
Qed.

Lemma scan_shows_map_witness :
  exists evs d e, exec_new heights eager_options compacting_ops = Some (evs, (d, e)) /\
    exists it d' e' n rows, DBImpl.NewIterator d e = Some ((it, d'), e') /\ exists e2, scan (S n) it e' = Some (rows, e2).
Proof.
  assert (H : bool_decide (is_Some (exec_new heights eager_options compacting_ops)) = true) by (vm_compute; reflexivity).
  destruct (exec_new heights eager_options compacting_ops) as [[evs [d e]]|] eqn:E; [|done].
  destruct (scan_shows_map heights evs d e (exec_new_reached _ _ _ _ _ eager_can_open eq_refl E)) as
    (M & it & d' & e' & n & rows & _ & En & _ & _ & _ & Hs & _).
  exists evs, d, e. split; [reflexivity|]. exists it, d', e', n, rows. split; [exact En|]. apply Hs. lia.
Defined.

(** ** A memtable that is lost *)

(** Finitely many versions make a finite map. *)
Lemma db_map_finite es : exists M : gmap bytes bytes, forall k, db_map es k = M !! k.
Proof.
  exists (map_imap (fun k _ => db_map es k) (list_to_map ((fun x => (user_key x, tt)) <$> es) : gmap bytes unit)). intros k. rw map_lookup_imap.
  destruct ((list_to_map _ : gmap bytes unit) !! k) as [[]|] eqn:E; [done|]. apply not_elem_of_list_to_map in E.
  rw /db_map newest_other_keys //. apply Forall_forall. intros x Hx <-. apply E. rw -list_fmap_compose. apply list_elem_of_fmap. by exists x.
Qed.

(** The same database without its immutable memtable. *)
Lemma without_imm d e R tiss m edits st :
  db_at d e R tiss m edits st -> db_with (DBImpl.set_imm None d) e R tiss m edits st True True.
Proof.
  intros [A1 A2 A3 A4 A5 A6 A7 A8 A9 [A10 A10'] A11 A12 A13 A14 A15 A16 A17 A18 A19 A20 A21]. split; simpl; auto; rw /imm_entries /=.
  - apply Forall_app in A9 as [H1 [_ H2]%Forall_app]. by apply Forall_app.
  - split; [|by intros ? ? ?%elem_of_nil]. intros x y Hx Hy. apply (A10 x y Hx), elem_of_app. by right.
Qed.

(** Only keys with a version in the immutable memtable are answered differently. *)
Lemma without_imm_map d e R tiss m edits st key :
  db_at d e R tiss m edits st -> (forall x, x ∈ imm_entries d -> user_key x <> key) ->
  db_map (mem_entries m ++ version_entries tiss) key = db_map (db_entries d tiss m) key.
Proof.
  intros Hd Hk. destruct (da_newer _ _ _ _ _ _ _ Hd) as [N1 N2]. rw /db_map /db_entries (newest_app_newer _ _ _ _ N1) (newest_app_newer _ _ _ _ N2).
  rw (newest_other_keys (imm_entries d)); [by apply Forall_forall|]. rw newest_app_newer //.
  intros x y Hx Hy. apply (N1 x y Hx), elem_of_app. by right.
Qed.

(** C25: [FlushMemTable] loses acknowledged writes.  In any reached state in which an
    immutable memtable is pending and the active one is not empty, [FlushMemTable]
    replaces the pending one by the active one without waiting.  When the background
    thread has flushed, the database answers as it would have done if the replaced
    memtable had never existed; only the answers for keys that were written there can
    change.  From then on it behaves as the map without these writes, whatever
    follows, crashes and recovery included. *)
Theorem flush_memtable_loses_writes draw evs d e i m :
  reached draw evs (d, e) -> room d -> DBImpl.imm_ d = Some i -> DBImpl.mem_ d = Some m -> 0 < Count m ->
  exists d1 w1 d2 e2 M M', DBImpl.FlushMemTable_start d (e_world e) = Some (d1, w1) /\ DBImpl.imm_ d1 = Some m /\
    DBImpl.FlushImmutable d1 (mkEnv w1 (e_cache e)) = Some (d2, e2) /\ map_steps evs ∅ M /\ db_shows (d2, e2) M' /\
    (forall key v, exists d' e', DBImpl.Get key v (DBImpl.set_imm None d) e = Some ((map_answer M' key v, d'), e')) /\
    (forall key, (forall x, x ∈ mem_entries i -> user_key x <> key) -> M' !! key = M !! key) /\
    (forall evs' y, db_steps draw evs' (d2, e2) y -> exists M2, map_steps evs' M' M2 /\ db_shows y M2).
Proof.
  intros Hy [_ R2 _] Hi Hm Hc. destruct (reached_shows _ _ _ Hy) as (M & Hsteps & es & (R & tiss & m' & edits & st & Hd & ->) & HM). simpl in Hd.
  destruct (da_mem _ _ _ _ _ _ _ Hd) as [Hm' Hmo]. assert (m' = m) as -> by congruence.
  assert (Hne : mem_entries m <> []) by (intros E; rw (mem_count _ Hmo) E /= in Hc; lia).
  destruct (db_map_finite (mem_entries m ++ version_entries tiss)) as [M' HM'].
  destruct (switch_with_run d e R tiss m edits st _ _ Hd Hne ltac:(lia)) as (d1 & w1 & E1 & Hsw & He1 & Hw1).
  pose proof (da_numbers _ _ _ _ _ _ _ Hd) as Hnum. pose proof (da_logs _ _ _ _ _ _ _ Hd) as Hl. rw Hi in Hl. destruct Hl as (k & Hk & _ & Hlive).
  destruct (flush_with_run d1 (mkEnv w1 (e_cache e)) (rebase R w1) tiss NewMemtable edits st True True m (Hw1 True True I I)) as
    (d2 & e2 & R2' & tiss2 & edits2 & st2 & E2 & Hd2 & _ & He2 & _).
  { intros n Hn. rw (sw_log _ _ _ _ _ Hsw). destruct (switched_logs _ _ _ _ _ _ Hsw ltac:(lia) ltac:(lia) Hn) as [->|Hn']; [lia|].
    destruct (Hlive n Hn'); lia. }
  { apply Hsw. } { rw (sw_next _ _ _ _ _ Hsw). lia. }
  assert (Hs2 : db_shows (d2, e2) M').
  { exists (db_entries d2 tiss2 NewMemtable). split; [by do 5 eexists|]. intros key. by rw He2 He1 HM'. }
  exists d1, w1, d2, e2, M, M'. split.
  { rw /DBImpl.FlushMemTable_start (bind_lift _ _ _ _ Hm). destruct (Z.gtb_spec (Count m) 0); [done|lia]. }
  split; [apply Hsw|]. split; [done|]. split; [done|]. split; [done|]. split; [|split].
  - intros key v. destruct (db_with_Get_run _ _ _ _ _ _ _ _ _ key v (without_imm _ _ _ _ _ _ _ Hd)) as (d' & e' & E & _).
    exists d', e'. rw E. do 2 f_equal. f_equal. by apply get_answer_map.
  - intros key Hkey. rw -HM' -HM. eapply without_imm_map; [exact Hd|]. by rw /imm_entries Hi.
  - intros evs' y Hst. by apply (steps_refine draw evs' (d2, e2) y M').
Qed.

(** A write whose memtable is pending when [FlushMemTable] is called: it is lost. *)
Lemma flush_memtable_loses_writes_witness :
  exists evs d e d0 e0 d1 w1 d2 e2 d3 e3,
    exec_new heights default_options [OpPut (str "a") (str "1"); OpSwitch; OpPut (str "b") (str "2")] = Some (evs, (d, e)) /\
    DBImpl.Get (str "a") (Some []) d e = Some ((Status.OK, Some (str "1"), d0), e0) /\
    DBImpl.FlushMemTable_start d (e_world e) = Some (d1, w1) /\ DBImpl.FlushImmutable d1 (mkEnv w1 (e_cache e)) = Some (d2, e2) /\
    DBImpl.Get (str "a") (Some []) d2 e2 = Some ((Status.NotFound [], Some [], d3), e3).
Proof.
  set (ops := [OpPut (str "a") (str "1"); OpSwitch; OpPut (str "b") (str "2")]).
  assert (H : (fun r => (bool_decide (room r.2.1), bool_decide (is_Some (DBImpl.imm_ r.2.1)),
      from_option (fun m => 0 <? Count m) false (DBImpl.mem_ r.2.1), fst <$> (fst <$> DBImpl.Get (str "a") (Some []) r.2.1 r.2.2),
      fst <$> (fst <$> DBImpl.Get (str "a") (Some []) (DBImpl.set_imm None r.2.1) r.2.2))) <$>
    exec_new heights default_options ops = Some (true, true, true, Some (Status.OK, Some (str "1")), Some (Status.NotFound [], Some [])))
    by (vm_compute; reflexivity).
  destruct (exec_new heights default_options ops) as [[evs [d e]]|] eqn:E; [|done]. injection H as Hr Hi Hm Hg Hg'. cbn [fst snd] in Hr, Hi, Hm, Hg, Hg'.
  apply bool_decide_eq_true in Hr, Hi. destruct Hi as [i Hi]. destruct (DBImpl.mem_ d) as [m|] eqn:Em; [|done]. apply Z.ltb_lt in Hm.
  destruct (flush_memtable_loses_writes heights evs d e i m (exec_new_reached _ _ _ _ _ default_can_open eq_refl E) Hr Hi Em Hm)
    as (d1 & w1 & d2 & e2 & M & M' & E1 & _ & E2 & _ & Hs & Hget & _).
  destruct (Hget (str "a") (Some [])) as (d' & e' & E'). rewrite -> E' in Hg'. injection Hg' as Hans.
  destruct (DBImpl.Get (str "a") (Some []) d e) as [[[[a v] d0] e0]|] eqn:Eg; [|done]. injection Hg as -> ->.
  destruct (get_shows d2 e2 M' (str "a") (Some []) Hs) as (d3 & e3 & E3 & _). rewrite -> Hans in E3.
  exists evs, d, e, d0, e0, d1, w1, d2, e2, d3, e3. split_and!; [reflexivity|exact Eg|exact E1|exact E2|exact E3].
Defined.
