(* ===== verification/Background.v ===== *)
(** * Background: the background thread comes to rest

    Every compaction moves entries to the next level or drops them, so that a measure of
    the tables goes down; left alone, the background thread reaches a state in which there
    is nothing to do. *)

From S2P Require Import Prelude Status Slice Coding Format Posix Env Filename Wal SkipList Entry Kept Iterator Memtable.
From S2P Require Import MergingIterator DBIterator Block BlockCache Options.
From S2P Require Import SSTableBuilder SSTableReader TwoLevelIterator VersionEdit Version Storage VersionSet Manifest NewManifest Compaction DBImpl Directory Flush MergeLoop.
From S2P Require Import Compacted Database CompactDatabase FullScan Recovery Reopen OpenDB Refinement.

#[local] Open Scope Z_scope.

(** Up to [n] turns of the background thread, until it rests or ends. *)
Fixpoint turns (n : nat) (d : DBImpl.t) : SM TableEnv DBImpl.t :=
  match n with
  | O => mret d
  | S n' =>
      r ← DBImpl.BackgroundThread d;
      match r with DBImpl.Works d' => turns n' d' | _ => mret d end
  end.

Lemma turns_step n d e d1 e1 r :
  DBImpl.shutting_down_ d = false -> DBImpl.background_work d = Some true -> DBImpl.BackgroundCompaction d e = Some (d1, e1) ->
  turns n d1 e1 = r -> turns (S n) d e = r.
Proof.
  intros Hs Hw Hb <-. cbn [turns]. rw (bind_run _ _ e (DBImpl.Works d1) e1) //. rw /DBImpl.BackgroundThread Hs (bind_lift _ _ _ _ Hw).
  by rw (bind_run _ _ _ _ _ Hb).
Qed.

(** The state, with the tables in sight. *)
Definition state_shows (d : DBImpl.t) (e : TableEnv) (tiss : list (list table_info)) (M : gmap bytes bytes) : Prop :=
  exists R m edits st, db_at d e R tiss m edits st /\ forall k, db_map (db_entries d tiss m) k = M !! k.

Lemma state_db_shows d e tiss M : state_shows d e tiss M -> db_shows (d, e) M.
Proof. intros (R & m & edits & st & Hd & HM). exists (db_entries d tiss m). split; [by do 5 eexists|done]. Qed.

(** What is left to do: nothing, or a compaction that does not fit. *)
Definition at_rest (d : DBImpl.t) (e : TableEnv) : Prop :=
  DBImpl.background_work d = Some false \/ exists d1 e1, DBImpl.FlushImmutable d e = Some (d1, e1) /\ ~ compaction_fits d1.

(** The compaction of a turn, once there is no immutable memtable. *)
Lemma major_turn d0 e0 d e tiss M :
  state_shows d e tiss M -> DBImpl.FlushImmutable d0 e0 = Some (d, e) -> compaction_fits d ->
  exists d1 e1 tiss1, DBImpl.BackgroundCompaction d0 e0 = Some (d1, e1) /\ state_shows d1 e1 tiss1 M /\
    DBImpl.imm_ d1 = DBImpl.imm_ d /\ DBImpl.shutting_down_ d1 = DBImpl.shutting_down_ d /\
    (level_weight tiss1 <= level_weight tiss)%nat /\
    (Compaction.PickCompaction (DBImpl.options_ d) (DBImpl.versions_ d) = Some None \/ (level_weight tiss1 < level_weight tiss)%nat).
Proof.
  intros (R & m & edits & st & Hd & HM) Ef Hfit. rw /DBImpl.BackgroundCompaction (bind_run _ _ _ _ _ Ef) /DBImpl.MajorCompaction.
  destruct (db_major_run d e R tiss m edits st Hd Hfit) as [Hp|(c & vs' & e' & R' & tiss' & edits' & st' & Hp & E & Hd' & Hlt & Hm)].
  - destruct (db_RemoveObsolete_run d e R tiss m edits st Hd) as (w' & R' & E & Hd'). exists d, (mkEnv w' (e_cache e)), tiss.
    rw (bind_run _ _ e d e); [by rw (bind_lift _ _ _ _ Hp)|]. rw (bind_run _ _ _ _ _ (on_world_run _ e _ _ E)).
    split; [done|]. split; [by exists R', m, edits, st|]. split_and!; auto.
  - destruct (db_RemoveObsolete_run _ _ _ _ _ _ _ Hd') as (w' & R2 & E2 & Hd2). exists (DBImpl.set_versions vs' d), (mkEnv w' (e_cache e')), tiss'.
    rw (bind_run _ _ e (DBImpl.set_versions vs' d) e'); [by rw (bind_lift _ _ _ _ Hp) (bind_run _ _ _ _ _ E)|].
    rw (bind_run _ _ _ _ _ (on_world_run _ e' _ _ E2)). split; [done|]. split; [exists R2, m, edits', st'; split; [done|]; intros k; by rw Hm|].
    split_and!; auto. lia.
Qed.

Lemma flushed_rests k d e tiss M :
  (level_weight tiss < k)%nat -> state_shows d e tiss M -> DBImpl.imm_ d = None -> DBImpl.shutting_down_ d = false ->
  exists n d' e', turns n d e = Some (d', e') /\ db_shows (d', e') M /\ at_rest d' e'.
Proof.
  revert d e tiss; induction k as [|k IH]; intros d e tiss Hk Hs Hi Hsh; [lia|].
  assert (Ef : DBImpl.FlushImmutable d e = Some (d, e)) by (by rw /DBImpl.FlushImmutable Hi).
  destruct (decide (compaction_fits d)) as [Hfit|Hfit].
  2:{ exists 0%nat, d, e. split; [done|]. split; [by eapply state_db_shows|]. right. eauto. }
  pose proof Hs as (R & m & edits & st & Hd & _). destruct (PickCompaction_total (DBImpl.options_ d) _ (db_levels _ _ _ _ _ _ _ Hd)) as [[c|] Hp].
  - destruct (major_turn d e d e tiss M Hs Ef Hfit) as (d1 & e1 & tiss1 & Eb & Hs1 & Hi1 & Hsh1 & _ & [Hp'|Hlt]); [congruence|].
    destruct (IH d1 e1 tiss1 ltac:(lia) Hs1 ltac:(congruence) ltac:(congruence)) as (n & d' & e' & Et & Hs' & Hr).
    exists (S n), d', e'. split; [|done]. eapply turns_step; [done| |exact Eb|done]. by rw /DBImpl.background_work Hsh Hi Hp.
  - exists 0%nat, d, e. split; [done|]. split; [by eapply state_db_shows|]. left. by rw /DBImpl.background_work Hsh Hi Hp.
Qed.

Lemma background_rests d e M :
  db_shows (d, e) M -> room d -> DBImpl.shutting_down_ d = false -> exists n d' e', turns n d e = Some (d', e') /\ db_shows (d', e') M /\ at_rest d' e'.
Proof.
  intros Hs0 Hr Hsh. pose proof Hs0 as (es & (R & tiss & m & edits & st & Hd & ->) & HM). simpl in Hd.
  destruct (DBImpl.imm_ d) as [i|] eqn:Ei.
  2:{ eapply flushed_rests; [apply Nat.lt_succ_diag_r| |done|done]. by exists R, m, edits, st. }
  destruct (FlushImmutable_run d e R tiss m edits st i Hd Ei) as (d1 & e1 & R1 & tiss1 & edits1 & st1 & E1 & Hd1 & Hi1 & He1 & _ & _ & Hsh1); [pose proof (ro_next _ Hr); lia|].
  assert (Hs1 : state_shows d1 e1 tiss1 M) by (exists R1, m, edits1, st1; by rw He1).
  destruct (decide (compaction_fits d1)) as [Hfit|Hfit].
  2:{ exists 0%nat, d, e. split; [done|]. split; [done|]. right. eauto. }
  destruct (major_turn d e d1 e1 tiss1 M Hs1 E1 Hfit) as (d2 & e2 & tiss2 & Eb & Hs2 & Hi2 & Hsh2 & _).
  destruct (flushed_rests _ d2 e2 tiss2 M (Nat.lt_succ_diag_r _) Hs2 ltac:(congruence) ltac:(congruence)) as (n & d' & e' & Et & Hs' & Hrest).
  exists (S n), d', e'. split; [|done]. eapply turns_step; [done| |exact Eb|done]. by rw /DBImpl.background_work Hsh Ei.
Qed.

(** C5: the background thread comes to rest.  From any state that the database can
    reach, finitely many turns of [BackgroundThread] lead to a state in which it would wait
    because there is no immutable memtable and no compaction is due, unless a compaction
    of more than 30 MiB is due; no answer changes on the way. *)
Theorem background_comes_to_rest draw evs d e :
  reached draw evs (d, e) -> room d -> DBImpl.shutting_down_ d = false ->
  exists n d' e', turns n d e = Some (d', e') /\ at_rest d' e' /\
    forall key v, exists answer d1 e1 d2 e2, DBImpl.Get key v d e = Some ((answer, d1), e1) /\ DBImpl.Get key v d' e' = Some ((answer, d2), e2).
Proof.
  intros Hy Hr Hsh. destruct (reached_shows _ _ _ Hy) as (M & _ & Hs). destruct (background_rests d e M Hs Hr Hsh) as (n & d' & e' & Et & Hs' & Hrest).
  exists n, d', e'. split; [done|]. split; [done|]. intros key v.
  destruct (get_shows d e M key v Hs) as (d1 & e1 & E1 & _), (get_shows d' e' M key v Hs') as (d2 & e2 & E2 & _).
  by exists (map_answer M key v), d1, e1, d2, e2.
Qed.

(** The state with a compaction due. *)
Lemma background_comes_to_rest_witness :
  exists evs d e, exec_new heights default_options due_ops = Some (evs, (d, e)) /\ DBImpl.background_work d = Some true /\
    exists n d' e', turns n d e = Some (d', e') /\ at_rest d' e'.
Proof.
  assert (H : (fun r => (bool_decide (room r.2.1), DBImpl.shutting_down_ r.2.1, DBImpl.background_work r.2.1)) <$> exec_new heights default_options due_ops
    = Some (true, false, Some true)) by (vm_compute; reflexivity).
  destruct (exec_new heights default_options due_ops) as [[evs [d e]]|] eqn:E; [|done]. injection H as Hr Hsh Hw. apply bool_decide_eq_true in Hr.
  destruct (background_comes_to_rest heights evs d e (exec_new_reached _ _ _ _ _ default_can_open eq_refl E) Hr Hsh) as (n & d' & e' & Et & Hrest & _).
  exists evs, d, e. split; [reflexivity|]. split; [exact Hw|]. exists n, d', e'. split; [exact Et|exact Hrest].
Defined.
